(** * Cross-mesh resharding (alpa/pipeline_parallel/cross_mesh_resharding.py)

    A shallow embedding of the compile-time part of alpa's cross-mesh
    resharding: the task-id counter, the tile look-up of
    [ReshardingTaskSpec], the load-balanced strategy generator, the
    send/recv task compiler, the rank tables of [CollectiveGroup], the
    allgather rewrite and the bookkeeping of [CrossMeshCommunicator].

    Python integers are unbounded, so they are [Z]; [divmod], [//] and [%]
    are floor division, which is [Z.div] and [Z.modulo].  Dictionaries keyed
    by device strings are [gmap string _]; where iteration order matters the
    data stays a list.  Every Python exception the modelled code can raise is
    a constructor of [exn], and fallible code lives in the [result] monad. *)

From Stdlib Require Import ZArith Lia List.
From stdpp Require Import gmap strings list fin_maps sorting.

Open Scope Z_scope.

(** ** Exceptions and the result monad *)

Inductive exn : Set :=
| AssertionError
| ZeroDivisionError
| IndexError
| KeyError
| ValueError
| TypeError
| RuntimeError.

Inductive result (A : Type) : Type :=
| Ok (a : A)
| Raise (e : exn).
Arguments Ok {A} a.
Arguments Raise {A} e.

Definition rbind {A B} (r : result A) (k : A -> result B) : result B :=
  match r with
  | Ok a => k a
  | Raise e => Raise e
  end.

Notation "'do' x <- c ; k" := (rbind c (fun x => k))
  (at level 10, x name, c at level 100, k at level 200).
Notation "'do' ' p <- c ; k" := (rbind c (fun x => match x with p => k end))
  (at level 10, p pattern, c at level 100, k at level 200).

(** The value of a computation that is known to succeed. *)
Definition unwrap {A : Type} (r : result A)
  : match r return Type with Ok _ => A | Raise _ => unit end :=
  match r with
  | Ok a => a
  | Raise _ => tt
  end.

(** [assert cond] *)
Definition py_assert (b : bool) : result unit :=
  if b then Ok tt else Raise AssertionError.

(** [d[k]] on a dict: [KeyError] when the key is absent. *)
Definition dict_get `{Countable K} {V} (d : gmap K V) (k : K) : result V :=
  match d !! k with
  | Some v => Ok v
  | None => Raise KeyError
  end.

(** [l[i]] on a list with a non-negative index: [IndexError] out of range. *)
Definition list_get {A} (l : list A) (i : nat) : result A :=
  match l !! i with
  | Some v => Ok v
  | None => Raise IndexError
  end.

(** [a // b] and [a % b]: [ZeroDivisionError] when [b = 0]. *)
Definition py_divmod (a b : Z) : result (Z * Z) :=
  if b =? 0 then Raise ZeroDivisionError else Ok (a / b, a mod b).

Definition py_floordiv (a b : Z) : result Z :=
  if b =? 0 then Raise ZeroDivisionError else Ok (a / b).

Definition py_mod (a b : Z) : result Z :=
  if b =? 0 then Raise ZeroDivisionError else Ok (a mod b).

(** A loop [for x in xs: body] threading a state through a fallible body. *)
Fixpoint for_each {S A} (xs : list A) (body : S -> A -> result S) (s : S)
  : result S :=
  match xs with
  | [] => Ok s
  | x :: xs' => do s' <- body s x; for_each xs' body s'
  end.

(** [[f(x) for x in xs]] with a fallible [f]. *)
Fixpoint map_r {A B} (f : A -> result B) (xs : list A) : result (list B) :=
  match xs with
  | [] => Ok []
  | x :: xs' => do y <- f x; do ys <- map_r f xs'; Ok (y :: ys)
  end.

(** [enumerate(xs)] *)
Definition enumerate {A} (xs : list A) : list (nat * A) :=
  zip (seq 0 (length xs)) xs.

(** ** The task-id counter *)

Module TaskUuid.

(** The module-level [resharding_task_counter] is the state; a call returns
    the id and the new counter. *)
Definition next_resharding_task_uuid (resharding_task_counter : Z) : Z * Z :=
  let resharding_task_counter :=
    (resharding_task_counter + 1) mod (Z.shiftl 1 60) in
  (resharding_task_counter, resharding_task_counter).

(** [n] consecutive calls: the ids returned, in order, and the counter left. *)
Fixpoint calls (n : nat) (counter : Z) : list Z * Z :=
  match n with
  | O => ([], counter)
  | S k =>
      let '(uuid, counter1) := next_resharding_task_uuid counter in
      let '(uuids, counter2) := calls k counter1 in
      (uuid :: uuids, counter2)
  end.

End TaskUuid.

(** ** Data model *)

(** A worker is a remote actor handle; only its identity matters. *)
Definition worker := nat.

(** The attributes of a physical (or virtual) device mesh that the module
    reads.  The mesh classes live in device_mesh.py; their attributes are
    taken as given. *)
Record Mesh : Type := {
  host_ips : list string;
  workers : list worker;
  device_strs : list string;
  num_devices_per_host : nat;
  num_hosts : Z;
  num_devices : Z
}.

(** [pxla] sharding specifications: one entry per tensor axis, and one entry
    per mesh axis. *)
Inductive AvalDimSharding : Type :=
| NoSharding
| Chunked (chunks : list Z)
| Unstacked (size : Z).

Inductive MeshDimAssignment : Type :=
| ShardedAxis (axis : nat)
| Replicated (replicas : Z).

Record ShardingSpec : Type := {
  sharding : list AvalDimSharding;
  mesh_mapping : list MeshDimAssignment
}.

(** A [slice(start, stop)] with integer bounds. *)
Record slice : Type := Slice { start : Z; stop : Z }.

(** A slice as found in [dst_indices], where [slice(None, None)] occurs. *)
Record pyslice : Type := PySlice { pstart : option Z; pstop : option Z }.

Definition slice_to_py (s : slice) : pyslice :=
  PySlice (Some (start s)) (Some (stop s)).

(** An abstract value: shape and element type. *)
Record Aval : Type := {
  shape : list Z;
  dtype : string
}.

(** A variable crossing a mesh boundary: its [repr] and its abstract value. *)
Record Var : Type := {
  var_repr : string;
  var_aval : Aval
}.

(** [VirtualDistributedArray] of resharding_tensor.py, which is not part of
    the sources.  Besides the three constructor arguments the record holds
    what the class derives from them and the module reads: [tile_shape], the
    number of tiles along every axis, and the replica holders of every cell
    of the tile grid. *)
Record VirtualDistributedArray : Type := {
  device_mesh : Mesh;
  aval : Aval;
  sharding_spec : ShardingSpec;
  tile_shape : list Z;
  tile_replica_device_strs : list Z -> list string
}.

Definition tensor_shape (a : VirtualDistributedArray) : list Z := shape (aval a).
Definition tensor_rank (a : VirtualDistributedArray) : nat :=
  length (shape (aval a)).

(** [Tile] and [TileSlice] of resharding_tensor.py, which is not part of
    the sources: a tile has its grid index, its replica holders and its
    index range per axis; a tile slice is a tile together with the offsets
    extracted from it. *)
Record Tile : Type := {
  index : list Z;
  replica_device_strs : list string;
  indices : list slice
}.

Definition extent (s : slice) : Z := stop s - start s.

(** Modelled from the spec: [Tile.tile_shape] (resharding_tensor.py, not
    part of the sources), the shape of the partition cell: its extent on
    every axis. *)
Definition Tile_tile_shape (t : Tile) : list Z := map extent (indices t).

Record TileSlice : Type := {
  tile : Tile;
  offset : list slice
}.

(** Modelled from the spec: [TileSlice.slice_size] (resharding_tensor.py,
    not part of the sources), the volume of the sub-rectangle that is
    transferred: the product of the extents of its offsets. *)
Definition slice_size (ts : TileSlice) : Z :=
  fold_left Z.mul (map extent (offset ts)) 1.

(** [ReshardingStrategy]: one 2-D array of sender device strings per
    destination tile, indexed by destination replica and by source slice. *)
Record ReshardingStrategy : Type := {
  per_spec_plans : list (list (list string));
  is_local_allgather : bool
}.

(** What [_strategy] can hold: [None] from the constructor, or the object
    given to [set_resharding_strategy]. *)
Inductive strategy_slot : Type :=
| StrategyNone
| StrategyObject (s : ReshardingStrategy).

(** Python truthiness: [None] is false; [ReshardingStrategy] defines neither
    [__bool__] nor [__len__], so every instance is true. *)
Definition truthy (v : strategy_slot) : bool :=
  match v with
  | StrategyNone => false
  | StrategyObject _ => true
  end.

Definition dst_tile_entry : Type := (Tile * list TileSlice * list (list slice))%type.

Record ReshardingTaskSpec : Type := {
  src : VirtualDistributedArray;
  dst : VirtualDistributedArray;
  _dst_tile_to_src_tiles_map : option (list dst_tile_entry);
  _strategy : strategy_slot;
  allgather_slice : option (nat * nat * Z)
}.

(** ** ReshardingTaskSpec: constructor and the strategy property *)

Module TaskSpec.

(** [ReshardingTaskSpec.__init__] *)
Definition init (src_array dst_array : VirtualDistributedArray)
    (allgather_slice : option (nat * nat * Z)) : ReshardingTaskSpec :=
  {| src := src_array;
     dst := dst_array;
     _dst_tile_to_src_tiles_map := None;
     _strategy := StrategyNone;
     allgather_slice := allgather_slice |}.

Definition src_sharding_spec (self : ReshardingTaskSpec) : ShardingSpec :=
  sharding_spec (src self).
Definition dst_sharding_spec (self : ReshardingTaskSpec) : ShardingSpec :=
  sharding_spec (dst self).
Definition aval (self : ReshardingTaskSpec) : Aval := aval (src self).

(** [set_resharding_strategy]: returns the mutated spec. *)
Definition set_resharding_strategy (self : ReshardingTaskSpec)
    (strategy : strategy_slot) : ReshardingTaskSpec :=
  {| src := src self;
     dst := dst self;
     _dst_tile_to_src_tiles_map := _dst_tile_to_src_tiles_map self;
     _strategy := strategy;
     allgather_slice := allgather_slice self |}.

(** The [strategy] property: the value read and the spec after the read. *)
Definition strategy (self : ReshardingTaskSpec)
  : result strategy_slot * ReshardingTaskSpec :=
  if negb (truthy (_strategy self)) then (Raise RuntimeError, self)
  else (Ok (_strategy self), self).

(** [n] successive reads of [strategy]: the values read and the final spec. *)
Fixpoint reads (n : nat) (self : ReshardingTaskSpec)
  : list (result strategy_slot) * ReshardingTaskSpec :=
  match n with
  | O => ([], self)
  | S k =>
      let '(v, self1) := strategy self in
      let '(vs, self2) := reads k self1 in
      (v :: vs, self2)
  end.

End TaskSpec.

(** ** The allgather rewrite of the destination sharding spec *)

Module Rewrite.

(** [dim_spec_chunk_value], the local helper of [_rewrite_allgather_specs]. *)
Definition dim_spec_chunk_value (spec : AvalDimSharding) : result Z :=
  match spec with
  | Chunked chunks => list_get chunks 0
  | _ => Ok 1
  end.

Definition is_chunked (spec : AvalDimSharding) : bool :=
  match spec with
  | Chunked _ => true
  | _ => false
  end.

(** The first loop: [tot_sharding] and [chunk_dim_to_tensor_dim]. *)
Definition scan_sharding (sharding : list AvalDimSharding)
  : result (Z * list nat) :=
  for_each (enumerate sharding)
    (fun '(tot_sharding, chunk_dim_to_tensor_dim) '(dim, dim_spec) =>
       do v <- dim_spec_chunk_value dim_spec;
       Ok (tot_sharding * v,
           if is_chunked dim_spec then chunk_dim_to_tensor_dim ++ [dim]
           else chunk_dim_to_tensor_dim))
    (1, []).

(** The second loop: [shard_axes], tensor axis -> mesh axis. *)
Definition collect_shard_axes (mesh_mapping : list MeshDimAssignment)
    (chunk_dim_to_tensor_dim : list nat) : result (gmap nat nat) :=
  for_each (enumerate mesh_mapping)
    (fun shard_axes '(dim_idx, mesh_dim) =>
       match mesh_dim with
       | ShardedAxis axis =>
           do t <- list_get chunk_dim_to_tensor_dim axis;
           Ok (<[t := dim_idx]> shard_axes)
       | Replicated _ => Ok shard_axes
       end)
    ∅.

(** The condition of the cross-node early return. *)
Definition first_dim_below_hosts (spec : ShardingSpec)
    (chunk_dim_to_tensor_dim : list nat) (dst_mesh : Mesh) : result bool :=
  do first_mesh_dim <- list_get (mesh_mapping spec) 0;
  match first_mesh_dim with
  | Replicated _ => Ok true
  | ShardedAxis axis =>
      do t <- list_get chunk_dim_to_tensor_dim axis;
      do dim_spec <- list_get (sharding spec) t;
      do v <- dim_spec_chunk_value dim_spec;
      Ok (v <? num_hosts dst_mesh)
  end.

(** [sorted(shard_axes.keys())] *)
Definition sorted_keys (shard_axes : gmap nat nat) : list nat :=
  merge_sort Nat.le (map_to_list shard_axes).*1.

(** [{v: k for k, v in enumerate(squeezed_shard_axes)}] *)
Definition reverse_axes (squeezed_shard_axes : list nat) : gmap nat nat :=
  fold_left (fun m '(k, v) => <[v := k]> m) (enumerate squeezed_shard_axes) ∅.

(** The body executed once a tensor axis [dim] has been found that the extra
    sharding divides: builds the new spec and the allgather slice. *)
Definition rewrite_at (spec : ShardingSpec) (shard_axes : gmap nat nat)
    (dim : nat) (new_chunked_value extra_sharding : Z)
  : result (ShardingSpec * option (nat * nat * Z)) :=
  let new_sharding := <[dim := Chunked [new_chunked_value]]> (sharding spec) in
  let shard_axes :=
    match shard_axes !! dim with
    | Some _ => shard_axes
    | None =>
        if existsb (fun kv => (kv.2 =? 0)%nat) (map_to_list shard_axes)
        then <[dim := 1%nat]> shard_axes
        else <[dim := 0%nat]> shard_axes
    end in
  do squeezed_shard_axes <- map_r (dict_get shard_axes) (sorted_keys shard_axes);
  let shard_axes_reversed := reverse_axes squeezed_shard_axes in
  let new_mapping :=
    map (fun i => match shard_axes_reversed !! i with
                  | Some k => ShardedAxis k
                  | None => Replicated 1
                  end) (seq 0 2) in
  do _ <- py_assert (length new_mapping <? 3)%nat;
  do mesh_axis <- dict_get shard_axes dim;
  Ok ({| sharding := new_sharding; mesh_mapping := new_mapping |},
      Some (dim, mesh_axis, extra_sharding)).

(** The [while dim < len(cur_dst_sharding)] loop, over the remaining axes. *)
Fixpoint rewrite_loop (spec : ShardingSpec) (shard_axes : gmap nat nat)
    (var : Var) (extra_sharding : Z) (dims : list nat)
  : result (ShardingSpec * option (nat * nat * Z)) :=
  match dims with
  | [] => Ok (spec, None)
  | dim :: rest =>
      do dim_spec <- list_get (sharding spec) dim;
      do dim_chunked_value <- dim_spec_chunk_value dim_spec;
      let new_chunked_value := extra_sharding * dim_chunked_value in
      do shape_dim <- list_get (shape (var_aval var)) dim;
      do r <- py_mod shape_dim new_chunked_value;
      if r =? 0 then
        match shard_axes !! dim with
        | Some (S _) => rewrite_loop spec shard_axes var extra_sharding rest
        | _ => rewrite_at spec shard_axes dim new_chunked_value extra_sharding
        end
      else rewrite_loop spec shard_axes var extra_sharding rest
  end.

(** [CrossMeshCommunicator._rewrite_allgather_specs]; the first argument is
    [global_config.use_scatter_gather]. *)
Definition _rewrite_allgather_specs (use_scatter_gather : bool)
    (dst_sharding_spec : ShardingSpec) (dst_mesh : Mesh) (var : Var)
  : result (ShardingSpec * option (nat * nat * Z)) :=
  if negb use_scatter_gather then Ok (dst_sharding_spec, None) else
  do '(tot_sharding, chunk_dim_to_tensor_dim) <-
    scan_sharding (sharding dst_sharding_spec);
  if tot_sharding =? num_devices dst_mesh then Ok (dst_sharding_spec, None) else
  do r <- py_mod (num_devices dst_mesh) tot_sharding;
  do _ <- py_assert (r =? 0);
  do extra_sharding <- py_floordiv (num_devices dst_mesh) tot_sharding;
  do shard_axes <-
    collect_shard_axes (mesh_mapping dst_sharding_spec) chunk_dim_to_tensor_dim;
  do below <-
    first_dim_below_hosts dst_sharding_spec chunk_dim_to_tensor_dim dst_mesh;
  if below && (1 <? num_hosts dst_mesh) then Ok (dst_sharding_spec, None) else
  do _ <- py_assert (size shard_axes <? 2)%nat;
  rewrite_loop dst_sharding_spec shard_axes var extra_sharding
    (seq 0 (length (sharding dst_sharding_spec))).

End Rewrite.

(** ** CollectiveGroup: the rank tables *)

Module CollectiveGroup.

(** The field [device_strs] of the group is [group_device_strs] here, the
    name [device_strs] being the mesh attribute. *)
Record t : Type := {
  group_device_strs : list string;
  src_mesh : Mesh;
  dst_mesh : Mesh;
  group_name : string;
  device_str_to_rank_map : gmap string (nat * nat);
  device_str_to_mesh_worker_map : gmap string worker;
  device_str_to_host_id_map : gmap string nat;
  device_str_to_device_id_map : gmap string nat;
  worker_to_rank_map : gmap worker nat;
  mesh_workers : list (option worker)
}.

(** [self.mesh_workers[i] = w] *)
Definition set_mesh_worker (self : t) (i : nat) (w : worker) : t :=
  {| group_device_strs := group_device_strs self;
     src_mesh := src_mesh self;
     dst_mesh := dst_mesh self;
     group_name := group_name self;
     device_str_to_rank_map := device_str_to_rank_map self;
     device_str_to_mesh_worker_map := device_str_to_mesh_worker_map self;
     device_str_to_host_id_map := device_str_to_host_id_map self;
     device_str_to_device_id_map := device_str_to_device_id_map self;
     worker_to_rank_map := worker_to_rank_map self;
     mesh_workers := <[i := Some w]> (mesh_workers self) |}.

(** The four table writes of one inner-loop iteration. *)
Definition record_device (self : t) (device_str : string) (rank : nat * nat)
    (w : worker) (host_id device_id : nat) : t :=
  {| group_device_strs := group_device_strs self;
     src_mesh := src_mesh self;
     dst_mesh := dst_mesh self;
     group_name := group_name self;
     device_str_to_rank_map := <[device_str := rank]> (device_str_to_rank_map self);
     device_str_to_mesh_worker_map :=
       <[device_str := w]> (device_str_to_mesh_worker_map self);
     device_str_to_host_id_map :=
       <[device_str := host_id]> (device_str_to_host_id_map self);
     device_str_to_device_id_map :=
       <[device_str := device_id]> (device_str_to_device_id_map self);
     worker_to_rank_map := worker_to_rank_map self;
     mesh_workers := mesh_workers self |}.

(** [{worker: r for r, worker in enumerate(self.mesh_workers)}]; a slot still
    holding [None] is skipped here (it cannot occur once both loops ran). *)
Definition set_worker_ranks (self : t) : t :=
  {| group_device_strs := group_device_strs self;
     src_mesh := src_mesh self;
     dst_mesh := dst_mesh self;
     group_name := group_name self;
     device_str_to_rank_map := device_str_to_rank_map self;
     device_str_to_mesh_worker_map := device_str_to_mesh_worker_map self;
     device_str_to_host_id_map := device_str_to_host_id_map self;
     device_str_to_device_id_map := device_str_to_device_id_map self;
     worker_to_rank_map :=
       fold_left (fun m '(r, ow) =>
                    match ow with
                    | Some w => <[w := r]> m
                    | None => m
                    end) (enumerate (mesh_workers self)) ∅;
     mesh_workers := mesh_workers self |}.

(** The loop over the hosts of the source mesh. *)
Definition fill_src (src_mesh : Mesh) (self : t) : result t :=
  for_each (enumerate (host_ips src_mesh))
    (fun self '(i, _) =>
       do w <- list_get (workers src_mesh) i;
       let self := set_mesh_worker self i w in
       for_each (seq 0 (num_devices_per_host src_mesh))
         (fun self j =>
            do device_str <-
              list_get (device_strs src_mesh)
                       (i * num_devices_per_host src_mesh + j)%nat;
            do w <- list_get (workers src_mesh) i;
            Ok (record_device self device_str (i, j) w i j))
         self)
    self.

(** The loop over the hosts of the destination mesh.  The device string is
    read at [i * src_mesh.num_devices_per_host + j], as in the source. *)
Definition fill_dst (src_mesh dst_mesh : Mesh) (self : t) : result t :=
  for_each (enumerate (host_ips dst_mesh))
    (fun self '(i, _) =>
       do w <- list_get (workers dst_mesh) i;
       let self := set_mesh_worker self (i + length (host_ips src_mesh)) w in
       for_each (seq 0 (num_devices_per_host dst_mesh))
         (fun self j =>
            do device_str <-
              list_get (device_strs dst_mesh)
                       (i * num_devices_per_host src_mesh + j)%nat;
            do w <- list_get (workers dst_mesh) i;
            Ok (record_device self device_str
                  ((i + length (host_ips src_mesh))%nat, j) w i j))
         self)
    self.

(** [CollectiveGroup.__init__] *)
Definition init (device_strs : list string) (src_mesh dst_mesh : Mesh)
  : result t :=
  let num_host := (length (host_ips src_mesh) + length (host_ips dst_mesh))%nat in
  let self :=
    {| group_device_strs := device_strs;
       src_mesh := src_mesh;
       dst_mesh := dst_mesh;
       group_name := String.concat "," device_strs;
       device_str_to_rank_map := ∅;
       device_str_to_mesh_worker_map := ∅;
       device_str_to_host_id_map := ∅;
       device_str_to_device_id_map := ∅;
       worker_to_rank_map := ∅;
       mesh_workers := repeat None num_host |} in
  do self <- fill_src src_mesh self;
  do self <- fill_dst src_mesh dst_mesh self;
  Ok (set_worker_ranks self).

(** The rank table the contract describes: the [j]-th device of host [i] of
    a mesh is [device_strs[i * num_devices_per_host + j]] of that mesh. *)
Definition mesh_device (m : Mesh) (i j : nat) : option string :=
  device_strs m !! (i * num_devices_per_host m + j)%nat.

(** A source mesh with one host of one device and a destination mesh with
    two hosts of two devices each. *)
Definition mesh_1x1 : Mesh :=
  {| host_ips := ["10.0.0.1"];
     workers := [0%nat];
     device_strs := ["10.0.0.1:0"];
     num_devices_per_host := 1;
     num_hosts := 1;
     num_devices := 1 |}.

Definition mesh_2x2 : Mesh :=
  {| host_ips := ["10.0.0.2"; "10.0.0.3"];
     workers := [1%nat; 2%nat];
     device_strs := ["10.0.0.2:0"; "10.0.0.2:1"; "10.0.0.3:0"; "10.0.0.3:1"];
     num_devices_per_host := 2;
     num_hosts := 2;
     num_devices := 4 |}.

End CollectiveGroup.

(** ** Tile geometry: which source tile slices make up a destination tile *)

(** [range(n)] *)
Definition py_range (n : Z) : list Z := map Z.of_nat (seq 0 (Z.to_nat n)).

(** The product of a list of integers, accumulated from 1 as the source's
    loops and [np.prod] do. *)
Definition py_prod (l : list Z) : Z := fold_left Z.mul l 1.

(** [TileSlice(tile, offset=offsets)] *)
Definition make_tileslice (t : Tile) (offsets : list slice) : TileSlice :=
  {| tile := t; offset := offsets |}.

Module Tiling.

(** Modelled from the spec: [unflatten_tile_index] of resharding_tensor.py is
    not part of the sources; the spec (4.1, step 3) describes it as the
    row-major unflattening of a linear index into per-axis coordinates.
    Every coordinate but the last is the quotient by the product of the
    trailing extents, and the last coordinate is what remains. *)
Fixpoint unflatten_tile_index (index : Z) (shape : list Z) : list Z :=
  match shape with
  | [] => [index]
  | _ :: rest =>
      match rest with
      | [] => [index]
      | _ :: _ =>
          let cur_index := index / py_prod rest in
          cur_index :: unflatten_tile_index (index - cur_index * py_prod rest) rest
      end
  end.

(** Modelled from the spec: the tile grid of a [VirtualDistributedArray]
    (resharding_tensor.py, not part of the sources).  By the Tile invariant
    of the spec the tiles partition the index space exactly: the cell at
    grid index [idx] covers, on every axis, the [idx]-th block of
    [dim / count] consecutive indices, and the counts must divide. *)
Definition tile_at (a : VirtualDistributedArray) (idx : list Z) : result Tile :=
  do inds <- map_r (fun '(dim, (cnt, k)) =>
                      do '(tile_size, ragged) <- py_divmod dim cnt;
                      do _ <- py_assert (ragged =? 0);
                      Ok (Slice (tile_size * k) (tile_size * (k + 1))))
                   (zip (tensor_shape a) (zip (tile_shape a) idx));
  Ok {| index := idx;
        replica_device_strs := tile_replica_device_strs a idx;
        indices := inds |}.

(** Modelled from the spec: [a.tiles[tuple(idx)]], the look-up in the dense
    grid of shape [tile_shape]; a coordinate outside the grid is an
    [IndexError], a negative one counts from the end. *)
Definition tiles_get (a : VirtualDistributedArray) (idx : list Z) : result Tile :=
  if negb (length idx =? length (tile_shape a))%nat then Raise IndexError else
  do idx' <- map_r (fun '(cnt, k) =>
                      if (0 <=? k) && (k <? cnt) then Ok k
                      else if (- cnt <=? k) && (k <? 0) then Ok (k + cnt)
                      else Raise IndexError)
                   (zip (tile_shape a) idx);
  tile_at a idx'.

(** Modelled from the spec: [a.tiles.flatten()], the cells of the grid in
    row-major order. *)
Definition tiles_flatten (a : VirtualDistributedArray) : result (list Tile) :=
  map_r (fun flat => tile_at a (unflatten_tile_index flat (tile_shape a)))
        (py_range (py_prod (tile_shape a))).

(** One iteration of the first loop of [_look_up_dst_tile_from_src]: the
    run of source tiles [(start_tile, end_tile)] met on axis [i], and the
    offsets into the first and the last of them. *)
Definition related_on_axis (src : VirtualDistributedArray) (tile : Tile)
    (i : nat) (dim : Z) : result ((Z * Z) * (Z * Z)) :=
  do cnt <- list_get (tile_shape src) i;
  do '(tile_length, ragged) <- py_divmod dim cnt;
  do _ <- py_assert (ragged =? 0);
  do ind <- list_get (indices tile) i;
  do '(start_tile, start_tile_offset) <- py_divmod (start ind) tile_length;
  do '(end_tile, end_tile_offset) <- py_divmod (stop ind) tile_length;
  let end_tile := if negb (end_tile_offset =? 0) then end_tile + 1 else end_tile in
  let end_tile_offset :=
    if end_tile_offset =? 0 then tile_length else end_tile_offset in
  Ok ((start_tile, end_tile), (start_tile_offset, end_tile_offset)).

(** One iteration of the loop over the axes of a touched source tile: the
    slice to extract from the source tile and its placement in the
    destination tile. *)
Definition slice_on_axis (tile src_tile : Tile)
    (related_tile_start_end related_tile_offset : list (Z * Z))
    (tile_index_relative : list Z) (i : nat) (r : Z) : result (slice * slice) :=
  do '(start, end_) <- list_get related_tile_start_end i;
  do tile_length_on_this_dim <- list_get (Tile_tile_shape src_tile) i;
  do off <- list_get related_tile_offset i;
  if (r =? start) && (r =? end_ - 1) then
    do d <- list_get (Tile_tile_shape tile) i;
    Ok (Slice off.1 off.2, Slice 0 d)
  else if r =? start then
    Ok (Slice off.1 tile_length_on_this_dim,
        Slice 0 (tile_length_on_this_dim - off.1))
  else if r =? end_ - 1 then
    do d <- list_get (Tile_tile_shape tile) i;
    Ok (Slice 0 off.2, Slice (d - off.2) d)
  else
    do rel <- list_get tile_index_relative i;
    let left_in_dst_tile :=
      tile_length_on_this_dim - off.1 + (rel - 1) * tile_length_on_this_dim in
    let right_in_dst_tile := left_in_dst_tile + tile_length_on_this_dim in
    Ok (Slice 0 tile_length_on_this_dim,
        Slice left_in_dst_tile right_in_dst_tile).

(** The body of the loop over [range(num_src_tileslices)]. *)
Definition tileslice_at (src : VirtualDistributedArray) (tile : Tile)
    (related_tile_start_end related_tile_offset : list (Z * Z))
    (tileslice_index : Z) : result (TileSlice * list slice) :=
  let tile_index_relative :=
    unflatten_tile_index tileslice_index
      (map (fun se => se.2 - se.1) related_tile_start_end) in
  do tile_index_absolute <-
    map_r (fun '(dim_index, se) =>
             do rel <- list_get tile_index_relative dim_index;
             Ok (se.1 + rel))
          (enumerate related_tile_start_end);
  do src_tile <- tiles_get src tile_index_absolute;
  do pairs <-
    map_r (fun '(i, r) =>
             slice_on_axis tile src_tile related_tile_start_end
               related_tile_offset tile_index_relative i r)
          (enumerate tile_index_absolute);
  Ok (make_tileslice src_tile pairs.*1, pairs.*2).

(** [ReshardingTaskSpec._look_up_dst_tile_from_src] *)
Definition _look_up_dst_tile_from_src (self : ReshardingTaskSpec) (tile : Tile)
  : result (list TileSlice * list (list slice)) :=
  do related <-
    map_r (fun '(i, dim) => related_on_axis (src self) tile i dim)
          (enumerate (tensor_shape (src self)));
  let related_tile_start_end := related.*1 in
  let related_tile_offset := related.*2 in
  let num_src_tileslices :=
    fold_left (fun acc se => acc * (se.2 - se.1)) related_tile_start_end 1 in
  do res <-
    map_r (tileslice_at (src self) tile related_tile_start_end related_tile_offset)
          (py_range num_src_tileslices);
  Ok (res.*1, res.*2).

(** [ReshardingTaskSpec.generate_src_dst_map] *)
Definition generate_src_dst_map (self : ReshardingTaskSpec)
  : result (list dst_tile_entry) :=
  do tiles <- tiles_flatten (dst self);
  map_r (fun tile =>
           do '(src_tile_slices, indices_in_dst_tile) <-
             _look_up_dst_tile_from_src self tile;
           Ok (tile, src_tile_slices, indices_in_dst_tile))
        tiles.

(** The [dst_tile_to_src_tiles_map] property: the cached list when it is
    non-empty, otherwise the list is generated and stored. *)
Definition dst_tile_to_src_tiles_map (self : ReshardingTaskSpec)
  : result (list dst_tile_entry * ReshardingTaskSpec) :=
  match _dst_tile_to_src_tiles_map self with
  | Some (e :: m) => Ok (e :: m, self)
  | _ =>
      do m <- generate_src_dst_map self;
      Ok (m, {| src := src self;
                dst := dst self;
                _dst_tile_to_src_tiles_map := Some m;
                _strategy := _strategy self;
                allgather_slice := allgather_slice self |})
  end.

(** *** Covering a tile *)

(** A point of an index space, one coordinate per axis, lies in a box given
    by one range per axis. *)
Definition in_box (ranges : list slice) (p : list Z) : Prop :=
  Forall2 (fun r x => start r <= x < stop r) ranges p.

(** The local index space of a tile: [0, tile_shape[i]) on every axis. *)
Definition full_box (t : Tile) : list slice :=
  map (fun d => Slice 0 d) (Tile_tile_shape t).

(** The placements tile the destination tile: they have one slice each,
    every placement is a non-empty range on every axis, their union is the
    local index space of the tile, no two of them share a point, and every
    slice has the extents of its placement. *)
Definition exact_cover (t : Tile) (slices : list TileSlice)
    (placements : list (list slice)) : Prop :=
  length slices = length placements /\
  Forall (Forall (fun r => start r < stop r)) placements /\
  (forall p, in_box (full_box t) p <->
             exists (k : nat) pl, placements !! k = Some pl /\ in_box pl p) /\
  (forall (j k : nat) plj plk p,
     placements !! j = Some plj -> placements !! k = Some plk ->
     in_box plj p -> in_box plk p -> j = k) /\
  (forall (k : nat) ts pl,
     slices !! k = Some ts -> placements !! k = Some pl ->
     map extent (offset ts) = map extent pl).

End Tiling.

(** ** Load-balanced strategy generation *)

(** A loop that threads a state and collects one result per element. *)
Fixpoint map_st {S A B} (f : S -> A -> result (B * S)) (xs : list A) (s : S)
  : result (list B * S) :=
  match xs with
  | [] => Ok ([], s)
  | x :: xs' =>
      do '(y, s1) <- f s x;
      do '(ys, s2) <- map_st f xs' s1;
      Ok (y :: ys, s2)
  end.

(** [d[k] = v] on an insertion-ordered dict kept as an association list: an
    existing key keeps its position, a new key goes last. *)
Fixpoint alist_insert {V} (k : string) (v : V) (l : list (string * V))
  : list (string * V) :=
  match l with
  | [] => [(k, v)]
  | (k', v') :: l' =>
      if decide (k = k') then (k, v) :: l' else (k', v') :: alist_insert k v l'
  end.

Module Strategy.

(** The two load tables of [CrossMeshCommunicator]. *)
Record Loads : Type := {
  _sender_loads : gmap string Z;
  _receiver_loads : gmap string Z
}.

(** [{sender: self._sender_loads[sender] for sender in replica_device_strs}] *)
Definition collect_loads (sender_loads : gmap string Z) (holders : list string)
  : result (list (string * Z)) :=
  for_each holders
    (fun loads sender =>
       do v <- dict_get sender_loads sender;
       Ok (alist_insert sender v loads))
    [].

(** [min(loads, key=loads.get)]: the keys are visited in dict order, each
    with its value, and a key replaces the current best only when its value
    is strictly smaller; an empty dict raises [ValueError]. *)
Definition py_min_by (loads : list (string * Z)) : result string :=
  match loads with
  | [] => Raise ValueError
  | kv :: rest =>
      Ok (fold_left (fun best kv => if kv.2 <? best.2 then kv else best)
                    rest kv).1
  end.

(** The body of the innermost loop: choose the sender of one slice for one
    receiver and update both load tables. *)
Definition assign_sender (st : Loads) (receiver : string)
    (src_tileslice : TileSlice) : result (string * Loads) :=
  do loads <- collect_loads (_sender_loads st)
                (replica_device_strs (tile src_tileslice));
  do sender <- py_min_by loads;
  do sender_load <- dict_get (_sender_loads st) sender;
  let sender_loads :=
    <[sender := sender_load + slice_size src_tileslice]> (_sender_loads st) in
  do receiver_load <- dict_get (_receiver_loads st) receiver;
  let receiver_loads :=
    <[receiver := receiver_load + slice_size src_tileslice]> (_receiver_loads st) in
  Ok (sender, {| _sender_loads := sender_loads;
                 _receiver_loads := receiver_loads |}).

(** The three nested loops over a [dst_tile_to_src_tiles_map]. *)
Definition plan_entries (mapping : list dst_tile_entry) (st : Loads)
  : result (list (list (list string)) * Loads) :=
  map_st (fun st (entry : dst_tile_entry) =>
            let '(dst_tile, src_tileslices, _) := entry in
            map_st (fun st receiver =>
                      map_st (fun st src_tileslice =>
                                assign_sender st receiver src_tileslice)
                             src_tileslices st)
                   (replica_device_strs dst_tile) st)
         mapping st.

(** [CrossMeshCommunicator._generate_send_recv_resharding_strategy_by_loads];
    the communicator's load tables are passed in and out, and so is the
    spec, whose mapping cache the call may fill. *)
Definition _generate_send_recv_resharding_strategy_by_loads (st : Loads)
    (spec : ReshardingTaskSpec)
  : result (ReshardingStrategy * ReshardingTaskSpec * Loads) :=
  let is_local_allgather :=
    match allgather_slice spec with Some _ => true | None => false end in
  do '(mapping, spec) <- Tiling.dst_tile_to_src_tiles_map spec;
  do '(per_spec_plans, st) <- plan_entries mapping st;
  Ok ({| per_spec_plans := per_spec_plans;
         is_local_allgather := is_local_allgather |}, spec, st).

(** The loop of [CrossMeshCommunicator.__init__] over the activated task
    specs, in iteration order: generate a strategy for each with the load
    tables left by the previous ones, and set it on the spec. *)
Definition assign_strategies (specs : list ReshardingTaskSpec) (st : Loads)
  : result (list ReshardingTaskSpec * Loads) :=
  map_st (fun st spec =>
            do '(strategy, spec, st) <-
              _generate_send_recv_resharding_strategy_by_loads st spec;
            Ok (TaskSpec.set_resharding_strategy spec (StrategyObject strategy),
                st))
         specs st.

(** *** The greedy rule, as the specification words it *)

(** The (receiver, slice) pairs of a mapping, in the order of the loops:
    destination tiles, then replicas of the tile, then slices. *)
Definition requests (mapping : list dst_tile_entry) : list (string * TileSlice) :=
  flat_map (fun entry : dst_tile_entry =>
              flat_map (fun receiver => map (pair receiver) entry.1.2)
                       (replica_device_strs entry.1.1))
           mapping.

(** [s] is the first holder, in the order of [holders], whose send load is
    minimal among the holders. *)
Definition first_min_holder (loads : gmap string Z) (holders : list string)
    (s : string) : Prop :=
  exists (k : nat) (ls : Z),
    holders !! k = Some s /\ loads !! s = Some ls /\
    (forall t, t ∈ holders -> exists lt, loads !! t = Some lt /\ ls <= lt) /\
    (forall (j : nat) t, (j < k)%nat -> holders !! j = Some t ->
       exists lt, loads !! t = Some lt /\ ls < lt).

(** One greedy assignment: the sender is the first minimal holder, and its
    send load and the receiver's receive load grow by the slice size. *)
Definition greedy_step (st : Loads) (req : string * TileSlice) (sender : string)
    (st' : Loads) : Prop :=
  first_min_holder (_sender_loads st) (replica_device_strs (tile req.2)) sender /\
  (exists ls, _sender_loads st !! sender = Some ls /\
     _sender_loads st' = <[sender := ls + slice_size req.2]> (_sender_loads st)) /\
  (exists lr, _receiver_loads st !! req.1 = Some lr /\
     _receiver_loads st' = <[req.1 := lr + slice_size req.2]> (_receiver_loads st)).

(** A run of greedy assignments, each made on the tables the previous one
    left. *)
Inductive greedy_run : Loads -> list (string * TileSlice) -> list string ->
    Loads -> Prop :=
| greedy_nil st : greedy_run st [] [] st
| greedy_cons st req sender st1 reqs senders st2 :
    greedy_step st req sender st1 ->
    greedy_run st1 reqs senders st2 ->
    greedy_run st (req :: reqs) (sender :: senders) st2.

(** The flat version of the nested loops, over a list of requests. *)
Definition run_requests (reqs : list (string * TileSlice)) (st : Loads)
  : result (list string * Loads) :=
  map_st (fun st req => assign_sender st req.1 req.2) reqs st.

(** The mapping the generator reads from a spec, and the plans it leaves on
    the spec through [set_resharding_strategy]. *)
Definition mapping_of (spec : ReshardingTaskSpec) : list dst_tile_entry :=
  match Tiling.dst_tile_to_src_tiles_map spec with
  | Ok (m, _) => m
  | Raise _ => []
  end.

Definition plans_of (spec : ReshardingTaskSpec) : list (list (list string)) :=
  match _strategy spec with
  | StrategyObject s => per_spec_plans s
  | StrategyNone => []
  end.

(** The plan of a destination tile has one row per replica of the tile and
    one column per source slice. *)
Definition plan_shape_ok (mapping : list dst_tile_entry)
    (plans : list (list (list string))) : Prop :=
  Forall2 (fun (entry : dst_tile_entry) plan =>
             length plan = length (replica_device_strs entry.1.1) /\
             Forall (fun row => length row = length entry.1.2) plan)
          mapping plans.

End Strategy.

(** ** SymbolicReshardingTask: the compiled send and receive tasks *)

(** [ReshardingTileSpec(tile_slice, rank, gpu_idx)] of device_mesh.py. *)
Record ReshardingTileSpec : Type := {
  tile_slice : list pyslice;
  rank : nat;
  gpu_idx : nat
}.

(** [ReshardingRecvSpec(device_id, shape, dtype, tile_specs)] *)
Record ReshardingRecvSpec : Type := {
  device_id : nat;
  recv_shape : list Z;
  recv_dtype : string;
  tile_specs : list ReshardingTileSpec
}.

Module SymbolicTask.

(** The attributes of [ReshardingTask] and the four lists and dicts of
    [SymbolicReshardingTask] that [_compile_send_recv_tasks] fills. *)
Record t : Type := {
  task_spec : ReshardingTaskSpec;
  collective_group : CollectiveGroup.t;
  src_mesh : Mesh;
  dst_mesh : Mesh;
  _sender_tasks : gmap worker (list ReshardingTileSpec);
  _receiver_tasks : gmap worker (list ReshardingRecvSpec);
  sender_uuid_plan : list string;
  receiver_uuid_plan : list string
}.

(** The state [__init__] sets up before [_compile] runs. *)
Definition init (task_spec : ReshardingTaskSpec)
    (collective_group : CollectiveGroup.t) (src_mesh dst_mesh : Mesh) : t :=
  {| task_spec := task_spec;
     collective_group := collective_group;
     src_mesh := src_mesh;
     dst_mesh := dst_mesh;
     _sender_tasks := list_to_map (map (fun w => (w, [])) (workers src_mesh));
     _receiver_tasks := list_to_map (map (fun w => (w, [])) (workers dst_mesh));
     sender_uuid_plan := [];
     receiver_uuid_plan := [] |}.

(** The reconstruction of the logical mesh shape from the destination
    sharding spec, in [_allgather_receiver_step_and_offset]. *)
Definition dst_mesh_shape_of (dst_spec : ShardingSpec) : result (list Z) :=
  let chunked_axes :=
    omap (fun '(i, s) => if Rewrite.is_chunked s then Some i else None)
         (enumerate (sharding dst_spec)) in
  map_r (fun mesh_map =>
           match mesh_map with
           | ShardedAxis axis =>
               do i <- list_get chunked_axes axis;
               do s <- list_get (sharding dst_spec) i;
               match s with
               | Chunked chunks => list_get chunks 0
               | _ => Raise TypeError
               end
           | Replicated _ => Ok 1
           end)
        (mesh_mapping dst_spec).

(** [SymbolicReshardingTask._allgather_receiver_step_and_offset]: returns
    [(step, offset, group_idx, dst_mesh_shape)]. *)
Definition _allgather_receiver_step_and_offset (self : t) (receiver : string)
  : result (Z * Z * Z * list Z) :=
  do '(_, mesh_axis, extra_sharding) <-
    match allgather_slice (task_spec self) with
    | Some s => Ok s
    | None => Raise TypeError
    end;
  do '(host_idx, device_idx) <-
    dict_get (CollectiveGroup.device_str_to_rank_map (collective_group self))
             receiver;
  let src_hosts := num_hosts (CollectiveGroup.src_mesh (collective_group self)) in
  let host_idx :=
    if src_hosts <=? Z.of_nat host_idx then Z.of_nat host_idx - src_hosts
    else Z.of_nat host_idx in
  let flatten_idx :=
    host_idx * Z.of_nat (num_devices_per_host (dst_mesh self))
    + Z.of_nat device_idx in
  do dst_mesh_shape <- dst_mesh_shape_of (TaskSpec.dst_sharding_spec (task_spec self));
  do _ <- py_assert (length dst_mesh_shape <? 3)%nat;
  match mesh_axis with
  | O =>
      do step <- list_get dst_mesh_shape 1;
      do q <- py_floordiv flatten_idx step;
      do offset <- py_mod q extra_sharding;
      do g <- py_floordiv q extra_sharding;
      do m <- py_mod flatten_idx step;
      Ok (step, offset, g * step + m, dst_mesh_shape)
  | _ =>
      do _ <- py_assert (mesh_axis =? 1)%nat;
      do d1 <- list_get dst_mesh_shape 1;
      do m <- py_mod flatten_idx d1;
      do offset <- py_mod m extra_sharding;
      do group_idx <- py_floordiv flatten_idx extra_sharding;
      Ok (1, offset, group_idx, dst_mesh_shape)
  end.

(** [SymbolicReshardingTask._indices_in_dst_post_allgather] *)
Definition _indices_in_dst_post_allgather (self : t) (indices : list pyslice)
    (receiver : string) : result (list pyslice) :=
  match allgather_slice (task_spec self) with
  | None => Ok indices
  | Some (tensor_axis, mesh_axis, _) =>
      do '(_, offset, _, dst_mesh_shape) <-
        _allgather_receiver_step_and_offset self receiver;
      let shape := shape (TaskSpec.aval (task_spec self)) in
      do dim <- list_get shape tensor_axis;
      do mesh_dim <- list_get dst_mesh_shape mesh_axis;
      do allgather_dim_size <- py_floordiv dim mesh_dim;
      do ind <- list_get indices tensor_axis;
      do lo <- match pstart ind with Some v => Ok v | None => Raise TypeError end;
      do hi <- match pstop ind with Some v => Ok v | None => Raise TypeError end;
      let indices :=
        <[tensor_axis := PySlice (Some (offset * allgather_dim_size + lo))
                                 (Some (offset * allgather_dim_size + hi))]>
          indices in
      map_r (fun '(idx, tensor_slice) =>
               match pstart tensor_slice with
               | None =>
                   do _ <- py_assert (match pstop tensor_slice with
                                      | None => true
                                      | Some _ => false
                                      end);
                   do d <- list_get shape idx;
                   Ok (PySlice (Some 0) (Some d))
               | Some _ => Ok tensor_slice
               end)
            (enumerate indices)
  end.

(** [self._sender_tasks[w].append(e)] and the other appends. *)
Definition append_sender_task (self : t) (w : worker) (e : ReshardingTileSpec)
    (sender : string) : result t :=
  do l <- dict_get (_sender_tasks self) w;
  Ok {| task_spec := task_spec self;
        collective_group := collective_group self;
        src_mesh := src_mesh self;
        dst_mesh := dst_mesh self;
        _sender_tasks := <[w := l ++ [e]]> (_sender_tasks self);
        _receiver_tasks := _receiver_tasks self;
        sender_uuid_plan := sender_uuid_plan self ++ [sender];
        receiver_uuid_plan := receiver_uuid_plan self |}.

Definition append_receiver_task (self : t) (w : worker) (e : ReshardingRecvSpec)
  : result t :=
  do l <- dict_get (_receiver_tasks self) w;
  Ok {| task_spec := task_spec self;
        collective_group := collective_group self;
        src_mesh := src_mesh self;
        dst_mesh := dst_mesh self;
        _sender_tasks := _sender_tasks self;
        _receiver_tasks := <[w := l ++ [e]]> (_receiver_tasks self);
        sender_uuid_plan := sender_uuid_plan self;
        receiver_uuid_plan := receiver_uuid_plan self |}.

Definition append_receiver_uuid (self : t) (receiver : string) : t :=
  {| task_spec := task_spec self;
     collective_group := collective_group self;
     src_mesh := src_mesh self;
     dst_mesh := dst_mesh self;
     _sender_tasks := _sender_tasks self;
     _receiver_tasks := _receiver_tasks self;
     sender_uuid_plan := sender_uuid_plan self;
     receiver_uuid_plan := receiver_uuid_plan self ++ [receiver] |}.

(** The body of the loop over [enumerate(senders)]: one transfer.  The
    state is the task and the [recv_tile_specs] collected so far. *)
Definition compile_transfer (src_tiles : list TileSlice)
    (indices_in_dst_tiles : list (list slice)) (receiver : string)
    (receiver_rank receiver_gpu_idx : nat)
    (st : t * list ReshardingTileSpec) (item : nat * string)
  : result (t * list ReshardingTileSpec) :=
  let '(self, recv_tile_specs) := st in
  let '(sender_idx, sender) := item in
  let group := collective_group self in
  do sender_worker <-
    dict_get (CollectiveGroup.device_str_to_mesh_worker_map group) sender;
  do _ <- dict_get (_sender_tasks self) sender_worker;
  do src_tile <- list_get src_tiles sender_idx;
  do self <-
    append_sender_task self sender_worker
      {| tile_slice := map slice_to_py (offset src_tile);
         rank := receiver_rank;
         gpu_idx := receiver_gpu_idx |}
      sender;
  do '(sender_rank, sender_gpu_idx) <-
    dict_get (CollectiveGroup.device_str_to_rank_map group) sender;
  do ind <- list_get indices_in_dst_tiles sender_idx;
  do indices_in_dst_tile <-
    _indices_in_dst_post_allgather self (map slice_to_py ind) receiver;
  Ok (self, recv_tile_specs ++
              [{| tile_slice := indices_in_dst_tile;
                  rank := sender_rank;
                  gpu_idx := sender_gpu_idx |}]).

(** The body of the loop over the replicas of one destination tile. *)
Definition compile_replica (dst_tile : Tile) (src_tiles : list TileSlice)
    (indices_in_dst_tiles : list (list slice)) (spec_plan : list (list string))
    (self : t) (item : nat * string) : result t :=
  let '(replica_index, receiver) := item in
  let group := collective_group self in
  do receiver_device_id <-
    dict_get (CollectiveGroup.device_str_to_device_id_map group) receiver;
  do receiver_worker <-
    dict_get (CollectiveGroup.device_str_to_mesh_worker_map group) receiver;
  let dtype := dtype (aval (src (task_spec self))) in
  do senders <-
    map_r (fun src_tile_index =>
             do row <- list_get spec_plan replica_index;
             list_get row src_tile_index)
          (seq 0 (length src_tiles));
  let self := append_receiver_uuid self receiver in
  do '(receiver_rank, receiver_gpu_idx) <-
    dict_get (CollectiveGroup.device_str_to_rank_map group) receiver;
  do '(self, recv_tile_specs) <-
    for_each (enumerate senders)
      (compile_transfer src_tiles indices_in_dst_tiles receiver
                        receiver_rank receiver_gpu_idx)
      (self, []);
  append_receiver_task self receiver_worker
    {| device_id := receiver_device_id;
       recv_shape := Tile_tile_shape dst_tile;
       recv_dtype := dtype;
       tile_specs := recv_tile_specs |}.

(** The task after a read of [dst_tile_to_src_tiles_map] has filled the
    cache of its spec. *)
Definition set_task_spec (self : t) (spec : ReshardingTaskSpec) : t :=
  {| task_spec := spec;
     collective_group := collective_group self;
     src_mesh := src_mesh self;
     dst_mesh := dst_mesh self;
     _sender_tasks := _sender_tasks self;
     _receiver_tasks := _receiver_tasks self;
     sender_uuid_plan := sender_uuid_plan self;
     receiver_uuid_plan := receiver_uuid_plan self |}.

(** [SymbolicReshardingTask._compile_send_recv_tasks] *)
Definition _compile_send_recv_tasks (self : t) : result t :=
  do '(mapping, spec) <- Tiling.dst_tile_to_src_tiles_map (task_spec self);
  let self := set_task_spec self spec in
  for_each (enumerate mapping)
    (fun self (item : nat * dst_tile_entry) =>
       let '(i, (dst_tile, src_tiles, indices_in_dst_tiles)) := item in
       do strategy <- (TaskSpec.strategy (task_spec self)).1;
       do spec_plan <-
         match strategy with
         | StrategyObject s => list_get (per_spec_plans s) i
         | StrategyNone => Raise RuntimeError
         end;
       for_each (enumerate (replica_device_strs dst_tile))
         (compile_replica dst_tile src_tiles indices_in_dst_tiles spec_plan)
         self)
    self.

(** *** Transfers *)

(** One point-to-point transfer: who sends to whom, through which workers,
    and the entry it leaves on either side. *)
Record Transfer : Type := {
  sender : string;
  receiver : string;
  sender_worker : worker;
  receiver_worker : worker;
  send_entry : ReshardingTileSpec;
  recv_entry : ReshardingTileSpec
}.

(** The two entries of a transfer describe it: the send entry carries the
    rank and gpu index of the receiver, the receive entry those of the
    sender, and the workers are the ones owning the two devices. *)
Definition paired (g : CollectiveGroup.t) (x : Transfer) : Prop :=
  CollectiveGroup.device_str_to_mesh_worker_map g !! sender x
    = Some (sender_worker x) /\
  CollectiveGroup.device_str_to_mesh_worker_map g !! receiver x
    = Some (receiver_worker x) /\
  CollectiveGroup.device_str_to_rank_map g !! receiver x
    = Some (rank (send_entry x), gpu_idx (send_entry x)) /\
  CollectiveGroup.device_str_to_rank_map g !! sender x
    = Some (rank (recv_entry x), gpu_idx (recv_entry x)).

(** The send entries a worker owes for a sequence of transfers, and the
    receive entries, both in the order of the sequence. *)
Definition sent_by (w : worker) (xs : list Transfer) : list ReshardingTileSpec :=
  map send_entry (filter (fun x => sender_worker x = w) xs).

Definition received_by (w : worker) (xs : list Transfer)
  : list ReshardingTileSpec :=
  map recv_entry (filter (fun x => receiver_worker x = w) xs).

(** The task lists of [self] are those of the transfers [xs], entry for
    entry: the list of every sender worker is the send entries of its
    transfers, the tile specs of every receiver worker (over its receive
    tasks, in order) are the receive entries of its transfers, and both
    follow the order of [xs]. *)
Definition paired_in_order (self : t) (xs : list Transfer) : Prop :=
  Forall (paired (collective_group self)) xs /\
  (forall w l, _sender_tasks self !! w = Some l -> l = sent_by w xs) /\
  (forall w l, _receiver_tasks self !! w = Some l ->
     concat (map tile_specs l) = received_by w xs) /\
  Forall (fun x => is_Some (_sender_tasks self !! sender_worker x) /\
                   is_Some (_receiver_tasks self !! receiver_worker x)) xs /\
  sender_uuid_plan self = map sender xs.

End SymbolicTask.

(** ** CrossMeshCommunicator: the table of resharding specs *)

(** The attributes of [XlaShardedPipelineComputation] the module reads. *)
Record Stage : Type := {
  outvars : list Var;
  invars : list Var;
  output_sharding_specs : list ShardingSpec;
  input_sharding_specs : list ShardingSpec
}.

(** A two-dimensional numpy array of integers. *)
Record ndarray2 : Type := {
  shape0 : nat;
  shape1 : nat;
  entry : nat -> nat -> Z
}.

(** [np.argwhere(a > 0)]: the index pairs of the positive entries, in
    row-major order. *)
Definition argwhere_pos (a : ndarray2) : list (nat * nat) :=
  flat_map (fun r =>
              omap (fun c => if 0 <? entry a r c then Some (r, c) else None)
                   (seq 0 (shape1 a)))
           (seq 0 (shape0 a)).

(** The attributes of the pipeline schedule the module reads;
    [stage_placement i] is [list(schedule.stage_placement(i))]. *)
Record Schedule : Type := {
  meshes : list Mesh;
  num_mesh : nat;
  stage_placement : nat -> list nat;
  dependency : ndarray2
}.

Global Instance Aval_eq_dec : EqDecision Aval.
Proof. solve_decision. Defined.

Global Instance Var_eq_dec : EqDecision Var.
Proof. solve_decision. Defined.

Module Communicator.

(** One cell of [resharding_specs]: a dict from [repr(var)] to the task
    spec, in insertion order. *)
Definition cell : Type := list (string * ReshardingTaskSpec).

(** [CrossMeshCommunicator._args_between] *)
Definition _args_between (src_stage dst_stage : Stage)
  : list Var * list nat * list nat :=
  fold_left
    (fun (acc : list Var * list nat * list nat) '(i, var) =>
       let '(resharding_vars, src_indices, dst_indices) := acc in
       match list_find (fun v => v = var) (invars dst_stage) with
       | Some (j, _) =>
           (resharding_vars ++ [var], src_indices ++ [i], dst_indices ++ [j])
       | None => acc
       end)
    (enumerate (outvars src_stage)) ([], [], []).

(** [zip(resharding_vars, out_var_indices, in_var_indices)] *)
Definition zip3 {A B C} (xs : list A) (ys : list B) (zs : list C)
  : list (A * B * C) :=
  zip (zip xs ys) zs.

(** The body of the loop over the variables exchanged by one pair of
    stages: build the task spec and store it in the cell of the two
    meshes. *)
Definition add_task_spec (use_scatter_gather : bool)
    (new_array : Mesh -> Aval -> ShardingSpec -> VirtualDistributedArray)
    (src_stage dst_stage : Stage) (src_mesh_index dst_mesh_index : nat)
    (src_mesh dst_mesh : Mesh)
    (resharding_specs : list (list cell)) (item : Var * nat * nat)
  : result (list (list cell)) :=
  let '(var, out_var_index, in_var_index) := item in
  do src_sharding_spec <- list_get (output_sharding_specs src_stage) out_var_index;
  do dst_sharding_spec <- list_get (input_sharding_specs dst_stage) in_var_index;
  do '(dst_sharding_spec, extra_slice) <-
    Rewrite._rewrite_allgather_specs use_scatter_gather dst_sharding_spec
      dst_mesh var;
  let src_array := new_array src_mesh (var_aval var) src_sharding_spec in
  let dst_array := new_array dst_mesh (var_aval var) dst_sharding_spec in
  let task_spec := TaskSpec.init src_array dst_array extra_slice in
  do row <- list_get resharding_specs src_mesh_index;
  do c <- list_get row dst_mesh_index;
  Ok (<[src_mesh_index :=
          <[dst_mesh_index := alist_insert (var_repr var) task_spec c]> row]>
        resharding_specs).

(** The body of the loop over the pairs of dependent stages. *)
Definition add_stage_pair (use_scatter_gather : bool)
    (new_array : Mesh -> Aval -> ShardingSpec -> VirtualDistributedArray)
    (stages : list Stage) (meshes : list Mesh) (stage_placements : list nat)
    (resharding_specs : list (list cell)) (pair : nat * nat)
  : result (list (list cell)) :=
  let src_stage_index := pair.2 in
  do src_stage <- list_get stages src_stage_index;
  let dst_stage_index := pair.1 in
  do dst_stage <- list_get stages dst_stage_index;
  do src_mesh_index <- list_get stage_placements src_stage_index;
  do dst_mesh_index <- list_get stage_placements dst_stage_index;
  do src_mesh <- list_get meshes src_mesh_index;
  do dst_mesh <- list_get meshes dst_mesh_index;
  if (src_mesh_index =? dst_mesh_index)%nat then Ok resharding_specs else
  let '(resharding_vars, out_var_indices, in_var_indices) :=
    _args_between src_stage dst_stage in
  for_each (zip3 resharding_vars out_var_indices in_var_indices)
    (add_task_spec use_scatter_gather new_array src_stage dst_stage
       src_mesh_index dst_mesh_index src_mesh dst_mesh)
    resharding_specs.

(** [CrossMeshCommunicator._create_resharding_specs]: returns the table
    stored in [self.resharding_specs].  [use_scatter_gather] is the global
    configuration flag and [new_array] the constructor of
    [VirtualDistributedArray], which is not part of the sources. *)
Definition _create_resharding_specs (use_scatter_gather : bool)
    (new_array : Mesh -> Aval -> ShardingSpec -> VirtualDistributedArray)
    (stages : list Stage) (schedule : Schedule) : result (list (list cell)) :=
  let num_stage := length stages in
  do stage_placements <-
    map_r (fun i => list_get (stage_placement schedule i) 0) (seq 0 num_stage);
  let deps := dependency schedule in
  do _ <- py_assert (shape0 deps =? num_stage)%nat;
  do _ <- py_assert (shape1 deps =? num_stage)%nat;
  let resharding_specs :=
    repeat (repeat ([] : cell) (num_mesh schedule)) (num_mesh schedule) in
  for_each (argwhere_pos deps)
    (add_stage_pair use_scatter_gather new_array stages (meshes schedule)
       stage_placements)
    resharding_specs.

(** [CrossMeshCommunicator.task_spec_iter]: the triples the generator
    yields, in order. *)
Definition task_spec_iter (num_mesh : nat) (resharding_specs : list (list cell))
  : result (list (nat * nat * cell)) :=
  for_each (seq 0 num_mesh)
    (fun yielded i =>
       for_each (seq 0 num_mesh)
         (fun yielded j =>
            do row <- list_get resharding_specs i;
            do c <- list_get row j;
            match c with
            | [] => Ok yielded
            | _ :: _ => Ok (yielded ++ [(i, j, c)])
            end)
         yielded)
    [].

(** The table has [n] rows of [n] cells, and a cell that holds a task spec
    lies off the diagonal and belongs to a pair of dependent stages placed
    on the two meshes of the cell. *)
Definition off_diagonal (schedule : Schedule) (specs : list (list cell)) : Prop :=
  length specs = num_mesh schedule /\
  Forall (fun row => length row = num_mesh schedule) specs /\
  forall (i j : nat) row (c : cell),
    specs !! i = Some row -> row !! j = Some c -> c <> [] ->
    i <> j /\
    exists src_stage dst_stage : nat,
      0 < entry (dependency schedule) dst_stage src_stage /\
      stage_placement schedule src_stage !! 0%nat = Some i /\
      stage_placement schedule dst_stage !! 0%nat = Some j.

End Communicator.

(** * Further properties of the code *)

(** ** Tile look-up: where the data of a slice comes from *)

(** A slice and its placement name the same elements of the array: on
    every axis the slice, shifted by the start of its source tile, is the
    placement shifted by the start of the destination tile, and the slice
    lies inside its source tile. *)
Definition aligned (t : Tile) (ts : TileSlice) (pl : list slice) : Prop :=
  length (indices (tile ts)) = length (indices t) /\
  length (offset ts) = length (indices t) /\
  length pl = length (indices t) /\
  forall (i : nat) src_ind o ind p,
    indices (tile ts) !! i = Some src_ind -> offset ts !! i = Some o ->
    indices t !! i = Some ind -> pl !! i = Some p ->
    start src_ind + start o = start ind + start p /\
    start src_ind + stop o = start ind + stop p /\
    0 <= start o /\ start o < stop o /\ stop o <= extent src_ind.

(** ** Well-formed meshes *)

(** A mesh whose lists have the lengths its host count and its devices per
    host announce. *)
Definition mesh_wf (m : Mesh) : Prop :=
  (length (host_ips m) <= length (workers m))%nat /\
  length (device_strs m) = (length (host_ips m) * num_devices_per_host m)%nat.

(** ** Accounting of the loads *)

(** The sum of the loads of a table. *)
Definition total_load (loads : gmap string Z) : Z :=
  map_fold (fun _ v acc => v + acc) 0 loads.

(** The volume a list of requests moves: the sum of the slice sizes. *)
Definition volume (reqs : list (string * TileSlice)) : Z :=
  fold_right (fun req acc => slice_size req.2 + acc) 0 reqs.

(** ** Where a stored task spec comes from *)

(** The task spec [spec] stored under [key] in cell [(i, j)] was built for
    a variable that a stage placed on mesh [i] hands to a dependent stage
    placed on mesh [j]: its arrays carry the variable's aval, the sharding
    spec of the output on the source mesh and the (possibly rewritten)
    sharding spec of the input on the destination mesh, and it is as its
    constructor left it. *)
Definition spec_from (use_scatter_gather : bool)
    (new_array : Mesh -> Aval -> ShardingSpec -> VirtualDistributedArray)
    (stages : list Stage) (schedule : Schedule) (i j : nat) (key : string)
    (spec : ReshardingTaskSpec) : Prop :=
  exists (s d : nat) src_stage dst_stage src_mesh dst_mesh var (oi ii : nat)
         ssp dsp dsp' extra,
    0 < entry (dependency schedule) d s /\
    stages !! s = Some src_stage /\ stages !! d = Some dst_stage /\
    stage_placement schedule s !! 0%nat = Some i /\
    stage_placement schedule d !! 0%nat = Some j /\
    meshes schedule !! i = Some src_mesh /\ meshes schedule !! j = Some dst_mesh /\
    outvars src_stage !! oi = Some var /\ invars dst_stage !! ii = Some var /\
    output_sharding_specs src_stage !! oi = Some ssp /\
    input_sharding_specs dst_stage !! ii = Some dsp /\
    Rewrite._rewrite_allgather_specs use_scatter_gather dsp dst_mesh var
      = Ok (dsp', extra) /\
    key = var_repr var /\
    spec = TaskSpec.init (new_array src_mesh (var_aval var) ssp)
                         (new_array dst_mesh (var_aval var) dsp') extra.

(** ** The position of a receiver in the destination mesh *)

(** [flatten_idx] of [_allgather_receiver_step_and_offset]: the rank of the
    receiver in the collective group, taken relative to the destination
    mesh and flattened. *)
Definition receiver_flatten_idx (self : SymbolicTask.t) (receiver : string)
  : result Z :=
  do '(host_idx, device_idx) <-
    dict_get (CollectiveGroup.device_str_to_rank_map
                (SymbolicTask.collective_group self)) receiver;
  let src_hosts :=
    num_hosts (CollectiveGroup.src_mesh (SymbolicTask.collective_group self)) in
  let host_idx :=
    if src_hosts <=? Z.of_nat host_idx then Z.of_nat host_idx - src_hosts
    else Z.of_nat host_idx in
  Ok (host_idx * Z.of_nat (num_devices_per_host (SymbolicTask.dst_mesh self))
      + Z.of_nat device_idx).

(** ** Tilings the look-up rejects *)



(** ** The receivers of a worker *)

(** The device ids of the receivers of [plan] that worker [w] owns, in the
    order of [plan]. *)
Definition recv_ids (g : CollectiveGroup.t) (w : worker) (plan : list string)
  : list nat :=
  omap (fun r =>
          match CollectiveGroup.device_str_to_mesh_worker_map g !! r,
                CollectiveGroup.device_str_to_device_id_map g !! r with
          | Some w', Some d => if decide (w' = w) then Some d else None
          | _, _ => None
          end) plan.

(** ** CrossMeshCommunicator: the constructor *)

Module CommunicatorInit.
Import Communicator.

(** [{device_str: 0 for mesh in meshes for device_str in mesh.device_strs}] *)
Definition zero_loads (meshes : list Mesh) : gmap string Z :=
  list_to_map (map (fun device_str => (device_str, 0)) (flat_map device_strs meshes)).

(** The body of the inner loop of [__init__] for the spec stored under
    [key] in cell [(i, j)]: generate its strategy with the current loads
    and set it.  The spec is the object the table holds, so the table sees
    the strategy (and the mapping cache the generator fills). *)
Definition plan_spec (i j : nat) (st : list (list cell) * Strategy.Loads)
    (item : string * ReshardingTaskSpec)
  : result (list (list cell) * Strategy.Loads) :=
  let '(resharding_specs, loads) := st in
  let '(key, spec) := item in
  do '(strategy, spec, loads) <-
    Strategy._generate_send_recv_resharding_strategy_by_loads loads spec;
  let spec := TaskSpec.set_resharding_strategy spec (StrategyObject strategy) in
  do row <- list_get resharding_specs i;
  do c <- list_get row j;
  Ok (<[i := <[j := alist_insert key spec c]> row]> resharding_specs, loads).

(** [CrossMeshCommunicator.__init__]: returns [resharding_specs] and the
    two load tables.  The [isinstance] checks of the arguments are the
    types of [stages] here. *)
Definition init (use_scatter_gather : bool)
    (new_array : Mesh -> Aval -> ShardingSpec -> VirtualDistributedArray)
    (stages : list Stage) (schedule : Schedule)
  : result (list (list cell) * Strategy.Loads) :=
  let loads :=
    {| Strategy._sender_loads := zero_loads (meshes schedule);
       Strategy._receiver_loads := zero_loads (meshes schedule) |} in
  do resharding_specs <-
    _create_resharding_specs use_scatter_gather new_array stages schedule;
  do yielded <- task_spec_iter (num_mesh schedule) resharding_specs;
  for_each yielded
    (fun st '(i, j, var_spec_map) => for_each var_spec_map (plan_spec i j) st)
    (resharding_specs, loads).

End CommunicatorInit.

(** ** The volume of a list of slices *)

(** The sum of a list of integers. *)
Definition zsum (l : list Z) : Z := fold_right Z.add 0 l.

(** ** The volume a spec moves *)

(** What the replicas of the destination tiles of a mapping hold
    together: for every tile, its volume once per replica. *)
Definition replicated_volume (m : list dst_tile_entry) : Z :=
  zsum (map (fun entry : dst_tile_entry =>
               Z.of_nat (length (replica_device_strs entry.1.1))
               * py_prod (Tile_tile_shape entry.1.1)) m).

(** * Example inputs *)

(** *** A worked example of the generator *)

Module StrategyExample.

Definition no_mesh : Mesh :=
  {| host_ips := []; workers := []; device_strs := [];
     num_devices_per_host := 0; num_hosts := 0; num_devices := 0 |}.

Definition no_sharding : ShardingSpec := {| sharding := []; mesh_mapping := [] |}.

(** A vector of 4 elements cut in two tiles on the source mesh, each tile
    held by two devices, and kept whole on the destination mesh, where two
    devices hold it. *)
Definition src_array : VirtualDistributedArray :=
  {| device_mesh := no_mesh;
     aval := {| shape := [4]; dtype := "float32" |};
     sharding_spec := no_sharding;
     tile_shape := [2];
     tile_replica_device_strs :=
       fun idx => match idx with
                  | [0] => ["s0"; "s1"]
                  | _ => ["s2"; "s3"]
                  end |}.

Definition dst_array : VirtualDistributedArray :=
  {| device_mesh := no_mesh;
     aval := {| shape := [4]; dtype := "float32" |};
     sharding_spec := no_sharding;
     tile_shape := [1];
     tile_replica_device_strs := fun _ => ["d0"; "d1"] |}.

Definition spec : ReshardingTaskSpec := TaskSpec.init src_array dst_array None.

Definition zero_loads (names : list string) : gmap string Z :=
  list_to_map (map (fun name => (name, 0)) names).

Definition loads0 : Strategy.Loads :=
  {| Strategy._sender_loads := zero_loads ["s0"; "s1"; "s2"; "s3"; "d0"; "d1"];
     Strategy._receiver_loads := zero_loads ["s0"; "s1"; "s2"; "s3"; "d0"; "d1"] |}.

(** A slice of volume 2 held by three devices. *)
Definition shared_slice : TileSlice :=
  make_tileslice
    {| index := [0]; replica_device_strs := ["a"; "b"; "c"];
       indices := [Slice 0 2] |}
    [Slice 0 2].

Definition loads_abc : Strategy.Loads :=
  {| Strategy._sender_loads := zero_loads ["a"; "b"; "c"];
     Strategy._receiver_loads := zero_loads ["r"] |}.

End StrategyExample.

(** *** A worked example of the task compiler *)

Module CompileExample.

Definition src_mesh : Mesh :=
  {| host_ips := ["10.0.0.1"];
     workers := [0%nat];
     device_strs := ["s0"; "s1"];
     num_devices_per_host := 2;
     num_hosts := 1;
     num_devices := 2 |}.

Definition dst_mesh : Mesh :=
  {| host_ips := ["10.0.0.2"];
     workers := [1%nat];
     device_strs := ["d0"; "d1"];
     num_devices_per_host := 2;
     num_hosts := 1;
     num_devices := 2 |}.

(** A vector of 4 elements, one tile per source device, replicated on the
    two destination devices. *)
Definition src_array : VirtualDistributedArray :=
  {| device_mesh := src_mesh;
     aval := {| shape := [4]; dtype := "float32" |};
     sharding_spec := {| sharding := [Chunked [2]]; mesh_mapping := [ShardedAxis 0] |};
     tile_shape := [2];
     tile_replica_device_strs :=
       fun idx => match idx with
                  | [0] => ["s0"]
                  | _ => ["s1"]
                  end |}.

Definition dst_array : VirtualDistributedArray :=
  {| device_mesh := dst_mesh;
     aval := {| shape := [4]; dtype := "float32" |};
     sharding_spec := {| sharding := [NoSharding]; mesh_mapping := [Replicated 2] |};
     tile_shape := [1];
     tile_replica_device_strs := fun _ => ["d0"; "d1"] |}.

Definition spec : ReshardingTaskSpec := TaskSpec.init src_array dst_array None.

Definition loads0 : Strategy.Loads :=
  {| Strategy._sender_loads := StrategyExample.zero_loads ["s0"; "s1"; "d0"; "d1"];
     Strategy._receiver_loads := StrategyExample.zero_loads ["s0"; "s1"; "d0"; "d1"] |}.

Definition group : CollectiveGroup.t :=
  Eval vm_compute in
    unwrap (CollectiveGroup.init ["s0"; "s1"; "d0"; "d1"] src_mesh dst_mesh).

(** The spec with its strategy set by the generator. *)
Definition planned_spec : ReshardingTaskSpec :=
  Eval vm_compute in
    hd spec (unwrap (Strategy.assign_strategies [spec] loads0)).1.

Definition compiled : SymbolicTask.t :=
  Eval vm_compute in
    unwrap (SymbolicTask._compile_send_recv_tasks
              (SymbolicTask.init planned_spec group src_mesh dst_mesh)).

End CompileExample.

(** *** Inputs for the allgather code *)

(** A destination sharding over a mesh with three axes, one of them
    sharded, on 8 devices of one host. *)
Definition three_axis_spec : ShardingSpec :=
  {| sharding := [Chunked [2]; NoSharding];
     mesh_mapping := [ShardedAxis 0; Replicated 2; Replicated 2] |}.

Definition eight_device_mesh : Mesh :=
  {| host_ips := ["10.0.0.1"];
     workers := [0%nat];
     device_strs := ["d0"; "d1"; "d2"; "d3"; "d4"; "d5"; "d6"; "d7"];
     num_devices_per_host := 8;
     num_hosts := 1;
     num_devices := 8 |}.

Definition square_var : Var :=
  {| var_repr := "a"; var_aval := {| shape := [8; 8]; dtype := "float32" |} |}.

(** *** Worked examples of the allgather code *)

Module AllgatherExample.

(** A task whose destination sharding has the given mesh mapping, with an
    allgather slice on tensor axis 0 and mesh axis 0. *)
Definition task_with (mapping : list MeshDimAssignment) : SymbolicTask.t :=
  SymbolicTask.init
    (TaskSpec.init CompileExample.src_array
       {| device_mesh := CompileExample.dst_mesh;
          aval := {| shape := [4]; dtype := "float32" |};
          sharding_spec := {| sharding := [Chunked [2]]; mesh_mapping := mapping |};
          tile_shape := [2];
          tile_replica_device_strs := fun _ => ["d0"] |}
       (Some (0%nat, 0%nat, 2)))
    CompileExample.group CompileExample.src_mesh CompileExample.dst_mesh.

(** Two sharded axes of a mesh with three axes, on 8 devices. *)
Definition two_sharded_of_three : ShardingSpec :=
  {| sharding := [Chunked [2]; Chunked [2]];
     mesh_mapping := [ShardedAxis 0; ShardedAxis 1; Replicated 2] |}.

End AllgatherExample.

(** *** A worked example of the table *)

Module CommunicatorExample.

Definition var_a : Var :=
  {| var_repr := "a"; var_aval := {| shape := [4]; dtype := "float32" |} |}.

Definition var_b : Var :=
  {| var_repr := "b"; var_aval := {| shape := [4]; dtype := "float32" |} |}.

Definition replicated : ShardingSpec :=
  {| sharding := [NoSharding]; mesh_mapping := [Replicated 2] |}.

(** Three stages: stage 0 produces [a] for stage 1 and stage 1 produces [b]
    for stage 2. *)
Definition stages : list Stage :=
  [ {| outvars := [var_a]; invars := [];
       output_sharding_specs := [replicated]; input_sharding_specs := [] |};
    {| outvars := [var_b]; invars := [var_a];
       output_sharding_specs := [replicated]; input_sharding_specs := [replicated] |};
    {| outvars := []; invars := [var_b];
       output_sharding_specs := []; input_sharding_specs := [replicated] |} ].

(** Stage 0 runs on mesh 0, stages 1 and 2 on mesh 1. *)
Definition schedule : Schedule :=
  {| meshes := [CompileExample.src_mesh; CompileExample.dst_mesh];
     num_mesh := 2;
     stage_placement := fun i => match i with O => [0%nat] | _ => [1%nat] end;
     dependency :=
       {| shape0 := 3; shape1 := 3;
          entry := fun d s => match d, s with
                              | 1%nat, 0%nat => 1
                              | 2%nat, 1%nat => 1
                              | _, _ => 0
                              end |} |}.

Definition new_array (m : Mesh) (a : Aval) (s : ShardingSpec)
  : VirtualDistributedArray :=
  {| device_mesh := m; aval := a; sharding_spec := s;
     tile_shape := [1];
     tile_replica_device_strs := fun _ => device_strs m |}.

Definition resharding_specs : list (list Communicator.cell) :=
  Eval vm_compute in
    unwrap (Communicator._create_resharding_specs true new_array stages schedule).

End CommunicatorExample.

(** *** A worked example of the tile look-up *)

Module TilingExample.

Definition array_12x6 (counts : list Z) : VirtualDistributedArray :=
  {| device_mesh := CompileExample.src_mesh;
     aval := {| shape := [12; 6]; dtype := "float32" |};
     sharding_spec := {| sharding := []; mesh_mapping := [] |};
     tile_shape := counts;
     tile_replica_device_strs := fun _ => [] |}.

(** A 12 x 6 array in 4 x 3 tiles of 3 x 2 on the source mesh and in 3 x 1
    tiles of 4 x 6 on the destination mesh. *)
Definition spec : ReshardingTaskSpec :=
  TaskSpec.init (array_12x6 [4; 3]) (array_12x6 [3; 1]) None.

(** The middle destination tile: rows 4 to 8, all columns. *)
Definition middle_tile : Tile :=
  Eval vm_compute in unwrap (Tiling.tiles_get (dst spec) [1; 0]).

End TilingExample.

Module TilingMapExample.

(** The first read of the mapping of the 12 x 6 example: the mapping and
    the spec that caches it. *)
Definition first_read : list dst_tile_entry * ReshardingTaskSpec :=
  Eval vm_compute in unwrap (Tiling.dst_tile_to_src_tiles_map TilingExample.spec).

End TilingMapExample.

Module GroupExample.

(** Two hosts of one device each. *)
Definition mesh_2x1 : Mesh :=
  {| host_ips := ["10.0.0.4"; "10.0.0.5"];
     workers := [3%nat; 4%nat];
     device_strs := ["10.0.0.4:0"; "10.0.0.5:0"];
     num_devices_per_host := 1;
     num_hosts := 2;
     num_devices := 2 |}.

(** The group of a 2x2 source mesh and a 1x1 destination mesh. *)
Definition group_2x2_1x1 : CollectiveGroup.t :=
  Eval vm_compute in
    unwrap (CollectiveGroup.init [] CollectiveGroup.mesh_2x2 CollectiveGroup.mesh_1x1).

End GroupExample.

Module AccountingExample.

(** The strategy generated for the example spec from zero loads: the
    strategy, the spec with its mapping cached, and the loads left. *)
Definition generated : ReshardingStrategy * ReshardingTaskSpec * Strategy.Loads :=
  Eval vm_compute in
    unwrap (Strategy._generate_send_recv_resharding_strategy_by_loads
              StrategyExample.loads0 StrategyExample.spec).

(** The specs and the loads the constructor's loop leaves for two copies of
    the example spec. *)
Definition assigned : list ReshardingTaskSpec * Strategy.Loads :=
  Eval vm_compute in
    unwrap (Strategy.assign_strategies [StrategyExample.spec; StrategyExample.spec]
              StrategyExample.loads0).

End AccountingExample.

Module TableExample.

(** The cell of meshes (0, 1) of the example table. *)
Definition cell_0_1 : Communicator.cell :=
  Eval vm_compute in
    nth 1 (nth 0 CommunicatorExample.resharding_specs []) [].

End TableExample.

Module AllgatherStepExample.

(** The step, offset and group of device "d1" of the example task with a
    two-axis mesh mapping. *)
Definition step_d1 : Z * Z * Z * list Z :=
  Eval vm_compute in
    unwrap (SymbolicTask._allgather_receiver_step_and_offset
              (AllgatherExample.task_with [ShardedAxis 0; Replicated 1]) "d1").

(** The placement of rows 0 to 2 for "d1" after the allgather. *)
Definition indices_d1 : list pyslice :=
  Eval vm_compute in
    unwrap (SymbolicTask._indices_in_dst_post_allgather
              (AllgatherExample.task_with [ShardedAxis 0; Replicated 1])
              [PySlice (Some 0) (Some 1)] "d1").

(** The first read of the mapping of the compile example, before any
    strategy is set. *)
Definition unplanned_read : list dst_tile_entry * ReshardingTaskSpec :=
  Eval vm_compute in unwrap (Tiling.dst_tile_to_src_tiles_map CompileExample.spec).

End AllgatherStepExample.

Module RaggedExample.

(** The 12 x 6 array cut in 4 x 4 source tiles: 4 does not divide 6. *)
Definition spec : ReshardingTaskSpec :=
  TaskSpec.init (TilingExample.array_12x6 [4; 4]) (TilingExample.array_12x6 [3; 1]) None.

End RaggedExample.

Module InitExample.

(** The communicator of the three-stage example: the table and the loads
    the constructor leaves. *)
Definition constructed : list (list Communicator.cell) * Strategy.Loads :=
  Eval vm_compute in
    unwrap (CommunicatorInit.init false CommunicatorExample.new_array
              CommunicatorExample.stages CommunicatorExample.schedule).

End InitExample.

(** * Facts *)

(** ** Generic facts about the result monad and the loops *)

Lemma rbind_ok {A B} (r : result A) (k : A -> result B) (b : B) :
  rbind r k = Ok b -> exists a, r = Ok a /\ k a = Ok b.
Proof. destruct r as [a|e]; simpl; [eauto | discriminate]. Qed.

Ltac inv_bind H :=
  let a := fresh "a" in
  let Ha := fresh "Ha" in
  apply rbind_ok in H as (a & Ha & H).

Lemma map_st_app {S A B} (f : S -> A -> result (B * S)) xs1 : forall xs2 s ys1 s1 ys2 s2,
  map_st f xs1 s = Ok (ys1, s1) ->
  map_st f xs2 s1 = Ok (ys2, s2) ->
  map_st f (xs1 ++ xs2) s = Ok (ys1 ++ ys2, s2).
Proof.
  induction xs1 as [|x xs1 IH]; intros xs2 s ys1 s1 ys2 s2 H1 H2; simpl in *.
  - injection H1 as <- <-. exact H2.
  - inv_bind H1. destruct a as [y s0]. inv_bind H1. destruct a as [ys s3].
    injection H1 as <- <-. rewrite Ha. simpl.
    rewrite (IH _ _ _ _ _ _ Ha0 H2). reflexivity.
Qed.

Lemma map_st_length {S A B} (f : S -> A -> result (B * S)) xs : forall s ys s',
  map_st f xs s = Ok (ys, s') -> length ys = length xs.
Proof.
  induction xs as [|x xs IH]; intros s ys s' H; simpl in *.
  - injection H as <- <-. reflexivity.
  - inv_bind H. destruct a as [y s0]. inv_bind H. destruct a as [ys0 s3].
    injection H as <- <-. simpl. f_equal. eauto.
Qed.

Lemma for_each_inv {S A} (P : S -> Prop) (body : S -> A -> result S) xs :
  forall s s',
  (forall s x s', body s x = Ok s' -> P s -> P s') ->
  for_each xs body s = Ok s' -> P s -> P s'.
Proof.
  induction xs as [|x xs IH]; intros s s' Hbody H Hs; simpl in H.
  - injection H as <-. exact Hs.
  - apply rbind_ok in H as (s1 & H1 & H). eauto.
Qed.

Lemma sublist_map {A B} (f : A -> B) (l k : list A) :
  sublist l k -> sublist (map f l) (map f k).
Proof. induction 1; simpl; constructor; assumption. Qed.

Lemma sublist_filter_and {A} (P Q : A -> Prop)
    `{!forall x, Decision (P x)} `{!forall x, Decision (Q x)}
    `{!forall x, Decision (P x /\ Q x)} (xs : list A) :
  sublist (filter (fun x => P x /\ Q x) xs) (filter P xs) /\
  sublist (filter (fun x => P x /\ Q x) xs) (filter Q xs).
Proof.
  induction xs as [|x xs [IH1 IH2]]; [split; constructor|].
  rewrite !filter_cons.
  destruct (decide (P x /\ Q x)) as [[Hp Hq]|Hn].
  - destruct (decide (P x)); [|contradiction].
    destruct (decide (Q x)); [|contradiction]. split; constructor; assumption.
  - split; [destruct (decide (P x)) | destruct (decide (Q x))];
      try constructor; assumption.
Qed.

Lemma map_r_length {A B} (f : A -> result B) xs : forall ys,
  map_r f xs = Ok ys -> length ys = length xs.
Proof.
  induction xs as [|x xs IH]; intros ys H; simpl in H.
  - injection H as <-. reflexivity.
  - apply rbind_ok in H as (y & _ & H). apply rbind_ok in H as (ys' & Hys & H).
    injection H as <-. simpl. f_equal. apply IH, Hys.
Qed.

Lemma for_each_inv_in {S A} (P : S -> Prop) (body : S -> A -> result S) xs :
  forall s s',
  (forall s x s', x ∈ xs -> body s x = Ok s' -> P s -> P s') ->
  for_each xs body s = Ok s' -> P s -> P s'.
Proof.
  induction xs as [|x xs IH]; intros s s' Hbody H Hs; simpl in H.
  - injection H as <-. exact Hs.
  - apply rbind_ok in H as (s1 & H1 & H).
    eapply IH; [|exact H|].
    + intros s2 y s3 Hy. apply Hbody. right. exact Hy.
    + eapply Hbody; [left | exact H1 | exact Hs].
Qed.

Lemma map_r_lookup {A B} (f : A -> result B) xs : forall ys (k : nat) y,
  map_r f xs = Ok ys -> ys !! k = Some y ->
  exists x, xs !! k = Some x /\ f x = Ok y.
Proof.
  induction xs as [|x xs IH]; intros ys k y H Hk; simpl in H.
  - injection H as <-. discriminate Hk.
  - apply rbind_ok in H as (y0 & Hy0 & H). apply rbind_ok in H as (ys' & Hys & H).
    injection H as <-. destruct k as [|k]; simpl in Hk.
    + injection Hk as <-. exists x. split; [reflexivity | exact Hy0].
    + apply (IH _ _ _ Hys Hk).
Qed.

Lemma list_get_ok {A} (l : list A) (i : nat) x :
  list_get l i = Ok x -> l !! i = Some x.
Proof. unfold list_get. destruct (l !! i); [intros [= <-]; reflexivity | discriminate]. Qed.

(** A comprehension succeeds when each of its elements does, and then the
    results can be read off position by position. *)
Lemma map_r_pointwise {A B} (f : A -> result B) xs :
  forall (P : nat -> A -> B -> Prop),
  (forall (i : nat) x, xs !! i = Some x -> exists y, f x = Ok y /\ P i x y) ->
  exists ys,
    map_r f xs = Ok ys /\ length ys = length xs /\
    forall (i : nat) x y, xs !! i = Some x -> ys !! i = Some y -> P i x y.
Proof.
  induction xs as [|x xs IH]; intros P H; simpl.
  - exists []. repeat split. intros i x y Hx. discriminate Hx.
  - destruct (H 0%nat x eq_refl) as (y & Hy & Py).
    destruct (IH (fun i => P (S i))) as (ys & Hys & Hlen & Hall).
    { intros i x' Hx'. apply (H (S i)). exact Hx'. }
    exists (y :: ys). rewrite Hy. simpl. rewrite Hys. simpl.
    split; [reflexivity|]. split; [f_equal; exact Hlen|].
    intros [|i] x' y' Hx' Hy'; simpl in *.
    + injection Hx' as <-. injection Hy' as <-. exact Py.
    + eapply Hall; eauto.
Qed.

Lemma lookup_enumerate {A} (xs : list A) (i j : nat) x :
  enumerate xs !! i = Some (j, x) <-> j = i /\ xs !! i = Some x.
Proof.
  unfold enumerate. rewrite lookup_zip_with_Some. split.
  - intros (a & b & [= <- <-] & Ha & Hb). apply lookup_seq in Ha as [-> _]. auto.
  - intros [-> Hx]. exists i, x. split; [reflexivity|]. split; [|exact Hx].
    apply lookup_seq. split; [reflexivity|]. eapply lookup_lt_Some, Hx.
Qed.

Lemma lookup_py_range (n : Z) (i : nat) k :
  py_range n !! i = Some k <-> k = Z.of_nat i /\ 0 <= k < n.
Proof.
  unfold py_range. rewrite list_lookup_fmap. split.
  - intros H. destruct (seq 0 (Z.to_nat n) !! i) as [j|] eqn:E; [|discriminate].
    injection H as <-. apply lookup_seq in E as [-> Hlt]. simpl. lia.
  - intros [-> Hk]. rewrite (proj2 (lookup_seq 0 (Z.to_nat n) i i)); [reflexivity|].
    split; [reflexivity | lia].
Qed.

Lemma py_prod_cons x l : py_prod (x :: l) = x * py_prod l.
Proof.
  unfold py_prod. simpl. replace (1 * x) with x by lia.
  assert (H : forall a, fold_left Z.mul l a = a * fold_left Z.mul l 1).
  { induction l as [|y l IH]; intros a; simpl; [lia|].
    rewrite (IH (a * y)), (IH (1 * y)). lia. }
  apply H.
Qed.

Lemma py_prod_pos l : Forall (fun n => 0 < n) l -> 0 < py_prod l.
Proof.
  induction 1 as [|n l Hn Hl IH]; [reflexivity|]. rewrite py_prod_cons. lia.
Qed.

Lemma fold_left_mul_map {A} (g : A -> Z) (l : list A) :
  fold_left (fun acc x => acc * g x) l 1 = py_prod (map g l).
Proof.
  unfold py_prod. generalize 1. induction l as [|x l IH]; intros a; simpl; [reflexivity|].
  apply IH.
Qed.

Lemma lookup_zip2 {A B} (xs : list A) (ys : list B) (i : nat) x y :
  zip xs ys !! i = Some (x, y) <-> xs !! i = Some x /\ ys !! i = Some y.
Proof.
  rewrite lookup_zip_with_Some. split.
  - intros (a & b & Heq & Ha & Hb). injection Heq as -> ->. auto.
  - intros [Ha Hb]. eauto.
Qed.

Lemma lookup_zip3 {A B C} (xs : list A) (ys : list B) (zs : list C) (i : nat) x y z :
  zip xs (zip ys zs) !! i = Some (x, (y, z)) <->
  xs !! i = Some x /\ ys !! i = Some y /\ zs !! i = Some z.
Proof. rewrite lookup_zip2, lookup_zip2. reflexivity. Qed.

(** ** The tile look-up covers the destination tile exactly (C1) *)

Module TilingFacts.
Import Tiling.

(** **** Row-major unflattening *)

Lemma unflatten_cons2 k n m rest :
  unflatten_tile_index k (n :: m :: rest)
  = (k / py_prod (m :: rest))
      :: unflatten_tile_index (k - k / py_prod (m :: rest) * py_prod (m :: rest))
                              (m :: rest).
Proof. reflexivity. Qed.

(** The coordinates of an index below the product are within the extents. *)
Lemma unflatten_range ns : forall k,
  Forall (fun n => 0 < n) ns -> 0 <= k < py_prod ns ->
  forall (i : nat) n, ns !! i = Some n ->
    exists r, unflatten_tile_index k ns !! i = Some r /\ 0 <= r < n.
Proof.
  induction ns as [|n0 ns IH]; intros k Hpos Hk i n Hi; [discriminate Hi|].
  apply Forall_cons in Hpos as [Hn0 Hpos].
  destruct ns as [|m rest].
  - destruct i as [|i]; [|discriminate Hi]. injection Hi as <-.
    rewrite py_prod_cons in Hk. change (py_prod []) with 1 in Hk.
    exists k. split; [reflexivity | lia].
  - rewrite unflatten_cons2. rewrite py_prod_cons in Hk.
    pose proof (py_prod_pos _ Hpos) as Hp. set (p := py_prod (m :: rest)) in *.
    pose proof (Z.div_mod k p ltac:(lia)) as Hdm.
    pose proof (Z.mod_pos_bound k p Hp) as Hmod.
    destruct i as [|i]; simpl in Hi |- *.
    + injection Hi as <-. exists (k / p). split; [reflexivity|].
      split; [apply Z.div_pos; lia | apply Z.div_lt_upper_bound; lia].
    + apply (IH (k - k / p * p) Hpos); [lia | exact Hi].
Qed.

(** Two indices below the product with the same coordinates are equal. *)
Lemma unflatten_inj ns : forall j k,
  Forall (fun n => 0 < n) ns ->
  0 <= j < py_prod ns -> 0 <= k < py_prod ns ->
  (forall i : nat, (i < length ns)%nat ->
     unflatten_tile_index j ns !! i = unflatten_tile_index k ns !! i) ->
  j = k.
Proof.
  induction ns as [|n0 ns IH]; intros j k Hpos Hj Hk H.
  - change (py_prod []) with 1 in *. lia.
  - apply Forall_cons in Hpos as [Hn0 Hpos]. destruct ns as [|m rest].
    + specialize (H 0%nat ltac:(simpl; lia)). simpl in H. congruence.
    + rewrite py_prod_cons in Hj, Hk.
      pose proof (py_prod_pos _ Hpos) as Hp.
      set (p := py_prod (m :: rest)) in *.
      pose proof (H 0%nat ltac:(simpl; lia)) as H0.
      rewrite !unflatten_cons2 in H0. simpl in H0. injection H0 as H0. fold p in H0.
      pose proof (Z.div_mod j p ltac:(lia)) as Hdj.
      pose proof (Z.mod_pos_bound j p Hp) as Hmj.
      pose proof (Z.div_mod k p ltac:(lia)) as Hdk.
      pose proof (Z.mod_pos_bound k p Hp) as Hmk.
      assert (Hrem : j - j / p * p = k - k / p * p).
      { apply IH; [exact Hpos | lia | lia|].
        intros i Hi. specialize (H (S i) ltac:(simpl in *; lia)).
        rewrite !unflatten_cons2 in H. exact H. }
      rewrite H0 in Hrem. lia.
Qed.

(** Every tuple of coordinates within the extents is the unflattening of an
    index below the product. *)
Lemma unflatten_surj ns : forall rel,
  Forall2 (fun r n => 0 <= r < n) rel ns ->
  exists k, 0 <= k < py_prod ns /\
    forall (i : nat) r, rel !! i = Some r -> unflatten_tile_index k ns !! i = Some r.
Proof.
  induction ns as [|n0 ns IH]; intros rel Hrel.
  - inversion Hrel; subst. exists 0. split; [change (py_prod []) with 1; lia|].
    intros i r Hi. discriminate Hi.
  - inversion Hrel as [|r0 n0' rel' ns' Hr0 Hrel']; subst.
    destruct (IH rel' Hrel') as (k' & Hk' & Hall).
    destruct ns as [|m rest].
    + inversion Hrel'; subst. exists r0. rewrite py_prod_cons.
      change (py_prod []) with 1. split; [lia|].
      intros [|i] r Hi; [exact Hi | discriminate Hi].
    + rewrite py_prod_cons. set (p := py_prod (m :: rest)) in *.
      exists (r0 * p + k'). split; [nia|].
      assert (Hq : (r0 * p + k') / p = r0).
      { symmetry. apply (Z.div_unique _ _ _ k'); lia. }
      intros [|i] r Hi; rewrite unflatten_cons2; fold p; rewrite Hq; simpl in *.
      * exact Hi.
      * replace (r0 * p + k' - r0 * p) with k' by lia. apply Hall, Hi.
Qed.

End TilingFacts.

Module TilingAxis.
Import Tiling.

(** What the first loop records for one axis, for a source tile length [L],
    a destination tile of extent [d] and [cnt] source tiles: the run
    [se = (start_tile, end_tile)] is non-empty and inside the grid, the
    offsets [off] lie inside a tile, and the destination tile ends where
    the last touched source tile is cut. *)
Definition axis_wf (L d cnt : Z) (se off : Z * Z) : Prop :=
  0 < L /\ 0 < d /\
  0 <= off.1 < L /\ 0 < off.2 <= L /\
  0 <= se.1 < se.2 /\ se.2 <= cnt /\
  d + off.1 = (se.2 - se.1 - 1) * L + off.2.

Lemma related_on_axis_ok (a : VirtualDistributedArray) (t : Tile) (i : nat)
    (dim cnt : Z) (ind : slice) :
  tile_shape a !! i = Some cnt ->
  indices t !! i = Some ind ->
  0 < dim -> 0 < cnt -> dim mod cnt = 0 ->
  0 <= start ind < stop ind -> stop ind <= dim ->
  exists se off,
    related_on_axis a t i dim = Ok (se, off) /\
    axis_wf (dim / cnt) (extent ind) cnt se off.
Proof.
  intros Hcnt Hind Hdim Hc Hmod Hab Hb.
  unfold related_on_axis, list_get, py_divmod. rewrite Hcnt. simpl.
  destruct (Z.eqb_spec cnt 0); [lia|]. simpl. rewrite Hmod. simpl.
  rewrite Hind. simpl.
  pose proof (Z.div_mod dim cnt ltac:(lia)) as HL. rewrite Hmod in HL.
  set (L := dim / cnt) in *.
  assert (HLpos : 0 < L) by nia.
  destruct (Z.eqb_spec L 0); [lia|]. simpl.
  destruct ind as [lo hi]. unfold extent. simpl in *.
  pose proof (Z.div_mod lo L ltac:(lia)) as Hlo.
  pose proof (Z.mod_pos_bound lo L HLpos) as Hlo'.
  pose proof (Z.div_mod hi L ltac:(lia)) as Hhi.
  pose proof (Z.mod_pos_bound hi L HLpos) as Hhi'.
  set (qa := lo / L) in *. set (ra := lo mod L) in *.
  set (qb := hi / L) in *. set (rb := hi mod L) in *.
  assert (0 <= qa) by (apply Z.div_pos; lia).
  eexists. eexists. split; [reflexivity|].
  unfold axis_wf. simpl.
  destruct (Z.eqb_spec rb 0) as [Hz|Hz]; simpl.
  - repeat split; try lia; nia.
  - repeat split; try lia; nia.
Qed.

(** The four cases of the inner loop, for the source tile at position [r]
    of a run of [se.2 - se.1] tiles: the slice extracted has the extent of
    its placement, and the placement holds exactly the indices of the
    destination tile that fall into that source tile. *)
Lemma slice_on_axis_ok (t src_tile : Tile) ses offs rel (i : nat)
    (L d cnt r : Z) se off :
  axis_wf L d cnt se off ->
  0 <= r < se.2 - se.1 ->
  ses !! i = Some se ->
  offs !! i = Some off ->
  Tile_tile_shape src_tile !! i = Some L ->
  Tile_tile_shape t !! i = Some d ->
  rel !! i = Some r ->
  exists o pl,
    slice_on_axis t src_tile ses offs rel i (se.1 + r) = Ok (o, pl) /\
    extent o = extent pl /\
    start pl < stop pl /\
    forall x, start pl <= x < stop pl <->
              0 <= x < d /\ r * L <= x + off.1 < (r + 1) * L.
Proof.
  intros (HL & Hd & Hso & Heo & Hse & Hcnt & Hend) Hr Hses Hoffs Hsrc Ht Hrel.
  destruct se as [s e], off as [so eo]. simpl in *.
  unfold slice_on_axis, list_get. rewrite Hses, Hsrc, Hoffs. simpl.
  destruct (Z.eqb_spec (s + r) s) as [H1|H1];
    destruct (Z.eqb_spec (s + r) (e - 1)) as [H2|H2]; simpl.
  - rewrite Ht. simpl. eexists. eexists. split; [reflexivity|].
    unfold extent. simpl. assert (r = 0) as -> by lia.
    assert (e - s - 1 = 0) as Hn by lia. rewrite Hn in Hend.
    split; [lia|]. split; [lia|]. intros x. lia.
  - eexists. eexists. split; [reflexivity|].
    unfold extent. simpl. assert (r = 0) as -> by lia.
    split; [lia|]. split; [lia|]. intros x. nia.
  - rewrite Ht. simpl. eexists. eexists. split; [reflexivity|].
    unfold extent. simpl. assert (r = e - s - 1) as Hr' by lia.
    split; [lia|]. split; [lia|]. intros x. rewrite Hr'. nia.
  - rewrite Hrel. simpl. eexists. eexists. split; [reflexivity|].
    unfold extent. simpl. split; [lia|]. split; [lia|]. intros x. nia.
Qed.

End TilingAxis.

Module TilingGrid.
Import Tiling TilingAxis.

(** The look-up of a cell inside the grid succeeds, and the tile found has
    the source tile length on every axis. *)
Lemma tiles_get_ok (a : VirtualDistributedArray) (idx : list Z) :
  length idx = length (tile_shape a) ->
  length (tile_shape a) = length (tensor_shape a) ->
  (forall (i : nat) cnt k, tile_shape a !! i = Some cnt -> idx !! i = Some k ->
     0 <= k < cnt) ->
  (forall (i : nat) dim cnt, tensor_shape a !! i = Some dim ->
     tile_shape a !! i = Some cnt -> cnt <> 0 /\ dim mod cnt = 0) ->
  exists tile,
    tiles_get a idx = Ok tile /\
    forall (i : nat) dim cnt, tensor_shape a !! i = Some dim ->
      tile_shape a !! i = Some cnt ->
      Tile_tile_shape tile !! i = Some (dim / cnt).
Proof.
  intros Hlen Hrank Hin Hdiv. unfold tiles_get.
  rewrite Hlen, Nat.eqb_refl. simpl.
  destruct (map_r_pointwise
              (fun '(cnt, k) =>
                 if (0 <=? k) && (k <? cnt) then Ok k
                 else if (- cnt <=? k) && (k <? 0) then Ok (k + cnt)
                 else Raise IndexError)
              (zip (tile_shape a) idx)
              (fun _ x y => y = x.2)) as (idx' & Hidx' & Hlen' & Hall).
  { intros i [c k'] Hi. apply lookup_zip2 in Hi as [Hc Hk].
    specialize (Hin i c k' Hc Hk). exists k'. split; [|reflexivity].
    destruct (Z.leb_spec 0 k'), (Z.ltb_spec k' c); simpl; try lia. reflexivity. }
  rewrite Hidx'. simpl.
  assert (idx' = idx) as ->.
  { apply list_eq_same_length with (length idx).
    - reflexivity.
    - rewrite Hlen', length_zip_with. lia.
    - intros i x y Hi Hx Hy.
      destruct (lookup_lt_is_Some_2 (tile_shape a) i ltac:(lia)) as [c Hc].
      rewrite (Hall i (c, y) x); [reflexivity | | exact Hx].
      apply lookup_zip2. auto. }
  unfold tile_at.
  destruct (map_r_pointwise
              (fun '(dim, (cnt, k)) =>
                 do '(tile_size, ragged) <- py_divmod dim cnt;
                 do _ <- py_assert (ragged =? 0);
                 Ok (Slice (tile_size * k) (tile_size * (k + 1))))
              (zip (tensor_shape a) (zip (tile_shape a) idx))
              (fun _ x y => extent y = x.1 / x.2.1)) as (inds & Hinds & Hleni & Halli).
  { intros i [d [c k']] Hi. apply lookup_zip3 in Hi as (Hd & Hc & Hk).
    destruct (Hdiv i d c Hd Hc) as [Hc0 Hmod].
    unfold py_divmod. destruct (Z.eqb_spec c 0); [contradiction|]. simpl.
    rewrite Hmod. simpl. eexists. split; [reflexivity|]. unfold extent. simpl. lia. }
  rewrite Hinds. simpl. eexists. split; [reflexivity|].
  intros i dim cnt Hd Hc. unfold Tile_tile_shape. simpl. rewrite list_lookup_fmap.
  assert (Hi : (i < length idx)%nat).
  { rewrite Hlen. eapply lookup_lt_Some, Hc. }
  destruct (lookup_lt_is_Some_2 idx i Hi) as [k Hk].
  assert (Hz : zip (tensor_shape a) (zip (tile_shape a) idx) !! i = Some (dim, (cnt, k))).
  { apply lookup_zip3. auto. }
  destruct (lookup_lt_is_Some_2 inds i) as [ind Hind].
  { rewrite Hleni. eapply lookup_lt_Some, Hz. }
  rewrite Hind. simpl. f_equal. apply (Halli i _ _ Hz Hind).
Qed.

(** A tile obtained from the grid of a non-empty array is a non-empty
    range inside the array on every axis. *)
Lemma tiles_get_inside (a : VirtualDistributedArray) (idx : list Z) (t : Tile) :
  length (tile_shape a) = length (tensor_shape a) ->
  Forall (fun dim => 0 < dim) (tensor_shape a) ->
  tiles_get a idx = Ok t ->
  Forall2 (fun dim ind => 0 <= start ind < stop ind /\ stop ind <= dim)
          (tensor_shape a) (indices t).
Proof.
  intros Hrank Hpos H. unfold tiles_get in H.
  destruct (Nat.eqb_spec (length idx) (length (tile_shape a))) as [Hlen|]; [|discriminate].
  simpl in H. apply rbind_ok in H as (idx' & Hidx' & H).
  unfold tile_at in H. apply rbind_ok in H as (inds & Hinds & H). injection H as <-.
  simpl.
  pose proof (map_r_length _ _ _ Hidx') as Hl1. rewrite length_zip_with in Hl1.
  pose proof (map_r_length _ _ _ Hinds) as Hl2. rewrite !length_zip_with in Hl2.
  apply Forall2_same_length_lookup_2; [lia|].
  intros i dim ind Hd Hind.
  destruct (map_r_lookup _ _ _ _ _ Hinds Hind) as ([d [c' k']] & Hz & Hf).
  apply lookup_zip3 in Hz as (Hd' & Hc & Hk).
  rewrite Hd in Hd'. injection Hd' as <-.
  destruct (map_r_lookup _ _ _ _ _ Hidx' Hk) as ([c0 k0] & Hz0 & Hf0).
  apply lookup_zip2 in Hz0 as [Hc1 Hk1].
  rewrite Hc in Hc1. injection Hc1 as <-.
  assert (Hkr : 0 <= k' < c').
  { destruct (Z.leb_spec 0 k0), (Z.ltb_spec k0 c'); simpl in Hf0;
      try (injection Hf0 as <-; lia);
      destruct (Z.leb_spec (- c') k0), (Z.ltb_spec k0 0); simpl in Hf0;
      try discriminate; injection Hf0 as <-; lia. }
  unfold py_divmod in Hf. destruct (Z.eqb_spec c' 0); [lia|]. simpl in Hf.
  destruct (Z.eqb_spec (dim mod c') 0) as [Hmod|]; [|discriminate]. simpl in Hf.
  injection Hf as <-. simpl.
  rewrite Forall_forall in Hpos.
  assert (0 < dim) by (eapply Hpos, list_elem_of_lookup_2, Hd).
  pose proof (Z.div_mod dim c' ltac:(lia)) as HL. rewrite Hmod in HL.
  nia.
Qed.

End TilingGrid.

Module TilingCover.
Import Tiling TilingAxis TilingGrid TilingFacts.

(** A list can be chosen element by element. *)
Lemma list_choice {B} (n : nat) : forall (R : nat -> B -> Prop),
  (forall i : nat, (i < n)%nat -> exists r, R i r) ->
  exists l : list B, length l = n /\ forall (i : nat) r, l !! i = Some r -> R i r.
Proof.
  induction n as [|n IH]; intros R H.
  - exists []. split; [reflexivity|]. intros i r Hi. discriminate Hi.
  - destruct (H 0%nat ltac:(lia)) as [r0 Hr0].
    destruct (IH (fun i => R (S i))) as (l & Hl & Hall).
    { intros i Hi. apply H. lia. }
    exists (r0 :: l). split; [simpl; f_equal; exact Hl|].
    intros [|i] r Hi; simpl in Hi; [injection Hi as <-; exact Hr0 | apply Hall, Hi].
Qed.

Section Cover.

Variable a : VirtualDistributedArray.
Variable t : Tile.
Variable related : list ((Z * Z) * (Z * Z)).

Let ses : list (Z * Z) := related.*1.
Let offs : list (Z * Z) := related.*2.
Let ns : list Z := map (fun se : Z * Z => se.2 - se.1) ses.

Hypothesis Hcnts : length (tile_shape a) = length (tensor_shape a).
Hypothesis Hinds : length (indices t) = length (tensor_shape a).
Hypothesis Hrelated : length related = length (tensor_shape a).
Hypothesis Hdiv : forall (i : nat) dim cnt,
  tensor_shape a !! i = Some dim -> tile_shape a !! i = Some cnt ->
  0 < cnt /\ dim mod cnt = 0.
Hypothesis Haxis : forall (i : nat) dim cnt ind se off,
  tensor_shape a !! i = Some dim -> tile_shape a !! i = Some cnt ->
  indices t !! i = Some ind -> related !! i = Some (se, off) ->
  axis_wf (dim / cnt) (extent ind) cnt se off.

(** The data of axis [i]. *)
Lemma axis_data (i : nat) :
  (i < length (tensor_shape a))%nat ->
  exists dim cnt ind se off,
    tensor_shape a !! i = Some dim /\ tile_shape a !! i = Some cnt /\
    indices t !! i = Some ind /\ related !! i = Some (se, off) /\
    ses !! i = Some se /\ offs !! i = Some off /\
    ns !! i = Some (se.2 - se.1) /\
    axis_wf (dim / cnt) (extent ind) cnt se off.
Proof.
  intros Hi.
  destruct (lookup_lt_is_Some_2 (tensor_shape a) i Hi) as [dim Hd].
  destruct (lookup_lt_is_Some_2 (tile_shape a) i ltac:(lia)) as [cnt Hc].
  destruct (lookup_lt_is_Some_2 (indices t) i ltac:(lia)) as [ind Hind].
  destruct (lookup_lt_is_Some_2 related i ltac:(lia)) as [[se off] Hr].
  exists dim, cnt, ind, se, off.
  assert (Hse : ses !! i = Some se).
  { unfold ses. rewrite list_lookup_fmap, Hr. reflexivity. }
  split; [exact Hd|]. split; [exact Hc|]. split; [exact Hind|].
  split; [exact Hr|]. split; [exact Hse|]. split; [|split].
  - unfold offs. rewrite list_lookup_fmap, Hr. reflexivity.
  - unfold ns. rewrite list_lookup_fmap. fold ses. rewrite Hse. reflexivity.
  - eapply Haxis; eauto.
Qed.

Lemma ns_length : length ns = length (tensor_shape a).
Proof. unfold ns, ses. rewrite length_map, length_fmap. exact Hrelated. Qed.

Lemma ns_positive : Forall (fun n => 0 < n) ns.
Proof.
  apply Forall_forall. intros n Hn. apply list_elem_of_lookup in Hn as [i Hi].
  destruct (axis_data i) as (dim & cnt & ind & se & off & _ & _ & _ & _ & _ & _ & Hns & Hwf).
  { rewrite <- ns_length. eapply lookup_lt_Some, Hi. }
  rewrite Hi in Hns. injection Hns as ->.
  destruct Hwf as (_ & _ & _ & _ & Hse & _). lia.
Qed.

(** What the source tile slice of linear index [k] covers on axis [i]: the
    slice [o] extracted from the source tile has the extent of its
    placement [p], and [p] holds exactly the indices of the destination
    tile that fall into the [r]-th touched source tile, [r] being the
    coordinate of [k] on the axis. *)
Definition axis_cover (k : Z) (i : nat) (o p : slice) : Prop :=
  exists dim cnt ind se off r,
    tensor_shape a !! i = Some dim /\ tile_shape a !! i = Some cnt /\
    indices t !! i = Some ind /\ related !! i = Some (se, off) /\
    unflatten_tile_index k ns !! i = Some r /\
    extent o = extent p /\
    start p < stop p /\
    forall x, start p <= x < stop p <->
              0 <= x < extent ind /\
              r * (dim / cnt) <= x + off.1 < (r + 1) * (dim / cnt).

Lemma tileslice_at_ok (k : Z) :
  0 <= k < py_prod ns ->
  exists ts pl,
    tileslice_at a t ses offs k = Ok (ts, pl) /\
    length (offset ts) = length (tensor_shape a) /\
    length pl = length (tensor_shape a) /\
    forall (i : nat) o p, offset ts !! i = Some o -> pl !! i = Some p ->
      axis_cover k i o p.
Proof.
  intros Hk. unfold tileslice_at. fold ns.
  set (rel := unflatten_tile_index k ns).
  assert (Hrel : forall (i : nat) se, ses !! i = Some se ->
            exists r, rel !! i = Some r /\ 0 <= r < se.2 - se.1).
  { intros i se Hse. apply (unflatten_range ns k ns_positive Hk).
    unfold ns. rewrite list_lookup_fmap, Hse. reflexivity. }
  destruct (map_r_pointwise
              (fun '(dim_index, se) =>
                 do r <- list_get rel dim_index; Ok (se.1 + r))
              (enumerate ses)
              (fun i (x : nat * (Z * Z)) y =>
                 exists r, rel !! i = Some r /\ 0 <= r < x.2.2 - x.2.1 /\
                           y = x.2.1 + r))
    as (abs & Habs & Hlabs & Habs').
  { intros i [j se] Hi. apply lookup_enumerate in Hi as [-> Hse].
    destruct (Hrel i se Hse) as (r & Hr & Hrr).
    unfold list_get. rewrite Hr. simpl. eauto 6. }
  rewrite Habs. simpl.
  assert (Hlen_abs : length abs = length (tensor_shape a)).
  { rewrite Hlabs. unfold enumerate. rewrite length_zip_with, length_seq.
    unfold ses. rewrite length_fmap. lia. }
  destruct (tiles_get_ok a abs) as (src_tile & Hsrc & Hshape).
  { lia. }
  { exact Hcnts. }
  { intros i cnt r_abs Hc Hr.
    destruct (axis_data i) as (dim & cnt' & ind & se & off & Hd & Hc' & Hind & Hrl & Hse
                               & Hoff & Hns & Hwf).
    { rewrite <- Hlen_abs. eapply lookup_lt_Some, Hr. }
    rewrite Hc in Hc'. injection Hc' as <-.
    destruct (Habs' i (i, se) r_abs) as (r & _ & Hrr & ->);
      [apply lookup_enumerate; auto | exact Hr|].
    destruct Hwf as (_ & _ & _ & _ & Hs & He & _). simpl in *. lia. }
  { intros i dim cnt Hd Hc. destruct (Hdiv i dim cnt Hd Hc). split; [lia | assumption]. }
  rewrite Hsrc. simpl.
  destruct (map_r_pointwise
              (fun '(i, r) => slice_on_axis t src_tile ses offs rel i r)
              (enumerate abs)
              (fun i (_ : nat * Z) (y : slice * slice) => axis_cover k i y.1 y.2))
    as (pairs & Hpairs & Hlpairs & Hpairs').
  { intros i [j r_abs] Hi. apply lookup_enumerate in Hi as [-> Hr].
    destruct (axis_data i) as (dim & cnt & ind & se & off & Hd & Hc & Hind & Hrl & Hse
                               & Hoff & Hns & Hwf).
    { rewrite <- Hlen_abs. eapply lookup_lt_Some, Hr. }
    destruct (Habs' i (i, se) r_abs) as (r & Hrel_i & Hrr & ->);
      [apply lookup_enumerate; auto | exact Hr|].
    simpl in Hrr.
    destruct (slice_on_axis_ok t src_tile ses offs rel i (dim / cnt) (extent ind)
                cnt r se off Hwf Hrr Hse Hoff) as (o & p & Hok & Hext & Hne & Hiff).
    { apply Hshape; assumption. }
    { unfold Tile_tile_shape. rewrite list_lookup_fmap, Hind. reflexivity. }
    { exact Hrel_i. }
    exists (o, p). split; [exact Hok|].
    exists dim, cnt, ind, se, off, r. simpl. repeat split; try assumption; apply Hiff; assumption. }
  rewrite Hpairs. simpl.
  assert (Hlp : length pairs = length (tensor_shape a)).
  { rewrite Hlpairs. unfold enumerate. rewrite length_zip_with, length_seq. lia. }
  eexists. eexists. split; [reflexivity|]. simpl.
  split; [rewrite length_fmap; exact Hlp|]. split; [rewrite length_fmap; exact Hlp|].
  intros i o p Ho Hp. rewrite list_lookup_fmap in Ho, Hp.
  destruct (pairs !! i) as [[o' p']|] eqn:Hpi; [|discriminate].
  injection Ho as <-. injection Hp as <-.
  assert (Hi : (i < length abs)%nat).
  { rewrite Hlen_abs, <- Hlp. eapply lookup_lt_Some, Hpi. }
  destruct (lookup_lt_is_Some_2 abs i Hi) as [r_abs Hr].
  apply (Hpairs' i (i, r_abs) (o', p')); [apply lookup_enumerate; auto | exact Hpi].
Qed.

Lemma results_cover res :
  map_r (tileslice_at a t ses offs) (py_range (py_prod ns)) = Ok res ->
  exact_cover t res.*1 res.*2.
Proof.
  intros Hres.
  pose proof (map_r_length _ _ _ Hres) as Hlres.
  set (rank := length (tensor_shape a)) in *.
  assert (Hk : forall (k : nat) ts pl, res !! k = Some (ts, pl) ->
            0 <= Z.of_nat k < py_prod ns /\
            length (offset ts) = rank /\ length pl = rank /\
            forall (i : nat) o p, offset ts !! i = Some o -> pl !! i = Some p ->
              axis_cover (Z.of_nat k) i o p).
  { intros k ts pl Hkr.
    destruct (map_r_lookup _ _ _ _ _ Hres Hkr) as (kz & Hkz & Hat).
    apply lookup_py_range in Hkz as [-> Hrange]. split; [exact Hrange|].
    destruct (tileslice_at_ok _ Hrange) as (ts' & pl' & Hat' & H1 & H2 & H3).
    rewrite Hat in Hat'. injection Hat' as <- <-. auto. }
  assert (Hpl : forall (k : nat) pl, res.*2 !! k = Some pl ->
            exists ts, res !! k = Some (ts, pl)).
  { intros k pl H. rewrite list_lookup_fmap in H.
    destruct (res !! k) as [[ts pl']|]; [|discriminate]. injection H as <-. eauto. }
  assert (Hcoord : forall (k : nat) ts pl p (i : nat),
            res !! k = Some (ts, pl) -> in_box pl p -> (i < rank)%nat ->
            exists dim cnt ind se off r x,
              tensor_shape a !! i = Some dim /\ tile_shape a !! i = Some cnt /\
              indices t !! i = Some ind /\ related !! i = Some (se, off) /\
              unflatten_tile_index (Z.of_nat k) ns !! i = Some r /\
              p !! i = Some x /\ 0 <= x < extent ind /\
              r * (dim / cnt) <= x + off.1 < (r + 1) * (dim / cnt)).
  { intros k ts pl p i Hkr Hbox Hi.
    destruct (Hk k ts pl Hkr) as (_ & Hlo & Hlp & Hcov).
    destruct (lookup_lt_is_Some_2 (offset ts) i ltac:(lia)) as [o Ho].
    destruct (lookup_lt_is_Some_2 pl i ltac:(lia)) as [pi Hpi].
    destruct (Forall2_lookup_l _ _ _ _ _ Hbox Hpi) as (x & Hx & Hin).
    destruct (Hcov i o pi Ho Hpi)
      as (dim & cnt & ind & se & off & r & Hd & Hc & Hind & Hrl & Hr & _ & _ & Hiff).
    destruct (proj1 (Hiff x) Hin) as [Hin1 Hin2].
    exists dim, cnt, ind, se, off, r, x. auto 10. }
  split; [rewrite !length_fmap; reflexivity|]. split; [|split; [|split]].
  - apply Forall_forall. intros pl Hin. apply list_elem_of_lookup in Hin as [k Hpl'].
    destruct (Hpl k pl Hpl') as [ts Hkr].
    destruct (Hk k ts pl Hkr) as (_ & Hlo & Hlpl & Hcov).
    apply Forall_forall. intros pi Hin. apply list_elem_of_lookup in Hin as [i Hpi].
    destruct (lookup_lt_is_Some_2 (offset ts) i) as [o Ho].
    { rewrite Hlo, <- Hlpl. eapply lookup_lt_Some, Hpi. }
    destruct (Hcov i o pi Ho Hpi)
      as (dim & cnt & ind & se & off & r & _ & _ & _ & _ & _ & _ & Hne & _).
    exact Hne.
  - intros p. split.
    + intros Hp.
      assert (Hlp : length p = rank).
      { apply Forall2_length in Hp. unfold full_box, Tile_tile_shape in Hp.
        rewrite !length_map in Hp. lia. }
      assert (Hp' : forall (i : nat) ind x, indices t !! i = Some ind ->
                p !! i = Some x -> 0 <= x < extent ind).
      { intros i ind x Hind Hx.
        assert (Hf : full_box t !! i = Some (Slice 0 (extent ind))).
        { unfold full_box, Tile_tile_shape. rewrite !list_lookup_fmap, Hind. reflexivity. }
        pose proof (Forall2_lookup_lr _ _ _ _ _ _ Hp Hf Hx) as H. simpl in H. exact H. }
      destruct (list_choice rank
                  (fun i r =>
                     exists dim cnt ind se off x,
                       tensor_shape a !! i = Some dim /\ tile_shape a !! i = Some cnt /\
                       indices t !! i = Some ind /\ related !! i = Some (se, off) /\
                       p !! i = Some x /\ 0 <= r < se.2 - se.1 /\
                       r * (dim / cnt) <= x + off.1 < (r + 1) * (dim / cnt)))
        as (rel & Hlrel & Hrel).
      { intros i Hi.
        destruct (axis_data i Hi) as (dim & cnt & ind & se & off & Hd & Hc & Hind & Hrl
                                      & _ & _ & _ & Hwf).
        destruct (lookup_lt_is_Some_2 p i ltac:(lia)) as [x Hx].
        pose proof (Hp' i ind x Hind Hx) as Hxr.
        destruct Hwf as (HL & Hd0 & Hso & Heo & Hse & Hcnt & Hend).
        set (L := dim / cnt) in *.
        pose proof (Z.div_mod (x + off.1) L ltac:(lia)) as Hdm.
        pose proof (Z.mod_pos_bound (x + off.1) L HL) as Hmb.
        exists ((x + off.1) / L), dim, cnt, ind, se, off, x.
        repeat split; try assumption; try lia.
        - apply Z.div_pos; lia.
        - apply Z.div_lt_upper_bound; nia. }
      destruct (unflatten_surj ns rel) as (kz & Hkz & Hsurj).
      { apply Forall2_same_length_lookup_2; [rewrite ns_length; exact Hlrel|].
        intros i r n Hr Hn.
        destruct (Hrel i r Hr) as (dim & cnt & ind & se & off & x & _ & _ & _ & Hrl & _ & Hrr & _).
        unfold ns, ses in Hn. rewrite !list_lookup_fmap, Hrl in Hn. injection Hn as <-.
        exact Hrr. }
      destruct (lookup_lt_is_Some_2 res (Z.to_nat kz)) as [[ts pl] Hkr].
      { rewrite Hlres. unfold py_range. rewrite length_map, length_seq. lia. }
      exists (Z.to_nat kz), pl. split; [rewrite list_lookup_fmap, Hkr; reflexivity|].
      destruct (Hk _ ts pl Hkr) as (_ & Hlo & Hlpl & Hcov).
      rewrite Z2Nat.id in Hcov by lia.
      apply Forall2_same_length_lookup_2; [lia|].
      intros i pi x Hpi Hx.
      assert (Hi : (i < rank)%nat) by (rewrite <- Hlpl; eapply lookup_lt_Some, Hpi).
      destruct (lookup_lt_is_Some_2 (offset ts) i ltac:(lia)) as [o Ho].
      destruct (Hcov i o pi Ho Hpi)
        as (dim & cnt & ind & se & off & r & Hd & Hc & Hind & Hrl & Hr & _ & _ & Hiff).
      apply Hiff.
      destruct (lookup_lt_is_Some_2 rel i ltac:(lia)) as [r' Hr'].
      destruct (Hrel i r' Hr')
        as (dim' & cnt' & ind' & se' & off' & x' & Hd' & Hc' & Hind' & Hrl' & Hx' & Hrr & Hin).
      rewrite (Hsurj i r' Hr') in Hr. injection Hr as <-.
      rewrite Hd in Hd'. injection Hd' as <-. rewrite Hc in Hc'. injection Hc' as <-.
      rewrite Hind in Hind'. injection Hind' as <-.
      rewrite Hrl in Hrl'. injection Hrl' as <- <-.
      rewrite Hx in Hx'. injection Hx' as <-.
      split; [eapply Hp'; eauto | exact Hin].
    + intros (k & pl & Hpl' & Hbox).
      destruct (Hpl k pl Hpl') as [ts Hkr].
      destruct (Hk k ts pl Hkr) as (_ & _ & Hlpl & _).
      pose proof (Forall2_length _ _ _ Hbox) as Hlp.
      apply Forall2_same_length_lookup_2.
      { unfold full_box, Tile_tile_shape. rewrite !length_map. lia. }
      intros i f x Hf Hx.
      assert (Hi : (i < rank)%nat) by (rewrite <- Hlpl, Hlp; eapply lookup_lt_Some, Hx).
      destruct (Hcoord k ts pl p i Hkr Hbox Hi)
        as (dim & cnt & ind & se & off & r & x' & _ & _ & Hind & _ & _ & Hx' & Hxr & _).
      rewrite Hx in Hx'. injection Hx' as <-.
      unfold full_box, Tile_tile_shape in Hf. rewrite !list_lookup_fmap, Hind in Hf.
      injection Hf as <-. simpl. exact Hxr.
  - intros j k plj plk p Hj Hk' Hbj Hbk.
    destruct (Hpl j plj Hj) as [tsj Hjr]. destruct (Hpl k plk Hk') as [tsk Hkr].
    destruct (Hk j tsj plj Hjr) as (Hjrange & _). destruct (Hk k tsk plk Hkr) as (Hkrange & _).
    apply Nat2Z.inj. apply (unflatten_inj ns); [exact ns_positive | assumption | assumption|].
    intros i Hi. rewrite ns_length in Hi.
    destruct (Hcoord j tsj plj p i Hjr Hbj Hi)
      as (dim & cnt & ind & se & off & rj & x & Hd & Hc & Hind & Hrl & Hrj & Hx & _ & Hinj).
    destruct (Hcoord k tsk plk p i Hkr Hbk Hi)
      as (dim' & cnt' & ind' & se' & off' & rk & x' & Hd' & Hc' & Hind' & Hrl' & Hrk & Hx'
          & _ & Hink).
    rewrite Hd in Hd'. injection Hd' as <-. rewrite Hc in Hc'. injection Hc' as <-.
    rewrite Hrl in Hrl'. injection Hrl' as <- <-.
    rewrite Hx in Hx'. injection Hx' as <-.
    rewrite Hrj, Hrk. f_equal.
    destruct (Haxis i dim cnt ind se off Hd Hc Hind Hrl) as (HL & _).
    nia.
  - intros k ts pl Hts Hpl'. rewrite list_lookup_fmap in Hts.
    destruct (Hpl k pl Hpl') as [ts' Hkr]. rewrite Hkr in Hts. injection Hts as <-.
    destruct (Hk k ts' pl Hkr) as (_ & Hlo & Hlpl & Hcov).
    apply list_eq_same_length with rank; [rewrite length_map; exact Hlpl
                                         | rewrite length_map; exact Hlo|].
    intros i eo ep Hi Heo Hep. rewrite list_lookup_fmap in Heo, Hep.
    destruct (offset ts' !! i) as [o|] eqn:Ho; [|discriminate].
    destruct (pl !! i) as [pi|] eqn:Hpi; [|discriminate].
    injection Heo as <-. injection Hep as <-.
    destruct (Hcov i o pi Ho Hpi) as (dim & cnt & ind & se & off & r & _ & _ & _ & _ & _ & He & _).
    exact He.
Qed.

End Cover.

End TilingCover.

Module TilingMain.
Import Tiling TilingAxis TilingGrid TilingFacts TilingCover.

(** The look-up succeeds and tiles any non-empty destination range that
    lies inside the array, when the source tile counts are positive and
    divide the positive axis lengths. *)
Lemma look_up_cover (self : ReshardingTaskSpec) (t : Tile) :
  Forall2 (fun dim cnt => 0 < dim /\ 0 < cnt /\ dim mod cnt = 0)
          (tensor_shape (src self)) (tile_shape (src self)) ->
  Forall2 (fun dim ind => 0 <= start ind < stop ind /\ stop ind <= dim)
          (tensor_shape (src self)) (indices t) ->
  exists slices placements,
    _look_up_dst_tile_from_src self t = Ok (slices, placements) /\
    exact_cover t slices placements.
Proof.
  intros Hsrc Ht. unfold _look_up_dst_tile_from_src.
  set (a := src self) in *.
  pose proof (Forall2_length _ _ _ Hsrc) as Hlc.
  pose proof (Forall2_length _ _ _ Ht) as Hli.
  destruct (map_r_pointwise
              (fun '(i, dim) => related_on_axis a t i dim)
              (enumerate (tensor_shape a))
              (fun i (x : nat * Z) (y : (Z * Z) * (Z * Z)) =>
                 forall cnt ind, tile_shape a !! i = Some cnt ->
                   indices t !! i = Some ind ->
                   axis_wf (x.2 / cnt) (extent ind) cnt y.1 y.2))
    as (related & Hrel & Hlrel & Hrel').
  { intros i [j dim] Hi. apply lookup_enumerate in Hi as [-> Hd].
    destruct (Forall2_lookup_l _ _ _ _ _ Hsrc Hd) as (cnt & Hc & Hdim & Hcnt & Hmod).
    destruct (Forall2_lookup_l _ _ _ _ _ Ht Hd) as (ind & Hind & Hab & Hb).
    destruct (related_on_axis_ok a t i dim cnt ind Hc Hind Hdim Hcnt Hmod Hab Hb)
      as (se & off & Hok & Hwf).
    exists (se, off). split; [exact Hok|].
    intros cnt' ind' Hc' Hind'. simpl.
    rewrite Hc in Hc'. injection Hc' as <-. rewrite Hind in Hind'. injection Hind' as <-.
    exact Hwf. }
  rewrite Hrel. simpl. rewrite fold_left_mul_map.
  assert (Hlen : length related = length (tensor_shape a)).
  { rewrite Hlrel. unfold enumerate. rewrite length_zip_with, length_seq. lia. }
  assert (Hdiv : forall (i : nat) dim cnt, tensor_shape a !! i = Some dim ->
            tile_shape a !! i = Some cnt -> 0 < cnt /\ dim mod cnt = 0).
  { intros i dim cnt Hd Hc.
    pose proof (Forall2_lookup_lr _ _ _ _ _ _ Hsrc Hd Hc) as (_ & H1 & H2). auto. }
  assert (Haxis : forall (i : nat) dim cnt ind se off,
            tensor_shape a !! i = Some dim -> tile_shape a !! i = Some cnt ->
            indices t !! i = Some ind -> related !! i = Some (se, off) ->
            axis_wf (dim / cnt) (extent ind) cnt se off).
  { intros i dim cnt ind se off Hd Hc Hind Hr.
    apply (Hrel' i (i, dim) (se, off)); [apply lookup_enumerate; auto | assumption..]. }
  destruct (map_r_pointwise
              (tileslice_at a t related.*1 related.*2)
              (py_range (py_prod (map (fun se : Z * Z => se.2 - se.1) related.*1)))
              (fun _ _ _ => True))
    as (res & Hres & _ & _).
  { intros i k Hk. apply lookup_py_range in Hk as [_ Hk].
    destruct (tileslice_at_ok a t related (eq_sym Hlc) (eq_sym Hli) Hlen Hdiv Haxis k Hk)
      as (ts & pl & Hok & _).
    exists (ts, pl). split; [exact Hok | exact I]. }
  rewrite Hres. simpl. eexists. eexists. split; [reflexivity|].
  apply (results_cover a t related (eq_sym Hlc) (eq_sym Hli) Hlen Hdiv Haxis res Hres).
Qed.

End TilingMain.

(** C1.  Let the source tile counts be positive and divide the (positive)
    axis lengths, and let [T] be a tile of the destination grid of the same
    array.  Then [_look_up_dst_tile_from_src] returns its slices and
    placements, the placements are pairwise disjoint, their union is the
    whole local index space of [T], and every slice has on every axis the
    extent of its placement. *)
Theorem look_up_dst_tile_is_exact_cover
    (self : ReshardingTaskSpec) (idx : list Z) (T : Tile) :
  tensor_shape (dst self) = tensor_shape (src self) ->
  length (tile_shape (dst self)) = length (tensor_shape (dst self)) ->
  Forall2 (fun dim cnt => 0 < dim /\ 0 < cnt /\ dim mod cnt = 0)
          (tensor_shape (src self)) (tile_shape (src self)) ->
  Tiling.tiles_get (dst self) idx = Ok T ->
  exists slices placements,
    Tiling._look_up_dst_tile_from_src self T = Ok (slices, placements) /\
    Tiling.exact_cover T slices placements.
Proof.
  intros Hshape Hrank Hsrc HT.
  apply TilingMain.look_up_cover; [exact Hsrc|].
  rewrite <- Hshape. apply (TilingGrid.tiles_get_inside _ idx); [exact Hrank | | exact HT].
  rewrite Hshape. clear -Hsrc.
  induction Hsrc as [|dim cnt dims cnts [Hdim _] _ IH]; constructor; assumption.
Qed.

(** The middle destination tile is made of 2 x 3 source slices: two rows
    from the second source row of tiles, two from the third, and the three
    source columns of tiles whole. *)
Lemma look_up_dst_tile_is_exact_cover_witness :
  Tiling.tiles_get (dst TilingExample.spec) [1; 0] = Ok TilingExample.middle_tile /\
  indices TilingExample.middle_tile = [Slice 4 8; Slice 0 6] /\
  exists slices placements,
    Tiling._look_up_dst_tile_from_src TilingExample.spec TilingExample.middle_tile
      = Ok (slices, placements) /\
    Tiling.exact_cover TilingExample.middle_tile slices placements.
Proof.
  split; [vm_compute; reflexivity|].
  split; [vm_compute; reflexivity|].
  apply (look_up_dst_tile_is_exact_cover TilingExample.spec [1; 0]
           TilingExample.middle_tile).
  - reflexivity.
  - reflexivity.
  - repeat constructor.
  - vm_compute. reflexivity.
Defined.

(** The placements of the example, slice by slice. *)
Example look_up_middle_tile_placements :
  match Tiling._look_up_dst_tile_from_src TilingExample.spec
          TilingExample.middle_tile with
  | Ok (slices, placements) =>
      map offset slices
        = [[Slice 1 3; Slice 0 2]; [Slice 1 3; Slice 0 2]; [Slice 1 3; Slice 0 2];
           [Slice 0 2; Slice 0 2]; [Slice 0 2; Slice 0 2]; [Slice 0 2; Slice 0 2]] /\
      placements
        = [[Slice 0 2; Slice 0 2]; [Slice 0 2; Slice 2 4]; [Slice 0 2; Slice 4 6];
           [Slice 2 4; Slice 0 2]; [Slice 2 4; Slice 2 4]; [Slice 2 4; Slice 4 6]]
  | Raise _ => False
  end.
Proof. vm_compute. split; reflexivity. Qed.

(** On an array with a zero-length axis the source tile length is 0 and the
    look-up raises before it returns anything. *)
Example look_up_zero_length_axis_raises :
  let empty_array :=
    {| device_mesh := CompileExample.src_mesh;
       aval := {| shape := [0]; dtype := "float32" |};
       sharding_spec := {| sharding := []; mesh_mapping := [] |};
       tile_shape := [1];
       tile_replica_device_strs := fun _ => [] |} in
  exists T,
    Tiling.tiles_get empty_array [0] = Ok T /\
    Tiling._look_up_dst_tile_from_src (TaskSpec.init empty_array empty_array None) T
      = Raise ZeroDivisionError.
Proof. eexists. split; vm_compute; reflexivity. Qed.

(** ** The rank tables of the collective group (C2) *)

(** C2 on the code.  With a 1x1 source mesh and a 2x2 destination mesh the
    constructor succeeds, but device 0 of destination host 1
    ("10.0.0.3:0") is recorded with rank (2, 1) instead of (2, 0), device 1
    of destination host 0 ("10.0.0.2:1") with rank (2, 0) instead of (1, 1),
    and device 1 of destination host 1 ("10.0.0.3:1") is missing from the
    table. *)
Theorem collective_group_dst_ranks_misassigned :
  exists g,
    CollectiveGroup.init [] CollectiveGroup.mesh_1x1 CollectiveGroup.mesh_2x2
      = Ok g /\
    CollectiveGroup.mesh_workers g = [Some 0%nat; Some 1%nat; Some 2%nat] /\
    CollectiveGroup.mesh_device CollectiveGroup.mesh_2x2 1 0 = Some "10.0.0.3:0" /\
    CollectiveGroup.device_str_to_rank_map g !! "10.0.0.3:0" = Some (2%nat, 1%nat) /\
    CollectiveGroup.mesh_device CollectiveGroup.mesh_2x2 0 1 = Some "10.0.0.2:1" /\
    CollectiveGroup.device_str_to_rank_map g !! "10.0.0.2:1" = Some (2%nat, 0%nat) /\
    CollectiveGroup.mesh_device CollectiveGroup.mesh_2x2 1 1 = Some "10.0.0.3:1" /\
    CollectiveGroup.device_str_to_rank_map g !! "10.0.0.3:1" = None.
Proof.
  eexists. split; [vm_compute; reflexivity|].
  repeat split; vm_compute; reflexivity.
Qed.

(** ** The strategy generator is the first-minimum greedy rule (C3, C4) *)

Module StrategyFacts.
Import Strategy.

Definition keep_min (best kv : string * Z) : string * Z :=
  if kv.2 <? best.2 then kv else best.

(** The scan of [min]: the result sits at some position of the list, is
    strictly below everything before it and not above anything. *)
Lemma fold_keep_min rest : forall kv,
  let r := fold_left keep_min rest kv in
  exists k : nat,
    (kv :: rest) !! k = Some r /\
    (forall (j : nat) x, (j < k)%nat -> (kv :: rest) !! j = Some x -> r.2 < x.2) /\
    (forall x, x ∈ kv :: rest -> r.2 <= x.2).
Proof.
  induction rest as [|x rest IH]; intros kv; simpl.
  - exists 0%nat. split; [reflexivity|]. split; [lia|].
    intros y Hy. apply list_elem_of_singleton in Hy as ->. lia.
  - destruct (IH (keep_min kv x)) as (k & Hk & Hlt & Hle).
    set (r := fold_left keep_min rest (keep_min kv x)) in *.
    assert (Hr : r.2 <= (keep_min kv x).2) by (apply Hle; left).
    unfold keep_min in *. destruct (Z.ltb_spec x.2 kv.2) as [Hx|Hx].
    + exists (S k). split; [exact Hk|]. split.
      * intros j y Hj Hy. destruct j as [|j]; simpl in Hy.
        -- injection Hy as <-. lia.
        -- apply (Hlt j); [lia | exact Hy].
      * intros y Hy. apply elem_of_cons in Hy as [->|Hy]; [lia | apply Hle, Hy].
    + destruct k as [|k].
      * exists 0%nat. simpl in Hk. split; [exact Hk|]. split; [lia|].
        intros y Hy. apply elem_of_cons in Hy as [->|Hy]; [lia|].
        apply elem_of_cons in Hy as [->|Hy]; [lia|]. apply Hle. right. exact Hy.
      * exists (S (S k)). split; [exact Hk|]. split.
        -- intros j y Hj Hy. destruct j as [|[|j]]; simpl in Hy.
           ++ injection Hy as <-. apply (Hlt 0%nat); [lia | reflexivity].
           ++ injection Hy as <-. pose proof (Hlt 0%nat kv ltac:(lia) eq_refl). lia.
           ++ apply (Hlt (S j)); [lia | exact Hy].
        -- intros y Hy. apply elem_of_cons in Hy as [->|Hy]; [apply Hle; left|].
           apply elem_of_cons in Hy as [->|Hy]; [lia|]. apply Hle. right. exact Hy.
Qed.

(** The best pair of a dict, [None] when it is empty. *)
Definition best (l : list (string * Z)) : option (string * Z) :=
  match l with
  | [] => None
  | kv :: rest => Some (fold_left keep_min rest kv)
  end.

Lemma py_min_by_best loads s :
  py_min_by loads = Ok s -> exists v, best loads = Some (s, v).
Proof.
  destruct loads as [|kv rest]; simpl; [discriminate|].
  intros [= <-]. fold keep_min.
  destruct (fold_left keep_min rest kv) as [k v]. eauto.
Qed.

Lemma best_py_min_by loads b :
  best loads = Some b -> py_min_by loads = Ok b.1.
Proof.
  destruct loads as [|kv rest]; simpl; [discriminate|].
  intros [= <-]. reflexivity.
Qed.

Lemma best_app l r :
  best (l ++ r) = match best l with
                  | None => best r
                  | Some b => Some (fold_left keep_min r b)
                  end.
Proof.
  destruct l as [|kv l]; simpl; [reflexivity|].
  rewrite fold_left_app. reflexivity.
Qed.

Lemma best_le l b x : best l = Some b -> x ∈ l -> b.2 <= x.2.
Proof.
  destruct l as [|kv rest]; simpl; [discriminate|]. intros [= <-] Hx.
  destruct (fold_keep_min rest kv) as (k & _ & _ & Hle). apply Hle, Hx.
Qed.

Lemma alist_insert_cases (k : string) (v : Z) acc :
  (forall v', (k, v') ∈ acc -> v' = v) ->
  (alist_insert k v acc = acc /\ (k, v) ∈ acc) \/
  alist_insert k v acc = acc ++ [(k, v)].
Proof.
  induction acc as [|[k' v'] acc IH]; intros Hc; simpl.
  - right. reflexivity.
  - destruct (decide (k = k')) as [<-|Hne].
    + left. rewrite (Hc v') by left. split; [reflexivity | left].
    + destruct IH as [[E Hin]|E].
      * intros v'' H. apply Hc. right. exact H.
      * left. rewrite E. split; [reflexivity | right; exact Hin].
      * right. rewrite E. reflexivity.
Qed.

Lemma best_alist_insert (k : string) (v : Z) acc :
  (forall v', (k, v') ∈ acc -> v' = v) ->
  best (alist_insert k v acc) = best (acc ++ [(k, v)]).
Proof.
  intros Hc. destruct (alist_insert_cases k v acc Hc) as [[E Hin]|E]; rewrite E;
    [|reflexivity].
  rewrite best_app. destruct (best acc) as [b|] eqn:Hb.
  - pose proof (best_le _ _ _ Hb Hin) as Hle. simpl in Hle.
    simpl. unfold keep_min. cbn [snd].
    destruct (Z.ltb_spec v b.2); [lia | reflexivity].
  - destruct acc; [inversion Hin | discriminate].
Qed.

Lemma elem_of_alist_insert (k : string) (v : Z) acc k' v' :
  (k', v') ∈ alist_insert k v acc -> (k', v') = (k, v) \/ (k', v') ∈ acc.
Proof.
  induction acc as [|[k0 v0] acc IH]; simpl.
  - intros H. apply list_elem_of_singleton in H. left. exact H.
  - destruct (decide (k = k0)) as [<-|Hne]; intros H.
    + apply elem_of_cons in H as [H|H]; [left; exact H | right; right; exact H].
    + apply elem_of_cons in H as [H|H]; [right; rewrite H; left|].
      destruct (IH H) as [H'|H']; [left; exact H' | right; right; exact H'].
Qed.

(** The dict comprehension: its best pair is the best pair of the holders
    listed with their loads. *)
Lemma collect_loads_best (sl : gmap string Z) holders : forall acc loads,
  (forall k v, (k, v) ∈ acc -> sl !! k = Some v) ->
  for_each holders
    (fun loads sender => do v <- dict_get sl sender; Ok (alist_insert sender v loads))
    acc = Ok loads ->
  exists vs,
    Forall2 (fun h v => sl !! h = Some v) holders vs /\
    best loads = best (acc ++ zip holders vs).
Proof.
  induction holders as [|h hs IH]; intros acc loads Hc H; simpl in H.
  - injection H as <-. exists []. split; [constructor|]. simpl. rewrite app_nil_r. reflexivity.
  - apply rbind_ok in H as (acc' & Hacc' & H).
    apply rbind_ok in Hacc' as (v & Hv & Hacc'). injection Hacc' as <-.
    unfold dict_get in Hv. destruct (sl !! h) as [v0|] eqn:Hh; [|discriminate].
    injection Hv as ->.
    assert (Hcv : forall v', (h, v') ∈ acc -> v' = v).
    { intros v' Hin. apply Hc in Hin. congruence. }
    destruct (IH (alist_insert h v acc) loads) as (vs & Hvs & Hbest); [|exact H|].
    { intros k' v' Hin. apply elem_of_alist_insert in Hin as [[= -> ->]|Hin]; auto. }
    exists (v :: vs). split; [constructor; assumption|].
    rewrite Hbest. simpl. rewrite !best_app, (best_alist_insert _ _ _ Hcv), best_app.
    destruct (best acc); reflexivity.
Qed.

Lemma collect_loads_total (sl : gmap string Z) holders : forall acc,
  (forall h, h ∈ holders -> is_Some (sl !! h)) ->
  exists loads,
    for_each holders
      (fun loads sender => do v <- dict_get sl sender; Ok (alist_insert sender v loads))
      acc = Ok loads.
Proof.
  induction holders as [|h hs IH]; intros acc Hin; simpl.
  - eauto.
  - destruct (Hin h) as [v Hv]; [left|]. unfold dict_get at 1. rewrite Hv. simpl.
    apply IH. intros h' Hh'. apply Hin. right. exact Hh'.
Qed.

(** What [collect_loads] followed by [min] returns is the first minimal
    holder. *)
Lemma chosen_first_min (sl : gmap string Z) holders loads s :
  collect_loads sl holders = Ok loads ->
  py_min_by loads = Ok s ->
  first_min_holder sl holders s.
Proof.
  intros Hcol Hmin. unfold collect_loads in Hcol.
  apply collect_loads_best in Hcol as (vs & Hvs & Hbest);
    [|intros k v Hin; inversion Hin].
  apply py_min_by_best in Hmin as [v Hv]. rewrite Hv in Hbest. simpl in Hbest.
  symmetry in Hbest.
  destruct (zip holders vs) as [|kv rest] eqn:Hz; [discriminate|].
  simpl in Hbest. injection Hbest as Hbest.
  destruct (fold_keep_min rest kv) as (k & Hk & Hlt & Hle).
  cbv zeta in *. rewrite Hbest in *. simpl in *. rewrite <- Hz in *.
  assert (Hlook : forall (j : nat) t lt, zip holders vs !! j = Some (t, lt) ->
            holders !! j = Some t /\ sl !! t = Some lt).
  { intros j t lt Hj. apply lookup_zip_with_Some in Hj as (a & b & [= <- <-] & Ha & Hb).
    split; [exact Ha|]. eapply Forall2_lookup_lr in Hvs; eauto. }
  destruct (Hlook _ _ _ Hk) as [Hks Hsv].
  exists k, v. split; [exact Hks|]. split; [exact Hsv|]. split.
  - intros t Ht. apply list_elem_of_lookup in Ht as [j Hj].
    destruct (Forall2_lookup_l _ _ _ _ _ Hvs Hj) as (lt & Hlt' & Hsl).
    exists lt. split; [exact Hsl|].
    apply (Hle (t, lt)). apply list_elem_of_lookup. exists j.
    apply lookup_zip_with_Some. eauto.
  - intros j t Hj Ht.
    destruct (Forall2_lookup_l _ _ _ _ _ Hvs Ht) as (lt & Hlt' & Hsl).
    exists lt. split; [exact Hsl|].
    apply (Hlt j (t, lt) Hj). apply lookup_zip_with_Some. eauto.
Qed.

Lemma assign_sender_greedy st receiver sl s st' :
  assign_sender st receiver sl = Ok (s, st') ->
  greedy_step st (receiver, sl) s st'.
Proof.
  unfold assign_sender. intros H.
  apply rbind_ok in H as (loads & Hcol & H).
  apply rbind_ok in H as (sender & Hmin & H).
  apply rbind_ok in H as (ls & Hls & H).
  apply rbind_ok in H as (lr & Hlr & H).
  injection H as <- <-.
  unfold dict_get in Hls, Hlr.
  destruct (_sender_loads st !! sender) as [ls'|] eqn:E1; [|discriminate].
  destruct (_receiver_loads st !! receiver) as [lr'|] eqn:E2; [|discriminate].
  injection Hls as ->. injection Hlr as ->.
  split; [eapply chosen_first_min; eauto|]. simpl. split; eauto.
Qed.

Lemma run_requests_greedy reqs : forall st senders st',
  run_requests reqs st = Ok (senders, st') ->
  greedy_run st reqs senders st'.
Proof.
  unfold run_requests.
  induction reqs as [|[r sl] reqs IH]; intros st senders st' H; simpl in H.
  - injection H as <- <-. constructor.
  - apply rbind_ok in H as ([s st1] & Hs & H).
    apply rbind_ok in H as ([ss st2] & Hss & H). injection H as <- <-.
    econstructor; [apply assign_sender_greedy; exact Hs | apply IH; exact Hss].
Qed.

End StrategyFacts.

Module StrategyRun.
Import Strategy StrategyFacts.

Lemma row_requests receiver slices : forall st row st',
  map_st (fun st sl => assign_sender st receiver sl) slices st = Ok (row, st') ->
  run_requests (map (pair receiver) slices) st = Ok (row, st') /\
  length row = length slices.
Proof.
  unfold run_requests.
  induction slices as [|sl slices IH]; intros st row st' H; simpl in *.
  - injection H as <- <-. split; reflexivity.
  - apply rbind_ok in H as ([s st1] & Hs & H).
    apply rbind_ok in H as ([ss st2] & Hss & H). injection H as <- <-.
    rewrite Hs. simpl. destruct (IH _ _ _ Hss) as [-> Hlen]. simpl.
    split; [reflexivity | f_equal; exact Hlen].
Qed.

Lemma tile_requests slices replicas : forall st plan st',
  map_st (fun st receiver =>
            map_st (fun st sl => assign_sender st receiver sl) slices st)
         replicas st = Ok (plan, st') ->
  run_requests (flat_map (fun receiver => map (pair receiver) slices) replicas) st
    = Ok (concat plan, st') /\
  length plan = length replicas /\
  Forall (fun row => length row = length slices) plan.
Proof.
  induction replicas as [|r replicas IH]; intros st plan st' H; simpl in *.
  - injection H as <- <-. repeat split; constructor.
  - apply rbind_ok in H as ([row st1] & Hrow & H).
    apply rbind_ok in H as ([rows st2] & Hrows & H). injection H as <- <-.
    destruct (row_requests _ _ _ _ _ Hrow) as [Hr Hlen].
    destruct (IH _ _ _ Hrows) as (Hrs & Hlens & Hall). simpl.
    split; [|split; [f_equal; exact Hlens | constructor; assumption]].
    unfold run_requests in *. eapply map_st_app; eauto.
Qed.

Lemma plan_entries_requests mapping : forall st plans st',
  plan_entries mapping st = Ok (plans, st') ->
  run_requests (requests mapping) st = Ok (concat (concat plans), st') /\
  plan_shape_ok mapping plans.
Proof.
  unfold plan_entries, plan_shape_ok.
  induction mapping as [|[[dst_tile slices] inds] mapping IH];
    intros st plans st' H; simpl in *.
  - injection H as <- <-. split; [reflexivity | constructor].
  - apply rbind_ok in H as ([plan st1] & Hplan & H).
    apply rbind_ok in H as ([ps st2] & Hps & H). injection H as <- <-.
    destruct (tile_requests _ _ _ _ _ Hplan) as (Hr & Hlen & Hall).
    destruct (IH _ _ _ Hps) as [Hrs Hshape]. simpl.
    split; [|constructor; [split; assumption | exact Hshape]].
    rewrite concat_app. unfold run_requests in *. eapply map_st_app; eauto.
Qed.

Lemma greedy_run_app st reqs1 senders1 st1 reqs2 senders2 st2 :
  greedy_run st reqs1 senders1 st1 ->
  greedy_run st1 reqs2 senders2 st2 ->
  greedy_run st (reqs1 ++ reqs2) (senders1 ++ senders2) st2.
Proof.
  induction 1; intros H2; simpl; [exact H2|].
  econstructor; eauto.
Qed.

End StrategyRun.

(** C3.  Running the strategy generator over a sequence of task specs, each
    call starting from the load tables the previous one left, makes exactly
    the greedy assignments of the requests taken in loop order (destination
    tile, then replica, then slice; spec after spec): every sender is the
    first holder of its slice with minimal send load, and the sender's send
    load and the receiver's receive load grow by the slice size before the
    next choice.  The plan stored for a destination tile has one row per
    replica and one column per slice. *)
Theorem strategy_by_loads_is_first_min_greedy
    (specs : list ReshardingTaskSpec) (st : Strategy.Loads)
    (specs' : list ReshardingTaskSpec) (st' : Strategy.Loads) :
  Strategy.assign_strategies specs st = Ok (specs', st') ->
  Strategy.greedy_run st
    (flat_map (fun spec => Strategy.requests (Strategy.mapping_of spec)) specs)
    (flat_map (fun spec => concat (concat (Strategy.plans_of spec))) specs')
    st' /\
  Forall2 (fun spec spec' =>
             Strategy.plan_shape_ok (Strategy.mapping_of spec)
                                    (Strategy.plans_of spec'))
          specs specs'.
Proof.
  unfold Strategy.assign_strategies.
  revert st specs' st'.
  induction specs as [|spec specs IH]; intros st specs' st' H; simpl in H.
  - injection H as <- <-. split; constructor.
  - apply rbind_ok in H as ([spec1 st1] & Hgen & H).
    apply rbind_ok in H as ([specs1 st2] & Hrest & H). injection H as <- <-.
    apply rbind_ok in Hgen as ([[strategy spec0] st0] & Hgen & Hset).
    injection Hset as <- <-.
    unfold Strategy._generate_send_recv_resharding_strategy_by_loads in Hgen.
    apply rbind_ok in Hgen as ([mapping spec2] & Hmap & Hgen).
    apply rbind_ok in Hgen as ([plans st3] & Hplans & Hgen).
    injection Hgen as <- <- <-.
    apply StrategyRun.plan_entries_requests in Hplans as [Hrun Hshape].
    apply StrategyFacts.run_requests_greedy in Hrun.
    destruct (IH _ _ _ Hrest) as [Hruns Hshapes].
    assert (Hm : Strategy.mapping_of spec = mapping).
    { unfold Strategy.mapping_of. rewrite Hmap. reflexivity. }
    simpl. rewrite Hm. split.
    + eapply StrategyRun.greedy_run_app; eauto.
    + constructor; [rewrite Hm; exact Hshape | exact Hshapes].
Qed.

(** C4.  When every request has the same holders and the same volume [V],
    and the holders start with send load 0, then after every number [n] of
    assignments the generator has succeeded and the send loads of any two
    holders differ by at most [V]. *)
Theorem equal_volume_loads_stay_within_one_slice
    (holders : list string) (V : Z) (reqs : list (string * TileSlice))
    (st : Strategy.Loads) (n : nat) :
  holders <> [] ->
  0 <= V ->
  Forall (fun req =>
            replica_device_strs (tile req.2) = holders /\
            slice_size req.2 = V /\
            is_Some (Strategy._receiver_loads st !! req.1)) reqs ->
  Forall (fun h => Strategy._sender_loads st !! h = Some 0) holders ->
  exists senders st_n,
    Strategy.run_requests (take n reqs) st = Ok (senders, st_n) /\
    forall a b, a ∈ holders -> b ∈ holders ->
      exists la lb,
        Strategy._sender_loads st_n !! a = Some la /\
        Strategy._sender_loads st_n !! b = Some lb /\
        la - lb <= V.
Proof.
  intros Hne HV Hreqs Hzero.
  assert (Hinv : forall a b, a ∈ holders -> b ∈ holders ->
            exists la lb, Strategy._sender_loads st !! a = Some la /\
                          Strategy._sender_loads st !! b = Some lb /\ la - lb <= V).
  { rewrite Forall_forall in Hzero.
    intros a b Ha Hb. exists 0, 0. rewrite (Hzero a Ha), (Hzero b Hb).
    repeat split; lia. }
  clear Hzero. revert st reqs Hreqs Hinv.
  induction n as [|n IH]; intros st reqs Hreqs Hinv.
  - exists [], st. split; [reflexivity | exact Hinv].
  - destruct reqs as [|[r sl] reqs]; [exists [], st; split; [reflexivity | exact Hinv]|].
    apply Forall_cons in Hreqs as [(Hh & Hsz & [lr Hr]) Hreqs]. simpl in Hh, Hsz, Hr.
    destruct (StrategyFacts.collect_loads_total (Strategy._sender_loads st) holders [])
      as [loads Hcol].
    { intros h Hh'. destruct (Hinv h h Hh' Hh') as (la & _ & Hla & _). eauto. }
    assert (Hbest : exists s, Strategy.py_min_by loads = Ok s).
    { pose proof Hcol as Hcol'.
      apply StrategyFacts.collect_loads_best in Hcol' as (vs & Hvs & Hb);
        [|intros k v Hin; inversion Hin].
      simpl in Hb. destruct loads as [|kv rest]; [|simpl; eauto].
      destruct holders as [|h hs]; [congruence|].
      inversion Hvs; subst. discriminate Hb. }
    destruct Hbest as [s Hs].
    pose proof (StrategyFacts.chosen_first_min _ _ _ _ Hcol Hs)
      as (k & ls & Hk & Hls & Hle & _).
    assert (Hsin : s ∈ holders) by (apply list_elem_of_lookup; eauto).
    set (st1 := {| Strategy._sender_loads :=
                     <[s := ls + V]> (Strategy._sender_loads st);
                   Strategy._receiver_loads :=
                     <[r := lr + V]> (Strategy._receiver_loads st) |}).
    assert (Hstep : Strategy.assign_sender st r sl = Ok (s, st1)).
    { unfold Strategy.assign_sender. rewrite Hh. unfold Strategy.collect_loads.
      rewrite Hcol. simpl. rewrite Hs. simpl. unfold dict_get.
      rewrite Hls, Hr. simpl. rewrite Hsz. reflexivity. }
    destruct (IH st1 reqs) as (senders & st_n & Hrun & Hfin).
    + eapply Forall_impl; [exact Hreqs|]. intros [r' sl'] (H1 & H2 & H3).
      simpl in *. repeat split; try assumption.
      destruct (decide (r = r')) as [<-|Hrr].
      * rewrite lookup_insert_eq. eauto.
      * rewrite lookup_insert_ne by assumption. exact H3.
    + intros a b Ha Hb. simpl.
      destruct (Hinv a b Ha Hb) as (la & lb & Hla & Hlb & Hab).
      destruct (Hle a Ha) as (la' & Hla' & Hsa).
      destruct (Hle b Hb) as (lb' & Hlb' & Hsb).
      rewrite Hla in Hla'. injection Hla' as <-.
      rewrite Hlb in Hlb'. injection Hlb' as <-.
      destruct (decide (s = a)) as [<-|Hsa']; destruct (decide (s = b)) as [<-|Hsb'].
      * exists (ls + V), (ls + V). rewrite lookup_insert_eq. repeat split; lia.
      * exists (ls + V), lb. rewrite lookup_insert_eq, lookup_insert_ne by assumption.
        repeat split; [assumption | lia].
      * assert (lb = ls) as -> by congruence.
        exists la, (ls + V). rewrite lookup_insert_eq, lookup_insert_ne by assumption.
        repeat split; [assumption | lia].
      * exists la, lb. rewrite !lookup_insert_ne by assumption.
        repeat split; assumption.
    + exists (s :: senders), st_n. split; [|exact Hfin].
      unfold Strategy.run_requests in *. simpl. rewrite Hstep. simpl.
      rewrite Hrun. reflexivity.
Qed.

(** The generator on the example: both destination replicas get each slice
    from a different holder, and two specs in a row share the load tables. *)
Lemma strategy_by_loads_is_first_min_greedy_witness :
  exists specs' st',
    Strategy.assign_strategies [StrategyExample.spec; StrategyExample.spec]
                               StrategyExample.loads0 = Ok (specs', st') /\
    map Strategy.plans_of specs'
      = [[[["s0"; "s2"]; ["s1"; "s3"]]]; [[["s0"; "s2"]; ["s1"; "s3"]]]] /\
    Strategy.greedy_run StrategyExample.loads0
      (flat_map (fun spec => Strategy.requests (Strategy.mapping_of spec))
                [StrategyExample.spec; StrategyExample.spec])
      (flat_map (fun spec => concat (concat (Strategy.plans_of spec))) specs')
      st' /\
    Forall2 (fun spec spec' =>
               Strategy.plan_shape_ok (Strategy.mapping_of spec)
                                      (Strategy.plans_of spec'))
            [StrategyExample.spec; StrategyExample.spec] specs'.
Proof.
  eexists. eexists.
  split; [vm_compute; reflexivity|].
  split; [vm_compute; reflexivity|].
  apply (strategy_by_loads_is_first_min_greedy
           [StrategyExample.spec; StrategyExample.spec] StrategyExample.loads0).
  vm_compute. reflexivity.
Defined.

(** Five requests for a slice of volume 2 held by three devices. *)
Lemma equal_volume_loads_stay_within_one_slice_witness :
  exists senders st_n,
    Strategy.run_requests
      (take 5 (repeat ("r", StrategyExample.shared_slice) 5))
      StrategyExample.loads_abc = Ok (senders, st_n) /\
    forall a b, a ∈ ["a"; "b"; "c"] -> b ∈ ["a"; "b"; "c"] ->
      exists la lb,
        Strategy._sender_loads st_n !! a = Some la /\
        Strategy._sender_loads st_n !! b = Some lb /\
        la - lb <= 2.
Proof.
  apply (equal_volume_loads_stay_within_one_slice
           ["a"; "b"; "c"] 2 (repeat ("r", StrategyExample.shared_slice) 5)
           StrategyExample.loads_abc 5).
  - discriminate.
  - lia.
  - repeat constructor; vm_compute; eauto.
  - repeat constructor.
Defined.

(** ** The compiled tasks are paired (C5) *)

Module CompileFacts.
Import SymbolicTask.

Lemma sent_by_snoc w xs x :
  sent_by w (xs ++ [x])
  = sent_by w xs ++ (if decide (sender_worker x = w) then [send_entry x] else []).
Proof.
  unfold sent_by. rewrite filter_app, map_app. f_equal.
  rewrite filter_cons, filter_nil. destruct (decide _); reflexivity.
Qed.

Lemma received_by_app_same w xs new :
  Forall (fun x => receiver_worker x = w) new ->
  received_by w (xs ++ new) = received_by w xs ++ map recv_entry new.
Proof.
  intros Hall. unfold received_by. rewrite filter_app, map_app. f_equal. f_equal.
  induction Hall as [|x new Hx Hall IH]; [reflexivity|].
  rewrite filter_cons. destruct (decide _); [|contradiction]. f_equal. exact IH.
Qed.

Lemma received_by_app_other w w' xs new :
  w <> w' ->
  Forall (fun x => receiver_worker x = w') new ->
  received_by w (xs ++ new) = received_by w xs.
Proof.
  intros Hne Hall. unfold received_by. rewrite filter_app, map_app.
  rewrite <- (app_nil_r (map recv_entry (filter _ xs))) at 2. f_equal.
  induction Hall as [|x new Hx Hall IH]; [reflexivity|].
  rewrite filter_cons. destruct (decide _); [congruence | exact IH].
Qed.

(** The invariant of the loop over the senders of one replica: the send
    side already counts the new transfers, the receive side does not yet,
    and the collected tile specs are the receive entries of the new ones. *)
Definition mid_replica (g : CollectiveGroup.t) (rw : worker)
    (old new : list Transfer) (st : t * list ReshardingTileSpec) : Prop :=
  collective_group st.1 = g /\
  Forall (paired g) (old ++ new) /\
  (forall w l, _sender_tasks st.1 !! w = Some l -> l = sent_by w (old ++ new)) /\
  (forall w l, _receiver_tasks st.1 !! w = Some l ->
     concat (map tile_specs l) = received_by w old) /\
  Forall (fun x => is_Some (_sender_tasks st.1 !! sender_worker x)) (old ++ new) /\
  Forall (fun x => is_Some (_receiver_tasks st.1 !! receiver_worker x)) old /\
  sender_uuid_plan st.1 = map sender (old ++ new) /\
  Forall (fun x => receiver_worker x = rw) new /\
  st.2 = map recv_entry new.

Lemma compile_transfer_step g rw old src_tiles inds receiver rr rg st item st' :
  CollectiveGroup.device_str_to_mesh_worker_map g !! receiver = Some rw ->
  CollectiveGroup.device_str_to_rank_map g !! receiver = Some (rr, rg) ->
  compile_transfer src_tiles inds receiver rr rg st item = Ok st' ->
  (exists new, mid_replica g rw old new st) ->
  exists new, mid_replica g rw old new st'.
Proof.
  intros Hrw Hrank H [new (Hg & Hp & Hs & Hr & Hks & Hkr & Hu & Hnew & Hspecs)].
  destruct st as [self specs], item as [sender_idx sd]. simpl in *.
  apply rbind_ok in H as (sw & Hsw & H).
  apply rbind_ok in H as (l0 & Hl0 & H).
  apply rbind_ok in H as (src_tile & Hsrc & H).
  apply rbind_ok in H as (self1 & Happ & H).
  apply rbind_ok in H as ([sr sg] & Hsr & H).
  apply rbind_ok in H as (ind & Hind & H).
  apply rbind_ok in H as (ind' & Hind' & H).
  injection H as <-.
  unfold append_sender_task in Happ.
  apply rbind_ok in Happ as (l & Hl & Happ). injection Happ as <-.
  unfold dict_get in Hsw, Hl, Hsr. rewrite Hg in *.
  destruct (CollectiveGroup.device_str_to_mesh_worker_map g !! sd) as [sw'|] eqn:Esw;
    [|discriminate]. injection Hsw as ->.
  destruct (_sender_tasks self !! sw) as [l'|] eqn:El; [|discriminate].
  injection Hl as ->.
  destruct (CollectiveGroup.device_str_to_rank_map g !! sd) as [p|] eqn:Esr;
    [|discriminate]. injection Hsr as ->.
  set (x := {| sender := sd; receiver := receiver;
               sender_worker := sw; receiver_worker := rw;
               send_entry := {| tile_slice := map slice_to_py (offset src_tile);
                                rank := rr; gpu_idx := rg |};
               recv_entry := {| tile_slice := ind'; rank := sr; gpu_idx := sg |} |}).
  exists (new ++ [x]). unfold mid_replica. simpl. rewrite !app_assoc.
  split; [reflexivity|]. split.
  { apply Forall_app. split; [exact Hp|]. constructor; [|constructor].
    unfold paired. simpl. auto. }
  split.
  { intros w lw Hw. rewrite sent_by_snoc. simpl.
    destruct (decide (sw = w)) as [<-|Hne].
    - rewrite lookup_insert_eq in Hw. injection Hw as <-.
      rewrite (Hs sw l El). reflexivity.
    - rewrite lookup_insert_ne in Hw by assumption.
      rewrite app_nil_r. apply Hs. exact Hw. }
  split; [exact Hr|]. split.
  { apply Forall_app. split.
    - eapply Forall_impl; [exact Hks|]. intros y [ly Hy]. simpl.
      destruct (decide (sw = sender_worker y)) as [<-|Hne].
      + rewrite lookup_insert_eq. eauto.
      + rewrite lookup_insert_ne by assumption. eauto.
    - constructor; [|constructor]. simpl. rewrite lookup_insert_eq. eauto. }
  split; [exact Hkr|]. split.
  { rewrite map_app, Hu. reflexivity. }
  split.
  { apply Forall_app. split; [exact Hnew|]. constructor; [reflexivity | constructor]. }
  rewrite map_app, Hspecs. reflexivity.
Qed.

Lemma compile_replica_step dst_tile src_tiles inds spec_plan self item self' :
  compile_replica dst_tile src_tiles inds spec_plan self item = Ok self' ->
  (exists xs, paired_in_order self xs) ->
  (exists xs, paired_in_order self' xs) /\
  collective_group self' = collective_group self.
Proof.
  intros H [old (Hp & Hs & Hr & Hk & Hu)].
  destruct item as [replica_index receiver]. unfold compile_replica in H.
  set (g := collective_group self) in *.
  apply rbind_ok in H as (rdev & Hrdev & H).
  apply rbind_ok in H as (rw & Hrw & H).
  apply rbind_ok in H as (senders & Hsenders & H).
  apply rbind_ok in H as ([rr rg] & Hrank & H).
  apply rbind_ok in H as ([self1 specs] & Hloop & H).
  unfold dict_get in Hrw, Hrank.
  destruct (CollectiveGroup.device_str_to_mesh_worker_map g !! receiver) as [rw'|] eqn:Erw;
    [|discriminate]. injection Hrw as ->.
  destruct (CollectiveGroup.device_str_to_rank_map g !! receiver) as [p|] eqn:Er;
    [|discriminate]. injection Hrank as ->.
  assert (Hmid : exists new, mid_replica g rw old new (self1, specs)).
  { eapply (for_each_inv (fun st => exists new, mid_replica g rw old new st));
      [|exact Hloop|].
    - intros st x st' Hx Hst. eapply compile_transfer_step; eauto.
    - exists []. unfold mid_replica. simpl. rewrite app_nil_r.
      repeat split; try assumption; try reflexivity.
      + eapply Forall_impl; [exact Hk|]. intros y [Hy _]. exact Hy.
      + eapply Forall_impl; [exact Hk|]. intros y [_ Hy]. exact Hy.
      + constructor. }
  destruct Hmid as [new (Hg1 & Hp1 & Hs1 & Hr1 & Hks1 & Hkr1 & Hu1 & Hnew & Hspecs)].
  simpl in *.
  unfold append_receiver_task in H.
  apply rbind_ok in H as (l & Hl & H). injection H as <-.
  unfold dict_get in Hl.
  destruct (_receiver_tasks self1 !! rw) as [l'|] eqn:El; [|discriminate].
  injection Hl as ->. split; [|simpl; exact Hg1].
  exists (old ++ new). unfold paired_in_order. simpl. rewrite Hg1.
  split; [exact Hp1|]. split; [exact Hs1|]. split.
  { intros w lw Hw. destruct (decide (rw = w)) as [<-|Hne].
    - rewrite lookup_insert_eq in Hw. injection Hw as <-.
      rewrite map_app, concat_app. simpl. rewrite app_nil_r.
      rewrite (Hr1 rw l El), Hspecs. symmetry. apply received_by_app_same. exact Hnew.
    - rewrite lookup_insert_ne in Hw by assumption.
      rewrite (Hr1 w lw Hw). symmetry.
      eapply received_by_app_other; [|exact Hnew]. congruence. }
  split; [|exact Hu1].
  apply Forall_forall. intros y Hy. split.
  - rewrite Forall_forall in Hks1. apply Hks1, Hy.
  - destruct (decide (rw = receiver_worker y)) as [<-|Hne].
    + rewrite lookup_insert_eq. eauto.
    + rewrite lookup_insert_ne by assumption.
      apply elem_of_app in Hy as [Hy|Hy].
      * rewrite Forall_forall in Hkr1. apply Hkr1, Hy.
      * rewrite Forall_forall in Hnew. specialize (Hnew y Hy). congruence.
Qed.

End CompileFacts.

(** C5.  When [_compile_send_recv_tasks] has run on a freshly initialised
    task, there is one sequence of transfers such that the list of every
    sender worker is exactly the send entries of its transfers and the tile
    specs of every receiver worker are exactly the receive entries of its
    transfers, both in the order of the sequence; the send entry of a
    transfer carries the rank and gpu index of its receiver and the receive
    entry those of its sender.  So the entries on the two sides are paired
    one to one, and two transfers between the same two workers come in the
    same order on both sides. *)
Theorem compiled_send_recv_tasks_are_paired_in_order
    (task_spec : ReshardingTaskSpec) (group : CollectiveGroup.t)
    (src_mesh dst_mesh : Mesh) (self' : SymbolicTask.t) :
  SymbolicTask._compile_send_recv_tasks
    (SymbolicTask.init task_spec group src_mesh dst_mesh) = Ok self' ->
  SymbolicTask.collective_group self' = group /\
  exists transfers,
    SymbolicTask.paired_in_order self' transfers /\
    forall ws wr ls lr,
      SymbolicTask._sender_tasks self' !! ws = Some ls ->
      SymbolicTask._receiver_tasks self' !! wr = Some lr ->
      let between :=
        filter (fun x => SymbolicTask.sender_worker x = ws /\
                         SymbolicTask.receiver_worker x = wr) transfers in
      sublist (map SymbolicTask.send_entry between) ls /\
      sublist (map SymbolicTask.recv_entry between)
              (concat (map tile_specs lr)).
Proof.
  intros H. unfold SymbolicTask._compile_send_recv_tasks in H.
  apply rbind_ok in H as ([mapping spec] & Hmap & H).
  set (self0 := SymbolicTask.set_task_spec _ spec) in H.
  assert (Hinv : (exists xs, SymbolicTask.paired_in_order self' xs) /\
                 SymbolicTask.collective_group self' = group).
  { eapply (for_each_inv
              (fun s => (exists xs, SymbolicTask.paired_in_order s xs) /\
                        SymbolicTask.collective_group s = group));
      [|exact H|].
    - intros s [i [[dst_tile src_tiles] inds]] s' Hbody [Hs Hg].
      apply rbind_ok in Hbody as (strategy & _ & Hbody).
      apply rbind_ok in Hbody as (spec_plan & _ & Hbody).
      eapply (for_each_inv
                (fun s => (exists xs, SymbolicTask.paired_in_order s xs) /\
                          SymbolicTask.collective_group s = group));
        [|exact Hbody|split; assumption].
      intros s1 x s2 Hx [Hs1 Hg1].
      destruct (CompileFacts.compile_replica_step _ _ _ _ _ _ _ Hx Hs1) as [? ?].
      split; [assumption | congruence].
    - split; [|reflexivity]. exists []. unfold SymbolicTask.paired_in_order. simpl.
      split; [constructor|]. split.
      + intros w l Hw. apply elem_of_list_to_map_2 in Hw.
        apply list_elem_of_In, in_map_iff in Hw as (w' & [= _ <-] & _). reflexivity.
      + split; [|split; [constructor | reflexivity]].
        intros w l Hw. apply elem_of_list_to_map_2 in Hw.
        apply list_elem_of_In, in_map_iff in Hw as (w' & [= _ <-] & _). reflexivity. }
  destruct Hinv as [[xs Hxs] Hg]. split; [exact Hg|].
  exists xs. split; [exact Hxs|].
  destruct Hxs as (_ & Hs & Hr & _).
  intros ws wr ls lr Hls Hlr between.
  rewrite (Hs ws ls Hls), (Hr wr lr Hlr).
  unfold SymbolicTask.sent_by, SymbolicTask.received_by.
  subst between.
  split; apply sublist_map.
  - apply (sublist_filter_and (fun x => SymbolicTask.sender_worker x = ws)
             (fun x => SymbolicTask.receiver_worker x = wr)).
  - apply (sublist_filter_and (fun x => SymbolicTask.sender_worker x = ws)
             (fun x => SymbolicTask.receiver_worker x = wr)).
Qed.

(** The compiler on the example: the one source worker gets four send
    entries and the one destination worker two receive tasks of two tile
    specs each. *)
Lemma compiled_send_recv_tasks_are_paired_in_order_witness :
  SymbolicTask._compile_send_recv_tasks
    (SymbolicTask.init CompileExample.planned_spec CompileExample.group
       CompileExample.src_mesh CompileExample.dst_mesh)
    = Ok CompileExample.compiled /\
  (length <$> SymbolicTask._sender_tasks CompileExample.compiled) !! 0%nat
    = Some 4%nat /\
  (map (fun r => length (tile_specs r))
     <$> SymbolicTask._receiver_tasks CompileExample.compiled) !! 1%nat
    = Some [2%nat; 2%nat] /\
  SymbolicTask.collective_group CompileExample.compiled = CompileExample.group /\
  exists transfers,
    SymbolicTask.paired_in_order CompileExample.compiled transfers /\
    forall ws wr ls lr,
      SymbolicTask._sender_tasks CompileExample.compiled !! ws = Some ls ->
      SymbolicTask._receiver_tasks CompileExample.compiled !! wr = Some lr ->
      let between :=
        filter (fun x => SymbolicTask.sender_worker x = ws /\
                         SymbolicTask.receiver_worker x = wr) transfers in
      sublist (map SymbolicTask.send_entry between) ls /\
      sublist (map SymbolicTask.recv_entry between)
              (concat (map tile_specs lr)).
Proof.
  split; [vm_compute; reflexivity|].
  split; [vm_compute; reflexivity|].
  split; [vm_compute; reflexivity|].
  apply (compiled_send_recv_tasks_are_paired_in_order
           CompileExample.planned_spec CompileExample.group
           CompileExample.src_mesh CompileExample.dst_mesh CompileExample.compiled).
  vm_compute. reflexivity.
Defined.

(** ** The strategy property (C6) *)

(** C6.  Reading [strategy] on a freshly constructed spec raises
    [RuntimeError]; after [set_resharding_strategy s] with a
    [ReshardingStrategy] object [s], any number of reads all return [s] and
    leave the spec as [set_resharding_strategy] left it. *)
Theorem strategy_raises_before_set_and_is_stable_after
    (src_array dst_array : VirtualDistributedArray)
    (ag : option (nat * nat * Z)) (self : ReshardingTaskSpec)
    (s : ReshardingStrategy) (n : nat) :
  (TaskSpec.strategy (TaskSpec.init src_array dst_array ag)).1
    = Raise RuntimeError /\
  let self' := TaskSpec.set_resharding_strategy self (StrategyObject s) in
  TaskSpec.reads n self' = (repeat (Ok (StrategyObject s)) n, self').
Proof.
  split; [reflexivity|]. cbv zeta.
  induction n as [|k IH]; [reflexivity|].
  cbn [TaskSpec.reads repeat]. cbn [TaskSpec.strategy TaskSpec.set_resharding_strategy _strategy truthy negb] in *.
  rewrite IH. reflexivity.
Qed.

(** ** Mesh dimensionality in the allgather code (C7) *)

Module AllgatherFacts.

Lemma rewrite_at_mapping spec axes dim v extra spec' sl :
  Rewrite.rewrite_at spec axes dim v extra = Ok (spec', sl) ->
  is_Some sl /\ length (mesh_mapping spec') = 2%nat.
Proof.
  unfold Rewrite.rewrite_at. intros H.
  apply rbind_ok in H as (sq & _ & H).
  apply rbind_ok in H as (u & _ & H).
  apply rbind_ok in H as (m & _ & H).
  injection H as <- <-. split; [eauto | reflexivity].
Qed.

Lemma rewrite_loop_mapping spec axes var extra dims : forall spec' sl,
  Rewrite.rewrite_loop spec axes var extra dims = Ok (spec', sl) ->
  match sl with
  | None => spec' = spec
  | Some _ => length (mesh_mapping spec') = 2%nat
  end.
Proof.
  induction dims as [|dim dims IH]; intros spec' sl H; simpl in H.
  - injection H as <- <-. reflexivity.
  - apply rbind_ok in H as (dim_spec & _ & H).
    apply rbind_ok in H as (cv & _ & H).
    apply rbind_ok in H as (sd & _ & H).
    apply rbind_ok in H as (r & _ & H).
    destruct (r =? 0); [|apply IH, H].
    destruct (axes !! dim) as [[|n]|].
    + apply rewrite_at_mapping in H as [[x ->] Hlen]. exact Hlen.
    + apply IH, H.
    + apply rewrite_at_mapping in H as [[x ->] Hlen]. exact Hlen.
Qed.

End AllgatherFacts.

(** C7 as stated fails: for a destination sharding whose mesh mapping has
    three entries, [_rewrite_allgather_specs] does not fail at an assertion
    but returns a rewritten spec and an allgather slice. *)
Lemma rewrite_allgather_specs_accepts_three_axis_mesh :
  length (mesh_mapping three_axis_spec) = 3%nat /\
  Rewrite._rewrite_allgather_specs true three_axis_spec eight_device_mesh square_var
  = Ok ({| sharding := [Chunked [8]; NoSharding];
           mesh_mapping := [ShardedAxis 0; Replicated 1] |},
        Some (0%nat, 0%nat, 4)).
Proof. split; vm_compute; reflexivity. Qed.

(** C7, amended.  [_allgather_receiver_step_and_offset], once it has read
    the allgather slice, the rank of the receiver and the mesh shape, fails
    at its assertion when the destination mesh mapping has three or more
    entries, and returns for a mapping of two entries (mesh axis 0 or 1,
    non-zero divisors).  [_rewrite_allgather_specs] returns either the spec
    it was given, with no allgather slice, or a spec whose mesh mapping has
    exactly two entries; with scatter-gather on, it fails at its assertion
    when it gets past its early returns with two or more tensor axes
    sharded over the mesh. *)
Theorem allgather_mesh_dimensionality :
  (forall (self : SymbolicTask.t) (receiver : string) ag rk mesh_shape,
     allgather_slice (SymbolicTask.task_spec self) = Some ag ->
     CollectiveGroup.device_str_to_rank_map (SymbolicTask.collective_group self)
       !! receiver = Some rk ->
     SymbolicTask.dst_mesh_shape_of
       (TaskSpec.dst_sharding_spec (SymbolicTask.task_spec self)) = Ok mesh_shape ->
     let dims :=
       length (mesh_mapping (TaskSpec.dst_sharding_spec (SymbolicTask.task_spec self))) in
     ((3 <= dims)%nat ->
      SymbolicTask._allgather_receiver_step_and_offset self receiver
        = Raise AssertionError) /\
     (dims = 2%nat -> (ag.1.2 <= 1)%nat -> ag.2 <> 0 -> mesh_shape !! 1%nat <> Some 0 ->
      exists r, SymbolicTask._allgather_receiver_step_and_offset self receiver = Ok r)) /\
  (forall use_scatter_gather spec mesh var spec' sl,
     Rewrite._rewrite_allgather_specs use_scatter_gather spec mesh var = Ok (spec', sl) ->
     match sl with
     | None => spec' = spec
     | Some _ => length (mesh_mapping spec') = 2%nat
     end) /\
  (forall spec mesh var tot c2t axes below,
     Rewrite.scan_sharding (sharding spec) = Ok (tot, c2t) ->
     tot <> num_devices mesh -> tot <> 0 -> num_devices mesh mod tot = 0 ->
     Rewrite.collect_shard_axes (mesh_mapping spec) c2t = Ok axes ->
     Rewrite.first_dim_below_hosts spec c2t mesh = Ok below ->
     below && (1 <? num_hosts mesh) = false ->
     (2 <= size axes)%nat ->
     Rewrite._rewrite_allgather_specs true spec mesh var = Raise AssertionError).
Proof.
  split; [|split].
  - intros self receiver [[tensor_axis mesh_axis] extra] [host_idx device_idx]
      mesh_shape Hag Hrk Hshape dims.
    pose proof (map_r_length _ _ _ Hshape) as Hlen. fold dims in Hlen.
    unfold SymbolicTask._allgather_receiver_step_and_offset.
    rewrite Hag. simpl. unfold dict_get. rewrite Hrk. simpl.
    rewrite Hshape. simpl. split.
    + intros Hd. destruct (Nat.ltb_spec (length mesh_shape) 3); [lia | reflexivity].
    + intros Hd Hax Hextra Hd1. simpl in Hax, Hextra.
      destruct (Nat.ltb_spec (length mesh_shape) 3); [simpl | lia].
      destruct mesh_shape as [|d0 [|d1 [|d2 rest]]]; simpl in Hlen; try lia.
      assert (d1 <> 0) by (intros ->; apply Hd1; reflexivity).
      unfold py_floordiv, py_mod.
      destruct mesh_axis as [|[|n]]; [| |lia]; simpl;
        destruct (Z.eqb_spec d1 0); try contradiction; simpl;
        destruct (Z.eqb_spec extra 0); try contradiction; simpl; eauto.
  - intros flag spec mesh var spec' sl H.
    unfold Rewrite._rewrite_allgather_specs in H.
    destruct flag; simpl in H; [|injection H as <- <-; reflexivity].
    apply rbind_ok in H as ([tot c2t] & _ & H).
    destruct (tot =? num_devices mesh); [injection H as <- <-; reflexivity|].
    apply rbind_ok in H as (r & _ & H).
    apply rbind_ok in H as (u & _ & H).
    apply rbind_ok in H as (extra & _ & H).
    apply rbind_ok in H as (axes & _ & H).
    apply rbind_ok in H as (below & _ & H).
    destruct (below && (1 <? num_hosts mesh)); [injection H as <- <-; reflexivity|].
    apply rbind_ok in H as (u' & _ & H).
    eapply AllgatherFacts.rewrite_loop_mapping, H.
  - intros spec mesh var tot c2t axes below Hscan Hne Hnz Hmod Hcol Hbelow Hret Hsize.
    unfold Rewrite._rewrite_allgather_specs. simpl. rewrite Hscan. simpl.
    destruct (Z.eqb_spec tot (num_devices mesh)); [contradiction|].
    unfold py_mod, py_floordiv. destruct (Z.eqb_spec tot 0); [contradiction|]. simpl.
    rewrite Hmod. simpl. rewrite Hcol. simpl. rewrite Hbelow. simpl. rewrite Hret.
    destruct (Nat.ltb_spec (size axes) 2); [lia | reflexivity].
Qed.

(** With a mesh mapping of one entry [_allgather_receiver_step_and_offset]
    passes its assertion and then reads [dst_mesh_shape[1]], which does not
    exist. *)
Lemma allgather_step_one_axis_mesh_index_error :
  SymbolicTask._allgather_receiver_step_and_offset
    (AllgatherExample.task_with [ShardedAxis 0]) "d0" = Raise IndexError.
Proof. vm_compute. reflexivity. Qed.

Lemma allgather_mesh_dimensionality_witness :
  SymbolicTask._allgather_receiver_step_and_offset
    (AllgatherExample.task_with [ShardedAxis 0; Replicated 2; Replicated 2]) "d0"
    = Raise AssertionError /\
  (exists r,
     SymbolicTask._allgather_receiver_step_and_offset
       (AllgatherExample.task_with [ShardedAxis 0; Replicated 2]) "d0" = Ok r) /\
  Rewrite._rewrite_allgather_specs true AllgatherExample.two_sharded_of_three
    eight_device_mesh square_var = Raise AssertionError.
Proof.
  destruct allgather_mesh_dimensionality as (Hstep & _ & Hrewrite).
  split; [|split].
  - apply (Hstep (AllgatherExample.task_with [ShardedAxis 0; Replicated 2; Replicated 2])
             "d0" (0%nat, 0%nat, 2) (1%nat, 0%nat) [2; 1; 1]);
      [reflexivity | vm_compute; reflexivity | vm_compute; reflexivity | simpl; lia].
  - apply (Hstep (AllgatherExample.task_with [ShardedAxis 0; Replicated 2])
             "d0" (0%nat, 0%nat, 2) (1%nat, 0%nat) [2; 1]);
      [reflexivity | vm_compute; reflexivity | vm_compute; reflexivity
      | reflexivity | simpl; lia | simpl; lia | simpl; discriminate].
  - apply (Hrewrite AllgatherExample.two_sharded_of_three eight_device_mesh square_var
             4 [0%nat; 1%nat] {[0%nat := 0%nat; 1%nat := 1%nat]} false);
      [vm_compute; reflexivity | simpl; lia | lia | reflexivity
      | vm_compute; reflexivity | vm_compute; reflexivity | reflexivity
      | vm_compute; lia].
Defined.

(** ** The allgather rewrite when it is disabled (C8) *)

(** C8.  With [use_scatter_gather] off, [_rewrite_allgather_specs] returns
    the destination sharding spec it was given, and no allgather slice. *)
Theorem rewrite_allgather_specs_disabled
    (dst_sharding_spec : ShardingSpec) (dst_mesh : Mesh) (var : Var) :
  Rewrite._rewrite_allgather_specs false dst_sharding_spec dst_mesh var
  = Ok (dst_sharding_spec, None).
Proof. reflexivity. Qed.

(** ** Task ids (C9) *)

Module TaskUuidFacts.
Import TaskUuid.

Lemma shiftl_1_60 : Z.shiftl 1 60 = 2 ^ 60.
Proof. reflexivity. Qed.

Lemma calls_lookup n : forall counter (i : nat) x,
  (calls n counter).1 !! i = Some x ->
  (i < n)%nat /\ x = (counter + 1 + Z.of_nat i) mod 2 ^ 60.
Proof.
  induction n as [|k IH]; intros counter i x; simpl.
  - intros H. discriminate H.
  - destruct (calls k _) as [uuids counter2] eqn:E.
    destruct i as [|i]; simpl.
    + intros [= <-]. split; [lia|]. rewrite shiftl_1_60. f_equal. lia.
    + intros H. specialize (IH ((counter + 1) mod Z.shiftl 1 60) i x).
      rewrite E in IH. destruct (IH H) as [Hi ->]. split; [lia|].
      rewrite shiftl_1_60.
      replace ((counter + 1) mod 2 ^ 60 + 1 + Z.of_nat i)
        with ((counter + 1) mod 2 ^ 60 + (1 + Z.of_nat i)) by lia.
      rewrite Zplus_mod_idemp_l. f_equal. lia.
Qed.

Lemma mod_inj_window (a i j : Z) :
  0 <= i < 2 ^ 60 -> 0 <= j < 2 ^ 60 ->
  (a + i) mod 2 ^ 60 = (a + j) mod 2 ^ 60 -> i = j.
Proof.
  intros Hi Hj H.
  pose proof (Z.div_mod (a + i) (2 ^ 60) ltac:(lia)) as Ei.
  pose proof (Z.div_mod (a + j) (2 ^ 60) ltac:(lia)) as Ej.
  rewrite H in Ei.
  remember ((a + i) / 2 ^ 60) as qi. remember ((a + j) / 2 ^ 60) as qj.
  remember ((a + j) mod 2 ^ 60) as r.
  assert (i - j = 2 ^ 60 * (qi - qj)) by lia.
  assert (qi - qj = 0) by nia. lia.
Qed.

End TaskUuidFacts.

(** C9.  A call to [next_resharding_task_uuid] returns the previous counter
    plus one modulo 2^60 and stores it; the id lies in [0, 2^60); the call
    after one that returned [r] returns [r + 1] when [r < 2^60 - 1] and 0
    when [r = 2^60 - 1]; and the ids returned by fewer than 2^60 consecutive
    calls are pairwise distinct. *)
Theorem next_resharding_task_uuid_fresh (counter : Z) :
  let '(uuid, counter1) := TaskUuid.next_resharding_task_uuid counter in
  let '(uuid2, _) := TaskUuid.next_resharding_task_uuid counter1 in
  uuid = (counter + 1) mod 2 ^ 60 /\
  counter1 = uuid /\
  0 <= uuid < 2 ^ 60 /\
  (uuid < 2 ^ 60 - 1 -> uuid2 = uuid + 1 /\ uuid < uuid2) /\
  (uuid = 2 ^ 60 - 1 -> uuid2 = 0) /\
  (forall n : nat, Z.of_nat n < 2 ^ 60 ->
     NoDup (TaskUuid.calls n counter).1).
Proof.
  unfold TaskUuid.next_resharding_task_uuid.
  rewrite TaskUuidFacts.shiftl_1_60.
  pose proof (Z.mod_pos_bound (counter + 1) (2 ^ 60) ltac:(lia)) as Hb.
  set (uuid := (counter + 1) mod 2 ^ 60) in *.
  split; [reflexivity|]. split; [reflexivity|]. split; [exact Hb|].
  split; [|split].
  - intros Hlt. rewrite Z.mod_small by lia. lia.
  - intros ->. reflexivity.
  - intros n Hn. apply NoDup_alt. intros i j x Hi Hj.
    apply TaskUuidFacts.calls_lookup in Hi as [Hi ->].
    apply TaskUuidFacts.calls_lookup in Hj as [Hj Heq].
    apply TaskUuidFacts.mod_inj_window in Heq; lia.
Qed.

(** ** The table of resharding specs (C10) *)

Module CommunicatorFacts.
Import Communicator.

Lemma argwhere_pos_positive a r c : (r, c) ∈ argwhere_pos a -> 0 < entry a r c.
Proof.
  unfold argwhere_pos. intros H.
  apply list_elem_of_In, in_flat_map in H as (r' & _ & H).
  apply list_elem_of_In, list_elem_of_omap in H as (c' & _ & H).
  destruct (Z.ltb_spec 0 (entry a r' c')); [|discriminate].
  injection H as <- <-. assumption.
Qed.

Lemma alist_insert_nonempty {V} (k : string) (v : V) l : alist_insert k v l <> [].
Proof. destruct l as [|[k' v'] l]; simpl; [|destruct (decide _)]; discriminate. Qed.

Lemma add_task_spec_off_diagonal schedule flag new_array src_stage dst_stage
    (i j : nat) src_mesh dst_mesh specs item specs' :
  i <> j ->
  (exists s d : nat, 0 < entry (dependency schedule) d s /\
                     stage_placement schedule s !! 0%nat = Some i /\
                     stage_placement schedule d !! 0%nat = Some j) ->
  add_task_spec flag new_array src_stage dst_stage i j src_mesh dst_mesh specs item
    = Ok specs' ->
  off_diagonal schedule specs -> off_diagonal schedule specs'.
Proof.
  intros Hij Hpair H (Hlen & Hrows & Hcells).
  destruct item as [[var out_idx] in_idx]. unfold add_task_spec in H.
  apply rbind_ok in H as (ssp & _ & H).
  apply rbind_ok in H as (dsp & _ & H).
  apply rbind_ok in H as ([dsp' extra] & _ & H).
  apply rbind_ok in H as (row & Hrow & H).
  apply rbind_ok in H as (c & Hc & H).
  injection H as <-.
  apply list_get_ok in Hrow, Hc.
  split; [rewrite length_insert; exact Hlen|]. split.
  - apply Forall_insert; [exact Hrows|]. rewrite length_insert.
    rewrite Forall_forall in Hrows. apply Hrows. eapply list_elem_of_lookup_2, Hrow.
  - intros i' j' row' c' Hrow' Hc' Hne.
    destruct (decide (i = i')) as [<-|Hii].
    + rewrite list_lookup_insert_eq in Hrow' by (eapply lookup_lt_Some, Hrow).
      injection Hrow' as <-.
      destruct (decide (j = j')) as [<-|Hjj].
      * split; [exact Hij | exact Hpair].
      * rewrite list_lookup_insert_ne in Hc' by assumption. eauto.
    + rewrite list_lookup_insert_ne in Hrow' by assumption. eauto.
Qed.

Lemma add_stage_pair_off_diagonal schedule flag new_array stages placements
    specs pair specs' :
  (forall (s : nat) i, placements !! s = Some i ->
     stage_placement schedule s !! 0%nat = Some i) ->
  0 < entry (dependency schedule) pair.1 pair.2 ->
  add_stage_pair flag new_array stages (meshes schedule) placements specs pair
    = Ok specs' ->
  off_diagonal schedule specs -> off_diagonal schedule specs'.
Proof.
  intros Hpl Hdep H Hinv. unfold add_stage_pair in H.
  apply rbind_ok in H as (src_stage & _ & H).
  apply rbind_ok in H as (dst_stage & _ & H).
  apply rbind_ok in H as (i & Hi & H).
  apply rbind_ok in H as (j & Hj & H).
  apply rbind_ok in H as (src_mesh & _ & H).
  apply rbind_ok in H as (dst_mesh & _ & H).
  apply list_get_ok in Hi, Hj.
  destruct (Nat.eqb_spec i j) as [->|Hij]; [injection H as <-; exact Hinv|].
  destruct (_args_between src_stage dst_stage) as [[vars outs] ins].
  eapply (for_each_inv (off_diagonal schedule)); [|exact H|exact Hinv].
  intros s x s' Hx Hs. eapply add_task_spec_off_diagonal; eauto.
  exists pair.2, pair.1. auto.
Qed.

Lemma task_spec_iter_off_diagonal n (specs : list (list cell)) :
  length specs = n ->
  Forall (fun row => length row = n) specs ->
  (forall (i : nat) row c, specs !! i = Some row -> row !! i = Some c -> c = []) ->
  exists yielded,
    task_spec_iter n specs = Ok yielded /\
    forall i j c, (i, j, c) ∈ yielded -> i <> j.
Proof.
  intros Hlen Hrows Hdiag. unfold task_spec_iter.
  assert (Hgen : forall ks acc,
            (forall i, i ∈ ks -> (i < n)%nat) ->
            (forall i j c, (i, j, c) ∈ acc -> i <> j) ->
            exists yielded,
              for_each ks
                (fun yielded i =>
                   for_each (seq 0 n)
                     (fun yielded j =>
                        do row <- list_get specs i;
                        do c <- list_get row j;
                        match c with
                        | [] => Ok yielded
                        | _ :: _ => Ok (yielded ++ [(i, j, c)])
                        end) yielded) acc = Ok yielded /\
              forall i j c, (i, j, c) ∈ yielded -> i <> j).
  { induction ks as [|i ks IH]; intros acc His Hacc; simpl; [eauto|].
    assert (Hi : (i < n)%nat) by (apply His; left).
    destruct (lookup_lt_is_Some_2 specs i ltac:(lia)) as [row Hrow].
    assert (Hrowlen : length row = n).
    { rewrite Forall_forall in Hrows. apply Hrows. eapply list_elem_of_lookup_2, Hrow. }
    assert (Hin : forall js acc,
              (forall j, j ∈ js -> (j < n)%nat) ->
              (forall i j c, (i, j, c) ∈ acc -> i <> j) ->
              exists yielded,
                for_each js
                  (fun yielded j =>
                     do row <- list_get specs i;
                     do c <- list_get row j;
                     match c with
                     | [] => Ok yielded
                     | _ :: _ => Ok (yielded ++ [(i, j, c)])
                     end) acc = Ok yielded /\
                forall i j c, (i, j, c) ∈ yielded -> i <> j).
    { clear IH Hacc acc. induction js as [|j js IHj]; intros acc Hjs Hacc; simpl; [eauto|].
      assert (Hj : (j < n)%nat) by (apply Hjs; left).
      destruct (lookup_lt_is_Some_2 row j ltac:(lia)) as [c Hc].
      unfold list_get at 1. rewrite Hrow. simpl.
      unfold list_get at 1. rewrite Hc. simpl.
      destruct c as [|e c].
      - apply IHj; [intros j' Hj'; apply Hjs; right; exact Hj' | exact Hacc].
      - apply IHj; [intros j' Hj'; apply Hjs; right; exact Hj'|].
        intros i' j' c' Hin. apply elem_of_app in Hin as [Hin|Hin]; [eauto|].
        apply list_elem_of_singleton in Hin. injection Hin as -> -> ->.
        intros ->. specialize (Hdiag _ _ _ Hrow Hc). discriminate. }
    destruct (Hin (seq 0 n) acc) as (acc1 & Hacc1 & Hacc1');
      [intros j Hj; apply elem_of_seq in Hj; lia | exact Hacc|].
    rewrite Hacc1. simpl. apply IH; [intros i' Hi'; apply His; right; exact Hi' | exact Hacc1']. }
  apply Hgen; [intros i Hi; apply elem_of_seq in Hi; lia|].
  intros i j c Hin. inversion Hin.
Qed.

End CommunicatorFacts.

(** C10.  When [_create_resharding_specs] has completed, every diagonal
    cell [resharding_specs[i][i]] is an empty dict, a non-empty cell
    belongs to a pair of dependent stages placed on two distinct meshes,
    and [task_spec_iter] runs through the table without ever yielding a
    pair of equal mesh indices. *)
Theorem resharding_specs_diagonal_is_empty
    (use_scatter_gather : bool)
    (new_array : Mesh -> Aval -> ShardingSpec -> VirtualDistributedArray)
    (stages : list Stage) (schedule : Schedule)
    (resharding_specs : list (list Communicator.cell)) :
  Communicator._create_resharding_specs use_scatter_gather new_array stages schedule
    = Ok resharding_specs ->
  (forall i : nat, (i < num_mesh schedule)%nat ->
     exists row, resharding_specs !! i = Some row /\ row !! i = Some []) /\
  Communicator.off_diagonal schedule resharding_specs /\
  exists yielded,
    Communicator.task_spec_iter (num_mesh schedule) resharding_specs = Ok yielded /\
    forall i j c, (i, j, c) ∈ yielded -> i <> j.
Proof.
  intros H. unfold Communicator._create_resharding_specs in H.
  apply rbind_ok in H as (placements & Hpl & H).
  apply rbind_ok in H as (u & _ & H).
  apply rbind_ok in H as (u' & _ & H).
  assert (Hinv : Communicator.off_diagonal schedule resharding_specs).
  { eapply (for_each_inv_in (Communicator.off_diagonal schedule)); [|exact H|].
    - intros s [d sidx] s' Hin Hbody Hs.
      eapply CommunicatorFacts.add_stage_pair_off_diagonal; [| |exact Hbody|exact Hs].
      + intros st i Hst. destruct (map_r_lookup _ _ _ _ _ Hpl Hst) as (x & Hx & Hget).
        apply lookup_seq in Hx as [-> _]. apply list_get_ok in Hget. exact Hget.
      + apply CommunicatorFacts.argwhere_pos_positive. exact Hin.
    - split; [apply repeat_length|]. split.
      + apply Forall_forall. intros row Hrow.
        apply list_elem_of_In, repeat_spec in Hrow as ->. apply repeat_length.
      + intros i j row c Hrow Hc Hne.
        apply list_elem_of_lookup_2, list_elem_of_In, repeat_spec in Hrow as ->.
        apply list_elem_of_lookup_2, list_elem_of_In, repeat_spec in Hc as ->.
        contradiction. }
  pose proof Hinv as (Hlen & Hrows & Hcells).
  assert (Hdiag : forall (i : nat) row c,
            resharding_specs !! i = Some row -> row !! i = Some c -> c = []).
  { intros i row c Hrow Hc. destruct c as [|e c]; [reflexivity|].
    destruct (Hcells i i row (e :: c) Hrow Hc) as [Hii _]; [discriminate | contradiction]. }
  split; [|split; [exact Hinv|]].
  - intros i Hi.
    destruct (lookup_lt_is_Some_2 resharding_specs i ltac:(lia)) as [row Hrow].
    assert (Hrowlen : length row = num_mesh schedule).
    { rewrite Forall_forall in Hrows. apply Hrows. eapply list_elem_of_lookup_2, Hrow. }
    destruct (lookup_lt_is_Some_2 row i ltac:(lia)) as [c Hc].
    exists row. split; [exact Hrow|].
    rewrite (Hdiag _ _ _ Hrow Hc) in Hc. exact Hc.
  - apply CommunicatorFacts.task_spec_iter_off_diagonal; assumption.
Qed.

(** On the example only the cell of meshes (0, 1) is filled: the
    dependency of stage 2 on stage 1 stays inside mesh 1. *)
Lemma resharding_specs_diagonal_is_empty_witness :
  Communicator._create_resharding_specs true CommunicatorExample.new_array
    CommunicatorExample.stages CommunicatorExample.schedule
    = Ok CommunicatorExample.resharding_specs /\
  map (map (map fst)) CommunicatorExample.resharding_specs
    = [[[]; ["a"]]; [[]; []]] /\
  (forall i : nat, (i < 2)%nat ->
     exists row, CommunicatorExample.resharding_specs !! i = Some row /\
                 row !! i = Some []) /\
  Communicator.off_diagonal CommunicatorExample.schedule
    CommunicatorExample.resharding_specs /\
  exists yielded,
    Communicator.task_spec_iter 2 CommunicatorExample.resharding_specs = Ok yielded /\
    forall i j c, (i, j, c) ∈ yielded -> i <> j.
Proof.
  split; [vm_compute; reflexivity|].
  split; [vm_compute; reflexivity|].
  apply (resharding_specs_diagonal_is_empty true CommunicatorExample.new_array
           CommunicatorExample.stages CommunicatorExample.schedule
           CommunicatorExample.resharding_specs).
  vm_compute. reflexivity.
Defined.

(** * Further facts *)

(** ** The slices of a destination tile are aligned with their placements *)

Module TilingAlign.
Import Tiling TilingAxis TilingGrid TilingFacts TilingCover.

(** A comprehension that succeeded has a result at every position of its
    input. *)
Lemma map_r_lookup_l {A B} (f : A -> result B) xs ys (k : nat) x :
  map_r f xs = Ok ys -> xs !! k = Some x ->
  exists y, ys !! k = Some y /\ f x = Ok y.
Proof.
  intros H Hx. pose proof (map_r_length _ _ _ H) as Hlen.
  destruct (lookup_lt_is_Some_2 ys k) as [y Hy].
  { rewrite Hlen. eapply lookup_lt_Some, Hx. }
  destruct (map_r_lookup _ _ _ _ _ H Hy) as (x' & Hx' & Hf).
  rewrite Hx in Hx'. injection Hx' as <-. eauto.
Qed.

(** The cell found at an index inside the grid is the block of that index
    on every axis. *)
Lemma tiles_get_indices (a : VirtualDistributedArray) (idx : list Z) (tile : Tile) :
  tiles_get a idx = Ok tile ->
  forall (i : nat) dim cnt k,
    tensor_shape a !! i = Some dim -> tile_shape a !! i = Some cnt ->
    idx !! i = Some k -> 0 <= k < cnt ->
    indices tile !! i = Some (Slice (dim / cnt * k) (dim / cnt * (k + 1))).
Proof.
  intros H i dim cnt k Hd Hc Hk Hkr. unfold tiles_get in H.
  destruct (negb _); [discriminate|].
  apply rbind_ok in H as (idx' & Hidx' & H).
  unfold tile_at in H. apply rbind_ok in H as (inds & Hinds & H). injection H as <-.
  simpl.
  destruct (map_r_lookup_l _ _ _ i (cnt, k) Hidx') as (k' & Hk' & Hf).
  { apply lookup_zip2. auto. }
  destruct (Z.leb_spec 0 k), (Z.ltb_spec k cnt); simpl in Hf; try lia.
  injection Hf as <-.
  destruct (map_r_lookup_l _ _ _ i (dim, (cnt, k)) Hinds) as (ind & Hind & Hf).
  { apply lookup_zip3. auto. }
  rewrite Hind. f_equal.
  unfold py_divmod in Hf. destruct (cnt =? 0); [discriminate|]. simpl in Hf.
  destruct (dim mod cnt =? 0); [|discriminate]. simpl in Hf. congruence.
Qed.

(** The first loop also records where the destination tile starts: at
    offset [off.1] of source tile [se.1]. *)
Lemma related_on_axis_start (a : VirtualDistributedArray) (t : Tile) (i : nat)
    (dim cnt : Z) (ind : slice) se off :
  tile_shape a !! i = Some cnt ->
  indices t !! i = Some ind ->
  related_on_axis a t i dim = Ok (se, off) ->
  start ind = se.1 * (dim / cnt) + off.1.
Proof.
  intros Hcnt Hind H. unfold related_on_axis, list_get, py_divmod in H.
  rewrite Hcnt in H. simpl in H.
  destruct (cnt =? 0); [discriminate|]. simpl in H.
  destruct (dim mod cnt =? 0); [|discriminate]. simpl in H.
  rewrite Hind in H. simpl in H.
  destruct (Z.eqb_spec (dim / cnt) 0); [discriminate|]. simpl in H.
  injection H as <- <-. simpl.
  pose proof (Z.div_mod (start ind) (dim / cnt) ltac:(assumption)). lia.
Qed.

Section Axes.

Variable a : VirtualDistributedArray.
Variable t : Tile.
Variable related : list ((Z * Z) * (Z * Z)).

Let ses : list (Z * Z) := related.*1.
Let offs : list (Z * Z) := related.*2.
Let ns : list Z := map (fun se : Z * Z => se.2 - se.1) ses.

Hypothesis Hcnts : length (tile_shape a) = length (tensor_shape a).
Hypothesis Hinds : length (indices t) = length (tensor_shape a).
Hypothesis Hrelated : length related = length (tensor_shape a).
Hypothesis Hdiv : forall (i : nat) dim cnt,
  tensor_shape a !! i = Some dim -> tile_shape a !! i = Some cnt ->
  0 < cnt /\ dim mod cnt = 0.
Hypothesis Haxis : forall (i : nat) dim cnt ind se off,
  tensor_shape a !! i = Some dim -> tile_shape a !! i = Some cnt ->
  indices t !! i = Some ind -> related !! i = Some (se, off) ->
  axis_wf (dim / cnt) (extent ind) cnt se off.

(** What the body of the main loop does for the linear index [k], axis by
    axis: the source tile is the one at position [se.1 + r] of the grid,
    [r] being the coordinate of [k], and the slice and its placement are
    what [slice_on_axis] gives for it. *)
Definition axis_step (k : Z) (ts : TileSlice) (i : nat) (o p : slice) : Prop :=
  exists dim cnt ind se off r,
    tensor_shape a !! i = Some dim /\ tile_shape a !! i = Some cnt /\
    indices t !! i = Some ind /\ related !! i = Some (se, off) /\
    axis_wf (dim / cnt) (extent ind) cnt se off /\
    unflatten_tile_index k ns !! i = Some r /\ 0 <= r < se.2 - se.1 /\
    indices (tile ts) !! i
      = Some (Slice (dim / cnt * (se.1 + r)) (dim / cnt * (se.1 + r + 1))) /\
    slice_on_axis t (tile ts) ses offs (unflatten_tile_index k ns) i (se.1 + r)
      = Ok (o, p).

Lemma tileslice_at_axes (k : Z) (ts : TileSlice) (pl : list slice) :
  0 <= k < py_prod ns ->
  tileslice_at a t ses offs k = Ok (ts, pl) ->
  length (indices (tile ts)) = length (tensor_shape a) /\
  length (offset ts) = length (tensor_shape a) /\
  length pl = length (tensor_shape a) /\
  (exists idx, tiles_get a idx = Ok (tile ts)) /\
  forall (i : nat) o p, offset ts !! i = Some o -> pl !! i = Some p ->
    axis_step k ts i o p.
Proof.
  intros Hk H. unfold tileslice_at in H. fold ns in H.
  set (rel := unflatten_tile_index k ns) in *.
  apply rbind_ok in H as (abs & Habs & H).
  apply rbind_ok in H as (src_tile & Hsrc & H).
  apply rbind_ok in H as (pairs & Hpairs & H).
  injection H as <- <-. simpl.
  pose proof (map_r_length _ _ _ Habs) as Hlabs.
  pose proof (map_r_length _ _ _ Hpairs) as Hlpairs.
  unfold enumerate in Hlabs, Hlpairs.
  rewrite length_zip_with, length_seq in Hlabs.
  rewrite length_zip_with, length_seq in Hlpairs.
  assert (Hlses : length ses = length (tensor_shape a)).
  { unfold ses. rewrite length_fmap. exact Hrelated. }
  assert (Hlen_abs : length abs = length (tensor_shape a)) by lia.
  assert (Hlp : length pairs = length (tensor_shape a)) by lia.
  assert (Habs_i : forall (i : nat) se, ses !! i = Some se ->
            exists r, rel !! i = Some r /\ 0 <= r < se.2 - se.1 /\
                      abs !! i = Some (se.1 + r)).
  { intros i se Hse.
    destruct (unflatten_range ns k (ns_positive a t related Hcnts Hinds Hrelated Haxis)
                Hk i (se.2 - se.1)) as (r & Hr & Hrr).
    { unfold ns. rewrite list_lookup_fmap. fold ses. rewrite Hse. reflexivity. }
    exists r. split; [exact Hr|]. split; [exact Hrr|].
    destruct (map_r_lookup_l _ _ _ i (i, se) Habs) as (y & Hy & Hf).
    { apply lookup_enumerate. auto. }
    simpl in Hf. unfold list_get in Hf. fold rel in Hr. rewrite Hr in Hf.
    simpl in Hf. injection Hf as <-. exact Hy. }
  assert (Hsrc_len : length (indices src_tile) = length (tensor_shape a)).
  { unfold tiles_get in Hsrc. destruct (negb _); [discriminate|].
    apply rbind_ok in Hsrc as (idx' & Hidx' & Hsrc).
    unfold tile_at in Hsrc. apply rbind_ok in Hsrc as (inds & Hi & Hsrc).
    injection Hsrc as <-. simpl.
    rewrite (map_r_length _ _ _ Hi), !length_zip_with.
    rewrite (map_r_length _ _ _ Hidx'), length_zip_with. lia. }
  split; [exact Hsrc_len|].
  split; [rewrite length_fmap; exact Hlp|]. split; [rewrite length_fmap; exact Hlp|].
  split; [eauto|].
  intros i o p Ho Hp. rewrite list_lookup_fmap in Ho, Hp.
  destruct (pairs !! i) as [[o' p']|] eqn:Hpi; [|discriminate].
  injection Ho as <-. injection Hp as <-.
  assert (Hi : (i < length (tensor_shape a))%nat).
  { rewrite <- Hlp. eapply lookup_lt_Some, Hpi. }
  destruct (axis_data a t related Hcnts Hinds Hrelated Haxis i Hi)
    as (dim & cnt & ind & se & off & Hd & Hc & Hind & Hrl & Hse & Hoff & Hns & Hwf).
  destruct (Habs_i i se Hse) as (r & Hr & Hrr & Hai).
  exists dim, cnt, ind, se, off, r.
  split; [exact Hd|]. split; [exact Hc|]. split; [exact Hind|]. split; [exact Hrl|].
  split; [exact Hwf|]. split; [exact Hr|]. split; [exact Hrr|]. split.
  - replace (se.1 + r + 1) with ((se.1 + r) + 1) by lia.
    apply (tiles_get_indices a abs src_tile Hsrc i dim cnt (se.1 + r) Hd Hc Hai).
    destruct Hwf as (_ & _ & _ & _ & Hs & He & _). lia.
  - destruct (map_r_lookup _ _ _ _ _ Hpairs Hpi) as ([j r_abs] & Hx & Hf).
    apply lookup_enumerate in Hx as [-> Hx]. rewrite Hai in Hx. injection Hx as <-.
    exact Hf.
Qed.

End Axes.


(** The four cases of the inner loop keep the global position: the slice
    cut from the source tile at position [se.1 + r] and its placement in
    the destination tile are the same global range. *)
Lemma slice_on_axis_aligned (t src_tile : Tile) ses offs rel (i : nat)
    (L cnt r : Z) (ind : slice) se off o p :
  axis_wf L (extent ind) cnt se off ->
  start ind = se.1 * L + off.1 ->
  0 <= r < se.2 - se.1 ->
  ses !! i = Some se ->
  offs !! i = Some off ->
  indices src_tile !! i = Some (Slice (L * (se.1 + r)) (L * (se.1 + r + 1))) ->
  indices t !! i = Some ind ->
  rel !! i = Some r ->
  slice_on_axis t src_tile ses offs rel i (se.1 + r) = Ok (o, p) ->
  L * (se.1 + r) + start o = start ind + start p /\
  L * (se.1 + r) + stop o = start ind + stop p /\
  0 <= start o /\ start o < stop o /\ stop o <= L.
Proof.
  intros (HL & Hd & Hso & Heo & Hse & Hcnt & Hend) Hst Hr Hses Hoffs Hsrc Ht Hrel H.
  destruct se as [s e], off as [so eo]. simpl in *.
  unfold slice_on_axis, list_get, Tile_tile_shape in H.
  rewrite Hses, Hoffs, !list_lookup_fmap, Hsrc, Ht in H. simpl in H.
  unfold extent in H at 1. simpl in H.
  replace (L * (s + r + 1) - L * (s + r)) with L in H by lia.
  destruct (Z.eqb_spec (s + r) s) as [H1|H1];
    destruct (Z.eqb_spec (s + r) (e - 1)) as [H2|H2]; simpl in H.
  - injection H as <- <-. simpl. unfold extent in *. cbn [start stop] in *.
    assert (r = 0) as -> by lia. nia.
  - injection H as <- <-. simpl. unfold extent in *. cbn [start stop] in *.
    assert (r = 0) as -> by lia. nia.
  - injection H as <- <-. simpl. unfold extent in *. cbn [start stop] in *.
    assert (e - s - 1 = r) as Hn by lia. rewrite Hn in Hend. nia.
  - rewrite Hrel in H. simpl in H. injection H as <- <-. simpl. unfold extent in *. cbn [start stop] in *. nia.
Qed.

Lemma look_up_cover_total (self : ReshardingTaskSpec) (t : Tile) :
  Forall2 (fun dim cnt => 0 < dim /\ 0 < cnt /\ dim mod cnt = 0)
          (tensor_shape (src self)) (tile_shape (src self)) ->
  Forall2 (fun dim ind => 0 <= start ind < stop ind /\ stop ind <= dim)
          (tensor_shape (src self)) (indices t) ->
  exists slices placements,
    _look_up_dst_tile_from_src self t = Ok (slices, placements).
Proof.
  intros Hsrc Ht.
  destruct (TilingMain.look_up_cover self t Hsrc Ht) as (sl & pls & Hok & _). eauto.
Qed.

(** The look-up, opened up: the first loop gives [related], the main loop
    gives one result of [tileslice_at] per linear index, and the facts the
    per-axis lemmas need hold. *)
Lemma look_up_steps (self : ReshardingTaskSpec) (t : Tile) :
  Forall2 (fun dim cnt => 0 < dim /\ 0 < cnt /\ dim mod cnt = 0)
          (tensor_shape (src self)) (tile_shape (src self)) ->
  Forall2 (fun dim ind => 0 <= start ind < stop ind /\ stop ind <= dim)
          (tensor_shape (src self)) (indices t) ->
  exists related res,
    _look_up_dst_tile_from_src self t = Ok (res.*1, res.*2) /\
    length related = length (tensor_shape (src self)) /\
    (forall (i : nat) dim cnt ind se off,
       tensor_shape (src self) !! i = Some dim ->
       tile_shape (src self) !! i = Some cnt ->
       indices t !! i = Some ind -> related !! i = Some (se, off) ->
       axis_wf (dim / cnt) (extent ind) cnt se off /\
       start ind = se.1 * (dim / cnt) + off.1) /\
    length res
      = Z.to_nat (py_prod (map (fun se : Z * Z => se.2 - se.1) related.*1)) /\
    forall (k : nat) ts pl, res !! k = Some (ts, pl) ->
      0 <= Z.of_nat k
        < py_prod (map (fun se : Z * Z => se.2 - se.1) related.*1) /\
      tileslice_at (src self) t related.*1 related.*2 (Z.of_nat k) = Ok (ts, pl).
Proof.
  intros Hsrc Ht.
  destruct (look_up_cover_total self t Hsrc Ht) as (sl & pls & Hok).
  unfold _look_up_dst_tile_from_src in *.
  apply rbind_ok in Hok as (related & Hrel & Hok). simpl in Hok.
  apply rbind_ok in Hok as (res & Hres & Hok). injection Hok as <- <-.
  rewrite fold_left_mul_map in Hres.
  exists related, res. rewrite Hrel. simpl. rewrite fold_left_mul_map, Hres. simpl.
  split; [reflexivity|].
  pose proof (map_r_length _ _ _ Hrel) as Hl. unfold enumerate in Hl.
  rewrite length_zip_with, length_seq in Hl.
  split; [lia|]. split.
  - intros i dim cnt ind se off Hd Hc Hind Hr.
    destruct (map_r_lookup _ _ _ _ _ Hrel Hr) as ([j dim'] & Hx & Hf).
    apply lookup_enumerate in Hx as [-> Hx]. rewrite Hd in Hx. injection Hx as <-.
    pose proof (Forall2_lookup_lr _ _ _ _ _ _ Hsrc Hd Hc) as (Hdim & Hcnt & Hmod).
    pose proof (Forall2_lookup_lr _ _ _ _ _ _ Ht Hd Hind) as (Hab & Hb).
    destruct (related_on_axis_ok (src self) t i dim cnt ind Hc Hind Hdim Hcnt Hmod Hab Hb)
      as (se' & off' & Hok & Hwf).
    rewrite Hf in Hok. injection Hok as <- <-. split; [exact Hwf|].
    apply (related_on_axis_start (src self) t i dim cnt ind se off Hc Hind Hf).
  - split; [rewrite (map_r_length _ _ _ Hres); unfold py_range;
            rewrite length_map, length_seq; reflexivity|].
    intros k ts pl Hk.
    destruct (map_r_lookup _ _ _ _ _ Hres Hk) as (kz & Hkz & Hat).
    apply lookup_py_range in Hkz as [-> Hrange]. auto.
Qed.

(** Every result of the main loop is aligned with the destination tile and
    is cut from a tile of the source grid. *)
Lemma look_up_aligned (self : ReshardingTaskSpec) (t : Tile) :
  Forall2 (fun dim cnt => 0 < dim /\ 0 < cnt /\ dim mod cnt = 0)
          (tensor_shape (src self)) (tile_shape (src self)) ->
  Forall2 (fun dim ind => 0 <= start ind < stop ind /\ stop ind <= dim)
          (tensor_shape (src self)) (indices t) ->
  exists slices placements,
    _look_up_dst_tile_from_src self t = Ok (slices, placements) /\
    Forall2 (fun ts pl =>
               aligned t ts pl /\
               exists idx, tiles_get (src self) idx = Ok (tile ts))
            slices placements.
Proof.
  intros Hsrc Ht.
  destruct (look_up_steps self t Hsrc Ht)
    as (related & res & Hok & Hlr & Hax & _ & Hres).
  exists res.*1, res.*2. split; [exact Hok|].
  pose proof (Forall2_length _ _ _ Hsrc) as Hlc.
  pose proof (Forall2_length _ _ _ Ht) as Hli.
  apply Forall2_fmap, Forall2_same_length_lookup_2; [reflexivity|].
  intros k [ts pl] [ts' pl'] Hk Hk'. rewrite Hk in Hk'. injection Hk' as <- <-. simpl.
  destruct (Hres k ts pl Hk) as (Hrange & Hat).
  destruct (tileslice_at_axes (src self) t related (eq_sym Hlc) (eq_sym Hli) Hlr
              (fun i dim cnt ind se off Hd Hc Hi Hr =>
                 proj1 (Hax i dim cnt ind se off Hd Hc Hi Hr))
              (Z.of_nat k) ts pl Hrange Hat)
    as (Hl1 & Hl2 & Hl3 & Hgrid & Hstep).
  split; [|exact Hgrid].
  split; [lia|]. split; [lia|]. split; [lia|].
  intros i src_ind o ind p Hsi Ho Hind Hp.
  destruct (Hstep i o p Ho Hp)
    as (dim & cnt & ind' & se & off & r & Hd & Hc & Hind' & Hrl & Hwf & Hr & Hrr & Hti & Hsl).
  rewrite Hind in Hind'. injection Hind' as <-.
  rewrite Hsi in Hti. injection Hti as ->.
  destruct (Hax i dim cnt ind se off Hd Hc Hind Hrl) as (_ & Hst).
  unfold extent at 1. simpl.
  destruct (slice_on_axis_aligned t (tile ts) related.*1 related.*2
              (unflatten_tile_index (Z.of_nat k)
                 (map (fun se : Z * Z => se.2 - se.1) related.*1))
              i (dim / cnt) cnt r ind se off o p Hwf Hst Hrr)
    as (H1 & H2 & H3 & H4 & H5); try assumption.
  - rewrite list_lookup_fmap, Hrl. reflexivity.
  - rewrite list_lookup_fmap, Hrl. reflexivity.
  - repeat split; lia.
Qed.

End TilingAlign.

(** X1.  Under the conditions of C1 (positive source tile counts that
    divide the positive axis lengths, [T] a tile of the destination grid of
    the same array) every slice [_look_up_dst_tile_from_src] returns is cut
    from a tile of the source grid, lies inside that tile, and covers the
    same global index range as its placement in [T]: on every axis, source
    tile start plus slice offset equals destination tile start plus
    placement. *)
Theorem look_up_slices_are_aligned
    (self : ReshardingTaskSpec) (idx : list Z) (T : Tile) :
  tensor_shape (dst self) = tensor_shape (src self) ->
  length (tile_shape (dst self)) = length (tensor_shape (dst self)) ->
  Forall2 (fun dim cnt => 0 < dim /\ 0 < cnt /\ dim mod cnt = 0)
          (tensor_shape (src self)) (tile_shape (src self)) ->
  Tiling.tiles_get (dst self) idx = Ok T ->
  exists slices placements,
    Tiling._look_up_dst_tile_from_src self T = Ok (slices, placements) /\
    Forall2 (fun ts pl =>
               aligned T ts pl /\
               exists src_idx, Tiling.tiles_get (src self) src_idx = Ok (tile ts))
            slices placements.
Proof.
  intros Hshape Hrank Hsrc HT.
  apply TilingAlign.look_up_aligned; [exact Hsrc|].
  rewrite <- Hshape. apply (TilingGrid.tiles_get_inside _ idx); [exact Hrank | | exact HT].
  rewrite Hshape. clear -Hsrc.
  induction Hsrc as [|dim cnt dims cnts [Hdim _] _ IH]; constructor; assumption.
Qed.

Lemma look_up_slices_are_aligned_witness :
  exists slices placements,
    Tiling._look_up_dst_tile_from_src TilingExample.spec TilingExample.middle_tile
      = Ok (slices, placements) /\
    Forall2 (fun ts pl =>
               aligned TilingExample.middle_tile ts pl /\
               exists src_idx,
                 Tiling.tiles_get (src TilingExample.spec) src_idx = Ok (tile ts))
            slices placements.
Proof.
  apply (look_up_slices_are_aligned TilingExample.spec [1; 0]
           TilingExample.middle_tile).
  - reflexivity.
  - reflexivity.
  - repeat constructor.
  - vm_compute. reflexivity.
Defined.

(** ** The mapping of a spec *)

Module TilingMap.
Import Tiling TilingAxis TilingGrid TilingFacts TilingCover.

(** Every cell of a grid whose counts are positive and divide the positive
    axis lengths exists, and is a non-empty range inside the array on
    every axis; [flatten] lists one cell per linear index. *)
Lemma tiles_flatten_ok (a : VirtualDistributedArray) :
  Forall2 (fun dim cnt => 0 < dim /\ 0 < cnt /\ dim mod cnt = 0)
          (tensor_shape a) (tile_shape a) ->
  exists tiles,
    tiles_flatten a = Ok tiles /\
    length tiles = Z.to_nat (py_prod (tile_shape a)) /\
    Forall (fun t =>
              Forall2 (fun dim ind => 0 <= start ind < stop ind /\ stop ind <= dim)
                      (tensor_shape a) (indices t)) tiles.
Proof.
  intros Ha. pose proof (Forall2_length _ _ _ Ha) as Hlen.
  assert (Hpos : Forall (fun n => 0 < n) (tile_shape a)).
  { clear Hlen. induction Ha as [|d c ds cs (_ & Hc & _) _ IH]; constructor; assumption. }
  unfold tiles_flatten.
  destruct (map_r_pointwise
              (fun flat => tile_at a (unflatten_tile_index flat (tile_shape a)))
              (py_range (py_prod (tile_shape a)))
              (fun _ _ t =>
                 Forall2 (fun dim ind => 0 <= start ind < stop ind /\ stop ind <= dim)
                         (tensor_shape a) (indices t)))
    as (tiles & Hok & Hl & Hall).
  { intros n flat Hflat. apply lookup_py_range in Hflat as [-> Hrange].
    set (idx := unflatten_tile_index (Z.of_nat n) (tile_shape a)).
    assert (Hidx : forall (i : nat) cnt, tile_shape a !! i = Some cnt ->
              exists k, idx !! i = Some k /\ 0 <= k < cnt).
    { intros i cnt Hc. apply (unflatten_range _ _ Hpos Hrange i cnt Hc). }
    unfold tile_at.
    destruct (map_r_pointwise
                (fun '(dim, (cnt, k)) =>
                   do '(tile_size, ragged) <- py_divmod dim cnt;
                   do _ <- py_assert (ragged =? 0);
                   Ok (Slice (tile_size * k) (tile_size * (k + 1))))
                (zip (tensor_shape a) (zip (tile_shape a) idx))
                (fun _ x y => 0 <= x.2.2 < x.2.1 ->
                              0 <= start y < stop y /\ stop y <= x.1))
      as (inds & Hinds & Hli & Hi).
    { intros i [d [c k]] Hz. apply lookup_zip3 in Hz as (Hd & Hc & Hk).
      pose proof (Forall2_lookup_lr _ _ _ _ _ _ Ha Hd Hc) as (Hdim & Hcnt & Hmod).
      unfold py_divmod. destruct (Z.eqb_spec c 0); [lia|]. simpl.
      rewrite Hmod. simpl. eexists. split; [reflexivity|]. simpl. intros Hkr.
      pose proof (Z.div_mod d c ltac:(lia)) as HL. rewrite Hmod in HL. nia. }
    rewrite Hinds. simpl. eexists. split; [reflexivity|]. simpl.
    assert (Hlz : length (zip (tensor_shape a) (zip (tile_shape a) idx))
                  = length (tensor_shape a)).
    { apply Nat.le_antisymm.
      - rewrite length_zip_with. lia.
      - destruct (Nat.le_gt_cases (length (tensor_shape a))
                    (length (zip (tensor_shape a) (zip (tile_shape a) idx))))
          as [|Hlt]; [assumption|].
        exfalso.
        destruct (lookup_lt_is_Some_2 (tensor_shape a)
                    (length (zip (tensor_shape a) (zip (tile_shape a) idx))) Hlt)
          as [d Hd].
        destruct (Forall2_lookup_l _ _ _ _ _ Ha Hd) as (c & Hc & _).
        destruct (Hidx _ c Hc) as (k & Hk & _).
        assert (Hz : zip (tensor_shape a) (zip (tile_shape a) idx)
                       !! length (zip (tensor_shape a) (zip (tile_shape a) idx))
                     = Some (d, (c, k))) by (apply lookup_zip3; auto).
        apply lookup_lt_Some in Hz. lia. }
    apply Forall2_same_length_lookup_2; [lia|].
    intros i d ind Hd Hind.
    destruct (Forall2_lookup_l _ _ _ _ _ Ha Hd) as (c & Hc & _).
    destruct (Hidx i c Hc) as (k & Hk & Hkr).
    apply (Hi i (d, (c, k)) ind); [apply lookup_zip3; auto | exact Hind | exact Hkr]. }
  exists tiles. split; [exact Hok|]. split.
  - rewrite Hl. unfold py_range. rewrite length_map, length_seq. reflexivity.
  - apply Forall_lookup_2. intros i t Ht.
    destruct (lookup_lt_is_Some_2 (py_range (py_prod (tile_shape a))) i) as [flat Hflat].
    { rewrite <- Hl. eapply lookup_lt_Some, Ht. }
    apply (Hall i flat t Hflat Ht).
Qed.

(** The generated map reads only the two arrays of the spec. *)
Lemma generate_src_dst_map_ext (s1 s2 : ReshardingTaskSpec) :
  src s1 = src s2 -> dst s1 = dst s2 ->
  generate_src_dst_map s1 = generate_src_dst_map s2.
Proof.
  intros Hs Hd. unfold generate_src_dst_map, _look_up_dst_tile_from_src.
  rewrite Hs, Hd. reflexivity.
Qed.

End TilingMap.

(** X2.  When source and destination are tilings of the same array, with
    positive tile counts that divide the positive axis lengths,
    [generate_src_dst_map] returns one entry per destination tile, in the
    order of the flattened destination grid, and every entry holds the
    look-up of its tile, which tiles it exactly. *)
Theorem generate_src_dst_map_covers_every_tile (self : ReshardingTaskSpec) :
  tensor_shape (dst self) = tensor_shape (src self) ->
  Forall2 (fun dim cnt => 0 < dim /\ 0 < cnt /\ dim mod cnt = 0)
          (tensor_shape (src self)) (tile_shape (src self)) ->
  Forall2 (fun dim cnt => 0 < dim /\ 0 < cnt /\ dim mod cnt = 0)
          (tensor_shape (dst self)) (tile_shape (dst self)) ->
  exists m,
    Tiling.generate_src_dst_map self = Ok m /\
    Tiling.tiles_flatten (dst self) = Ok (map (fun e : dst_tile_entry => e.1.1) m) /\
    length m = Z.to_nat (py_prod (tile_shape (dst self))) /\
    Forall (fun e : dst_tile_entry =>
              Tiling._look_up_dst_tile_from_src self e.1.1 = Ok (e.1.2, e.2) /\
              Tiling.exact_cover e.1.1 e.1.2 e.2) m.
Proof.
  intros Hshape Hsrc Hdst.
  destruct (TilingMap.tiles_flatten_ok (dst self) Hdst) as (tiles & Htiles & Hlt & Hin).
  unfold Tiling.generate_src_dst_map. rewrite Htiles. simpl.
  destruct (map_r_pointwise
              (fun tile =>
                 do '(src_tile_slices, indices_in_dst_tile) <-
                   Tiling._look_up_dst_tile_from_src self tile;
                 Ok (tile, src_tile_slices, indices_in_dst_tile))
              tiles
              (fun _ t (e : dst_tile_entry) =>
                 e.1.1 = t /\
                 Tiling._look_up_dst_tile_from_src self e.1.1 = Ok (e.1.2, e.2) /\
                 Tiling.exact_cover e.1.1 e.1.2 e.2))
    as (m & Hm & Hlm & Hall).
  { intros i t Ht.
    destruct (TilingMain.look_up_cover self t Hsrc) as (sl & pls & Hok & Hcov).
    { rewrite <- Hshape. rewrite Forall_forall in Hin.
      eapply Hin, list_elem_of_lookup_2, Ht. }
    rewrite Hok. simpl. eexists. split; [reflexivity|]. simpl. auto. }
  exists m. split; [exact Hm|]. split; [|split].
  - f_equal. apply list_eq_same_length with (length tiles).
    + rewrite length_map. exact Hlm.
    + reflexivity.
    + intros i t t' Hi Ht Ht'. rewrite list_lookup_fmap in Ht'.
      destruct (lookup_lt_is_Some_2 m i) as [e He]; [lia|].
      unfold dst_tile_entry in *. rewrite He in Ht'. simpl in Ht'. injection Ht' as <-.
      symmetry. apply (Hall i t e Ht He).
  - rewrite <- Hlt. exact Hlm.
  - apply Forall_lookup_2. intros i e He.
    destruct (lookup_lt_is_Some_2 tiles i) as [t Ht].
    { rewrite <- Hlm. eapply lookup_lt_Some, He. }
    apply (Hall i t e Ht He).
Qed.

Lemma generate_src_dst_map_covers_every_tile_witness :
  exists m,
    Tiling.generate_src_dst_map TilingExample.spec = Ok m /\
    Tiling.tiles_flatten (dst TilingExample.spec)
      = Ok (map (fun e : dst_tile_entry => e.1.1) m) /\
    length m = 3%nat /\
    Forall (fun e : dst_tile_entry =>
              Tiling._look_up_dst_tile_from_src TilingExample.spec e.1.1
                = Ok (e.1.2, e.2) /\
              Tiling.exact_cover e.1.1 e.1.2 e.2) m.
Proof.
  apply (generate_src_dst_map_covers_every_tile TilingExample.spec).
  - reflexivity.
  - repeat constructor.
  - repeat constructor.
Defined.

(** X3.  Reading [dst_tile_to_src_tiles_map] is idempotent: after a read
    that returned, a second read returns the same mapping and leaves the
    spec as the first read left it (also when the mapping is empty and is
    generated again), and a read changes nothing of the spec but the
    cache. *)
Theorem dst_tile_to_src_tiles_map_read_is_stable
    (self self' : ReshardingTaskSpec) (m : list dst_tile_entry) :
  Tiling.dst_tile_to_src_tiles_map self = Ok (m, self') ->
  Tiling.dst_tile_to_src_tiles_map self' = Ok (m, self') /\
  src self' = src self /\ dst self' = dst self /\
  _strategy self' = _strategy self /\
  allgather_slice self' = allgather_slice self /\
  (_dst_tile_to_src_tiles_map self' = Some m \/ self' = self).
Proof.
  intros H. unfold Tiling.dst_tile_to_src_tiles_map in H.
  destruct (_dst_tile_to_src_tiles_map self) as [[|e m0]|] eqn:Hc.
  - apply rbind_ok in H as (m' & Hgen & H). injection H as <- <-.
    split; [|simpl; auto 10].
    unfold Tiling.dst_tile_to_src_tiles_map. cbn [_dst_tile_to_src_tiles_map].
    destruct m' as [|e m'].
    + match goal with
      | |- context [Tiling.generate_src_dst_map ?s] =>
          rewrite (TilingMap.generate_src_dst_map_ext s self eq_refl eq_refl), Hgen
      end.
      reflexivity.
    + reflexivity.
  - injection H as <- <-. split; [|auto 10].
    unfold Tiling.dst_tile_to_src_tiles_map. rewrite Hc. reflexivity.
  - apply rbind_ok in H as (m' & Hgen & H). injection H as <- <-.
    split; [|simpl; auto 10].
    unfold Tiling.dst_tile_to_src_tiles_map. cbn [_dst_tile_to_src_tiles_map].
    destruct m' as [|e m'].
    + match goal with
      | |- context [Tiling.generate_src_dst_map ?s] =>
          rewrite (TilingMap.generate_src_dst_map_ext s self eq_refl eq_refl), Hgen
      end.
      reflexivity.
    + reflexivity.
Qed.

Lemma dst_tile_to_src_tiles_map_read_is_stable_witness :
  Tiling.dst_tile_to_src_tiles_map TilingMapExample.first_read.2
    = Ok TilingMapExample.first_read /\
  length TilingMapExample.first_read.1 = 3%nat.
Proof.
  split; [|reflexivity].
  apply (dst_tile_to_src_tiles_map_read_is_stable TilingExample.spec
           TilingMapExample.first_read.2 TilingMapExample.first_read.1).
  vm_compute. reflexivity.
Defined.

(** ** More facts about loops *)

(** A loop invariant that knows the position of the loop. *)
Lemma for_each_inv_idx {St A} (P : nat -> St -> Prop) (body : St -> A -> result St) xs :
  forall (n : nat) s s',
  (forall (k : nat) x s s', xs !! k = Some x -> body s x = Ok s' ->
     P (n + k)%nat s -> P (n + k + 1)%nat s') ->
  for_each xs body s = Ok s' -> P n s -> P (n + length xs)%nat s'.
Proof.
  induction xs as [|x xs IH]; intros n s s' Hbody H Hs; simpl in H.
  - injection H as <-. simpl. rewrite Nat.add_0_r. exact Hs.
  - apply rbind_ok in H as (s1 & H1 & H). simpl.
    replace (n + S (length xs))%nat with (S n + length xs)%nat by lia.
    apply (IH (S n) s1 s'); [|exact H|].
    + intros k y s2 s3 Hy Hb. replace (S n + k)%nat with (n + S k)%nat by lia.
      apply (Hbody (S k) y s2 s3 Hy Hb).
    + specialize (Hbody 0%nat x s s1 eq_refl H1).
      rewrite Nat.add_0_r in Hbody. replace (S n) with (n + 1)%nat by lia. auto.
Qed.

(** A loop returns when every iteration does from a state of the
    invariant. *)
Lemma for_each_total_idx {St A} (P : nat -> St -> Prop) (body : St -> A -> result St) xs :
  forall (n : nat) s,
  (forall (k : nat) x s, xs !! k = Some x -> P (n + k)%nat s ->
     exists s', body s x = Ok s' /\ P (n + k + 1)%nat s') ->
  P n s -> exists s', for_each xs body s = Ok s' /\ P (n + length xs)%nat s'.
Proof.
  induction xs as [|x xs IH]; intros n s Hbody Hs; simpl.
  - exists s. rewrite Nat.add_0_r. auto.
  - destruct (Hbody 0%nat x s eq_refl) as (s1 & H1 & Hs1);
      [rewrite Nat.add_0_r; exact Hs|].
    rewrite H1. simpl. rewrite Nat.add_0_r in Hs1.
    replace (n + S (length xs))%nat with (S n + length xs)%nat by lia.
    apply (IH (S n) s1).
    + intros k y s2 Hy Hs2. replace (S n + k)%nat with (n + S k)%nat in * by lia.
      apply (Hbody (S k) y s2 Hy Hs2).
    + replace (S n) with (n + 1)%nat by lia. exact Hs1.
Qed.

(** In a loop that returned, every iteration returned. *)
Lemma for_each_ok_body {St A} (body : St -> A -> result St) xs : forall s s' x,
  for_each xs body s = Ok s' -> x ∈ xs -> exists s1 s2, body s1 x = Ok s2.
Proof.
  induction xs as [|y xs IH]; intros s s' x H Hx; simpl in H.
  - inversion Hx.
  - apply rbind_ok in H as (s1 & H1 & H).
    apply elem_of_cons in Hx as [->|Hx]; [eauto | eapply IH; eauto].
Qed.

(** A loop whose body can only raise [e] can only raise [e]. *)
Lemma for_each_raises {St A} (body : St -> A -> result St) (e : exn) xs : forall s e',
  (forall s x e', body s x = Raise e' -> e' = e) ->
  for_each xs body s = Raise e' -> e' = e.
Proof.
  induction xs as [|y xs IH]; intros s e' Hbody H; simpl in H; [discriminate|].
  destruct (body s y) as [s1|e1] eqn:Hb; simpl in H.
  - eapply IH; eauto.
  - injection H as <-. eapply Hbody, Hb.
Qed.

Lemma enumerate_snoc {A} (l : list A) (x : A) :
  enumerate (l ++ [x]) = enumerate l ++ [(length l, x)].
Proof.
  apply list_eq. intros i.
  destruct (enumerate (l ++ [x]) !! i) as [[j y]|] eqn:E.
  - apply lookup_enumerate in E as [-> E]. symmetry.
    destruct (Nat.lt_ge_cases i (length l)) as [Hlt|Hge].
    + rewrite lookup_app_l in E by exact Hlt.
      rewrite lookup_app_l; [apply lookup_enumerate; auto|].
      unfold enumerate. rewrite length_zip_with, length_seq. lia.
    + rewrite lookup_app_r in E by exact Hge.
      destruct (i - length l)%nat as [|n] eqn:Hn; [|destruct n; discriminate E].
      injection E as <-.
      rewrite lookup_app_r; unfold enumerate; rewrite length_zip_with, length_seq,
        Nat.min_id; [|lia].
      rewrite Hn. simpl. do 2 f_equal. lia.
  - symmetry. apply lookup_ge_None. apply lookup_ge_None in E.
    unfold enumerate in *. rewrite length_app, !length_zip_with, !length_seq in *.
    rewrite length_app in E. simpl in *. lia.
Qed.

Module GroupFacts.
Import CollectiveGroup.

(** [{worker: r for r, worker in enumerate(workers)}] keeps, for every
    worker, the last slot that holds it. *)
Lemma worker_ranks_last (l : list (option worker)) (w : worker) (r : nat) :
  fold_left (fun (m : gmap worker nat) '(r, ow) =>
               match ow with
               | Some w => <[w := r]> m
               | None => m
               end) (enumerate l) ∅ !! w = Some r <->
  l !! r = Some (Some w) /\
  forall r' : nat, (r < r')%nat -> l !! r' <> Some (Some w).
Proof.
  induction l as [|x l IH] using rev_ind.
  - simpl. rewrite lookup_empty. split; [discriminate | intros [H _]; discriminate H].
  - rewrite enumerate_snoc, fold_left_app. simpl.
    destruct x as [w'|].
    + destruct (decide (w' = w)) as [->|Hne].
      * rewrite lookup_insert_eq. split.
        -- intros [= <-]. split.
           ++ rewrite lookup_app_r by lia. rewrite Nat.sub_diag. reflexivity.
           ++ intros r' Hr'. rewrite lookup_ge_None_2; [discriminate|].
              rewrite length_app. simpl. lia.
        -- intros [Hr Hlast]. f_equal.
           destruct (Nat.lt_trichotomy r (length l)) as [Hlt|[->|Hgt]]; [|reflexivity|].
           ++ exfalso. apply (Hlast (length l) Hlt).
              rewrite lookup_app_r by lia. rewrite Nat.sub_diag. reflexivity.
           ++ apply lookup_lt_Some in Hr. rewrite length_app in Hr. simpl in Hr. lia.
      * rewrite lookup_insert_ne by exact Hne. rewrite IH. split.
        -- intros [Hr Hlast]. split.
           ++ rewrite lookup_app_l; [exact Hr | eapply lookup_lt_Some, Hr].
           ++ intros r' Hr' H.
              destruct (Nat.lt_ge_cases r' (length l)) as [Hlt|Hge].
              ** rewrite lookup_app_l in H by exact Hlt. apply (Hlast r' Hr' H).
              ** rewrite lookup_app_r in H by exact Hge.
                 destruct (r' - length l)%nat as [|n]; [|destruct n; discriminate H].
                 simpl in H. congruence.
        -- intros [Hr Hlast].
           assert (Hlt : (r < length l)%nat).
           { destruct (Nat.lt_ge_cases r (length l)) as [|Hge]; [assumption|].
             rewrite lookup_app_r in Hr by exact Hge.
             destruct (r - length l)%nat as [|n]; [|destruct n; discriminate Hr].
             simpl in Hr. congruence. }
           rewrite lookup_app_l in Hr by exact Hlt. split; [exact Hr|].
           intros r' Hr' H. apply (Hlast r' Hr').
           rewrite lookup_app_l; [exact H | eapply lookup_lt_Some, H].
    + rewrite IH. split.
      * intros [Hr Hlast]. split.
        -- rewrite lookup_app_l; [exact Hr | eapply lookup_lt_Some, Hr].
        -- intros r' Hr' H.
           destruct (Nat.lt_ge_cases r' (length l)) as [Hlt|Hge].
           ++ rewrite lookup_app_l in H by exact Hlt. apply (Hlast r' Hr' H).
           ++ rewrite lookup_app_r in H by exact Hge.
              destruct (r' - length l)%nat as [|n]; [|destruct n; discriminate H].
              discriminate H.
      * intros [Hr Hlast].
        assert (Hlt : (r < length l)%nat).
        { destruct (Nat.lt_ge_cases r (length l)) as [|Hge]; [assumption|].
          rewrite lookup_app_r in Hr by exact Hge.
          destruct (r - length l)%nat as [|n]; [|destruct n; discriminate Hr].
          discriminate Hr. }
        rewrite lookup_app_l in Hr by exact Hlt. split; [exact Hr|].
        intros r' Hr' H. apply (Hlast r' Hr').
        rewrite lookup_app_l; [exact H | eapply lookup_lt_Some, H].
Qed.

Section Tables.

Variables src dst : Mesh.

Let ns : nat := length (host_ips src).
Let nd : nat := length (host_ips dst).

(** The state of the tables once [ks] source hosts and [kd] destination
    hosts have their slot: the slots hold the workers of those hosts, and
    every device recorded so far has the same key in all four tables, with
    the worker of the host its rank names. *)
Definition tables_ok (ks kd : nat) (self : t) : Prop :=
  length (mesh_workers self) = (ns + nd)%nat /\
  (forall r : nat, (r < ks)%nat ->
     exists w, workers src !! r = Some w /\ mesh_workers self !! r = Some (Some w)) /\
  (forall r : nat, (r < kd)%nat ->
     exists w, workers dst !! r = Some w /\
               mesh_workers self !! (r + ns)%nat = Some (Some w)) /\
  forall d : string,
    match device_str_to_rank_map self !! d with
    | Some (r, j) =>
        exists w hid,
          device_str_to_mesh_worker_map self !! d = Some w /\
          device_str_to_host_id_map self !! d = Some hid /\
          device_str_to_device_id_map self !! d = Some j /\
          ((r < ks /\ hid = r /\ workers src !! r = Some w /\
            j < num_devices_per_host src)%nat \/
           (r = hid + ns /\ hid < kd /\ workers dst !! hid = Some w /\
            j < num_devices_per_host dst)%nat)
    | None =>
        device_str_to_mesh_worker_map self !! d = None /\
        device_str_to_host_id_map self !! d = None /\
        device_str_to_device_id_map self !! d = None
    end.

Lemma tables_ok_record (ks kd : nat) (self : t) d (r j hid : nat) (w : worker) :
  tables_ok ks kd self ->
  ((r < ks /\ hid = r /\ workers src !! r = Some w /\
    j < num_devices_per_host src)%nat \/
   (r = hid + ns /\ hid < kd /\ workers dst !! hid = Some w /\
    j < num_devices_per_host dst)%nat) ->
  tables_ok ks kd (record_device self d (r, j) w hid j).
Proof.
  intros (Hlen & Hs & Hd & Hmap) Hnew.
  split; [exact Hlen|]. split; [exact Hs|]. split; [exact Hd|].
  intros d'. simpl. destruct (decide (d = d')) as [->|Hne].
  - rewrite !lookup_insert_eq. exists w, hid. auto.
  - rewrite !lookup_insert_ne by exact Hne. apply Hmap.
Qed.

Lemma fill_src_tables (self self' : t) :
  fill_src src self = Ok self' ->
  tables_ok 0 0 self -> tables_ok ns 0 self'.
Proof.
  intros H H0. unfold fill_src in H.
  assert (Hlen : length (enumerate (host_ips src)) = ns).
  { unfold enumerate. rewrite length_zip_with, length_seq. lia. }
  pose proof (fun Hb => for_each_inv_idx (fun k s => tables_ok k 0 s) _ _ 0%nat _ _ Hb H H0)
    as Hfin.
  rewrite Hlen in Hfin. apply Hfin.
  clear H H0 Hfin. intros k [i ip] s s' Hk Hbody. simpl.
  apply lookup_enumerate in Hk as [-> Hip].
  apply rbind_ok in Hbody as (w & Hw & Hbody). apply list_get_ok in Hw.
  intros (Hl & Hs & Hd & Hmap).
  assert (Hkn : (k < ns)%nat) by (eapply lookup_lt_Some, Hip).
  eapply (for_each_inv_in (tables_ok (k + 1) 0)); [|exact Hbody|].
  - intros s1 j s2 Hj Hb Hinv.
    apply rbind_ok in Hb as (d & _ & Hb). apply rbind_ok in Hb as (w' & Hw' & Hb).
    apply list_get_ok in Hw'. injection Hb as <-.
    apply tables_ok_record; [exact Hinv|]. left.
    apply elem_of_seq in Hj. repeat split; try lia. exact Hw'.
  - split; [simpl; rewrite length_insert; exact Hl|]. split; [|split].
    + intros r Hr. simpl. destruct (decide (r = k)) as [->|Hne].
      * exists w. split; [exact Hw|]. apply list_lookup_insert_eq. lia.
      * destruct (Hs r ltac:(lia)) as (w0 & Hw0 & Hm). exists w0. split; [exact Hw0|].
        rewrite list_lookup_insert_ne by lia. exact Hm.
    + intros r Hr. lia.
    + intros d. specialize (Hmap d). simpl.
      destruct (device_str_to_rank_map s !! d) as [[r j]|]; [|exact Hmap].
      destruct Hmap as (w0 & hid & H1 & H2 & H3 & [Hc|Hc]); exists w0, hid;
        repeat split; try assumption; [left | right]; intuition lia.
Qed.

Lemma fill_dst_tables (self self' : t) :
  fill_dst src dst self = Ok self' ->
  tables_ok ns 0 self -> tables_ok ns nd self'.
Proof.
  intros H H0. unfold fill_dst in H.
  assert (Hlen : length (enumerate (host_ips dst)) = nd).
  { unfold enumerate. rewrite length_zip_with, length_seq. lia. }
  pose proof (fun Hb => for_each_inv_idx (fun k s => tables_ok ns k s) _ _ 0%nat _ _ Hb H H0)
    as Hfin.
  rewrite Hlen in Hfin. apply Hfin.
  clear H H0 Hfin. intros k [i ip] s s' Hk Hbody. simpl.
  apply lookup_enumerate in Hk as [-> Hip].
  apply rbind_ok in Hbody as (w & Hw & Hbody). apply list_get_ok in Hw.
  intros (Hl & Hs & Hd & Hmap).
  assert (Hkn : (k < nd)%nat) by (eapply lookup_lt_Some, Hip).
  eapply (for_each_inv_in (tables_ok ns (k + 1))); [|exact Hbody|].
  - intros s1 j s2 Hj Hb Hinv.
    apply rbind_ok in Hb as (d & _ & Hb). apply rbind_ok in Hb as (w' & Hw' & Hb).
    apply list_get_ok in Hw'. injection Hb as <-.
    apply tables_ok_record; [exact Hinv|]. right.
    apply elem_of_seq in Hj. repeat split; try lia. exact Hw'.
  - fold ns. split; [simpl; rewrite length_insert; exact Hl|]. split; [|split].
    + intros r Hr. simpl.
      destruct (Hs r Hr) as (w0 & Hw0 & Hm). exists w0. split; [exact Hw0|].
      rewrite list_lookup_insert_ne by lia. exact Hm.
    + intros r Hr. simpl. destruct (decide (r = k)) as [->|Hne].
      * exists w. split; [exact Hw|]. apply list_lookup_insert_eq. lia.
      * destruct (Hd r ltac:(lia)) as (w0 & Hw0 & Hm). exists w0. split; [exact Hw0|].
        rewrite list_lookup_insert_ne by lia. exact Hm.
    + intros d. specialize (Hmap d). simpl.
      destruct (device_str_to_rank_map s !! d) as [[r j]|]; [|exact Hmap].
      destruct Hmap as (w0 & hid & H1 & H2 & H3 & [Hc|Hc]); exists w0, hid;
        repeat split; try assumption; [left | right]; intuition lia.
Qed.

(** The constructor leaves the tables in agreement. *)
Lemma init_tables (device_strs : list string) (g : t) :
  init device_strs src dst = Ok g ->
  tables_ok ns nd g /\
  worker_to_rank_map g
  = fold_left (fun (m : gmap worker nat) '(r, ow) =>
                 match ow with
                 | Some w => <[w := r]> m
                 | None => m
                 end) (enumerate (mesh_workers g)) ∅.
Proof.
  intros H. unfold init in H.
  apply rbind_ok in H as (s1 & H1 & H). apply rbind_ok in H as (s2 & H2 & H).
  injection H as <-. split; [|reflexivity].
  apply fill_src_tables in H1.
  - apply (fill_dst_tables _ _ H2) in H1. exact H1.
  - split; [simpl; rewrite repeat_length; reflexivity|].
    split; [intros r Hr; lia|]. split; [intros r Hr; lia|].
    intros d. simpl. rewrite !lookup_empty. auto.
Qed.

End Tables.


Section Ranks.

Variables src dst : Mesh.

Let ns : nat := length (host_ips src).
Let nd : nat := length (host_ips dst).

Hypothesis Hsrc : mesh_wf src.
Hypothesis Hdst : mesh_wf dst.
Hypothesis Hnodup : NoDup (device_strs src ++ device_strs dst).
Hypothesis Hsame :
  num_devices_per_host src = num_devices_per_host dst \/ (nd <= 1)%nat.

(** The devices of [m] up to, and without, device [jj] of host [k] have
    the rank of their position, the hosts counted from [base]. *)
Definition ranked (m : Mesh) (base k jj : nat) (self : t) : Prop :=
  forall (i j : nat) d,
    (i < k \/ (i = k /\ j < jj))%nat -> (j < num_devices_per_host m)%nat ->
    mesh_device m i j = Some d ->
    device_str_to_rank_map self !! d = Some ((i + base)%nat, j).

Lemma mesh_device_inj (m : Mesh) (i j i' j' : nat) d :
  NoDup (device_strs m) ->
  (j < num_devices_per_host m)%nat -> (j' < num_devices_per_host m)%nat ->
  mesh_device m i j = Some d -> mesh_device m i' j' = Some d ->
  i = i' /\ j = j'.
Proof.
  intros Hnd Hj Hj' H H'. unfold mesh_device in *.
  pose proof (NoDup_lookup _ _ _ _ Hnd H H') as Heq.
  assert (i = i') as <- by (destruct (Nat.lt_trichotomy i i') as [|[|]]; nia).
  split; [reflexivity | lia].
Qed.

Lemma ranked_next_host (m : Mesh) (base k : nat) (self : t) :
  ranked m base k (num_devices_per_host m) self -> ranked m base (k + 1) 0 self.
Proof.
  intros H i j d Hij Hj Hd. apply (H i j d); [lia | exact Hj | exact Hd].
Qed.

Lemma ranked_record (m : Mesh) (base k jj : nat) (self : t) d w hid :
  NoDup (device_strs m) ->
  (jj < num_devices_per_host m)%nat ->
  mesh_device m k jj = Some d ->
  ranked m base k jj self ->
  ranked m base k (jj + 1)
    (record_device self d ((k + base)%nat, jj) w hid jj).
Proof.
  intros Hnd Hjj Hd H i j d' Hij Hj Hd'. simpl.
  destruct (decide (d = d')) as [<-|Hne].
  - destruct (mesh_device_inj m i j k jj d Hnd Hj Hjj Hd' Hd) as [-> ->].
    apply lookup_insert_eq.
  - rewrite lookup_insert_ne by exact Hne.
    apply (H i j d'); [|exact Hj|exact Hd'].
    destruct Hij as [Hi|[-> Hlt]]; [left; exact Hi|].
    right. split; [reflexivity|].
    assert (j <> jj) by (intros ->; congruence). lia.
Qed.

Lemma mesh_device_some (m : Mesh) (i j : nat) :
  mesh_wf m -> (i < length (host_ips m))%nat -> (j < num_devices_per_host m)%nat ->
  exists d, mesh_device m i j = Some d.
Proof.
  intros [_ Hl] Hi Hj. apply lookup_lt_is_Some_2. rewrite Hl. nia.
Qed.

Lemma NoDup_src : NoDup (device_strs src).
Proof. apply NoDup_app in Hnodup as (H & _ & _). exact H. Qed.

Lemma NoDup_dst : NoDup (device_strs dst).
Proof. apply NoDup_app in Hnodup as (_ & _ & H). exact H. Qed.

Lemma fill_src_ranks (self : t) :
  exists self', fill_src src self = Ok self' /\ ranked src 0 ns 0 self'.
Proof.
  unfold fill_src.
  assert (Hlen : length (enumerate (host_ips src)) = ns).
  { unfold enumerate. rewrite length_zip_with, length_seq. lia. }
  destruct (for_each_total_idx (fun k s => ranked src 0 k 0 s)
              (fun self '(i, _) =>
                 do w <- list_get (workers src) i;
                 let self := set_mesh_worker self i w in
                 for_each (seq 0 (num_devices_per_host src))
                   (fun self j =>
                      do device_str <-
                        list_get (device_strs src)
                                 (i * num_devices_per_host src + j)%nat;
                      do w <- list_get (workers src) i;
                      Ok (record_device self device_str (i, j) w i j))
                   self)
              (enumerate (host_ips src)) 0%nat self) as (s' & Hok & Hs').
  - intros k [i ip] s Hk Hinv. apply lookup_enumerate in Hk as [-> Hip]. simpl in *.
    assert (Hkn : (k < ns)%nat) by (eapply lookup_lt_Some, Hip).
    destruct (lookup_lt_is_Some_2 (workers src) k) as [w Hw].
    { destruct Hsrc as [Hw _]. fold ns in Hw. lia. }
    unfold list_get at 1. rewrite Hw. simpl.
    destruct (for_each_total_idx (fun j s => ranked src 0 k j s)
                (fun self j =>
                   do device_str <-
                     list_get (device_strs src)
                              (k * num_devices_per_host src + j)%nat;
                   do w <- list_get (workers src) k;
                   Ok (record_device self device_str (k, j) w k j))
                (seq 0 (num_devices_per_host src)) 0%nat (set_mesh_worker s k w))
      as (s1 & Hok1 & Hs1).
    + intros j x s0 Hx Hinv0. apply lookup_seq in Hx as [-> Hj]. simpl in *.
      destruct (mesh_device_some src k j Hsrc Hkn Hj) as [d Hd].
      unfold list_get. unfold mesh_device in Hd. rewrite Hd, Hw. simpl.
      eexists. split; [reflexivity|].
      pose proof (ranked_record src 0 k j s0 d w k NoDup_src Hj Hd Hinv0) as Hr.
      rewrite Nat.add_0_r in Hr. exact Hr.
    + exact Hinv.
    + exists s1. split; [exact Hok1|]. rewrite length_seq in Hs1. simpl in Hs1.
      apply ranked_next_host. exact Hs1.
  - intros i j d Hij. lia.
  - exists s'. rewrite Hlen in Hs'. auto.
Qed.

Lemma dst_index (i j : nat) :
  (i < nd)%nat ->
  (i * num_devices_per_host src + j)%nat = (i * num_devices_per_host dst + j)%nat.
Proof.
  intros Hi. destruct Hsame as [->|Hle]; [reflexivity|].
  assert (i = 0)%nat as -> by lia. reflexivity.
Qed.

Lemma ranked_src_record (k jj : nat) (self : t) d rank w hid j :
  d ∈ device_strs dst ->
  ranked src 0 k jj self ->
  ranked src 0 k jj (record_device self d rank w hid j).
Proof.
  intros Hd H i j' d' Hij Hj Hd'. simpl.
  rewrite lookup_insert_ne; [apply (H i j' d' Hij Hj Hd')|].
  intros ->. apply NoDup_app in Hnodup as (_ & Hdisj & _).
  apply (Hdisj d'); [|exact Hd]. eapply list_elem_of_lookup_2, Hd'.
Qed.

Lemma fill_dst_ranks (self : t) :
  ranked src 0 ns 0 self ->
  exists self',
    fill_dst src dst self = Ok self' /\
    ranked src 0 ns 0 self' /\ ranked dst ns nd 0 self'.
Proof.
  intros H0. unfold fill_dst.
  assert (Hlen : length (enumerate (host_ips dst)) = nd).
  { unfold enumerate. rewrite length_zip_with, length_seq. lia. }
  destruct (for_each_total_idx
              (fun k s => ranked src 0 ns 0 s /\ ranked dst ns k 0 s)
              (fun self '(i, _) =>
                 do w <- list_get (workers dst) i;
                 let self := set_mesh_worker self (i + length (host_ips src)) w in
                 for_each (seq 0 (num_devices_per_host dst))
                   (fun self j =>
                      do device_str <-
                        list_get (device_strs dst)
                                 (i * num_devices_per_host src + j)%nat;
                      do w <- list_get (workers dst) i;
                      Ok (record_device self device_str
                            ((i + length (host_ips src))%nat, j) w i j))
                   self)
              (enumerate (host_ips dst)) 0%nat self) as (s' & Hok & Hs').
  - intros k [i ip] s Hk Hinv. apply lookup_enumerate in Hk as [-> Hip]. simpl in *.
    assert (Hkn : (k < nd)%nat) by (eapply lookup_lt_Some, Hip).
    destruct (lookup_lt_is_Some_2 (workers dst) k) as [w Hw].
    { destruct Hdst as [Hw _]. fold nd in Hw. lia. }
    unfold list_get at 1. rewrite Hw. simpl.
    destruct (for_each_total_idx
                (fun j s => ranked src 0 ns 0 s /\ ranked dst ns k j s)
                (fun self j =>
                   do device_str <-
                     list_get (device_strs dst)
                              (k * num_devices_per_host src + j)%nat;
                   do w <- list_get (workers dst) k;
                   Ok (record_device self device_str
                         ((k + length (host_ips src))%nat, j) w k j))
                (seq 0 (num_devices_per_host dst)) 0%nat
                (set_mesh_worker s (k + length (host_ips src)) w))
      as (s1 & Hok1 & Hs1).
    + intros j x s0 Hx [Hinv1 Hinv2]. apply lookup_seq in Hx as [-> Hj]. simpl in *.
      destruct (mesh_device_some dst k j Hdst Hkn Hj) as [d Hd].
      unfold list_get. rewrite (dst_index k j Hkn).
      unfold mesh_device in Hd. rewrite Hd, Hw. simpl.
      eexists. split; [reflexivity|]. split.
      * apply ranked_src_record; [eapply list_elem_of_lookup_2, Hd | exact Hinv1].
      * apply (ranked_record dst ns k j s0 d w k NoDup_dst Hj Hd Hinv2).
    + exact Hinv.
    + exists s1. split; [exact Hok1|]. rewrite length_seq in Hs1. simpl in Hs1.
      split; [apply Hs1|]. apply ranked_next_host, Hs1.
  - split; [exact H0|]. intros i j d Hij. lia.
  - exists s'. rewrite Hlen in Hs'. simpl in Hs'. destruct Hs'. auto.
Qed.

(** With well-formed meshes that share no device, and either the same
    number of devices per host or at most one destination host, the
    constructor returns and every device has the rank of its position. *)
Lemma init_ranks (device_strs : list string) :
  exists g,
    init device_strs src dst = Ok g /\
    ranked src 0 ns 0 g /\ ranked dst ns nd 0 g.
Proof.
  unfold init.
  match goal with
  | |- context [fill_src src ?s] => destruct (fill_src_ranks s) as (s1 & H1 & Hr1)
  end.
  rewrite H1. simpl.
  destruct (fill_dst_ranks s1 Hr1) as (s2 & H2 & Hr2 & Hr3).
  rewrite H2. simpl. eexists. split; [reflexivity|]. split; assumption.
Qed.

End Ranks.

Lemma rbind_raise {A B} (r : result A) (k : A -> result B) (e : exn) :
  rbind r k = Raise e -> r = Raise e \/ exists a, r = Ok a /\ k a = Raise e.
Proof. destruct r as [a|e']; simpl; [eauto | intros [= ->]; auto]. Qed.

Lemma list_get_raises {A} (l : list A) (i : nat) (e : exn) :
  list_get l i = Raise e -> e = IndexError.
Proof. unfold list_get. destruct (l !! i); [discriminate | congruence]. Qed.

(** Every exception of the constructor is an [IndexError]. *)
Lemma init_raises (ds : list string) (src dst : Mesh) (e : exn) :
  init ds src dst = Raise e -> e = IndexError.
Proof.
  unfold init. intros H.
  apply rbind_raise in H as [H|(s1 & _ & H)].
  - unfold fill_src in H. revert H. apply for_each_raises. intros s [i ip] e' Hb.
    apply rbind_raise in Hb as [Hb|(w & _ & Hb)]; [apply (list_get_raises _ _ _ Hb)|].
    revert Hb. apply for_each_raises. intros s0 j e0 Hb.
    apply rbind_raise in Hb as [Hb|(d & _ & Hb)]; [apply (list_get_raises _ _ _ Hb)|].
    apply rbind_raise in Hb as [Hb|(w' & _ & Hb)]; [apply (list_get_raises _ _ _ Hb)|].
    discriminate Hb.
  - apply rbind_raise in H as [H|(s2 & _ & H)]; [|discriminate H].
    unfold fill_dst in H. revert H. apply for_each_raises. intros s [i ip] e' Hb.
    apply rbind_raise in Hb as [Hb|(w & _ & Hb)]; [apply (list_get_raises _ _ _ Hb)|].
    revert Hb. apply for_each_raises. intros s0 j e0 Hb.
    apply rbind_raise in Hb as [Hb|(d & _ & Hb)]; [apply (list_get_raises _ _ _ Hb)|].
    apply rbind_raise in Hb as [Hb|(w' & _ & Hb)]; [apply (list_get_raises _ _ _ Hb)|].
    discriminate Hb.
Qed.

(** A successful constructor has read the last device of the last
    destination host at the index the source computes. *)
Lemma init_reads_last (ds : list string) (src dst : Mesh) (g : t) :
  init ds src dst = Ok g ->
  forall i j : nat, (i < length (host_ips dst))%nat ->
    (j < num_devices_per_host dst)%nat ->
    (i * num_devices_per_host src + j < length (device_strs dst))%nat.
Proof.
  intros H i j Hi Hj. unfold init in H.
  apply rbind_ok in H as (s1 & _ & H). apply rbind_ok in H as (s2 & H2 & _).
  unfold fill_dst in H2.
  destruct (lookup_lt_is_Some_2 (host_ips dst) i Hi) as [ip Hip].
  destruct (for_each_ok_body _ _ _ _ (i, ip) H2) as (sa & sb & Hb).
  { eapply list_elem_of_lookup_2. apply lookup_enumerate. eauto. }
  simpl in Hb. apply rbind_ok in Hb as (w & _ & Hb).
  destruct (for_each_ok_body _ _ _ _ j Hb) as (sc & sd & Hb').
  { apply elem_of_seq. lia. }
  apply rbind_ok in Hb' as (d & Hd & _). apply list_get_ok in Hd.
  eapply lookup_lt_Some, Hd.
Qed.


End GroupFacts.


(** X4.  After a successful [CollectiveGroup.__init__] no slot of
    [mesh_workers] is left at [None]: the list is the workers of the
    source hosts followed by the workers of the destination hosts. *)
Theorem collective_group_mesh_workers_filled
    (ds : list string) (src dst : Mesh) (g : CollectiveGroup.t) :
  CollectiveGroup.init ds src dst = Ok g ->
  (length (host_ips src) <= length (workers src))%nat /\
  (length (host_ips dst) <= length (workers dst))%nat /\
  CollectiveGroup.mesh_workers g
  = map Some (take (length (host_ips src)) (workers src)
              ++ take (length (host_ips dst)) (workers dst)).
Proof.
  intros H. destruct (GroupFacts.init_tables src dst ds g H) as [(Hl & Hs & Hd & _) _].
  assert (Hns : (length (host_ips src) <= length (workers src))%nat).
  { destruct (length (host_ips src)) as [|n] eqn:E; [lia|].
    destruct (Hs n ltac:(lia)) as (w & Hw & _). apply lookup_lt_Some in Hw. lia. }
  assert (Hnd : (length (host_ips dst) <= length (workers dst))%nat).
  { destruct (length (host_ips dst)) as [|n] eqn:E; [lia|].
    destruct (Hd n ltac:(lia)) as (w & Hw & _). apply lookup_lt_Some in Hw. lia. }
  split; [exact Hns|]. split; [exact Hnd|].
  apply list_eq_same_length with (length (host_ips src) + length (host_ips dst))%nat.
  - rewrite length_map, length_app, !length_take. lia.
  - exact Hl.
  - intros r x y Hr Hx Hy. rewrite list_lookup_fmap in Hy.
    destruct (Nat.lt_ge_cases r (length (host_ips src))) as [Hlt|Hge].
    + destruct (Hs r Hlt) as (w & Hw & Hm).
      rewrite lookup_app_l in Hy by (rewrite length_take; lia).
      rewrite lookup_take_lt in Hy by exact Hlt. rewrite Hw in Hy. simpl in Hy. congruence.
    + destruct (Hd (r - length (host_ips src))%nat ltac:(lia)) as (w & Hw & Hm).
      replace (r - length (host_ips src) + length (host_ips src))%nat with r in Hm by lia.
      rewrite lookup_app_r in Hy by (rewrite length_take; lia).
      rewrite length_take, Nat.min_l in Hy by exact Hns.
      rewrite lookup_take_lt in Hy by lia. rewrite Hw in Hy. simpl in Hy. congruence.
Qed.

Lemma collective_group_mesh_workers_filled_witness :
  CollectiveGroup.mesh_workers GroupExample.group_2x2_1x1
  = [Some 1%nat; Some 2%nat; Some 0%nat].
Proof.
  apply (collective_group_mesh_workers_filled [] CollectiveGroup.mesh_2x2
           CollectiveGroup.mesh_1x1 GroupExample.group_2x2_1x1).
  vm_compute. reflexivity.
Defined.

(** X5.  After a successful [CollectiveGroup.__init__] the four device
    tables have the same keys, and for a device of rank [(r, j)] the worker
    table holds the worker of slot [r], the device-id table holds [j], and
    the host-id table holds [r] for a source slot and [r] less the number
    of source hosts for a destination slot. *)
Theorem collective_group_tables_agree
    (ds : list string) (src dst : Mesh) (g : CollectiveGroup.t) :
  CollectiveGroup.init ds src dst = Ok g ->
  dom (CollectiveGroup.device_str_to_mesh_worker_map g)
    = dom (CollectiveGroup.device_str_to_rank_map g) /\
  dom (CollectiveGroup.device_str_to_host_id_map g)
    = dom (CollectiveGroup.device_str_to_rank_map g) /\
  dom (CollectiveGroup.device_str_to_device_id_map g)
    = dom (CollectiveGroup.device_str_to_rank_map g) /\
  forall d (r j : nat),
    CollectiveGroup.device_str_to_rank_map g !! d = Some (r, j) ->
    (r < length (host_ips src) + length (host_ips dst))%nat /\
    exists w,
      CollectiveGroup.device_str_to_mesh_worker_map g !! d = Some w /\
      CollectiveGroup.mesh_workers g !! r = Some (Some w) /\
      CollectiveGroup.device_str_to_device_id_map g !! d = Some j /\
      CollectiveGroup.device_str_to_host_id_map g !! d
        = Some (if (r <? length (host_ips src))%nat then r
                else (r - length (host_ips src))%nat).
Proof.
  intros H. destruct (GroupFacts.init_tables src dst ds g H) as [(Hl & Hs & Hd & Hmap) _].
  assert (Hdom : forall d,
            (is_Some (CollectiveGroup.device_str_to_mesh_worker_map g !! d) <->
             is_Some (CollectiveGroup.device_str_to_rank_map g !! d)) /\
            (is_Some (CollectiveGroup.device_str_to_host_id_map g !! d) <->
             is_Some (CollectiveGroup.device_str_to_rank_map g !! d)) /\
            (is_Some (CollectiveGroup.device_str_to_device_id_map g !! d) <->
             is_Some (CollectiveGroup.device_str_to_rank_map g !! d))).
  { intros d. specialize (Hmap d).
    destruct (CollectiveGroup.device_str_to_rank_map g !! d) as [[r j]|].
    - destruct Hmap as (w & hid & -> & -> & -> & _). repeat split; eauto.
    - destruct Hmap as (-> & -> & ->). repeat split; intros [x Hx]; discriminate Hx. }
  split; [apply set_eq; intros d; rewrite !elem_of_dom; apply Hdom|].
  split; [apply set_eq; intros d; rewrite !elem_of_dom; apply Hdom|].
  split; [apply set_eq; intros d; rewrite !elem_of_dom; apply Hdom|].
  intros d r j Hr. specialize (Hmap d). rewrite Hr in Hmap.
  destruct Hmap as (w & hid & H1 & H2 & H3 & [(Hlt & -> & Hw & _)|(-> & Hlt & Hw & _)]).
  - split; [lia|]. exists w. split; [exact H1|]. split.
    + destruct (Hs r Hlt) as (w' & Hw' & Hm). congruence.
    + split; [exact H3|]. rewrite (proj2 (Nat.ltb_lt _ _) Hlt). exact H2.
  - split; [lia|]. exists w. split; [exact H1|]. split.
    + destruct (Hd hid Hlt) as (w' & Hw' & Hm). congruence.
    + split; [exact H3|].
      rewrite (proj2 (Nat.ltb_ge _ _)) by lia. rewrite H2. f_equal. lia.
Qed.

Lemma collective_group_tables_agree_witness :
  CollectiveGroup.device_str_to_rank_map GroupExample.group_2x2_1x1 !! "10.0.0.1:0"
    = Some (2%nat, 0%nat) /\
  dom (CollectiveGroup.device_str_to_mesh_worker_map GroupExample.group_2x2_1x1)
    = dom (CollectiveGroup.device_str_to_rank_map GroupExample.group_2x2_1x1).
Proof.
  split; [vm_compute; reflexivity|].
  apply (collective_group_tables_agree [] CollectiveGroup.mesh_2x2
           CollectiveGroup.mesh_1x1 GroupExample.group_2x2_1x1).
  vm_compute. reflexivity.
Defined.

(** X6.  After a successful [CollectiveGroup.__init__],
    [worker_to_rank_map] sends a worker to the last slot of [mesh_workers]
    that holds it: a worker that serves a host in both meshes keeps its
    destination rank only. *)
Theorem collective_group_worker_rank_is_last_slot
    (ds : list string) (src dst : Mesh) (g : CollectiveGroup.t) :
  CollectiveGroup.init ds src dst = Ok g ->
  forall (w : worker) (r : nat),
    CollectiveGroup.worker_to_rank_map g !! w = Some r <->
    CollectiveGroup.mesh_workers g !! r = Some (Some w) /\
    forall r' : nat, (r < r')%nat ->
      CollectiveGroup.mesh_workers g !! r' <> Some (Some w).
Proof.
  intros H w r. destruct (GroupFacts.init_tables src dst ds g H) as [_ ->].
  apply GroupFacts.worker_ranks_last.
Qed.

Lemma collective_group_worker_rank_is_last_slot_witness :
  CollectiveGroup.worker_to_rank_map GroupExample.group_2x2_1x1 !! 0%nat = Some 2%nat <->
  CollectiveGroup.mesh_workers GroupExample.group_2x2_1x1 !! 2%nat = Some (Some 0%nat) /\
  forall r' : nat, (2 < r')%nat ->
    CollectiveGroup.mesh_workers GroupExample.group_2x2_1x1 !! r' <> Some (Some 0%nat).
Proof.
  apply (collective_group_worker_rank_is_last_slot [] CollectiveGroup.mesh_2x2
           CollectiveGroup.mesh_1x1 GroupExample.group_2x2_1x1).
  vm_compute. reflexivity.
Defined.

(** X7.  When both meshes are well formed and share no device string, and
    they have the same number of devices per host or the destination mesh
    has at most one host, [CollectiveGroup.__init__] returns, and the
    [j]-th device of host [i] has rank [(i, j)] in the source mesh and
    [(i + len(src_mesh.host_ips), j)] in the destination mesh. *)
Theorem collective_group_ranks_by_position
    (ds : list string) (src dst : Mesh) :
  mesh_wf src -> mesh_wf dst ->
  NoDup (device_strs src ++ device_strs dst) ->
  (num_devices_per_host src = num_devices_per_host dst \/
   (length (host_ips dst) <= 1)%nat) ->
  exists g,
    CollectiveGroup.init ds src dst = Ok g /\
    (forall (i j : nat) d,
       (j < num_devices_per_host src)%nat ->
       CollectiveGroup.mesh_device src i j = Some d ->
       CollectiveGroup.device_str_to_rank_map g !! d = Some (i, j)) /\
    (forall (i j : nat) d,
       (j < num_devices_per_host dst)%nat ->
       CollectiveGroup.mesh_device dst i j = Some d ->
       CollectiveGroup.device_str_to_rank_map g !! d
         = Some ((i + length (host_ips src))%nat, j)).
Proof.
  intros Hsrc Hdst Hnd Hsame.
  destruct (GroupFacts.init_ranks src dst Hsrc Hdst Hnd Hsame ds) as (g & Hok & Hrs & Hrd).
  exists g. split; [exact Hok|]. split.
  - intros i j d Hj Hd. replace (i, j) with ((i + 0)%nat, j) by (f_equal; lia).
    apply (Hrs i j d); [|exact Hj|exact Hd]. left.
    unfold CollectiveGroup.mesh_device in Hd. apply lookup_lt_Some in Hd.
    destruct Hsrc as [_ Hl]. rewrite Hl in Hd. nia.
  - intros i j d Hj Hd. apply (Hrd i j d); [|exact Hj|exact Hd]. left.
    unfold CollectiveGroup.mesh_device in Hd. apply lookup_lt_Some in Hd.
    destruct Hdst as [_ Hl]. rewrite Hl in Hd. nia.
Qed.

Lemma collective_group_ranks_by_position_witness :
  exists g,
    CollectiveGroup.init [] CollectiveGroup.mesh_2x2 CollectiveGroup.mesh_1x1 = Ok g /\
    (forall (i j : nat) d,
       (j < 2)%nat ->
       CollectiveGroup.mesh_device CollectiveGroup.mesh_2x2 i j = Some d ->
       CollectiveGroup.device_str_to_rank_map g !! d = Some (i, j)) /\
    (forall (i j : nat) d,
       (j < 1)%nat ->
       CollectiveGroup.mesh_device CollectiveGroup.mesh_1x1 i j = Some d ->
       CollectiveGroup.device_str_to_rank_map g !! d = Some ((i + 2)%nat, j)).
Proof.
  apply (collective_group_ranks_by_position [] CollectiveGroup.mesh_2x2
           CollectiveGroup.mesh_1x1).
  - split; simpl; lia.
  - split; simpl; lia.
  - apply (bool_decide_unpack _). vm_compute. exact I.
  - right. simpl. lia.
Defined.

(** X8.  When the source mesh has more devices per host than the
    destination mesh, and the destination mesh has two hosts or more and a
    device list of the announced length, [CollectiveGroup.__init__] raises
    [IndexError]: the destination loop reads past the end of
    [dst_mesh.device_strs]. *)
Theorem collective_group_init_index_error
    (ds : list string) (src dst : Mesh) :
  length (device_strs dst)
    = (length (host_ips dst) * num_devices_per_host dst)%nat ->
  (num_devices_per_host dst < num_devices_per_host src)%nat ->
  (2 <= length (host_ips dst))%nat ->
  (1 <= num_devices_per_host dst)%nat ->
  CollectiveGroup.init ds src dst = Raise IndexError.
Proof.
  intros Hl Hlt Hh Hd.
  destruct (CollectiveGroup.init ds src dst) as [g|e] eqn:H.
  - exfalso.
    pose proof (GroupFacts.init_reads_last ds src dst g H
                  (length (host_ips dst) - 1) (num_devices_per_host dst - 1)
                  ltac:(lia) ltac:(lia)) as Hlast.
    rewrite Hl in Hlast. nia.
  - f_equal. apply (GroupFacts.init_raises ds src dst e H).
Qed.

Lemma collective_group_init_index_error_witness :
  CollectiveGroup.init [] CollectiveGroup.mesh_2x2 GroupExample.mesh_2x1
  = Raise IndexError.
Proof.
  apply (collective_group_init_index_error [] CollectiveGroup.mesh_2x2
           GroupExample.mesh_2x1); simpl; lia.
Defined.

(** ** Errors and accounting of the strategy generator *)

Module StrategyErrors.
Import Strategy StrategyFacts.

(** The dict comprehension raises [KeyError] as soon as one holder has no
    send load. *)
Lemma collect_loads_missing (sl : gmap string Z) holders : forall acc,
  Exists (fun h => sl !! h = None) holders ->
  for_each holders
    (fun loads sender => do v <- dict_get sl sender; Ok (alist_insert sender v loads))
    acc = Raise KeyError.
Proof.
  induction holders as [|h hs IH]; intros acc Hex; [inversion Hex|]. simpl.
  unfold dict_get at 1. destruct (sl !! h) as [v|] eqn:Hh; simpl; [|reflexivity].
  apply IH. inversion Hex as [? ? Hnone|]; subst; [congruence | assumption].
Qed.

(** The comprehension over a non-empty list of holders is not empty. *)
Lemma collect_loads_nonempty (sl : gmap string Z) holders : forall acc loads,
  (acc <> [] \/ holders <> []) ->
  for_each holders
    (fun loads sender => do v <- dict_get sl sender; Ok (alist_insert sender v loads))
    acc = Ok loads ->
  loads <> [].
Proof.
  induction holders as [|h hs IH]; intros acc loads Hne H; simpl in H.
  - injection H as <-. destruct Hne as [Hne|Hne]; [exact Hne | contradiction].
  - apply rbind_ok in H as (acc' & Hacc' & H).
    apply rbind_ok in Hacc' as (v & _ & Hacc'). injection Hacc' as <-.
    apply (IH _ _ (or_introl (CommunicatorFacts.alist_insert_nonempty h v acc)) H).
Qed.

Lemma total_load_insert (loads : gmap string Z) (k : string) (v v' : Z) :
  loads !! k = Some v ->
  total_load (<[k := v']> loads) = total_load loads - v + v'.
Proof.
  intros Hk. unfold total_load.
  rewrite <- (insert_delete_eq loads k v') at 1.
  rewrite map_fold_insert_L.
  - rewrite (map_fold_delete_L _ _ k v loads); [lia | | exact Hk].
    intros j1 j2 z1 z2 y _ _ _. lia.
  - intros j1 j2 z1 z2 y _ _ _. lia.
  - apply lookup_delete_eq.
Qed.

Lemma dom_insert_present (loads : gmap string Z) (k : string) (v v' : Z) :
  loads !! k = Some v -> dom (<[k := v']> loads) = dom loads.
Proof.
  intros Hk. rewrite dom_insert_L. apply elem_of_dom_2 in Hk.
  apply set_eq. intros x. rewrite elem_of_union, elem_of_singleton.
  split; [intros [->|Hx]; assumption | auto].
Qed.

(** A run of greedy assignments adds the volume of its requests to both
    tables and keeps their keys. *)
Lemma greedy_run_accounts st reqs senders st' :
  greedy_run st reqs senders st' ->
  total_load (_sender_loads st') = total_load (_sender_loads st) + volume reqs /\
  total_load (_receiver_loads st') = total_load (_receiver_loads st) + volume reqs /\
  dom (_sender_loads st') = dom (_sender_loads st) /\
  dom (_receiver_loads st') = dom (_receiver_loads st).
Proof.
  induction 1 as [st|st req sender st1 reqs senders st2 Hstep _ IH].
  - simpl. repeat split; lia.
  - destruct Hstep as (_ & (ls & Hls & Hs) & (lr & Hlr & Hr)).
    destruct IH as (IH1 & IH2 & IH3 & IH4).
    rewrite IH1, IH2, IH3, IH4, Hs, Hr.
    rewrite (total_load_insert _ _ _ _ Hls), (total_load_insert _ _ _ _ Hlr).
    rewrite (dom_insert_present _ _ _ _ Hls), (dom_insert_present _ _ _ _ Hlr).
    simpl. repeat split; lia.
Qed.

End StrategyErrors.

(** X9.  The outcome of one assignment of
    [_generate_send_recv_resharding_strategy_by_loads]: it raises
    [KeyError] when a holder of the slice has no send load, [ValueError]
    when the slice has no holder at all ([min] of an empty dict), and
    [KeyError] when the holders are fine but the receiver has no receive
    load; otherwise it returns one of the holders. *)
Theorem assign_sender_outcome
    (st : Strategy.Loads) (receiver : string) (ts : TileSlice) :
  match Strategy.assign_sender st receiver ts with
  | Ok (s, _) =>
      s ∈ replica_device_strs (tile ts) /\
      Forall (fun h => is_Some (Strategy._sender_loads st !! h))
             (replica_device_strs (tile ts)) /\
      is_Some (Strategy._receiver_loads st !! receiver)
  | Raise e =>
      (e = KeyError /\
       Exists (fun h => Strategy._sender_loads st !! h = None)
              (replica_device_strs (tile ts))) \/
      (e = ValueError /\ replica_device_strs (tile ts) = []) \/
      (e = KeyError /\ replica_device_strs (tile ts) <> [] /\
       Forall (fun h => is_Some (Strategy._sender_loads st !! h))
              (replica_device_strs (tile ts)) /\
       Strategy._receiver_loads st !! receiver = None)
  end.
Proof.
  unfold Strategy.assign_sender.
  set (holders := replica_device_strs (tile ts)).
  set (sl := Strategy._sender_loads st).
  destruct (decide (Exists (fun h => sl !! h = None) holders)) as [Hex|Hall].
  - unfold Strategy.collect_loads.
    rewrite (StrategyErrors.collect_loads_missing sl holders [] Hex). simpl.
    left. split; [reflexivity | exact Hex].
  - assert (Hpresent : Forall (fun h => is_Some (sl !! h)) holders).
    { apply Forall_forall. intros h Hh. destruct (sl !! h) as [v|] eqn:E; [eauto|].
      exfalso. apply Hall. apply Exists_exists. eauto. }
    destruct (StrategyFacts.collect_loads_total sl holders [])
      as (loads & Hloads).
    { rewrite Forall_forall in Hpresent. exact Hpresent. }
    fold (Strategy.collect_loads sl holders) in Hloads. rewrite Hloads. simpl.
    destruct holders as [|h0 hs] eqn:Hh.
    + unfold Strategy.collect_loads in Hloads. simpl in Hloads. injection Hloads as <-.
      simpl. right. left. auto.
    + destruct loads as [|kv rest] eqn:Hl.
      { exfalso. unfold Strategy.collect_loads in Hloads.
        apply (StrategyErrors.collect_loads_nonempty sl (h0 :: hs) [] []);
          [right; discriminate | exact Hloads | reflexivity]. }
      rewrite <- Hl in *.
      destruct (Strategy.py_min_by loads) as [s|e] eqn:Hmin;
        [|rewrite Hl in Hmin; discriminate Hmin].
      simpl.
      destruct (StrategyFacts.chosen_first_min sl (h0 :: hs) loads s Hloads Hmin)
        as (k & ls & Hk & Hls & _).
      unfold dict_get at 1. fold sl. rewrite Hls. simpl.
      unfold dict_get.
      destruct (Strategy._receiver_loads st !! receiver) as [lr|] eqn:Hr; simpl.
      * split; [eapply list_elem_of_lookup_2, Hk|]. split; [exact Hpresent | eauto].
      * right. right. split; [reflexivity|]. split; [discriminate|]. auto.
Qed.

(** X10.  A successful call of
    [_generate_send_recv_resharding_strategy_by_loads] adds the same
    amount, the total size of the slices of the spec's mapping counted once
    per receiving replica, to the sum of the send loads and to the sum of
    the receive loads, and adds or removes no key of either table. *)
Theorem strategy_by_loads_accounts_volume
    (st : Strategy.Loads) (spec : ReshardingTaskSpec)
    (strategy : ReshardingStrategy) (spec' : ReshardingTaskSpec)
    (st' : Strategy.Loads) :
  Strategy._generate_send_recv_resharding_strategy_by_loads st spec
    = Ok (strategy, spec', st') ->
  let V := volume (Strategy.requests (Strategy.mapping_of spec)) in
  total_load (Strategy._sender_loads st')
    = total_load (Strategy._sender_loads st) + V /\
  total_load (Strategy._receiver_loads st')
    = total_load (Strategy._receiver_loads st) + V /\
  dom (Strategy._sender_loads st') = dom (Strategy._sender_loads st) /\
  dom (Strategy._receiver_loads st') = dom (Strategy._receiver_loads st).
Proof.
  intros H. unfold Strategy._generate_send_recv_resharding_strategy_by_loads in H.
  apply rbind_ok in H as ([mapping spec1] & Hmap & H).
  apply rbind_ok in H as ([plans st1] & Hplan & H). injection H as _ _ <-.
  unfold Strategy.mapping_of. rewrite Hmap.
  apply StrategyRun.plan_entries_requests in Hplan as [Hrun _].
  apply StrategyFacts.run_requests_greedy in Hrun.
  apply (StrategyErrors.greedy_run_accounts _ _ _ _ Hrun).
Qed.

Lemma strategy_by_loads_accounts_volume_witness :
  volume (Strategy.requests (Strategy.mapping_of StrategyExample.spec)) = 8 /\
  let V := volume (Strategy.requests (Strategy.mapping_of StrategyExample.spec)) in
  total_load (Strategy._sender_loads AccountingExample.generated.2)
    = total_load (Strategy._sender_loads StrategyExample.loads0) + V /\
  total_load (Strategy._receiver_loads AccountingExample.generated.2)
    = total_load (Strategy._receiver_loads StrategyExample.loads0) + V /\
  dom (Strategy._sender_loads AccountingExample.generated.2)
    = dom (Strategy._sender_loads StrategyExample.loads0) /\
  dom (Strategy._receiver_loads AccountingExample.generated.2)
    = dom (Strategy._receiver_loads StrategyExample.loads0).
Proof.
  split; [vm_compute; reflexivity|].
  apply (strategy_by_loads_accounts_volume StrategyExample.loads0 StrategyExample.spec
           AccountingExample.generated.1.1 AccountingExample.generated.1.2
           AccountingExample.generated.2).
  vm_compute. reflexivity.
Defined.

(** X11.  After the loop of [CrossMeshCommunicator.__init__] over the
    activated task specs, every spec carries a strategy: reading
    [spec.strategy] returns it without raising, its [is_local_allgather]
    flag says whether the spec has an allgather slice, and the source
    array, the destination array and the allgather slice of the spec are
    what they were. *)
Theorem init_loop_sets_every_strategy
    (specs : list ReshardingTaskSpec) (st : Strategy.Loads)
    (specs' : list ReshardingTaskSpec) (st' : Strategy.Loads) :
  Strategy.assign_strategies specs st = Ok (specs', st') ->
  Forall2 (fun spec spec' =>
             src spec' = src spec /\ dst spec' = dst spec /\
             allgather_slice spec' = allgather_slice spec /\
             exists s,
               TaskSpec.strategy spec' = (Ok (StrategyObject s), spec') /\
               is_local_allgather s
                 = match allgather_slice spec with Some _ => true | None => false end /\
               length (per_spec_plans s) = length (Strategy.mapping_of spec))
          specs specs'.
Proof.
  revert st specs' st'.
  induction specs as [|spec specs IH]; intros st specs' st' H; simpl in H.
  - injection H as <- <-. constructor.
  - unfold Strategy.assign_strategies in IH.
    apply rbind_ok in H as ([spec1 st1] & Hhead & H).
    apply rbind_ok in H as ([rest st2] & Hrest & H). injection H as <- <-.
    constructor; [|apply (IH _ _ _ Hrest)].
    apply rbind_ok in Hhead as ([[strategy spec0] st0] & Hgen & Hhead).
    injection Hhead as <- <-.
    unfold Strategy._generate_send_recv_resharding_strategy_by_loads in Hgen.
    apply rbind_ok in Hgen as ([mapping spec2] & Hmap & Hgen).
    apply rbind_ok in Hgen as ([plans st3] & Hplan & Hgen).
    injection Hgen as <- <- <-.
    assert (Hkeep : src spec2 = src spec /\ dst spec2 = dst spec /\
                    allgather_slice spec2 = allgather_slice spec).
    { unfold Tiling.dst_tile_to_src_tiles_map in Hmap.
      destruct (_dst_tile_to_src_tiles_map spec) as [[|e m]|];
        try (injection Hmap as <- <-; auto);
        apply rbind_ok in Hmap as (m' & _ & Hmap); injection Hmap as <- <-; auto. }
    destruct Hkeep as (H1 & H2 & H3). simpl.
    split; [exact H1|]. split; [exact H2|]. split; [exact H3|].
    eexists. split; [reflexivity|]. simpl. split; [reflexivity|].
    apply StrategyRun.plan_entries_requests in Hplan as [_ Hshape].
    unfold Strategy.mapping_of. rewrite Hmap.
    symmetry. apply (Forall2_length _ _ _ Hshape).
Qed.

Lemma init_loop_sets_every_strategy_witness :
  length AccountingExample.assigned.1 = 2%nat /\
  Forall2 (fun spec spec' =>
             src spec' = src spec /\ dst spec' = dst spec /\
             allgather_slice spec' = allgather_slice spec /\
             exists s,
               TaskSpec.strategy spec' = (Ok (StrategyObject s), spec') /\
               is_local_allgather s
                 = match allgather_slice spec with Some _ => true | None => false end /\
               length (per_spec_plans s) = length (Strategy.mapping_of spec))
          [StrategyExample.spec; StrategyExample.spec] AccountingExample.assigned.1.
Proof.
  split; [reflexivity|].
  apply (init_loop_sets_every_strategy [StrategyExample.spec; StrategyExample.spec]
           StrategyExample.loads0 AccountingExample.assigned.1
           AccountingExample.assigned.2).
  vm_compute. reflexivity.
Defined.

(** ** What the allgather rewrite returns *)

Module RewriteFacts.
Import Rewrite.

(** The first loop multiplies the chunk values of the axes. *)
Lemma scan_from (l : list AvalDimSharding) : forall (n : nat) a c tot c2t,
  for_each (zip (seq n (length l)) l)
    (fun '(tot_sharding, chunk_dim_to_tensor_dim) '(dim, dim_spec) =>
       do v <- dim_spec_chunk_value dim_spec;
       Ok (tot_sharding * v,
           if is_chunked dim_spec then chunk_dim_to_tensor_dim ++ [dim]
           else chunk_dim_to_tensor_dim))
    (a, c) = Ok (tot, c2t) ->
  exists vs,
    Forall2 (fun s v => dim_spec_chunk_value s = Ok v) l vs /\ tot = a * py_prod vs.
Proof.
  induction l as [|s l IH]; intros n a c tot c2t H; simpl in H.
  - injection H as <- <-. exists []. split; [constructor|]. change (py_prod []) with 1. lia.
  - apply rbind_ok in H as ([a1 c1] & Hstep & H).
    apply rbind_ok in Hstep as (v & Hv & Hstep). injection Hstep as <- <-.
    destruct (IH _ _ _ _ _ H) as (vs & Hvs & ->).
    exists (v :: vs). split; [constructor; assumption|]. rewrite py_prod_cons. lia.
Qed.

Lemma scan_from_total (l : list AvalDimSharding) vs : forall (n : nat) a c,
  Forall2 (fun s v => dim_spec_chunk_value s = Ok v) l vs ->
  exists c2t,
    for_each (zip (seq n (length l)) l)
      (fun '(tot_sharding, chunk_dim_to_tensor_dim) '(dim, dim_spec) =>
         do v <- dim_spec_chunk_value dim_spec;
         Ok (tot_sharding * v,
             if is_chunked dim_spec then chunk_dim_to_tensor_dim ++ [dim]
             else chunk_dim_to_tensor_dim))
      (a, c) = Ok (a * py_prod vs, c2t).
Proof.
  intros n a c H. revert n a c.
  induction H as [|s v l vs Hv _ IH]; intros n a c; simpl.
  - exists c. change (py_prod []) with 1. do 2 f_equal. lia.
  - rewrite Hv. simpl. destruct (IH (S n) (a * v) (if is_chunked s then c ++ [n] else c))
      as (c2t & ->).
    exists c2t. rewrite py_prod_cons. do 2 f_equal. lia.
Qed.

Lemma py_prod_insert (vs : list Z) (i : nat) (v k : Z) :
  vs !! i = Some v -> py_prod (<[i := k * v]> vs) = k * py_prod vs.
Proof.
  revert i. induction vs as [|x vs IH]; intros i Hi; [discriminate|].
  destruct i as [|i]; simpl in *.
  - injection Hi as ->. rewrite !py_prod_cons. lia.
  - rewrite !py_prod_cons, (IH i Hi). lia.
Qed.

(** What [rewrite_at] builds. *)
Lemma rewrite_at_result spec axes (dim : nat) v extra spec' sl :
  (forall n : nat, axes !! dim <> Some (S n)) ->
  rewrite_at spec axes dim v extra = Ok (spec', sl) ->
  exists mesh_axis : nat,
    sl = Some (dim, mesh_axis, extra) /\ (mesh_axis <= 1)%nat /\
    sharding spec' = <[dim := Chunked [v]]> (sharding spec) /\
    length (mesh_mapping spec') = 2%nat.
Proof.
  intros Hax H. unfold rewrite_at in H.
  apply rbind_ok in H as (sq & _ & H).
  apply rbind_ok in H as (u & _ & H).
  apply rbind_ok in H as (m & Hm & H).
  injection H as <- <-. exists m. split; [reflexivity|]. split; [|split; reflexivity].
  unfold dict_get in Hm.
  destruct (axes !! dim) as [[|n]|] eqn:E.
  - rewrite E in Hm. injection Hm as <-. lia.
  - exfalso. apply (Hax n). reflexivity.
  - destruct (existsb _ _); rewrite lookup_insert_eq in Hm; injection Hm as <-; lia.
Qed.

(** The loop stops at an axis that the new chunk count divides and that is
    not already sharded over a mesh axis other than 0. *)
Lemma rewrite_loop_result spec axes var extra dims : forall spec' dim mesh_axis ex,
  rewrite_loop spec axes var extra dims = Ok (spec', Some (dim, mesh_axis, ex)) ->
  ex = extra /\ dim ∈ dims /\ (mesh_axis <= 1)%nat /\
  length (mesh_mapping spec') = 2%nat /\
  exists dim_spec cv sd,
    sharding spec !! dim = Some dim_spec /\
    dim_spec_chunk_value dim_spec = Ok cv /\
    shape (var_aval var) !! dim = Some sd /\
    extra * cv <> 0 /\ sd mod (extra * cv) = 0 /\
    sharding spec' = <[dim := Chunked [extra * cv]]> (sharding spec).
Proof.
  induction dims as [|d dims IH]; intros spec' dim mesh_axis ex H; simpl in H;
    [discriminate|].
  apply rbind_ok in H as (dim_spec & Hds & H). apply list_get_ok in Hds.
  apply rbind_ok in H as (cv & Hcv & H).
  apply rbind_ok in H as (sd & Hsd & H). apply list_get_ok in Hsd.
  apply rbind_ok in H as (r & Hr & H).
  unfold py_mod in Hr. destruct (Z.eqb_spec (extra * cv) 0) as [|Hnz]; [discriminate|].
  injection Hr as <-.
  assert (Hrec : rewrite_loop spec axes var extra dims
                 = Ok (spec', Some (dim, mesh_axis, ex)) ->
                 ex = extra /\ dim ∈ d :: dims /\ (mesh_axis <= 1)%nat /\
                 length (mesh_mapping spec') = 2%nat /\
                 exists dim_spec cv sd,
                   sharding spec !! dim = Some dim_spec /\
                   dim_spec_chunk_value dim_spec = Ok cv /\
                   shape (var_aval var) !! dim = Some sd /\
                   extra * cv <> 0 /\ sd mod (extra * cv) = 0 /\
                   sharding spec' = <[dim := Chunked [extra * cv]]> (sharding spec)).
  { intros H'. destruct (IH _ _ _ _ H') as (H1 & H2 & H3). split; [exact H1|].
    split; [right; exact H2 | exact H3]. }
  destruct (Z.eqb_spec (sd mod (extra * cv)) 0) as [Hdiv|]; [|exact (Hrec H)].
  assert (Hat : (forall n : nat, axes !! d <> Some (S n)) ->
                rewrite_at spec axes d (extra * cv) extra
                = Ok (spec', Some (dim, mesh_axis, ex)) ->
                ex = extra /\ dim ∈ d :: dims /\ (mesh_axis <= 1)%nat /\
                length (mesh_mapping spec') = 2%nat /\
                exists dim_spec cv sd,
                  sharding spec !! dim = Some dim_spec /\
                  dim_spec_chunk_value dim_spec = Ok cv /\
                  shape (var_aval var) !! dim = Some sd /\
                  extra * cv <> 0 /\ sd mod (extra * cv) = 0 /\
                  sharding spec' = <[dim := Chunked [extra * cv]]> (sharding spec)).
  { intros Hax H'.
    destruct (rewrite_at_result _ _ _ _ _ _ _ Hax H') as (m & [= <- <- <-] & Hm & Hs & Hl).
    split; [reflexivity|]. split; [left|]. split; [exact Hm|]. split; [exact Hl|].
    exists dim_spec, cv, sd. auto 10. }
  destruct (axes !! d) as [[|n]|] eqn:E.
  - apply Hat; [intros n; discriminate | exact H].
  - exact (Hrec H).
  - apply Hat; [intros n; discriminate | exact H].
Qed.

(** A spec returned with an allgather slice is fully sharded over the
    mesh. *)
Lemma rewritten_is_full flag spec mesh var spec' (dim mesh_axis : nat) extra :
  _rewrite_allgather_specs flag spec mesh var
    = Ok (spec', Some (dim, mesh_axis, extra)) ->
  flag = true /\
  exists c2t', scan_sharding (sharding spec') = Ok (num_devices mesh, c2t').
Proof.
  intros H. unfold _rewrite_allgather_specs in H.
  destruct flag; simpl in H; [|discriminate].
  split; [reflexivity|].
  apply rbind_ok in H as ([tot c2t] & Hscan & H).
  destruct (Z.eqb_spec tot (num_devices mesh)) as [|Hne]; [discriminate|].
  apply rbind_ok in H as (r & Hr & H).
  apply rbind_ok in H as (u & Hu & H).
  apply rbind_ok in H as (ex & Hex & H).
  apply rbind_ok in H as (axes & _ & H).
  apply rbind_ok in H as (below & _ & H).
  destruct (below && (1 <? num_hosts mesh)); [discriminate|].
  apply rbind_ok in H as (u' & _ & H).
  unfold py_mod in Hr. unfold py_floordiv in Hex.
  destruct (Z.eqb_spec tot 0) as [|Htot]; [discriminate|].
  injection Hr as <-. injection Hex as <-.
  unfold py_assert in Hu.
  destruct (Z.eqb_spec (num_devices mesh mod tot) 0) as [Hmod|]; [|discriminate].
  apply rewrite_loop_result in H
    as (-> & Hdim & Hax & _ & dim_spec & old & len & Hds & Hold & Hlen & Hnz & Hdiv & Hsh).
  assert (Hmul : tot * (num_devices mesh / tot) = num_devices mesh).
  { pose proof (Z.div_mod (num_devices mesh) tot Htot). lia. }
  unfold scan_sharding, enumerate in Hscan.
  apply scan_from in Hscan as (vs & Hvs & Htotal).
  assert (Hv : vs !! dim = Some old).
  { destruct (Forall2_lookup_l _ _ _ _ _ Hvs Hds) as (v & Hv & Hv'). congruence. }
  destruct (scan_from_total (sharding spec')
              (<[dim := num_devices mesh / tot * old]> vs) 0%nat 1 [])
    as (c2t' & Hscan').
  { rewrite Hsh. apply Forall2_same_length_lookup_2.
    - rewrite !length_insert. apply (Forall2_length _ _ _ Hvs).
    - intros i s v Hs Hv'. destruct (decide (i = dim)) as [->|Hi].
      + rewrite list_lookup_insert_eq in Hs by (eapply lookup_lt_Some, Hds).
        rewrite list_lookup_insert_eq in Hv' by (eapply lookup_lt_Some, Hv).
        injection Hs as <-. injection Hv' as <-. reflexivity.
      + rewrite list_lookup_insert_ne in Hs by congruence.
        rewrite list_lookup_insert_ne in Hv' by congruence.
        apply (Forall2_lookup_lr _ _ _ _ _ _ Hvs Hs Hv'). }
  exists c2t'. unfold scan_sharding, enumerate. rewrite Hscan'.
  do 2 f_equal. rewrite (py_prod_insert _ _ _ _ Hv). lia.
Qed.

End RewriteFacts.

(** X12.  When [_rewrite_allgather_specs] returns an allgather slice
    [(dim, mesh_axis, extra_sharding)], then [extra_sharding] is the number
    of devices of the mesh over the product of the chunk counts of the
    given spec, [dim] is a tensor axis whose length the new chunk count
    [extra_sharding * old] divides, the returned sharding is the given one
    with [Chunked([extra_sharding * old])] at [dim], [mesh_axis] is 0 or 1,
    and the returned spec is fully sharded: the product of its chunk counts
    is the number of devices. *)
Theorem rewrite_allgather_specs_fully_shards
    (use_scatter_gather : bool) (spec : ShardingSpec) (mesh : Mesh) (var : Var)
    (spec' : ShardingSpec) (dim mesh_axis : nat) (extra : Z) :
  Rewrite._rewrite_allgather_specs use_scatter_gather spec mesh var
    = Ok (spec', Some (dim, mesh_axis, extra)) ->
  use_scatter_gather = true /\
  (mesh_axis <= 1)%nat /\
  (exists tot c2t,
     Rewrite.scan_sharding (sharding spec) = Ok (tot, c2t) /\
     tot <> num_devices mesh /\ tot * extra = num_devices mesh) /\
  (exists dim_spec old len,
     sharding spec !! dim = Some dim_spec /\
     Rewrite.dim_spec_chunk_value dim_spec = Ok old /\
     shape (var_aval var) !! dim = Some len /\
     extra * old <> 0 /\ len mod (extra * old) = 0 /\
     sharding spec' = <[dim := Chunked [extra * old]]> (sharding spec)) /\
  exists c2t',
    Rewrite.scan_sharding (sharding spec') = Ok (num_devices mesh, c2t').
Proof.
  intros H.
  destruct (RewriteFacts.rewritten_is_full _ _ _ _ _ _ _ _ H) as (-> & Hfull).
  split; [reflexivity|].
  unfold Rewrite._rewrite_allgather_specs in H. simpl in H.
  apply rbind_ok in H as ([tot c2t] & Hscan & H).
  destruct (Z.eqb_spec tot (num_devices mesh)) as [|Hne]; [discriminate|].
  apply rbind_ok in H as (r & Hr & H).
  apply rbind_ok in H as (u & Hu & H).
  apply rbind_ok in H as (ex & Hex & H).
  apply rbind_ok in H as (axes & _ & H).
  apply rbind_ok in H as (below & _ & H).
  destruct (below && (1 <? num_hosts mesh)); [discriminate|].
  apply rbind_ok in H as (u' & _ & H).
  unfold py_mod in Hr. unfold py_floordiv in Hex.
  destruct (Z.eqb_spec tot 0) as [|Htot]; [discriminate|].
  injection Hr as <-. injection Hex as <-.
  unfold py_assert in Hu.
  destruct (Z.eqb_spec (num_devices mesh mod tot) 0) as [Hmod|]; [|discriminate].
  apply RewriteFacts.rewrite_loop_result in H
    as (-> & Hdim & Hax & _ & dim_spec & old & len & Hds & Hold & Hlen & Hnz & Hdiv & Hsh).
  assert (Hmul : tot * (num_devices mesh / tot) = num_devices mesh).
  { pose proof (Z.div_mod (num_devices mesh) tot Htot). lia. }
  split; [exact Hax|]. split; [exists tot, c2t; auto|].
  split; [exists dim_spec, old, len; auto 10 | exact Hfull].
Qed.

Lemma rewrite_allgather_specs_fully_shards_witness :
  exists c2t',
    Rewrite.scan_sharding [Chunked [8]; NoSharding] = Ok (8, c2t').
Proof.
  apply (rewrite_allgather_specs_fully_shards true three_axis_spec eight_device_mesh
           square_var
           {| sharding := [Chunked [8]; NoSharding];
              mesh_mapping := [ShardedAxis 0; Replicated 1] |}
           0%nat 0%nat 4).
  vm_compute. reflexivity.
Defined.

(** X13.  The allgather rewrite is idempotent: a spec that
    [_rewrite_allgather_specs] returned together with an allgather slice is
    returned unchanged, with no slice, when it is given to
    [_rewrite_allgather_specs] again for the same mesh, whatever the
    variable. *)
Theorem rewrite_allgather_specs_idempotent
    (use_scatter_gather : bool) (spec : ShardingSpec) (mesh : Mesh) (var var' : Var)
    (spec' : ShardingSpec) (sl : nat * nat * Z) :
  Rewrite._rewrite_allgather_specs use_scatter_gather spec mesh var
    = Ok (spec', Some sl) ->
  Rewrite._rewrite_allgather_specs use_scatter_gather spec' mesh var'
    = Ok (spec', None).
Proof.
  intros H. destruct sl as [[dim mesh_axis] extra].
  destruct (RewriteFacts.rewritten_is_full _ _ _ _ _ _ _ _ H) as (-> & c2t' & Hscan).
  unfold Rewrite._rewrite_allgather_specs. simpl. rewrite Hscan. simpl.
  rewrite Z.eqb_refl. reflexivity.
Qed.

Lemma rewrite_allgather_specs_idempotent_witness :
  Rewrite._rewrite_allgather_specs true
    {| sharding := [Chunked [8]; NoSharding];
       mesh_mapping := [ShardedAxis 0; Replicated 1] |}
    eight_device_mesh square_var
  = Ok ({| sharding := [Chunked [8]; NoSharding];
           mesh_mapping := [ShardedAxis 0; Replicated 1] |}, None).
Proof.
  apply (rewrite_allgather_specs_idempotent true three_axis_spec eight_device_mesh
           square_var square_var
           {| sharding := [Chunked [8]; NoSharding];
              mesh_mapping := [ShardedAxis 0; Replicated 1] |}
           (0%nat, 0%nat, 4)).
  vm_compute. reflexivity.
Defined.

(** ** The variables exchanged by two stages, and the table built from them *)

Module ExchangeFacts.
Import Communicator.

(** The loop of [_args_between] over a list of output variables. *)
Definition args_fold (ins outs : list Var) : list Var * list nat * list nat :=
  fold_left
    (fun (acc : list Var * list nat * list nat) '(i, var) =>
       let '(resharding_vars, src_indices, dst_indices) := acc in
       match list_find (fun v => v = var) ins with
       | Some (j, _) =>
           (resharding_vars ++ [var], src_indices ++ [i], dst_indices ++ [j])
       | None => acc
       end)
    (enumerate outs) ([], [], []).

(** What the three lists hold after the loop has seen [outs]. *)
Definition exchanged (ins outs : list Var) (r : list Var * list nat * list nat)
  : Prop :=
  length r.1.2 = length r.1.1 /\ length r.2 = length r.1.1 /\
  (forall (k : nat) v (i j : nat),
     r.1.1 !! k = Some v -> r.1.2 !! k = Some i -> r.2 !! k = Some j ->
     outs !! i = Some v /\ ins !! j = Some v /\
     forall j' : nat, (j' < j)%nat -> ins !! j' <> Some v) /\
  (forall (k1 k2 i1 i2 : nat), (k1 < k2)%nat ->
     r.1.2 !! k1 = Some i1 -> r.1.2 !! k2 = Some i2 -> (i1 < i2)%nat) /\
  (forall (i : nat) v, outs !! i = Some v -> v ∈ ins -> i ∈ r.1.2).

Lemma args_fold_exchanged (ins outs : list Var) :
  exchanged ins outs (args_fold ins outs).
Proof.
  induction outs as [|x outs IH] using rev_ind.
  - unfold args_fold, exchanged. simpl.
    split; [reflexivity|]. split; [reflexivity|]. split; [|split].
    + intros k v i j H. discriminate H.
    + intros k1 k2 i1 i2 _ H. discriminate H.
    + intros i v H. discriminate H.
  - unfold args_fold in *. rewrite enumerate_snoc, fold_left_app. simpl.
    destruct (fold_left _ (enumerate outs) ([], [], [])) as [[vars srcs] dsts].
    destruct IH as (Hl1 & Hl2 & Hpt & Hinc & Hall). simpl in *.
    assert (Hbound : forall (k i : nat), srcs !! k = Some i -> (i < length outs)%nat).
    { intros k i Hk.
      destruct (lookup_lt_is_Some_2 vars k) as [v Hv];
        [rewrite <- Hl1; eapply lookup_lt_Some, Hk|].
      destruct (lookup_lt_is_Some_2 dsts k) as [j Hj];
        [rewrite Hl2; eapply lookup_lt_Some, Hv|].
      destruct (Hpt k v i j Hv Hk Hj) as (Ho & _). eapply lookup_lt_Some, Ho. }
    destruct (list_find (fun v => v = x) ins) as [[j y]|] eqn:Hfind.
    + apply list_find_Some in Hfind as (Hj & -> & Hfirst).
      unfold exchanged. simpl. rewrite !length_app. simpl.
      split; [lia|]. split; [lia|]. split; [|split].
      * intros k v i j' Hv Hi Hj'.
        destruct (Nat.lt_ge_cases k (length vars)) as [Hlt|Hge].
        -- rewrite lookup_app_l in Hv by exact Hlt.
           rewrite lookup_app_l in Hi by lia. rewrite lookup_app_l in Hj' by lia.
           destruct (Hpt k v i j' Hv Hi Hj') as (Ho & Hrest).
           split; [|exact Hrest]. rewrite lookup_app_l; [exact Ho|].
           eapply lookup_lt_Some, Ho.
        -- rewrite lookup_app_r in Hv by exact Hge.
           rewrite lookup_app_r in Hi by lia. rewrite lookup_app_r in Hj' by lia.
           rewrite Hl1 in Hi. rewrite Hl2 in Hj'.
           destruct (k - length vars)%nat as [|n]; [|destruct n; discriminate Hv].
           simpl in *. injection Hv as <-. injection Hi as <-. injection Hj' as <-.
           split; [rewrite lookup_app_r by lia; rewrite Nat.sub_diag; reflexivity|].
           split; [exact Hj|]. intros j' Hlt Hj'. apply (Hfirst j' x Hj' Hlt). reflexivity.
      * intros k1 k2 i1 i2 Hk H1 H2.
        destruct (Nat.lt_ge_cases k2 (length srcs)) as [Hlt|Hge].
        -- rewrite lookup_app_l in H1 by lia. rewrite lookup_app_l in H2 by lia.
           apply (Hinc k1 k2 i1 i2 Hk H1 H2).
        -- rewrite lookup_app_r in H2 by exact Hge.
           destruct (k2 - length srcs)%nat as [|n] eqn:Hn; [|destruct n; discriminate H2].
           simpl in H2. injection H2 as <-.
           rewrite lookup_app_l in H1 by lia. apply (Hbound k1 i1 H1).
      * intros i v Hi Hin.
        destruct (Nat.lt_ge_cases i (length outs)) as [Hlt|Hge].
        -- rewrite lookup_app_l in Hi by exact Hlt.
           apply elem_of_app. left. apply (Hall i v Hi Hin).
        -- rewrite lookup_app_r in Hi by exact Hge.
           destruct (i - length outs)%nat as [|n] eqn:Hn; [|destruct n; discriminate Hi].
           apply elem_of_app. right. apply list_elem_of_singleton. lia.
    + apply list_find_None in Hfind.
      unfold exchanged. simpl.
      split; [exact Hl1|]. split; [exact Hl2|]. split; [|split].
      * intros k v i j Hv Hi Hj. destruct (Hpt k v i j Hv Hi Hj) as (Ho & Hrest).
        split; [|exact Hrest]. rewrite lookup_app_l; [exact Ho|].
        eapply lookup_lt_Some, Ho.
      * exact Hinc.
      * intros i v Hi Hin.
        destruct (Nat.lt_ge_cases i (length outs)) as [Hlt|Hge].
        -- rewrite lookup_app_l in Hi by exact Hlt. apply (Hall i v Hi Hin).
        -- rewrite lookup_app_r in Hi by exact Hge.
           destruct (i - length outs)%nat as [|n]; [|destruct n; discriminate Hi].
           simpl in Hi. injection Hi as <-. exfalso.
           rewrite Forall_forall in Hfind. apply (Hfind x Hin). reflexivity.
Qed.

End ExchangeFacts.

(** X14.  [_args_between] returns three lists of one length; the [k]-th
    variable is the output of the source stage at the [k]-th source index
    and the input of the destination stage at the [k]-th destination
    index, which is the first position of the variable among the inputs;
    the source indices are strictly increasing, and every output that is
    an input of the destination stage is listed. *)
Theorem args_between_indices (src_stage dst_stage : Stage) :
  let r := Communicator._args_between src_stage dst_stage in
  length r.1.2 = length r.1.1 /\ length r.2 = length r.1.1 /\
  (forall (k : nat) v (i j : nat),
     r.1.1 !! k = Some v -> r.1.2 !! k = Some i -> r.2 !! k = Some j ->
     outvars src_stage !! i = Some v /\ invars dst_stage !! j = Some v /\
     forall j' : nat, (j' < j)%nat -> invars dst_stage !! j' <> Some v) /\
  (forall (k1 k2 i1 i2 : nat), (k1 < k2)%nat ->
     r.1.2 !! k1 = Some i1 -> r.1.2 !! k2 = Some i2 -> (i1 < i2)%nat) /\
  (forall (i : nat) v, outvars src_stage !! i = Some v -> v ∈ invars dst_stage ->
     i ∈ r.1.2).
Proof.
  exact (ExchangeFacts.args_fold_exchanged (invars dst_stage) (outvars src_stage)).
Qed.

Module TableFacts.
Import Communicator.

(** A loop that appends to a list what each element contributes. *)
Lemma for_each_append {A B} (body : list B -> A -> result (list B))
    (g : A -> list B) xs : forall acc,
  (forall x acc, x ∈ xs -> body acc x = Ok (acc ++ g x)) ->
  for_each xs body acc = Ok (acc ++ flat_map g xs).
Proof.
  induction xs as [|x xs IH]; intros acc H; simpl.
  - rewrite app_nil_r. reflexivity.
  - rewrite (H x acc) by left. simpl. rewrite IH, app_assoc; [reflexivity|].
    intros y acc' Hy. apply H. right. exact Hy.
Qed.

(** What cell [(i, j)] contributes to the iteration. *)
Definition yield_cell (specs : list (list cell)) (i j : nat)
  : list (nat * nat * cell) :=
  match specs !! i with
  | Some row =>
      match row !! j with
      | Some (e :: c) => [(i, j, e :: c)]
      | _ => []
      end
  | None => []
  end.

Lemma elem_of_alist_insert_any {V} (k : string) (v : V) l k' v' :
  (k', v') ∈ alist_insert k v l -> (k', v') = (k, v) \/ (k', v') ∈ l.
Proof.
  induction l as [|[k0 v0] l IH]; simpl.
  - intros H. apply list_elem_of_singleton in H. left. exact H.
  - destruct (decide (k = k0)) as [<-|Hne]; intros H.
    + apply elem_of_cons in H as [H|H]; [left; exact H | right; right; exact H].
    + apply elem_of_cons in H as [H|H]; [right; rewrite H; left|].
      destruct (IH H) as [H'|H']; [left; exact H' | right; right; exact H'].
Qed.

Lemma alist_insert_keys {V} (k : string) (v : V) (l : list (string * V)) :
  (alist_insert k v l).*1 = l.*1 \/
  ((k ∉ (l.*1)) /\ (alist_insert k v l).*1 = l.*1 ++ [k]).
Proof.
  induction l as [|[k0 v0] l IH]; cbn [alist_insert].
  - right. split; [apply not_elem_of_nil | reflexivity].
  - destruct (decide (k = k0)) as [<-|Hne].
    + left. reflexivity.
    + rewrite !fmap_cons. cbn [fst].
      destruct IH as [IH|[Hnot IH]]; rewrite IH; [left; reflexivity|].
      right. split; [|reflexivity]. apply not_elem_of_cons. auto.
Qed.

Lemma alist_insert_NoDup {V} (k : string) (v : V) l :
  NoDup l.*1 -> NoDup (alist_insert k v l).*1.
Proof.
  intros H. destruct (alist_insert_keys k v l) as [->|[Hnot ->]]; [exact H|].
  apply NoDup_app. split; [exact H|]. split.
  - intros x Hx Hx'. apply list_elem_of_singleton in Hx' as ->. contradiction.
  - apply NoDup_singleton.
Qed.

(** On a table of [n] rows of [n] cells the iteration is the
    comprehension over the non-empty cells. *)
Lemma task_spec_iter_cells (n : nat) (specs : list (list cell)) :
  length specs = n ->
  Forall (fun row => length row = n) specs ->
  task_spec_iter n specs
    = Ok (flat_map (fun i => flat_map (yield_cell specs i) (seq 0 n)) (seq 0 n)).
Proof.
  intros Hlen Hrows. unfold task_spec_iter.
  rewrite (for_each_append _ (fun i => flat_map (yield_cell specs i) (seq 0 n)));
    [reflexivity|].
  intros i acc Hi. apply elem_of_seq in Hi.
  destruct (lookup_lt_is_Some_2 specs i ltac:(lia)) as [row Hrow].
  assert (Hrowlen : length row = n).
  { rewrite Forall_forall in Hrows. apply Hrows. eapply list_elem_of_lookup_2, Hrow. }
  apply for_each_append. intros j acc' Hj. apply elem_of_seq in Hj.
  destruct (lookup_lt_is_Some_2 row j ltac:(lia)) as [c Hc].
  unfold list_get, yield_cell, cell in *.
  rewrite Hrow. cbn [rbind]. rewrite Hc.
  cbn [rbind]. destruct c as [|e c]; [rewrite app_nil_r|]; reflexivity.
Qed.

Lemma elem_of_yielded (n : nat) (specs : list (list cell)) i j c :
  length specs = n ->
  Forall (fun row => length row = n) specs ->
  (i, j, c) ∈ flat_map (fun i => flat_map (yield_cell specs i) (seq 0 n)) (seq 0 n) <->
  exists row, specs !! i = Some row /\ row !! j = Some c /\ c <> [].
Proof.
  intros Hlen Hrows. split.
  - intros H. apply list_elem_of_In, in_flat_map in H as (i' & _ & H).
    apply in_flat_map in H as (j' & _ & H). unfold yield_cell in H.
    destruct (specs !! i') as [row|] eqn:Hrow; [|inversion H].
    destruct (row !! j') as [[|e c']|] eqn:Hc; try (inversion H; fail).
    apply list_elem_of_In, list_elem_of_singleton in H. injection H as -> -> ->.
    exists row. split; [exact Hrow|]. split; [exact Hc | discriminate].
  - intros (row & Hrow & Hc & Hne).
    assert (Hi : (i < n)%nat) by (rewrite <- Hlen; eapply lookup_lt_Some, Hrow).
    assert (Hrowlen : length row = n).
    { rewrite Forall_forall in Hrows. apply Hrows. eapply list_elem_of_lookup_2, Hrow. }
    assert (Hj : (j < n)%nat) by (rewrite <- Hrowlen; eapply lookup_lt_Some, Hc).
    apply list_elem_of_In, in_flat_map. exists i. split; [apply in_seq; lia|].
    apply in_flat_map. exists j. split; [apply in_seq; lia|].
    unfold yield_cell. rewrite Hrow, Hc.
    destruct c; [contradiction | left; reflexivity].
Qed.

(** The table [_create_resharding_specs] returns is square. *)
Lemma create_shape flag new_array stages schedule specs :
  _create_resharding_specs flag new_array stages schedule = Ok specs ->
  length specs = num_mesh schedule /\
  Forall (fun row => length row = num_mesh schedule) specs.
Proof.
  intros H. unfold _create_resharding_specs in H.
  apply rbind_ok in H as (pl & Hpl & H).
  apply rbind_ok in H as (u1 & _ & H). apply rbind_ok in H as (u2 & _ & H).
  assert (Hinv : off_diagonal schedule specs).
  { eapply (for_each_inv_in (off_diagonal schedule)); [|exact H|].
    - intros sp [d s] sp' Hin Hb.
      eapply CommunicatorFacts.add_stage_pair_off_diagonal; [| |exact Hb].
      + intros st i Hst. destruct (map_r_lookup _ _ _ _ _ Hpl Hst) as (x & Hx & Hget).
        apply lookup_seq in Hx as [-> _]. apply list_get_ok in Hget. exact Hget.
      + apply CommunicatorFacts.argwhere_pos_positive. exact Hin.
    - split; [apply repeat_length|]. split.
      + apply Forall_forall. intros row Hrow.
        apply list_elem_of_In, repeat_spec in Hrow as ->. apply repeat_length.
      + intros i j row c Hrow Hc Hne.
        apply list_elem_of_lookup_2, list_elem_of_In, repeat_spec in Hrow as ->.
        apply list_elem_of_lookup_2, list_elem_of_In, repeat_spec in Hc as ->.
        contradiction. }
  destruct Hinv as (H1 & H2 & _). auto.
Qed.

Section Provenance.

Variable use_scatter_gather : bool.
Variable new_array : Mesh -> Aval -> ShardingSpec -> VirtualDistributedArray.
Variable stages : list Stage.
Variable schedule : Schedule.

(** Every stored spec has a provenance, and no cell holds a key twice. *)
Definition provenance (specs : list (list cell)) : Prop :=
  forall (i j : nat) row (c : cell),
    specs !! i = Some row -> row !! j = Some c ->
    NoDup c.*1 /\
    forall key spec, (key, spec) ∈ c ->
      spec_from use_scatter_gather new_array stages schedule i j key spec.

Lemma add_task_spec_provenance (s d : nat) src_stage dst_stage (i j : nat)
    src_mesh dst_mesh specs item specs' :
  0 < entry (dependency schedule) d s ->
  stages !! s = Some src_stage -> stages !! d = Some dst_stage ->
  stage_placement schedule s !! 0%nat = Some i ->
  stage_placement schedule d !! 0%nat = Some j ->
  meshes schedule !! i = Some src_mesh -> meshes schedule !! j = Some dst_mesh ->
  outvars src_stage !! item.1.2 = Some item.1.1 ->
  invars dst_stage !! item.2 = Some item.1.1 ->
  add_task_spec use_scatter_gather new_array src_stage dst_stage i j
    src_mesh dst_mesh specs item = Ok specs' ->
  provenance specs -> provenance specs'.
Proof.
  intros Hdep Hs Hd Hpi Hpj Hmi Hmj Hout Hin H Hinv.
  destruct item as [[var oi] ii]. simpl in Hout, Hin. unfold add_task_spec in H.
  apply rbind_ok in H as (ssp & Hssp & H). apply list_get_ok in Hssp.
  apply rbind_ok in H as (dsp & Hdsp & H). apply list_get_ok in Hdsp.
  apply rbind_ok in H as ([dsp' extra] & Hrw & H).
  apply rbind_ok in H as (row & Hrow & H). apply list_get_ok in Hrow.
  apply rbind_ok in H as (c & Hc & H). apply list_get_ok in Hc.
  injection H as <-.
  intros i' j' row' c' Hrow' Hc'.
  destruct (decide (i = i')) as [<-|Hii].
  - rewrite list_lookup_insert_eq in Hrow' by (eapply lookup_lt_Some, Hrow).
    injection Hrow' as <-.
    destruct (decide (j = j')) as [<-|Hjj].
    + rewrite list_lookup_insert_eq in Hc' by (eapply lookup_lt_Some, Hc).
      injection Hc' as <-.
      destruct (Hinv i j row c Hrow Hc) as [Hnd Hall].
      split; [apply alist_insert_NoDup, Hnd|].
      intros key spec Hks.
      apply elem_of_alist_insert_any in Hks as [[= -> ->]|Hks]; [|apply Hall, Hks].
      exists s, d, src_stage, dst_stage, src_mesh, dst_mesh, var, oi, ii,
        ssp, dsp, dsp', extra.
      repeat (split; [assumption|]). split; reflexivity.
    + rewrite list_lookup_insert_ne in Hc' by assumption.
      apply (Hinv i j' row c' Hrow Hc').
  - rewrite list_lookup_insert_ne in Hrow' by assumption.
    apply (Hinv i' j' row' c' Hrow' Hc').
Qed.

Lemma add_stage_pair_provenance placements specs pair specs' :
  (forall (s : nat) i, placements !! s = Some i ->
     stage_placement schedule s !! 0%nat = Some i) ->
  0 < entry (dependency schedule) pair.1 pair.2 ->
  add_stage_pair use_scatter_gather new_array stages (meshes schedule) placements
    specs pair = Ok specs' ->
  provenance specs -> provenance specs'.
Proof.
  intros Hpl Hdep H Hinv. unfold add_stage_pair in H.
  apply rbind_ok in H as (src_stage & Hs & H). apply list_get_ok in Hs.
  apply rbind_ok in H as (dst_stage & Hd & H). apply list_get_ok in Hd.
  apply rbind_ok in H as (i & Hi & H). apply list_get_ok in Hi.
  apply rbind_ok in H as (j & Hj & H). apply list_get_ok in Hj.
  apply rbind_ok in H as (src_mesh & Hmi & H). apply list_get_ok in Hmi.
  apply rbind_ok in H as (dst_mesh & Hmj & H). apply list_get_ok in Hmj.
  destruct (Nat.eqb_spec i j) as [->|Hij]; [injection H as <-; exact Hinv|].
  pose proof (ExchangeFacts.args_fold_exchanged (invars dst_stage) (outvars src_stage))
    as Hex.
  change (ExchangeFacts.args_fold (invars dst_stage) (outvars src_stage))
    with (_args_between src_stage dst_stage) in Hex.
  destruct (_args_between src_stage dst_stage) as [[vars outs] ins].
  destruct Hex as (Hl1 & Hl2 & Hpt & _). simpl in Hl1, Hl2, Hpt.
  eapply (for_each_inv_in provenance); [|exact H|exact Hinv].
  intros sp [[var oi] ii] sp' Hx Hb.
  apply list_elem_of_lookup in Hx as [k Hk].
  unfold zip3 in Hk. apply lookup_zip2 in Hk as [Hk Hii].
  apply lookup_zip2 in Hk as [Hvar Hoi].
  destruct (Hpt k var oi ii Hvar Hoi Hii) as (Hout & Hin & _).
  apply (add_task_spec_provenance pair.2 pair.1 src_stage dst_stage i j
           src_mesh dst_mesh sp (var, oi, ii) sp'); auto.
Qed.

Lemma create_provenance specs :
  _create_resharding_specs use_scatter_gather new_array stages schedule = Ok specs ->
  provenance specs.
Proof.
  intros H. unfold _create_resharding_specs in H.
  apply rbind_ok in H as (pl & Hpl & H).
  apply rbind_ok in H as (u1 & _ & H). apply rbind_ok in H as (u2 & _ & H).
  eapply (for_each_inv_in provenance); [|exact H|].
  - intros sp [d s] sp' Hin Hb. eapply add_stage_pair_provenance; [| |exact Hb].
    + intros st i Hst. destruct (map_r_lookup _ _ _ _ _ Hpl Hst) as (x & Hx & Hget).
      apply lookup_seq in Hx as [-> _]. apply list_get_ok in Hget. exact Hget.
    + apply CommunicatorFacts.argwhere_pos_positive. exact Hin.
  - intros i j row c Hrow Hc.
    apply list_elem_of_lookup_2, list_elem_of_In, repeat_spec in Hrow as ->.
    apply list_elem_of_lookup_2, list_elem_of_In, repeat_spec in Hc as ->.
    split; [constructor|]. intros key spec Hin. inversion Hin.
Qed.

End Provenance.

End TableFacts.

(** X15.  On a table of [num_mesh] rows of [num_mesh] cells,
    [task_spec_iter] yields exactly the non-empty cells with their
    indices, in row-major order:
    [[(i, j, t[i][j]) for i in range(n) for j in range(n) if t[i][j]]]. *)
Theorem task_spec_iter_yields_nonempty_cells
    (n : nat) (specs : list (list Communicator.cell)) :
  length specs = n ->
  Forall (fun row => length row = n) specs ->
  Communicator.task_spec_iter n specs
    = Ok (flat_map (fun i => flat_map (TableFacts.yield_cell specs i) (seq 0 n))
                   (seq 0 n)) /\
  forall i j c,
    (i, j, c) ∈ flat_map (fun i => flat_map (TableFacts.yield_cell specs i) (seq 0 n))
                         (seq 0 n) <->
    exists row, specs !! i = Some row /\ row !! j = Some c /\ c <> [].
Proof.
  intros Hlen Hrows. split.
  - apply TableFacts.task_spec_iter_cells; assumption.
  - intros i j c. apply TableFacts.elem_of_yielded; assumption.
Qed.

Lemma task_spec_iter_yields_nonempty_cells_witness :
  Communicator.task_spec_iter 2 CommunicatorExample.resharding_specs
    = Ok (flat_map
            (fun i => flat_map
                        (TableFacts.yield_cell CommunicatorExample.resharding_specs i)
                        (seq 0 2))
            (seq 0 2)) /\
  forall i j c,
    (i, j, c) ∈ flat_map
                  (fun i => flat_map
                              (TableFacts.yield_cell
                                 CommunicatorExample.resharding_specs i)
                              (seq 0 2))
                  (seq 0 2) <->
    exists row, CommunicatorExample.resharding_specs !! i = Some row /\
                row !! j = Some c /\ c <> [].
Proof.
  apply (task_spec_iter_yields_nonempty_cells 2 CommunicatorExample.resharding_specs).
  - reflexivity.
  - repeat constructor.
Defined.

(** X16.  Every task spec that [_create_resharding_specs] stores has a
    provenance: the spec under key [k] of cell [(i, j)] was built for a
    variable [v] with [repr(v) = k] that is an output of a stage placed on
    mesh [i] and an input of a dependent stage placed on mesh [j]; its
    source array is on [meshes[i]] with the sharding spec of that output,
    its destination array is on [meshes[j]] with the sharding spec of that
    input after [_rewrite_allgather_specs], both with the aval of [v]; it
    carries the allgather slice the rewrite returned, no strategy and no
    cached mapping.  No cell holds a key twice. *)
Theorem resharding_specs_have_provenance
    (use_scatter_gather : bool)
    (new_array : Mesh -> Aval -> ShardingSpec -> VirtualDistributedArray)
    (stages : list Stage) (schedule : Schedule)
    (specs : list (list Communicator.cell)) :
  Communicator._create_resharding_specs use_scatter_gather new_array stages schedule
    = Ok specs ->
  forall (i j : nat) row (c : Communicator.cell),
    specs !! i = Some row -> row !! j = Some c ->
    NoDup c.*1 /\
    forall key spec, (key, spec) ∈ c ->
      spec_from use_scatter_gather new_array stages schedule i j key spec /\
      (TaskSpec.strategy spec).1 = Raise RuntimeError /\
      _dst_tile_to_src_tiles_map spec = None.
Proof.
  intros H i j row c Hrow Hc.
  destruct (TableFacts.create_provenance _ _ _ _ _ H i j row c Hrow Hc) as [Hnd Hall].
  split; [exact Hnd|]. intros key spec Hin.
  pose proof (Hall key spec Hin) as Hfrom. split; [exact Hfrom|].
  destruct Hfrom as (s & d & ss & ds & sm & dm & var & oi & ii & ssp & dsp & dsp' & extra
                     & _ & _ & _ & _ & _ & _ & _ & _ & _ & _ & _ & _ & _ & ->).
  split; reflexivity.
Qed.

Lemma resharding_specs_have_provenance_witness :
  map fst TableExample.cell_0_1 = ["a"] /\
  NoDup TableExample.cell_0_1.*1 /\
  forall key spec, (key, spec) ∈ TableExample.cell_0_1 ->
    spec_from true CommunicatorExample.new_array CommunicatorExample.stages
      CommunicatorExample.schedule 0 1 key spec /\
    (TaskSpec.strategy spec).1 = Raise RuntimeError /\
    _dst_tile_to_src_tiles_map spec = None.
Proof.
  split; [reflexivity|].
  apply (resharding_specs_have_provenance true CommunicatorExample.new_array
           CommunicatorExample.stages CommunicatorExample.schedule
           CommunicatorExample.resharding_specs)
    with (row := [[]; TableExample.cell_0_1]).
  - vm_compute. reflexivity.
  - reflexivity.
  - reflexivity.
Defined.

(** ** The allgather bookkeeping of a receiver *)

(** X17.  When [_allgather_receiver_step_and_offset] returns
    [(step, offset, group_idx, dst_mesh_shape)] for an allgather slice
    [(_, mesh_axis, extra_sharding)] with [extra_sharding > 0], then
    [0 <= offset < extra_sharding] and, writing [f] for the flattened index
    of the receiver in the destination mesh and [d1] for
    [dst_mesh_shape[1]]: for mesh axis 0, [step = d1] and
    [f = ((group_idx // d1) * extra_sharding + offset) * d1 + group_idx % d1]
    when [d1 > 0]; for mesh axis 1, [step = 1] and
    [f = group_idx * extra_sharding + offset] when [extra_sharding] divides
    [d1].  So the group and the offset together identify the device. *)
Theorem allgather_group_and_offset_identify_receiver
    (self : SymbolicTask.t) (receiver : string)
    (tensor_axis mesh_axis : nat) (extra : Z)
    (step offset group_idx : Z) (mesh_shape : list Z) :
  allgather_slice (SymbolicTask.task_spec self)
    = Some (tensor_axis, mesh_axis, extra) ->
  SymbolicTask._allgather_receiver_step_and_offset self receiver
    = Ok (step, offset, group_idx, mesh_shape) ->
  0 < extra ->
  0 <= offset < extra /\
  (length mesh_shape < 3)%nat /\
  SymbolicTask.dst_mesh_shape_of
    (TaskSpec.dst_sharding_spec (SymbolicTask.task_spec self)) = Ok mesh_shape /\
  exists f d1,
    receiver_flatten_idx self receiver = Ok f /\
    mesh_shape !! 1%nat = Some d1 /\ d1 <> 0 /\
    match mesh_axis with
    | O => step = d1 /\
           (0 < d1 ->
            f = ((group_idx / d1) * extra + offset) * d1 + group_idx mod d1)
    | _ => mesh_axis = 1%nat /\ step = 1 /\
           (0 < d1 -> d1 mod extra = 0 -> f = group_idx * extra + offset)
    end.
Proof.
  intros Hag H He. unfold SymbolicTask._allgather_receiver_step_and_offset in H.
  rewrite Hag in H. simpl in H.
  unfold receiver_flatten_idx.
  destruct (dict_get _ receiver) as [[host_idx device_idx]|] eqn:Hrk; [|discriminate].
  simpl in H. simpl.
  set (f := (if _ <=? _ then _ else _) * _ + _) in *.
  apply rbind_ok in H as (shape & Hshape & H).
  apply rbind_ok in H as (u & Hu & H).
  unfold py_assert in Hu. destruct (Nat.ltb_spec (length shape) 3) as [Hlen|]; [|discriminate].
  unfold py_floordiv, py_mod in H.
  destruct mesh_axis as [|mesh_axis].
  - apply rbind_ok in H as (d1 & Hd1 & H). apply list_get_ok in Hd1.
    destruct (Z.eqb_spec d1 0) as [|Hnz]; [discriminate|]. simpl in H.
    destruct (Z.eqb_spec extra 0); [lia|]. simpl in H.
    injection H as <- <- <- <-.
    pose proof (Z.mod_pos_bound (f / d1) extra He) as Hoff.
    split; [exact Hoff|]. split; [exact Hlen|]. split; [exact Hshape|].
    exists f, d1. split; [reflexivity|]. split; [exact Hd1|]. split; [exact Hnz|].
    split; [reflexivity|]. intros Hd1pos.
    pose proof (Z.mod_pos_bound f d1 Hd1pos) as Hm.
    pose proof (Z.div_mod f d1 Hnz) as Hf.
    pose proof (Z.div_mod (f / d1) extra ltac:(lia)) as Hq.
    set (g := f / d1 / extra) in *. set (m := f mod d1) in *.
    assert (Hg : (g * d1 + m) / d1 = g).
    { symmetry. apply (Z.div_unique _ _ g m); lia. }
    assert (Hm' : (g * d1 + m) mod d1 = m).
    { symmetry. apply (Z.mod_unique _ _ g m); lia. }
    rewrite Hg, Hm'. nia.
  - apply rbind_ok in H as (u' & Hu' & H).
    unfold py_assert in Hu'.
    destruct (Nat.eqb_spec (S mesh_axis) 1) as [Hma|]; [|discriminate].
    apply rbind_ok in H as (d1 & Hd1 & H). apply list_get_ok in Hd1.
    destruct (Z.eqb_spec d1 0) as [|Hnz]; [discriminate|]. simpl in H.
    destruct (Z.eqb_spec extra 0); [lia|]. simpl in H.
    injection H as <- <- <- <-.
    pose proof (Z.mod_pos_bound (f mod d1) extra He) as Hoff.
    split; [exact Hoff|]. split; [exact Hlen|]. split; [exact Hshape|].
    exists f, d1. split; [reflexivity|]. split; [exact Hd1|]. split; [exact Hnz|].
    split; [exact Hma|]. split; [reflexivity|]. intros Hd1pos Hdiv.
    pose proof (Z.div_mod f d1 Hnz) as Hf.
    pose proof (Z.div_mod d1 extra ltac:(lia)) as Hk. rewrite Hdiv in Hk.
    pose proof (Z.div_mod (f mod d1) extra ltac:(lia)) as Hr.
    assert (Hmm : f mod extra = (f mod d1) mod extra).
    { symmetry.
      apply (Z.mod_unique _ _ (d1 / extra * (f / d1) + f mod d1 / extra)); [lia|].
      nia. }
    pose proof (Z.div_mod f extra ltac:(lia)) as Hfe.
    rewrite <- Hmm. lia.
Qed.

Lemma allgather_group_and_offset_identify_receiver_witness :
  AllgatherStepExample.step_d1 = (1, 1, 0, [2; 1]) /\
  0 <= 1 < 2 /\
  (length [2; 1] < 3)%nat /\
  SymbolicTask.dst_mesh_shape_of
    (TaskSpec.dst_sharding_spec
       (SymbolicTask.task_spec
          (AllgatherExample.task_with [ShardedAxis 0; Replicated 1]))) = Ok [2; 1] /\
  exists f d1,
    receiver_flatten_idx (AllgatherExample.task_with [ShardedAxis 0; Replicated 1]) "d1"
      = Ok f /\
    [2; 1] !! 1%nat = Some d1 /\ d1 <> 0 /\
    (1 = d1 /\ (0 < d1 -> f = ((0 / d1) * 2 + 1) * d1 + 0 mod d1)).
Proof.
  split; [reflexivity|].
  apply (allgather_group_and_offset_identify_receiver
           (AllgatherExample.task_with [ShardedAxis 0; Replicated 1]) "d1"
           0%nat 0%nat 2 1 1 0 [2; 1]).
  - reflexivity.
  - vm_compute. reflexivity.
  - lia.
Defined.

Module PostAllgatherFacts.
Import SymbolicTask.

(** The closing loop of [_indices_in_dst_post_allgather]: a slice with a
    start is kept, an open slice becomes the whole axis. *)
Lemma close_open_slices (shape : list Z) (indices out : list pyslice) :
  map_r (fun '(idx, tensor_slice) =>
           match pstart tensor_slice with
           | None =>
               do _ <- py_assert (match pstop tensor_slice with
                                  | None => true
                                  | Some _ => false
                                  end);
               do d <- list_get shape idx;
               Ok (PySlice (Some 0) (Some d))
           | Some _ => Ok tensor_slice
           end)
        (enumerate indices) = Ok out ->
  length out = length indices /\
  forall (i : nat) s, indices !! i = Some s ->
    (is_Some (pstart s) -> out !! i = Some s) /\
    (pstart s = None ->
     pstop s = None /\
     exists d, shape !! i = Some d /\ out !! i = Some (PySlice (Some 0) (Some d))).
Proof.
  intros H. pose proof (map_r_length _ _ _ H) as Hlen.
  unfold enumerate in Hlen. rewrite length_zip_with, length_seq, Nat.min_id in Hlen.
  split; [exact Hlen|]. intros i s Hs.
  destruct (lookup_lt_is_Some_2 out i) as [o Ho].
  { rewrite Hlen. eapply lookup_lt_Some, Hs. }
  destruct (map_r_lookup _ _ _ _ _ H Ho) as ([j s'] & Hx & Hf).
  apply lookup_enumerate in Hx as [-> Hs']. rewrite Hs in Hs'. injection Hs' as <-.
  destruct (pstart s) as [a|] eqn:Ha.
  - injection Hf as <-. split; [intros _; exact Ho | discriminate].
  - split; [intros [x Hx]; discriminate Hx|]. intros _.
    destruct (pstop s) as [b|]; [discriminate|]. simpl in Hf.
    apply rbind_ok in Hf as (d & Hd & Hf). apply list_get_ok in Hd.
    injection Hf as <-. split; [reflexivity|]. exists d. auto.
Qed.

End PostAllgatherFacts.

(** X18.  [_indices_in_dst_post_allgather] with an allgather slice
    [(tensor_axis, mesh_axis, _)]: when it returns, the result has the
    length of [indices]; on [tensor_axis] the slice is moved by
    [offset * (shape[tensor_axis] // dst_mesh_shape[mesh_axis])], keeping
    its extent; on every other axis a slice with a start is kept as it is
    and an open slice becomes [slice(0, shape[axis])]; so every slice of
    the result has a start. *)
Theorem indices_post_allgather_moves_one_axis
    (self : SymbolicTask.t) (indices out : list pyslice) (receiver : string)
    (tensor_axis mesh_axis : nat) (extra : Z) :
  allgather_slice (SymbolicTask.task_spec self)
    = Some (tensor_axis, mesh_axis, extra) ->
  SymbolicTask._indices_in_dst_post_allgather self indices receiver = Ok out ->
  length out = length indices /\
  Forall (fun s => is_Some (pstart s)) out /\
  (exists step offset group_idx mesh_shape dim mesh_dim lo hi,
     SymbolicTask._allgather_receiver_step_and_offset self receiver
       = Ok (step, offset, group_idx, mesh_shape) /\
     shape (TaskSpec.aval (SymbolicTask.task_spec self)) !! tensor_axis = Some dim /\
     mesh_shape !! mesh_axis = Some mesh_dim /\ mesh_dim <> 0 /\
     indices !! tensor_axis = Some (PySlice (Some lo) (Some hi)) /\
     out !! tensor_axis
       = Some (PySlice (Some (offset * (dim / mesh_dim) + lo))
                       (Some (offset * (dim / mesh_dim) + hi)))) /\
  forall (i : nat) s, i <> tensor_axis -> indices !! i = Some s ->
    (is_Some (pstart s) -> out !! i = Some s) /\
    (pstart s = None ->
     pstop s = None /\
     exists d, shape (TaskSpec.aval (SymbolicTask.task_spec self)) !! i = Some d /\
               out !! i = Some (PySlice (Some 0) (Some d))).
Proof.
  intros Hag H. unfold SymbolicTask._indices_in_dst_post_allgather in H.
  rewrite Hag in H.
  apply rbind_ok in H as ([[[step offset] group_idx] mesh_shape] & Hstep & H).
  apply rbind_ok in H as (dim & Hdim & H). apply list_get_ok in Hdim.
  apply rbind_ok in H as (mesh_dim & Hmd & H). apply list_get_ok in Hmd.
  apply rbind_ok in H as (size & Hsize & H).
  unfold py_floordiv in Hsize.
  destruct (Z.eqb_spec mesh_dim 0) as [|Hnz]; [discriminate|]. injection Hsize as <-.
  apply rbind_ok in H as (ind & Hind & H). apply list_get_ok in Hind.
  apply rbind_ok in H as (lo & Hlo & H). apply rbind_ok in H as (hi & Hhi & H).
  destruct ind as [[lo'|] [hi'|]]; simpl in Hlo, Hhi; try discriminate.
  injection Hlo as ->. injection Hhi as ->.
  apply PostAllgatherFacts.close_open_slices in H as [Hlen Hall].
  rewrite length_insert in Hlen.
  assert (Hta : (tensor_axis < length indices)%nat) by (eapply lookup_lt_Some, Hind).
  split; [exact Hlen|]. split; [|split].
  - apply Forall_lookup_2. intros i o Ho.
    destruct (lookup_lt_is_Some_2
                (<[tensor_axis := PySlice (Some (offset * (dim / mesh_dim) + lo))
                                          (Some (offset * (dim / mesh_dim) + hi))]>
                   indices) i) as [s Hs].
    { rewrite length_insert, <- Hlen. eapply lookup_lt_Some, Ho. }
    destruct (Hall i s Hs) as [Hkeep Hopen].
    destruct (pstart s) as [a|] eqn:Ha.
    + rewrite Hkeep in Ho by eauto. injection Ho as <-. rewrite Ha. eauto.
    + destruct (Hopen eq_refl) as (_ & d & _ & Hout). rewrite Hout in Ho.
      injection Ho as <-. simpl. eauto.
  - exists step, offset, group_idx, mesh_shape, dim, mesh_dim, lo, hi.
    split; [exact Hstep|]. split; [exact Hdim|]. split; [exact Hmd|].
    split; [exact Hnz|]. split; [exact Hind|].
    apply (Hall tensor_axis); [apply list_lookup_insert_eq; exact Hta | simpl; eauto].
  - intros i s Hne Hs. apply Hall. rewrite list_lookup_insert_ne by congruence. exact Hs.
Qed.

Lemma indices_post_allgather_moves_one_axis_witness :
  AllgatherStepExample.indices_d1 = [PySlice (Some 2) (Some 3)] /\
  Forall (fun s => is_Some (pstart s)) AllgatherStepExample.indices_d1.
Proof.
  split; [reflexivity|].
  apply (indices_post_allgather_moves_one_axis
           (AllgatherExample.task_with [ShardedAxis 0; Replicated 1])
           [PySlice (Some 0) (Some 1)] AllgatherStepExample.indices_d1 "d1"
           0%nat 0%nat 2).
  - reflexivity.
  - vm_compute. reflexivity.
Defined.

(** X19.  [_compile_send_recv_tasks] on a task whose spec has no strategy:
    it raises [RuntimeError] as soon as the mapping has a destination tile,
    and with an empty mapping it returns having changed nothing but the
    mapping cache of the spec. *)
Theorem compile_without_strategy_raises
    (self : SymbolicTask.t) (m : list dst_tile_entry) (spec' : ReshardingTaskSpec) :
  _strategy (SymbolicTask.task_spec self) = StrategyNone ->
  Tiling.dst_tile_to_src_tiles_map (SymbolicTask.task_spec self) = Ok (m, spec') ->
  SymbolicTask._compile_send_recv_tasks self
  = match m with
    | [] => Ok (SymbolicTask.set_task_spec self spec')
    | _ :: _ => Raise RuntimeError
    end.
Proof.
  intros Hnone Hmap. unfold SymbolicTask._compile_send_recv_tasks.
  rewrite Hmap. cbn [rbind].
  assert (Hs : _strategy spec' = StrategyNone).
  { unfold Tiling.dst_tile_to_src_tiles_map in Hmap.
    destruct (_dst_tile_to_src_tiles_map (SymbolicTask.task_spec self)) as [[|e m0]|];
      try (injection Hmap as <- <-; exact Hnone);
      apply rbind_ok in Hmap as (m' & _ & Hmap); injection Hmap as <- <-; exact Hnone. }
  destruct m as [|[[dst_tile src_tiles] inds] m]; [reflexivity|].
  cbn [enumerate length seq zip zip_with for_each].
  unfold TaskSpec.strategy. cbn [SymbolicTask.task_spec SymbolicTask.set_task_spec].
  rewrite Hs. reflexivity.
Qed.

Lemma compile_without_strategy_raises_witness :
  SymbolicTask._compile_send_recv_tasks
    (SymbolicTask.init CompileExample.spec CompileExample.group
       CompileExample.src_mesh CompileExample.dst_mesh)
  = Raise RuntimeError.
Proof.
  apply (compile_without_strategy_raises
           (SymbolicTask.init CompileExample.spec CompileExample.group
              CompileExample.src_mesh CompileExample.dst_mesh)
           AllgatherStepExample.unplanned_read.1
           AllgatherStepExample.unplanned_read.2).
  - reflexivity.
  - vm_compute. reflexivity.
Defined.

(** ** The look-up raises at the first axis it does not accept *)




(** ** The compiled tasks stay inside their buffers *)

Module CompileGeometry.
Import SymbolicTask.

Section Described.

Variable m : list dst_tile_entry.
Variable g : CollectiveGroup.t.
Variable dt : string.








End Described.



End CompileGeometry.

Module CompileEntries.

(** The entries of a generated map are look-ups of destination tiles. *)
Lemma generate_entries (self : ReshardingTaskSpec) (m : list dst_tile_entry) :
  Tiling.generate_src_dst_map self = Ok m ->
  exists tiles,
    Tiling.tiles_flatten (dst self) = Ok tiles /\
    forall entry : dst_tile_entry, entry ∈ m ->
      entry.1.1 ∈ tiles /\
      Tiling._look_up_dst_tile_from_src self entry.1.1 = Ok (entry.1.2, entry.2).
Proof.
  intros H. unfold Tiling.generate_src_dst_map in H.
  apply rbind_ok in H as (tiles & Htiles & H).
  exists tiles. split; [exact Htiles|]. intros entry Hin.
  apply list_elem_of_lookup in Hin as [k Hk].
  destruct (map_r_lookup _ _ _ _ _ H Hk) as (t & Ht & Hf).
  apply rbind_ok in Hf as ([sl pls] & Hlook & Hf). injection Hf as <-. simpl.
  split; [eapply list_elem_of_lookup_2, Ht | exact Hlook].
Qed.


End CompileEntries.



(** ** The receive plan lists the receive tasks *)

Module PlanFacts.
Import SymbolicTask.

(** One transfer touches neither the receive tasks nor the receive plan. *)
Lemma compile_transfer_keeps src_tiles inds receiver rr rg st item st' :
  compile_transfer src_tiles inds receiver rr rg st item = Ok st' ->
  _receiver_tasks st'.1 = _receiver_tasks st.1 /\
  receiver_uuid_plan st'.1 = receiver_uuid_plan st.1 /\
  collective_group st'.1 = collective_group st.1 /\
  task_spec st'.1 = task_spec st.1 /\
  dom (_sender_tasks st'.1) = dom (_sender_tasks st.1).
Proof.
  intros H.
  destruct st as [self specs], st' as [self' specs'], item as [sender_idx sd].
  simpl in *.
  apply rbind_ok in H as (sw & Hsw & H).
  apply rbind_ok in H as (l0 & Hl0 & H).
  apply rbind_ok in H as (src_tile & Hsrc & H).
  apply rbind_ok in H as (self1 & Happ & H).
  apply rbind_ok in H as ([sr sg] & Hsr & H).
  apply rbind_ok in H as (ind & Hind & H).
  apply rbind_ok in H as (ind' & Hind' & H).
  injection H as <- <-.
  unfold append_sender_task in Happ.
  apply rbind_ok in Happ as (l & Hl & Happ). injection Happ as <-. simpl.
  repeat split; try reflexivity.
  unfold dict_get in Hl.
  destruct (_sender_tasks self !! sw) as [l'|] eqn:El; [|discriminate].
  rewrite dom_insert_L. apply elem_of_dom_2 in El.
  apply set_eq. intros x. rewrite elem_of_union, elem_of_singleton.
  split; [intros [->|Hx]; assumption | auto].
Qed.

Lemma recv_ids_snoc g w plan r :
  recv_ids g w (plan ++ [r])
  = recv_ids g w plan ++
    match CollectiveGroup.device_str_to_mesh_worker_map g !! r,
          CollectiveGroup.device_str_to_device_id_map g !! r with
    | Some w', Some d => if decide (w' = w) then [d] else []
    | _, _ => []
    end.
Proof.
  unfold recv_ids. rewrite omap_app. f_equal. simpl.
  destruct (CollectiveGroup.device_str_to_mesh_worker_map g !! r) as [w'|];
    [|reflexivity].
  destruct (CollectiveGroup.device_str_to_device_id_map g !! r) as [d|];
    [|reflexivity].
  destruct (decide (w' = w)); reflexivity.
Qed.

(** The receive tasks of every worker are, in order, tasks for the
    receivers of the plan that the worker owns. *)
Definition planned (g : CollectiveGroup.t) (self : t) : Prop :=
  collective_group self = g /\
  forall w l, _receiver_tasks self !! w = Some l ->
    map device_id l = recv_ids g w (receiver_uuid_plan self).

Lemma compile_replica_planned g dst_tile src_tiles inds spec_plan self item self' :
  compile_replica dst_tile src_tiles inds spec_plan self item = Ok self' ->
  planned g self ->
  planned g self' /\
  receiver_uuid_plan self' = receiver_uuid_plan self ++ [item.2] /\
  task_spec self' = task_spec self /\
  dom (_sender_tasks self') = dom (_sender_tasks self) /\
  dom (_receiver_tasks self') = dom (_receiver_tasks self).
Proof.
  intros H (Hg & Hinv). destruct item as [replica_index receiver].
  unfold compile_replica in H.
  apply rbind_ok in H as (rid & Hrid & H).
  apply rbind_ok in H as (rw & Hrw & H).
  apply rbind_ok in H as (senders & _ & H).
  apply rbind_ok in H as ([rr rg] & _ & H).
  apply rbind_ok in H as ([self1 specs] & Hloop & H).
  pose proof (for_each_inv
                (fun st : t * list ReshardingTileSpec =>
                   _receiver_tasks st.1 = _receiver_tasks self /\
                   receiver_uuid_plan st.1 = receiver_uuid_plan self ++ [receiver] /\
                   collective_group st.1 = collective_group self /\
                   task_spec st.1 = task_spec self /\
                   dom (_sender_tasks st.1) = dom (_sender_tasks self))
                _ _ _ _
                (fun s x s' Hb Hs =>
                   match Hs with
                   | conj H1 (conj H2 (conj H3 (conj H4 H5))) =>
                       match compile_transfer_keeps _ _ _ _ _ s x s' Hb with
                       | conj K1 (conj K2 (conj K3 (conj K4 K5))) =>
                           conj (eq_trans K1 H1)
                             (conj (eq_trans K2 H2)
                                (conj (eq_trans K3 H3)
                                   (conj (eq_trans K4 H4) (eq_trans K5 H5))))
                       end
                   end)
                Hloop
                (conj eq_refl (conj eq_refl (conj eq_refl (conj eq_refl eq_refl)))))
    as Hkeep.
  simpl in Hkeep.
  destruct Hkeep as (K1 & K2 & K3 & K4 & K5).
  unfold append_receiver_task in H.
  apply rbind_ok in H as (l & Hl & H). injection H as <-.
  unfold dict_get in Hl, Hrid, Hrw. rewrite Hg in Hrid, Hrw.
  destruct (_receiver_tasks self1 !! rw) as [l'|] eqn:El; [|discriminate].
  injection Hl as ->.
  destruct (CollectiveGroup.device_str_to_device_id_map g !! receiver)
    as [rid'|] eqn:Eid; [|discriminate]. injection Hrid as ->.
  destruct (CollectiveGroup.device_str_to_mesh_worker_map g !! receiver)
    as [rw'|] eqn:Erw; [|discriminate]. injection Hrw as ->.
  simpl. split; [|split; [exact K2|split; [exact K4|split; [exact K5|]]]].
  - split; [simpl; rewrite K3; exact Hg|].
    simpl. intros w lw Hw. rewrite K2, recv_ids_snoc, Erw, Eid.
    destruct (decide (rw = w)) as [<-|Hne].
    + rewrite lookup_insert_eq in Hw. injection Hw as <-.
      rewrite map_app. simpl. f_equal. apply Hinv. rewrite <- K1. exact El.
    + rewrite lookup_insert_ne in Hw by assumption. rewrite app_nil_r.
      apply Hinv. rewrite <- K1. exact Hw.
  - rewrite dom_insert_L, <- K1. apply elem_of_dom_2 in El.
    apply set_eq. intros x. rewrite elem_of_union, elem_of_singleton.
    split; [intros [->|Hx]; assumption | auto].
Qed.

End PlanFacts.

(** X22.  After [_compile_send_recv_tasks] on a freshly constructed task,
    [receiver_uuid_plan] lists the replicas of the
    destination tiles in the order of the mapping, and the receive tasks
    of every worker are, in order, one task per receiver of the plan that
    the worker owns, with that receiver's device id; the compilation adds
    no worker to [_sender_tasks] or [_receiver_tasks]. *)
Theorem receiver_plan_lists_the_receive_tasks
    (spec : ReshardingTaskSpec) (g : CollectiveGroup.t) (src_mesh dst_mesh : Mesh)
    (self' : SymbolicTask.t) :
  SymbolicTask._compile_send_recv_tasks
    (SymbolicTask.init spec g src_mesh dst_mesh) = Ok self' ->
  SymbolicTask.receiver_uuid_plan self'
    = flat_map (fun entry : dst_tile_entry => replica_device_strs entry.1.1)
               (Strategy.mapping_of spec) /\
  (forall w l, SymbolicTask._receiver_tasks self' !! w = Some l ->
     map device_id l = recv_ids g w (SymbolicTask.receiver_uuid_plan self')) /\
  dom (SymbolicTask._sender_tasks self') = list_to_set (workers src_mesh) /\
  dom (SymbolicTask._receiver_tasks self') = list_to_set (workers dst_mesh).
Proof.
  intros H. unfold SymbolicTask._compile_send_recv_tasks in H.
  apply rbind_ok in H as ([m spec1] & Hmap & H).
  cbn [SymbolicTask.task_spec SymbolicTask.init] in Hmap.
  unfold Strategy.mapping_of. rewrite Hmap.
  set (s0 := SymbolicTask.set_task_spec (SymbolicTask.init spec g src_mesh dst_mesh) spec1)
    in *.
  set (Inv := fun s : SymbolicTask.t =>
                PlanFacts.planned g s /\
                dom (SymbolicTask._sender_tasks s) = dom (SymbolicTask._sender_tasks s0) /\
                dom (SymbolicTask._receiver_tasks s)
                  = dom (SymbolicTask._receiver_tasks s0)).
  assert (Hreplicas : forall dst_tile src_tiles inds spec_plan (rs : list (nat * string)) s s',
            for_each rs (SymbolicTask.compile_replica dst_tile src_tiles inds spec_plan) s
              = Ok s' ->
            Inv s ->
            Inv s' /\
            SymbolicTask.receiver_uuid_plan s'
              = SymbolicTask.receiver_uuid_plan s ++ map snd rs).
  { intros dst_tile src_tiles inds spec_plan rs.
    induction rs as [|r rs IH]; intros s s' Hl Hs; simpl in Hl.
    - injection Hl as <-. simpl. rewrite app_nil_r. auto.
    - apply rbind_ok in Hl as (s1 & H1 & Hl). destruct Hs as (Hp & Hd1 & Hd2).
      apply (PlanFacts.compile_replica_planned g) in H1
        as (Hp1 & Hu1 & _ & Hds & Hdr); [|exact Hp].
      destruct (IH s1 s' Hl) as [Hs' Hu'].
      { split; [exact Hp1|]. rewrite Hds, Hdr. auto. }
      split; [exact Hs'|]. rewrite Hu', Hu1, <- app_assoc. reflexivity. }
  assert (Hloop : forall (entries : list (nat * dst_tile_entry)) s s',
            for_each entries
              (fun self (item : nat * dst_tile_entry) =>
                 let '(i, (dst_tile, src_tiles, indices_in_dst_tiles)) := item in
                 do strategy <- (TaskSpec.strategy (SymbolicTask.task_spec self)).1;
                 do spec_plan <-
                   match strategy with
                   | StrategyObject s => list_get (per_spec_plans s) i
                   | StrategyNone => Raise RuntimeError
                   end;
                 for_each (enumerate (replica_device_strs dst_tile))
                   (SymbolicTask.compile_replica dst_tile src_tiles
                      indices_in_dst_tiles spec_plan)
                   self)
              s = Ok s' ->
            Inv s ->
            Inv s' /\
            SymbolicTask.receiver_uuid_plan s'
              = SymbolicTask.receiver_uuid_plan s
                ++ flat_map (fun x : nat * dst_tile_entry =>
                               replica_device_strs x.2.1.1) entries).
  { induction entries as [|[i [[dst_tile src_tiles] inds]] entries IH];
      intros s s' Hl Hs; simpl in Hl.
    - injection Hl as <-. simpl. rewrite app_nil_r. auto.
    - apply rbind_ok in Hl as (s1 & H1 & Hl).
      apply rbind_ok in H1 as (strategy & _ & H1).
      apply rbind_ok in H1 as (spec_plan & _ & H1).
      destruct (Hreplicas _ _ _ _ _ _ _ H1 Hs) as [Hs1 Hu1].
      destruct (IH s1 s' Hl Hs1) as [Hs' Hu'].
      split; [exact Hs'|]. rewrite Hu', Hu1. simpl. rewrite <- app_assoc. do 2 f_equal.
      unfold enumerate. rewrite snd_zip; [reflexivity|]. rewrite length_seq. lia. }
  destruct (Hloop _ _ _ H) as [((_ & Hplan) & Hds & Hdr) Hu].
  { split; [|split; reflexivity]. split; [reflexivity|].
    intros w l Hl. simpl in Hl. apply elem_of_list_to_map_2 in Hl.
    apply list_elem_of_fmap in Hl as (w' & [= _ ->] & _). reflexivity. }
  split; [|split; [exact Hplan|]].
  - rewrite Hu. simpl. clear. unfold enumerate. generalize 0%nat.
    induction m as [|e m IH]; intros n; [reflexivity|].
    simpl. f_equal. apply IH.
  - split.
    + rewrite Hds. simpl. rewrite dom_list_to_map_L, <- list_fmap_compose.
      f_equal. apply list_fmap_id.
    + rewrite Hdr. simpl. rewrite dom_list_to_map_L, <- list_fmap_compose.
      f_equal. apply list_fmap_id.
Qed.

Lemma receiver_plan_lists_the_receive_tasks_witness :
  SymbolicTask.receiver_uuid_plan CompileExample.compiled = ["d0"; "d1"] /\
  forall w l, SymbolicTask._receiver_tasks CompileExample.compiled !! w = Some l ->
    map device_id l
    = recv_ids CompileExample.group w
        (SymbolicTask.receiver_uuid_plan CompileExample.compiled).
Proof.
  split; [reflexivity|].
  apply (receiver_plan_lists_the_receive_tasks CompileExample.planned_spec
           CompileExample.group CompileExample.src_mesh CompileExample.dst_mesh
           CompileExample.compiled).
  vm_compute. reflexivity.
Defined.

(** ** After the constructor every stored spec has a strategy *)

Module InitFacts.
Import Communicator CommunicatorInit.

Lemma alist_insert_value {V} (k : string) (v v' : V) (l : list (string * V)) :
  NoDup l.*1 -> (k, v') ∈ alist_insert k v l -> v' = v.
Proof.
  induction l as [|[k0 v0] l IH]; cbn [alist_insert]; intros Hnd Hin.
  - apply list_elem_of_singleton in Hin. congruence.
  - rewrite fmap_cons in Hnd. apply NoDup_cons in Hnd as [Hk0 Hnd]. cbn [fst] in Hk0.
    destruct (decide (k = k0)) as [<-|Hne].
    + apply elem_of_cons in Hin as [Hin|Hin]; [congruence|].
      exfalso. apply Hk0. apply list_elem_of_fmap. exists (k, v'). auto.
    + apply elem_of_cons in Hin as [Hin|Hin]; [congruence | apply IH; assumption].
Qed.

Lemma alist_insert_same_keys {V} (k : string) (v : V) (l : list (string * V)) :
  k ∈ l.*1 -> (alist_insert k v l).*1 = l.*1.
Proof.
  intros Hk. destruct (TableFacts.alist_insert_keys k v l) as [H|[Hnot _]];
    [exact H | contradiction].
Qed.

(** The keys of a table, cell by cell. *)
Definition keys (table : list (list cell)) : list (list (list string)) :=
  map (map (fun c : cell => c.*1)) table.

Definition has_strategy (spec : ReshardingTaskSpec) : Prop :=
  exists s, _strategy spec = StrategyObject s.

(** The spec under [key] of cell [(i, j)] has a strategy. *)
Definition planned_key (i j : nat) (key : string) (table : list (list cell)) : Prop :=
  forall row (c : cell) spec,
    table !! i = Some row -> row !! j = Some c -> (key, spec) ∈ c ->
    has_strategy spec.

Definition well_keyed (table : list (list cell)) : Prop :=
  forall (i j : nat) row (c : cell),
    table !! i = Some row -> row !! j = Some c -> NoDup c.*1.

Lemma plan_spec_step (i j : nat) (table : list (list cell)) loads key spec
    table' loads' row (c : cell) :
  table !! i = Some row -> row !! j = Some c -> key ∈ c.*1 ->
  plan_spec i j (table, loads) (key, spec) = Ok (table', loads') ->
  well_keyed table ->
  keys table' = keys table /\ well_keyed table' /\
  planned_key i j key table' /\
  (forall i' j' key', planned_key i' j' key' table -> planned_key i' j' key' table') /\
  dom (Strategy._sender_loads loads') = dom (Strategy._sender_loads loads) /\
  dom (Strategy._receiver_loads loads') = dom (Strategy._receiver_loads loads).
Proof.
  intros Hrow Hc Hkey H Hwk. unfold plan_spec in H.
  apply rbind_ok in H as ([[strategy spec1] loads1] & Hgen & H).
  apply rbind_ok in H as (row' & Hrow' & H). apply list_get_ok in Hrow'.
  apply rbind_ok in H as (c' & Hc' & H). apply list_get_ok in Hc'.
  rewrite Hrow in Hrow'. injection Hrow' as <-. rewrite Hc in Hc'. injection Hc' as <-.
  injection H as <- <-.
  pose proof (Hwk i j row c Hrow Hc) as Hnd.
  set (spec2 := TaskSpec.set_resharding_strategy spec1 (StrategyObject strategy)).
  assert (Hi : (i < length table)%nat) by (eapply lookup_lt_Some, Hrow).
  assert (Hj : (j < length row)%nat) by (eapply lookup_lt_Some, Hc).
  split; [|split; [|split; [|split]]].
  - unfold keys. apply list_eq. intros i'. rewrite !list_lookup_fmap.
    destruct (decide (i = i')) as [<-|Hii].
    + rewrite list_lookup_insert_eq by exact Hi. rewrite Hrow. simpl. f_equal.
      apply list_eq. intros j'. rewrite !list_lookup_fmap.
      destruct (decide (j = j')) as [<-|Hjj].
      * rewrite list_lookup_insert_eq by exact Hj. rewrite Hc. simpl. f_equal.
        apply alist_insert_same_keys, Hkey.
      * rewrite list_lookup_insert_ne by exact Hjj. reflexivity.
    + rewrite list_lookup_insert_ne by exact Hii. reflexivity.
  - intros i' j' r' c' Hr' Hc''.
    destruct (decide (i = i')) as [<-|Hii].
    + rewrite list_lookup_insert_eq in Hr' by exact Hi. injection Hr' as <-.
      destruct (decide (j = j')) as [<-|Hjj].
      * rewrite list_lookup_insert_eq in Hc'' by exact Hj. injection Hc'' as <-.
        apply TableFacts.alist_insert_NoDup, Hnd.
      * rewrite list_lookup_insert_ne in Hc'' by exact Hjj. apply (Hwk i j' row c' Hrow Hc'').
    + rewrite list_lookup_insert_ne in Hr' by exact Hii. apply (Hwk i' j' r' c' Hr' Hc'').
  - intros r' c' spec' Hr' Hc'' Hin.
    rewrite list_lookup_insert_eq in Hr' by exact Hi. injection Hr' as <-.
    rewrite list_lookup_insert_eq in Hc'' by exact Hj. injection Hc'' as <-.
    apply (alist_insert_value _ _ _ _ Hnd) in Hin as ->. exists strategy. reflexivity.
  - intros i' j' key' Hdone r' c' spec' Hr' Hc'' Hin.
    destruct (decide (i = i')) as [<-|Hii].
    + rewrite list_lookup_insert_eq in Hr' by exact Hi. injection Hr' as <-.
      destruct (decide (j = j')) as [<-|Hjj].
      * rewrite list_lookup_insert_eq in Hc'' by exact Hj. injection Hc'' as <-.
        apply TableFacts.elem_of_alist_insert_any in Hin as [[= -> ->]|Hin];
          [exists strategy; reflexivity | apply (Hdone row c spec' Hrow Hc Hin)].
      * rewrite list_lookup_insert_ne in Hc'' by exact Hjj.
        apply (Hdone row c' spec' Hrow Hc'' Hin).
    + rewrite list_lookup_insert_ne in Hr' by exact Hii.
      apply (Hdone r' c' spec' Hr' Hc'' Hin).
  - unfold Strategy._generate_send_recv_resharding_strategy_by_loads in Hgen.
    apply rbind_ok in Hgen as ([mapping spec0] & _ & Hgen).
    apply rbind_ok in Hgen as ([plans st1] & Hplan & Hgen). injection Hgen as _ _ <-.
    apply StrategyRun.plan_entries_requests in Hplan as [Hrun _].
    apply StrategyFacts.run_requests_greedy in Hrun.
    destruct (StrategyErrors.greedy_run_accounts _ _ _ _ Hrun) as (_ & _ & H1 & H2).
    auto.
Qed.


Lemma keys_lookup (table table0 : list (list cell)) (i j : nat) row0 (c0 : cell) :
  keys table = keys table0 ->
  table0 !! i = Some row0 -> row0 !! j = Some c0 ->
  exists row c, table !! i = Some row /\ row !! j = Some c /\ c.*1 = c0.*1.
Proof.
  intros Hk Hrow0 Hc0. unfold keys in Hk.
  assert (H1 : map (map (fun c : cell => c.*1)) table !! i
               = Some (map (fun c : cell => c.*1) row0)).
  { rewrite Hk, list_lookup_fmap, Hrow0. reflexivity. }
  rewrite list_lookup_fmap in H1.
  destruct (table !! i) as [row|] eqn:Hrow; [|discriminate]. simpl in H1.
  injection H1 as H1.
  assert (H2 : map (fun c : cell => c.*1) row !! j = Some (c0.*1)).
  { rewrite H1, list_lookup_fmap, Hc0. reflexivity. }
  rewrite list_lookup_fmap in H2.
  destruct (row !! j) as [c|] eqn:Hc; [|discriminate]. simpl in H2.
  injection H2 as H2. exists row, c. auto.
Qed.

Lemma keys_lookup_back (table table0 : list (list cell)) (i j : nat) row (c : cell) :
  keys table = keys table0 ->
  table !! i = Some row -> row !! j = Some c ->
  exists row0 c0, table0 !! i = Some row0 /\ row0 !! j = Some c0 /\ c.*1 = c0.*1.
Proof.
  intros Hk Hrow Hc.
  destruct (keys_lookup table0 table i j row c (eq_sym Hk) Hrow Hc)
    as (row0 & c0 & H1 & H2 & H3).
  exists row0, c0. auto.
Qed.

Section Loop.

Variable table0 : list (list cell).
Variable loads0 : Strategy.Loads.

(** What every iteration of the two loops keeps. *)
Definition kept (st : list (list cell) * Strategy.Loads) : Prop :=
  keys st.1 = keys table0 /\ well_keyed st.1 /\
  dom (Strategy._sender_loads st.2) = dom (Strategy._sender_loads loads0) /\
  dom (Strategy._receiver_loads st.2) = dom (Strategy._receiver_loads loads0).

Lemma plan_cell (i j : nat) row0 (c0 : cell) (items : cell) st st' :
  table0 !! i = Some row0 -> row0 !! j = Some c0 ->
  (forall x, x ∈ items -> x.1 ∈ c0.*1) ->
  for_each items (plan_spec i j) st = Ok st' ->
  kept st ->
  kept st' /\
  (forall x, x ∈ items -> planned_key i j x.1 st'.1) /\
  (forall i' j' key', planned_key i' j' key' st.1 -> planned_key i' j' key' st'.1).
Proof.
  intros Hrow0 Hc0. revert st.
  induction items as [|[key spec] items IH]; intros st Hsub H Hst; simpl in H.
  - injection H as <-. split; [exact Hst|]. split; [|auto].
    intros x Hx. inversion Hx.
  - apply rbind_ok in H as ([table1 loads1] & H1 & H).
    destruct st as [table loads]. destruct Hst as (Hk & Hwk & Hd1 & Hd2). simpl in *.
    destruct (keys_lookup table table0 i j row0 c0 Hk Hrow0 Hc0)
      as (row & c & Hrow & Hc & Hkeys).
    destruct (plan_spec_step i j table loads key spec table1 loads1 row c Hrow Hc)
      as (K1 & K2 & K3 & K4 & K5 & K6); [| exact H1 | exact Hwk |].
    { rewrite Hkeys. apply (Hsub (key, spec)). left. }
    destruct (IH (table1, loads1)) as (Hst' & Hdone & Hmono); [| exact H | |].
    { intros x Hx. apply Hsub. right. exact Hx. }
    { split; [simpl; rewrite K1; exact Hk|]. split; [exact K2|].
      simpl. rewrite K5, K6. auto. }
    split; [exact Hst'|]. split.
    + intros x Hx. apply elem_of_cons in Hx as [->|Hx]; [|apply Hdone, Hx].
      apply Hmono. exact K3.
    + intros i' j' key' Hp. apply Hmono, K4, Hp.
Qed.

Lemma plan_cells (yielded : list (nat * nat * cell)) st st' :
  (forall i j c, (i, j, c) ∈ yielded ->
     exists row0, table0 !! i = Some row0 /\ row0 !! j = Some c) ->
  for_each yielded
    (fun st '(i, j, var_spec_map) => for_each var_spec_map (plan_spec i j) st)
    st = Ok st' ->
  kept st ->
  kept st' /\
  forall i j c key, (i, j, c) ∈ yielded -> key ∈ c.*1 -> planned_key i j key st'.1.
Proof.
  revert st. induction yielded as [|[[i j] c] yielded IH]; intros st Hsub H Hst;
    simpl in H.
  - injection H as <-. split; [exact Hst|]. intros i j c key Hx. inversion Hx.
  - apply rbind_ok in H as (st1 & H1 & H).
    destruct (Hsub i j c ltac:(left)) as (row0 & Hrow0 & Hc0).
    destruct (plan_cell i j row0 c c st st1 Hrow0 Hc0) as (Hst1 & Hdone & _);
      [| exact H1 | exact Hst |].
    { intros x Hx. apply list_elem_of_fmap. exists x. auto. }
    destruct (IH st1) as (Hst' & Hall); [| exact H | exact Hst1 |].
    { intros i' j' c' Hx. apply Hsub. right. exact Hx. }
    split; [exact Hst'|].
    intros i' j' c' key Hx Hkey.
    apply elem_of_cons in Hx as [[= -> -> ->]|Hx]; [|apply (Hall i' j' c' key Hx Hkey)].
    apply list_elem_of_fmap in Hkey as ([key' spec] & -> & Hin).
    pose proof (Hdone (key', spec) Hin) as Hp. simpl in Hp.
    clear -Hp H Hst1 Hsub. revert st1 H Hst1 Hp.
    assert (Hgen : forall ys st1,
              (forall i j c, (i, j, c) ∈ ys ->
                 exists row0, table0 !! i = Some row0 /\ row0 !! j = Some c) ->
              for_each ys
                (fun st '(i, j, var_spec_map) =>
                   for_each var_spec_map (plan_spec i j) st) st1 = Ok st' ->
              kept st1 -> planned_key i j key' st1.1 -> planned_key i j key' st'.1).
    { induction ys as [|[[i2 j2] c2] ys IHy]; intros st1 Hs Hl Hk Hp; simpl in Hl.
      - injection Hl as <-. exact Hp.
      - apply rbind_ok in Hl as (st2 & H2 & Hl).
        destruct (Hs i2 j2 c2 ltac:(left)) as (row2 & Hrow2 & Hc2).
        destruct (plan_cell i2 j2 row2 c2 c2 st1 st2 Hrow2 Hc2) as (Hst2 & _ & Hmono);
          [| exact H2 | exact Hk |].
        { intros x Hx. apply list_elem_of_fmap. exists x. auto. }
        apply (IHy st2); [|exact Hl|exact Hst2|apply Hmono, Hp].
        intros i3 j3 c3 Hx. apply Hs. right. exact Hx. }
    intros st1 H Hst1 Hp. apply (Hgen yielded st1); auto.
    intros i3 j3 c3 Hx. apply Hsub. right. exact Hx.
Qed.

End Loop.

End InitFacts.

(** X23.  After [CrossMeshCommunicator.__init__] has returned, the table
    has the cells and the keys [_create_resharding_specs] gave it, every
    task spec it stores has a strategy (reading [spec.strategy] does not
    raise any more), and both load tables have exactly the device strings
    of the meshes of the schedule as keys. *)
Theorem communicator_init_plans_every_spec
    (use_scatter_gather : bool)
    (new_array : Mesh -> Aval -> ShardingSpec -> VirtualDistributedArray)
    (stages : list Stage) (schedule : Schedule)
    (table : list (list Communicator.cell)) (loads : Strategy.Loads) :
  CommunicatorInit.init use_scatter_gather new_array stages schedule
    = Ok (table, loads) ->
  (exists table0,
     Communicator._create_resharding_specs use_scatter_gather new_array stages schedule
       = Ok table0 /\
     InitFacts.keys table = InitFacts.keys table0) /\
  (forall (i j : nat) row (c : Communicator.cell) key spec,
     table !! i = Some row -> row !! j = Some c -> (key, spec) ∈ c ->
     exists s, (TaskSpec.strategy spec).1 = Ok (StrategyObject s)) /\
  dom (Strategy._sender_loads loads)
    = list_to_set (flat_map device_strs (meshes schedule)) /\
  dom (Strategy._receiver_loads loads)
    = list_to_set (flat_map device_strs (meshes schedule)).
Proof.
  intros H. unfold CommunicatorInit.init in H.
  apply rbind_ok in H as (table0 & Hcreate & H).
  apply rbind_ok in H as (yielded & Hiter & H).
  destruct (TableFacts.create_shape _ _ _ _ _ Hcreate) as [Hlen Hrows].
  rewrite (TableFacts.task_spec_iter_cells _ _ Hlen Hrows) in Hiter.
  injection Hiter as <-.
  set (loads0 := {| Strategy._sender_loads :=
                      CommunicatorInit.zero_loads (meshes schedule);
                    Strategy._receiver_loads :=
                      CommunicatorInit.zero_loads (meshes schedule) |}) in *.
  destruct (InitFacts.plan_cells table0 loads0 _ _ _
              (fun i j c Hx =>
                 match proj1 (TableFacts.elem_of_yielded _ _ i j c Hlen Hrows) Hx with
                 | ex_intro _ row0 (conj H1 (conj H2 _)) =>
                     ex_intro _ row0 (conj H1 H2)
                 end) H)
    as ((Hk & Hwk & Hd1 & Hd2) & Hall).
  { split; [reflexivity|]. split; [|split; reflexivity].
    intros i j row c Hrow Hc.
    apply (TableFacts.create_provenance _ _ _ _ _ Hcreate i j row c Hrow Hc). }
  simpl in Hk, Hd1, Hd2.
  split; [exists table0; auto|]. split.
  - intros i j row c key spec Hrow Hc Hin.
    destruct (InitFacts.keys_lookup_back _ _ i j row c Hk Hrow Hc)
      as (row0 & c0 & Hrow0 & Hc0 & Hkeys).
    assert (Hkey : key ∈ c0.*1).
    { rewrite <- Hkeys. apply list_elem_of_fmap. exists (key, spec). auto. }
    assert (Hne : c0 <> []) by (intros ->; inversion Hkey).
    assert (Hy : (i, j, c0)
                 ∈ flat_map (fun i => flat_map (TableFacts.yield_cell table0 i)
                                               (seq 0 (num_mesh schedule)))
                            (seq 0 (num_mesh schedule))).
    { apply TableFacts.elem_of_yielded; [assumption..|]. exists row0. auto. }
    destruct (Hall i j c0 key Hy Hkey row c spec Hrow Hc Hin) as [s Hs].
    exists s. unfold TaskSpec.strategy. rewrite Hs. reflexivity.
  - rewrite Hd1, Hd2. unfold CommunicatorInit.zero_loads.
    rewrite dom_list_to_map_L, <- list_fmap_compose.
    split; f_equal; apply list_fmap_id.
Qed.

Lemma communicator_init_plans_every_spec_witness :
  map (map (map fst)) InitExample.constructed.1 = [[[]; ["a"]]; [[]; []]] /\
  forall (i j : nat) row (c : Communicator.cell) key spec,
    InitExample.constructed.1 !! i = Some row -> row !! j = Some c ->
    (key, spec) ∈ c ->
    exists s, (TaskSpec.strategy spec).1 = Ok (StrategyObject s).
Proof.
  split; [reflexivity|].
  apply (communicator_init_plans_every_spec false CommunicatorExample.new_array
           CommunicatorExample.stages CommunicatorExample.schedule
           InitExample.constructed.1 InitExample.constructed.2).
  vm_compute. reflexivity.
Defined.

(** ** The slices of a destination tile have its volume *)

Module VolumeFacts.
Import Tiling TilingAxis TilingFacts TilingAlign.

Lemma zsum_app l1 l2 : zsum (l1 ++ l2) = zsum l1 + zsum l2.
Proof. induction l1 as [|x l1 IH]; simpl; [reflexivity | rewrite IH; lia]. Qed.

Lemma zsum_scale {A} (g : A -> Z) (c : Z) l :
  zsum (map (fun x => g x * c) l) = zsum (map g l) * c.
Proof. induction l as [|x l IH]; simpl; [reflexivity | rewrite IH; lia]. Qed.

Lemma zsum_ext {A} (f g : A -> Z) l :
  (forall x, x ∈ l -> f x = g x) -> zsum (map f l) = zsum (map g l).
Proof.
  induction l as [|x l IH]; intros H; simpl; [reflexivity|].
  rewrite (H x) by left. rewrite IH; [reflexivity|]. intros y Hy. apply H. right. exact Hy.
Qed.

Lemma py_range_succ (n : Z) : 0 <= n -> py_range (n + 1) = py_range n ++ [n].
Proof.
  intros Hn. unfold py_range.
  replace (Z.to_nat (n + 1)) with (S (Z.to_nat n)) by lia.
  rewrite seq_S, map_app. simpl. f_equal. f_equal. lia.
Qed.

Lemma elem_of_py_range (n k : Z) : k ∈ py_range n <-> 0 <= k < n.
Proof.
  split.
  - intros H. apply list_elem_of_lookup in H as [i Hi].
    apply lookup_py_range in Hi. lia.
  - intros H. apply list_elem_of_lookup. exists (Z.to_nat k).
    apply lookup_py_range. lia.
Qed.

(** A sum over [range(n * p)] is a double sum over quotient and
    remainder. *)
Lemma zsum_range_mul (F : Z -> Z) (p : Z) : 0 <= p -> forall n : nat,
  zsum (map F (py_range (Z.of_nat n * p)))
  = zsum (map (fun q => zsum (map (fun r => F (q * p + r)) (py_range p)))
              (py_range (Z.of_nat n))).
Proof.
  intros Hp.
  assert (Hshift : forall (m : nat) (b : Z), 0 <= b ->
            zsum (map F (py_range (b + Z.of_nat m)))
            = zsum (map F (py_range b))
              + zsum (map (fun r => F (b + r)) (py_range (Z.of_nat m)))).
  { induction m as [|m IH]; intros b Hb.
    - replace (b + Z.of_nat 0) with b by lia.
      change (py_range (Z.of_nat 0)) with (@nil Z). simpl. lia.
    - replace (b + Z.of_nat (S m)) with ((b + Z.of_nat m) + 1) by lia.
      replace (Z.of_nat (S m)) with (Z.of_nat m + 1) by lia.
      rewrite !py_range_succ by lia. rewrite !map_app, !zsum_app, IH by lia.
      simpl. lia. }
  induction n as [|n IH].
  - simpl. reflexivity.
  - replace (Z.of_nat (S n) * p) with (Z.of_nat n * p + Z.of_nat (Z.to_nat p)) by lia.
    rewrite Hshift by nia. rewrite IH.
    replace (Z.of_nat (S n)) with (Z.of_nat n + 1) by lia.
    rewrite py_range_succ by lia. rewrite map_app, zsum_app. simpl.
    replace (Z.of_nat (Z.to_nat p)) with p by lia. lia.
Qed.

(** The product of what the coordinates of a linear index contribute,
    summed over all indices, is the product of the sums per axis. *)
Lemma zsum_unflatten (ns : list Z) : forall (gs : list (Z -> Z)),
  Forall (fun n => 0 < n) ns -> length gs = length ns ->
  zsum (map (fun k => py_prod (zip_with (fun g r => g r) gs (unflatten_tile_index k ns)))
            (py_range (py_prod ns)))
  = py_prod (zip_with (fun g n => zsum (map g (py_range n))) gs ns).
Proof.
  induction ns as [|n ns IH]; intros gs Hpos Hlen.
  - destruct gs; [|discriminate]. reflexivity.
  - destruct gs as [|g gs]; [discriminate|]. simpl in Hlen.
    apply Forall_cons in Hpos as [Hn Hpos].
    destruct ns as [|m rest].
    + destruct gs; [|discriminate]. simpl. rewrite py_prod_cons.
      change (py_prod []) with 1. rewrite Z.mul_1_r.
      unfold py_prod at 2. simpl.
      replace (1 * zsum (map g (py_range n))) with (zsum (map g (py_range n))) by lia.
      apply zsum_ext. intros k _. unfold py_prod. simpl. lia.
    + set (P := py_prod (m :: rest)).
      assert (HP : 0 < P) by (apply py_prod_pos; exact Hpos).
      rewrite (py_prod_cons n). fold P.
      replace n with (Z.of_nat (Z.to_nat n)) at 1 by lia.
      rewrite zsum_range_mul by lia. replace (Z.of_nat (Z.to_nat n)) with n by lia.
      cbn [zip_with]. rewrite py_prod_cons.
      rewrite <- (IH gs Hpos ltac:(lia)). fold P.
      match goal with
      | |- _ = zsum (map g (py_range n)) * ?C =>
          rewrite <- (zsum_scale g C (py_range n))
      end.
      apply zsum_ext. intros q Hq. apply elem_of_py_range in Hq.
      rewrite (Z.mul_comm (g q)).
      match goal with
      | |- _ = zsum (map ?G (py_range P)) * ?c =>
          rewrite <- (zsum_scale G c (py_range P))
      end.
      apply zsum_ext. intros r Hr.
      apply elem_of_py_range in Hr.
      rewrite unflatten_cons2. fold P. cbn [zip_with]. rewrite py_prod_cons.
      assert (Hdiv : (q * P + r) / P = q).
      { symmetry. apply (Z.div_unique _ _ q r); lia. }
      rewrite Hdiv. replace (q * P + r - q * P) with r by lia. lia.
Qed.


(** The length of the piece of the destination tile that falls into the
    [r]-th of [n] source tiles on an axis: a first piece from offset [so]
    to the end of the source tile, whole source tiles of length [L], and a
    last piece of length [eo]; the whole extent [d] when [n = 1]. *)
Definition piece (L d n so eo r : Z) : Z :=
  if r =? 0 then (if n =? 1 then d else L - so)
  else if r =? n - 1 then eo else L.

Lemma slice_on_axis_extent (t src_tile : Tile) ses offs rel (i : nat)
    (L cnt r : Z) (ind : slice) se off o p :
  axis_wf L (extent ind) cnt se off ->
  0 <= r < se.2 - se.1 ->
  ses !! i = Some se ->
  offs !! i = Some off ->
  indices src_tile !! i = Some (Slice (L * (se.1 + r)) (L * (se.1 + r + 1))) ->
  indices t !! i = Some ind ->
  rel !! i = Some r ->
  slice_on_axis t src_tile ses offs rel i (se.1 + r) = Ok (o, p) ->
  extent o = piece L (extent ind) (se.2 - se.1) off.1 off.2 r.
Proof.
  intros (HL & Hd & Hso & Heo & Hse & Hcnt & Hend) Hr Hses Hoffs Hsrc Ht Hrel H.
  destruct se as [s e], off as [so eo]. simpl in *.
  unfold slice_on_axis, list_get, Tile_tile_shape in H.
  rewrite Hses, Hoffs, !list_lookup_fmap, Hsrc, Ht in H. simpl in H.
  unfold extent in H at 1. simpl in H.
  replace (L * (s + r + 1) - L * (s + r)) with L in H by lia.
  unfold piece.
  destruct (Z.eqb_spec (s + r) s) as [H1|H1];
    destruct (Z.eqb_spec (s + r) (e - 1)) as [H2|H2]; simpl in H.
  - injection H as <- <-. unfold extent in *. cbn [start stop].
    destruct (Z.eqb_spec r 0); [|lia]. destruct (Z.eqb_spec (e - s) 1); [|lia]. nia.
  - injection H as <- <-. unfold extent in *. cbn [start stop].
    destruct (Z.eqb_spec r 0); [|lia]. destruct (Z.eqb_spec (e - s) 1); lia.
  - injection H as <- <-. unfold extent in *. cbn [start stop].
    destruct (Z.eqb_spec r 0); [lia|]. destruct (Z.eqb_spec r (e - s - 1)); lia.
  - rewrite Hrel in H. simpl in H. injection H as <- <-. unfold extent in *.
    cbn [start stop].
    destruct (Z.eqb_spec r 0); [lia|]. destruct (Z.eqb_spec r (e - s - 1)); lia.
Qed.

(** The pieces of an axis add up to the extent of the destination tile. *)
Lemma zsum_piece (L d cnt : Z) se off :
  axis_wf L d cnt se off ->
  zsum (map (piece L d (se.2 - se.1) off.1 off.2) (py_range (se.2 - se.1))) = d.
Proof.
  intros (HL & Hd & Hso & Heo & Hse & Hcnt & Hend).
  destruct se as [s e], off as [so eo]. simpl in *.
  set (n := e - s) in *.
  destruct (Z.eq_dec n 1) as [Hn|Hn].
  - rewrite Hn. change (py_range 1) with [0]. simpl. unfold piece. simpl. lia.
  - assert (Hpartial : forall m : nat, (1 <= m)%nat -> Z.of_nat m <= n - 1 ->
              zsum (map (piece L d n so eo) (py_range (Z.of_nat m)))
              = Z.of_nat m * L - so).
    { induction m as [|m IH]; intros H1 Hm; [lia|].
      destruct m as [|m].
      - change (py_range (Z.of_nat 1)) with [0]. simpl. unfold piece. simpl.
        destruct (Z.eqb_spec n 1); lia.
      - replace (Z.of_nat (S (S m))) with (Z.of_nat (S m) + 1) by lia.
        rewrite py_range_succ, map_app, zsum_app, IH by lia.
        simpl. unfold piece at 1.
        destruct (Z.eqb_spec (Z.of_nat (S m)) 0); [lia|].
        destruct (Z.eqb_spec (Z.of_nat (S m)) (n - 1)); lia. }
    replace n with ((n - 1) + 1) at 2 by lia.
    rewrite py_range_succ, map_app, zsum_app by lia.
    replace (n - 1) with (Z.of_nat (Z.to_nat (n - 1))) at 1 by lia.
    rewrite Hpartial by lia.
    simpl. unfold piece.
    destruct (Z.eqb_spec (n - 1) 0); [lia|].
    destruct (Z.eqb_spec (n - 1) (n - 1)); lia.
Qed.

Section Volume.

Variable a : VirtualDistributedArray.
Variable t : Tile.
Variable related : list ((Z * Z) * (Z * Z)).

(** The piece function of axis [i]. *)
Definition axis_piece (i : nat) (r : Z) : Z :=
  match tensor_shape a !! i, tile_shape a !! i, indices t !! i, related !! i with
  | Some dim, Some cnt, Some ind, Some (se, off) =>
      piece (dim / cnt) (extent ind) (se.2 - se.1) off.1 off.2 r
  | _, _, _, _ => 0
  end.

End Volume.

(** The slices the look-up returns for a destination tile have, together,
    the volume of the tile. *)
Lemma look_up_volume (self : ReshardingTaskSpec) (t : Tile) :
  Forall2 (fun dim cnt => 0 < dim /\ 0 < cnt /\ dim mod cnt = 0)
          (tensor_shape (src self)) (tile_shape (src self)) ->
  Forall2 (fun dim ind => 0 <= start ind < stop ind /\ stop ind <= dim)
          (tensor_shape (src self)) (indices t) ->
  exists slices placements,
    _look_up_dst_tile_from_src self t = Ok (slices, placements) /\
    zsum (map slice_size slices) = py_prod (Tile_tile_shape t).
Proof.
  intros Hsrc Ht.
  destruct (look_up_steps self t Hsrc Ht)
    as (related & res & Hok & Hlr & Hax & Hlres & Hres).
  exists res.*1, res.*2. split; [exact Hok|].
  pose proof (Forall2_length _ _ _ Hsrc) as Hlc.
  pose proof (Forall2_length _ _ _ Ht) as Hli.
  set (a := src self) in *.
  set (rank := length (tensor_shape a)) in *.
  set (ns := map (fun se : Z * Z => se.2 - se.1) related.*1) in *.
  set (gs := map (axis_piece a t related) (seq 0 rank)).
  assert (Hwf : forall (i : nat) dim cnt ind se off,
            tensor_shape a !! i = Some dim -> tile_shape a !! i = Some cnt ->
            indices t !! i = Some ind -> related !! i = Some (se, off) ->
            axis_wf (dim / cnt) (extent ind) cnt se off).
  { intros i dim cnt ind se off Hd Hc Hi Hr. apply (Hax i dim cnt ind se off Hd Hc Hi Hr). }
  assert (Hnslen : length ns = rank).
  { unfold ns. rewrite length_map, length_fmap. exact Hlr. }
  assert (Hnspos : Forall (fun n => 0 < n) ns).
  { apply Forall_lookup_2. intros i n Hn. unfold ns in Hn.
    rewrite list_lookup_fmap, list_lookup_fmap in Hn.
    destruct (related !! i) as [[se off]|] eqn:Hr; [|discriminate]. simpl in Hn.
    injection Hn as <-.
    assert (Hi : (i < rank)%nat) by (rewrite <- Hlr; eapply lookup_lt_Some, Hr).
    destruct (lookup_lt_is_Some_2 (tensor_shape a) i Hi) as [dim Hd].
    destruct (lookup_lt_is_Some_2 (tile_shape a) i ltac:(lia)) as [cnt Hc].
    destruct (lookup_lt_is_Some_2 (indices t) i ltac:(lia)) as [ind Hind].
    destruct (Hwf i dim cnt ind se off Hd Hc Hind Hr) as (_ & _ & _ & _ & H5 & _). lia. }
  assert (Hsummand : map slice_size res.*1
                     = map (fun k => py_prod (zip_with (fun g r => g r) gs
                                                (unflatten_tile_index k ns)))
                           (py_range (py_prod ns))).
  { apply list_eq_same_length with (length res).
    - rewrite length_map. unfold py_range. rewrite length_map, length_seq.
      symmetry. exact Hlres.
    - rewrite length_map, length_fmap. reflexivity.
    - intros k x y Hk Hx Hy.
      rewrite list_lookup_fmap, list_lookup_fmap in Hx.
      destruct (res !! k) as [[ts pl]|] eqn:Hrk; [|discriminate]. simpl in Hx.
      injection Hx as <-.
      rewrite list_lookup_fmap in Hy.
      destruct (py_range (py_prod ns) !! k) as [kz|] eqn:Hkz; [|discriminate].
      simpl in Hy. injection Hy as <-.
      apply lookup_py_range in Hkz as [-> Hrange].
      destruct (Hres k ts pl Hrk) as [_ Hat].
      destruct (tileslice_at_axes a t related (eq_sym Hlc) (eq_sym Hli) Hlr Hwf
                  (Z.of_nat k) ts pl Hrange Hat) as (Hl1 & Hl2 & Hl3 & _ & Hstep).
      unfold slice_size. fold (py_prod (map extent (offset ts))). f_equal.
      apply list_eq_same_length with rank.
      + rewrite length_zip_with. unfold gs. rewrite length_map, length_seq.
        assert (rank <= length (unflatten_tile_index (Z.of_nat k) ns))%nat; [|lia].
        destruct rank as [|rk] eqn:Erk; [lia|].
        destruct (lookup_lt_is_Some_2 ns rk ltac:(lia)) as [n Hn].
        destruct (unflatten_range ns (Z.of_nat k) Hnspos Hrange rk n Hn) as (r & Hr & _).
        apply lookup_lt_Some in Hr. lia.
      + rewrite length_map. exact Hl2.
      + intros i x y Hi Hx Hy. rewrite list_lookup_fmap in Hx.
        destruct (offset ts !! i) as [o|] eqn:Ho; [|discriminate].
        simpl in Hx. injection Hx as <-.
        destruct (lookup_lt_is_Some_2 pl i ltac:(lia)) as [p Hp].
        destruct (Hstep i o p Ho Hp)
          as (dim & cnt & ind & se & off & r & Hd & Hc & Hind & Hrl & Hwf' & Hr & Hrr
              & Hti & Hsl).
        apply lookup_zip_with_Some in Hy as (g & r' & -> & Hg & Hr').
        fold ns in Hr. rewrite Hr in Hr'. injection Hr' as <-.
        unfold gs in Hg. rewrite list_lookup_fmap in Hg.
        rewrite (proj2 (lookup_seq 0 rank i i)) in Hg by (split; [reflexivity | exact Hi]).
        simpl in Hg. injection Hg as <-.
        unfold axis_piece. rewrite Hd, Hc, Hind, Hrl.
        apply (slice_on_axis_extent t (tile ts) related.*1 related.*2
                 (unflatten_tile_index (Z.of_nat k) ns) i (dim / cnt) cnt r ind se off o p
                 Hwf' Hrr); try assumption.
        * rewrite list_lookup_fmap, Hrl. reflexivity.
        * rewrite list_lookup_fmap, Hrl. reflexivity. }
  rewrite Hsummand, zsum_unflatten; [|exact Hnspos|unfold gs; rewrite length_map, length_seq; lia].
  f_equal. apply list_eq_same_length with rank.
  - unfold Tile_tile_shape. rewrite length_map. lia.
  - rewrite length_zip_with. unfold gs. rewrite length_map, length_seq. lia.
  - intros i x y Hi Hx Hy.
    apply lookup_zip_with_Some in Hx as (g & n & -> & Hg & Hn).
    unfold Tile_tile_shape in Hy. rewrite list_lookup_fmap in Hy.
    destruct (indices t !! i) as [ind|] eqn:Hind; [|discriminate].
    simpl in Hy. injection Hy as <-.
    unfold gs in Hg. rewrite list_lookup_fmap in Hg.
    rewrite (proj2 (lookup_seq 0 rank i i)) in Hg by (split; [reflexivity | exact Hi]).
    simpl in Hg. injection Hg as <-.
    unfold ns in Hn. rewrite list_lookup_fmap, list_lookup_fmap in Hn.
    destruct (related !! i) as [[se off]|] eqn:Hrl; [|discriminate]. simpl in Hn.
    injection Hn as <-.
    destruct (lookup_lt_is_Some_2 (tensor_shape a) i Hi) as [dim Hd].
    destruct (lookup_lt_is_Some_2 (tile_shape a) i ltac:(lia)) as [cnt Hc].
    rewrite (zsum_ext _ (piece (dim / cnt) (extent ind) (se.2 - se.1) off.1 off.2)).
    + apply (zsum_piece _ _ cnt se off). apply (Hwf i dim cnt ind se off Hd Hc Hind Hrl).
    + intros r _. unfold axis_piece. rewrite Hd, Hc, Hind, Hrl. reflexivity.
Qed.

End VolumeFacts.

(** X24.  Under the conditions of C1, the slices that
    [_look_up_dst_tile_from_src] returns for a destination tile have,
    together, exactly the volume of the tile: the [slice_size] values that
    the load balancer adds up for one replica of the tile sum to the
    product of the tile's extents. *)
Theorem look_up_slices_have_the_volume_of_the_tile
    (self : ReshardingTaskSpec) (idx : list Z) (T : Tile) :
  tensor_shape (dst self) = tensor_shape (src self) ->
  length (tile_shape (dst self)) = length (tensor_shape (dst self)) ->
  Forall2 (fun dim cnt => 0 < dim /\ 0 < cnt /\ dim mod cnt = 0)
          (tensor_shape (src self)) (tile_shape (src self)) ->
  Tiling.tiles_get (dst self) idx = Ok T ->
  exists slices placements,
    Tiling._look_up_dst_tile_from_src self T = Ok (slices, placements) /\
    zsum (map slice_size slices) = py_prod (Tile_tile_shape T).
Proof.
  intros Hshape Hrank Hsrc HT.
  apply VolumeFacts.look_up_volume; [exact Hsrc|].
  rewrite <- Hshape. apply (TilingGrid.tiles_get_inside _ idx); [exact Hrank | | exact HT].
  rewrite Hshape. clear -Hsrc.
  induction Hsrc as [|dim cnt dims cnts [Hdim _] _ IH]; constructor; assumption.
Qed.

Lemma look_up_slices_have_the_volume_of_the_tile_witness :
  py_prod (Tile_tile_shape TilingExample.middle_tile) = 24 /\
  exists slices placements,
    Tiling._look_up_dst_tile_from_src TilingExample.spec TilingExample.middle_tile
      = Ok (slices, placements) /\
    zsum (map slice_size slices) = py_prod (Tile_tile_shape TilingExample.middle_tile).
Proof.
  split; [reflexivity|].
  apply (look_up_slices_have_the_volume_of_the_tile TilingExample.spec [1; 0]
           TilingExample.middle_tile).
  - reflexivity.
  - reflexivity.
  - repeat constructor.
  - vm_compute. reflexivity.
Defined.

(** ** The loads grow by the volume of the destination replicas *)

Module MovedVolume.

Lemma volume_app reqs1 reqs2 : volume (reqs1 ++ reqs2) = volume reqs1 + volume reqs2.
Proof.
  induction reqs1 as [|r reqs1 IH]; simpl; [reflexivity|].
  unfold volume in *. simpl. rewrite IH. lia.
Qed.

Lemma volume_pairs (receiver : string) (slices : list TileSlice) :
  volume (map (pair receiver) slices) = zsum (map slice_size slices).
Proof.
  induction slices as [|s slices IH]; [reflexivity|].
  unfold volume in *. simpl. rewrite IH. reflexivity.
Qed.

Lemma volume_replicas (replicas : list string) (slices : list TileSlice) :
  volume (flat_map (fun receiver => map (pair receiver) slices) replicas)
  = Z.of_nat (length replicas) * zsum (map slice_size slices).
Proof.
  induction replicas as [|r replicas IH]; [reflexivity|].
  cbn [flat_map length]. rewrite volume_app, volume_pairs, IH. lia.
Qed.

(** The requests of a mapping whose entries have the volume of their
    tiles move the volume of the destination replicas. *)
Lemma volume_requests (m : list dst_tile_entry) :
  Forall (fun entry : dst_tile_entry =>
            zsum (map slice_size entry.1.2) = py_prod (Tile_tile_shape entry.1.1)) m ->
  volume (Strategy.requests m) = replicated_volume m.
Proof.
  induction 1 as [|entry m Hentry _ IH]; [reflexivity|].
  unfold Strategy.requests, replicated_volume in *. cbn [flat_map map zsum fold_right].
  rewrite volume_app, volume_replicas, IH, Hentry. reflexivity.
Qed.

End MovedVolume.

(** X25.  Composition of the mapping and the load balancer: for a spec over
    two tilings of one array (positive tile counts that divide the positive
    axis lengths) whose mapping cache is empty or holds the generated
    mapping, a successful call of
    [_generate_send_recv_resharding_strategy_by_loads] adds to the sum of
    the send loads, and to the sum of the receive loads, exactly the volume
    of the destination tiles counted once per replica. *)
Theorem strategy_moves_the_volume_of_the_destination
    (st : Strategy.Loads) (spec : ReshardingTaskSpec)
    (strategy : ReshardingStrategy) (spec' : ReshardingTaskSpec)
    (st' : Strategy.Loads) :
  tensor_shape (dst spec) = tensor_shape (src spec) ->
  Forall2 (fun dim cnt => 0 < dim /\ 0 < cnt /\ dim mod cnt = 0)
          (tensor_shape (src spec)) (tile_shape (src spec)) ->
  Forall2 (fun dim cnt => 0 < dim /\ 0 < cnt /\ dim mod cnt = 0)
          (tensor_shape (dst spec)) (tile_shape (dst spec)) ->
  (forall m0, _dst_tile_to_src_tiles_map spec = Some m0 -> m0 <> [] ->
     Tiling.generate_src_dst_map spec = Ok m0) ->
  Strategy._generate_send_recv_resharding_strategy_by_loads st spec
    = Ok (strategy, spec', st') ->
  Tiling.generate_src_dst_map spec = Ok (Strategy.mapping_of spec) /\
  total_load (Strategy._sender_loads st')
    = total_load (Strategy._sender_loads st)
      + replicated_volume (Strategy.mapping_of spec) /\
  total_load (Strategy._receiver_loads st')
    = total_load (Strategy._receiver_loads st)
      + replicated_volume (Strategy.mapping_of spec).
Proof.
  intros Hshape Hsrc Hdst Hcache H.
  unfold Strategy._generate_send_recv_resharding_strategy_by_loads in H.
  apply rbind_ok in H as ([m spec1] & Hmap & H).
  apply rbind_ok in H as ([plans st1] & Hplan & H). injection H as _ _ <-.
  unfold Strategy.mapping_of. rewrite Hmap.
  assert (Hgen : Tiling.generate_src_dst_map spec = Ok m).
  { unfold Tiling.dst_tile_to_src_tiles_map in Hmap.
    destruct (_dst_tile_to_src_tiles_map spec) as [[|e m0]|] eqn:Ec.
    - apply rbind_ok in Hmap as (m' & Hm' & Hmap). injection Hmap as <- _. exact Hm'.
    - injection Hmap as <- _. apply Hcache; [reflexivity | discriminate].
    - apply rbind_ok in Hmap as (m' & Hm' & Hmap). injection Hmap as <- _. exact Hm'. }
  split; [exact Hgen|].
  assert (Hvol : volume (Strategy.requests m) = replicated_volume m).
  { apply MovedVolume.volume_requests. apply Forall_forall. intros entry Hin.
    destruct (CompileEntries.generate_entries spec m Hgen) as (tiles & Htiles & Hall).
    destruct (Hall entry Hin) as [Htile Hlook].
    destruct (TilingMap.tiles_flatten_ok (dst spec) Hdst)
      as (tiles' & Htiles' & _ & Hinside).
    rewrite Htiles in Htiles'. injection Htiles' as <-.
    destruct (VolumeFacts.look_up_volume spec entry.1.1 Hsrc) as (sl & pls & Hl & Hv).
    { rewrite <- Hshape. rewrite Forall_forall in Hinside. apply Hinside, Htile. }
    rewrite Hlook in Hl. injection Hl as <- _. exact Hv. }
  apply StrategyRun.plan_entries_requests in Hplan as [Hrun _].
  apply StrategyFacts.run_requests_greedy in Hrun.
  destruct (StrategyErrors.greedy_run_accounts _ _ _ _ Hrun) as (H1 & H2 & _).
  rewrite H1, H2, Hvol. auto.
Qed.

Lemma strategy_moves_the_volume_of_the_destination_witness :
  replicated_volume (Strategy.mapping_of StrategyExample.spec) = 8 /\
  total_load (Strategy._receiver_loads AccountingExample.generated.2)
    = total_load (Strategy._receiver_loads StrategyExample.loads0)
      + replicated_volume (Strategy.mapping_of StrategyExample.spec).
Proof.
  split; [vm_compute; reflexivity|].
  apply (strategy_moves_the_volume_of_the_destination StrategyExample.loads0
           StrategyExample.spec AccountingExample.generated.1.1
           AccountingExample.generated.1.2 AccountingExample.generated.2).
  - reflexivity.
  - repeat constructor.
  - repeat constructor.
  - intros m0 Hm0. discriminate Hm0.
  - vm_compute. reflexivity.
Defined.
